(** * DownloadFramework: a shallow embedding of
    [packages/download-framework/lib/DownloadFramework.js]

    The development follows the source file top to bottom.

    - [JsString], [Regex], [Utf8], [Uri]: the JavaScript built-ins the
      module calls ([String.prototype.split/replace/endsWith], the three
      regular expression literals, the decoding of a body as text,
      [encodeURIComponent]).
    - [Path], [Fs]: Node's [path] module in its POSIX flavour and a tree
      model of the file system.
    - [World], [State], [M]: the collaborators of the module (os, version
      provider, cache list, fetch, URL parser) as oracles, and the monad in
      which the methods run: state passing with exceptions, where the
      effects performed before an exception persist, and with a third
      outcome for an exception that nothing catches and that ends the
      process.
    - the six methods of the class [DownloadFramework].

    Strings of the program are modelled by [string]: the UTF-8 bytes of the
    JavaScript string, a surrogate without its partner being held as the
    three bytes of its own code (ED, then A0 to BF, then 80 to BF).  Every
    character the code inspects (slash, tilde, letters, digits, space, CR,
    LF, the unreserved URI characters) is ASCII, and no byte of a
    multi-byte UTF-8 sequence is, so each test below reads the same on
    code points and on bytes.  The body of an HTTP response is bytes of any
    kind; [Utf8.toString] is the text read from them. *)

From Stdlib Require Import String Ascii List Bool Arith Lia DecimalString.
Import ListNotations.
Open Scope list_scope.
Open Scope string_scope.

Set Implicit Arguments.

(* ================================================================== *)
(** ** JavaScript strings *)
(* ================================================================== *)

Module JsString.

(** [s.startsWith(p)] *)
Definition startsWith (p s : string) : bool := String.prefix p s.

(** [s.endsWith(suf)] *)
Fixpoint endsWith (suf s : string) : bool :=
  String.eqb s suf ||
  match s with
  | EmptyString => false
  | String _ s' => endsWith suf s'
  end.

(** [s.slice(n)] for [0 <= n] *)
Fixpoint drop (n : nat) (s : string) : string :=
  match n, s with
  | O, _ => s
  | S n', String _ s' => drop n' s'
  | S _, EmptyString => EmptyString
  end.

(** [s.slice(0, n)] for [0 <= n] *)
Fixpoint take (n : nat) (s : string) : string :=
  match n, s with
  | S n', String c s' => String c (take n' s')
  | _, _ => EmptyString
  end.

(** [c.repeat(n)] for a one-character string *)
Fixpoint repeat (c : ascii) (n : nat) : string :=
  match n with
  | O => EmptyString
  | S n' => String c (repeat c n')
  end.

(** The worker of [split]: [skip] counts the characters of a separator
    still to be passed over, [cur] is the piece being read. *)
Fixpoint split_go (sep : string) (skip : nat) (cur : string) (s : string)
  : list string :=
  match s with
  | EmptyString => [cur]
  | String c s' =>
      match skip with
      | S k => split_go sep k cur s'
      | O =>
          if String.prefix sep s
          then cur :: split_go sep (String.length sep - 1) EmptyString s'
          else split_go sep O (cur ++ String c EmptyString) s'
      end
  end.

(** [s.split(sep)] for a string separator.  With the empty separator the
    result is the list of the characters of [s]. *)
Definition split (sep s : string) : list string :=
  match sep with
  | EmptyString => map (fun c => String c EmptyString) (list_ascii_of_string s)
  | _ => split_go sep O EmptyString s
  end.

(** [arr.join(sep)] *)
Definition join (sep : string) (l : list string) : string :=
  String.concat sep l.

(** [arr[0]] of a string array; [None] is [undefined]. *)
Definition first (l : list string) : option string := hd_error l.

(** [GetSubstitution] of ECMA-262 for a pattern without capture groups:
    in the replacement text [$$] stands for a dollar sign, [$&] for the
    matched text, [$`] for the text before the match and [$'] for the text
    after it; any other character, a dollar sign included, stands for
    itself. *)
Fixpoint getSubstitution (matched before after repl : string) : string :=
  match repl with
  | EmptyString => EmptyString
  | String c r =>
      if Ascii.eqb c "$" then
        match r with
        | String d r' =>
            if Ascii.eqb d "$" then
              String "$" (getSubstitution matched before after r')
            else if Ascii.eqb d "&" then
              matched ++ getSubstitution matched before after r'
            else if Ascii.eqb d "`" then
              before ++ getSubstitution matched before after r'
            else if Ascii.eqb d "'" then
              after ++ getSubstitution matched before after r'
            else String c (getSubstitution matched before after r)
        | EmptyString => String c EmptyString
        end
      else String c (getSubstitution matched before after r)
  end.

(** The first occurrence of [pat] in [s]: the text before it and the text
    after it. *)
Fixpoint indexOf (pat s : string) : option (string * string) :=
  if String.prefix pat s then Some (EmptyString, drop (String.length pat) s)
  else
    match s with
    | EmptyString => None
    | String c s' =>
        match indexOf pat s' with
        | Some (b, a) => Some (String c b, a)
        | None => None
        end
    end.

(** [s.replace(pat, repl)] for a string pattern: only the first occurrence
    is replaced. *)
Definition replace (pat repl s : string) : string :=
  match indexOf pat s with
  | Some (b, a) => b ++ getSubstitution pat b a repl ++ a
  | None => s
  end.

(** JavaScript truthiness of a string: [!s] is [negb (truthy s)]. *)
Definition truthy (s : string) : bool :=
  match s with EmptyString => false | _ => true end.

(** Truthiness of a value that is a string or [undefined]. *)
Definition truthy_opt (s : option string) : bool :=
  match s with Some s => truthy s | None => false end.

End JsString.

(* ================================================================== *)
(** ** Regular expressions *)
(* ================================================================== *)

Module Regex.

(** The fragment of the regular expression syntax the module uses.  The
    matcher is the backtracking matcher of ECMA-262: alternatives are
    tried left to right, quantifiers are greedy. *)
Inductive regex : Type :=
| Chr (c : ascii)                 (* a literal character *)
| Class (p : ascii -> bool)       (* a character class [[...]] *)
| Seq (r1 r2 : regex)             (* r1r2 *)
| Alt (r1 r2 : regex)             (* r1|r2 *)
| Opt (r : regex)                 (* r? *)
| PlusClass (p : ascii -> bool)   (* [...]+ *)
| Rep (n : nat) (r : regex).      (* r{n} *)

(** A literal string is the sequence of its characters. *)
Fixpoint Lit (c : ascii) (s : string) : regex :=
  match s with
  | EmptyString => Chr c
  | String d s' => Seq (Chr c) (Lit d s')
  end.

(** [[...]+]: one character of the class, then as many more as possible,
    giving them back one at a time while the continuation fails. *)
Fixpoint plus_class (p : ascii -> bool) (k : string -> option string)
         (s : string) : option string :=
  match s with
  | EmptyString => None
  | String a s' =>
      if p a then
        match plus_class p k s' with
        | Some x => Some x
        | None => k s'
        end
      else None
  end.

(** [m r k s]: match [r] at the start of [s], then run the continuation
    [k] on what is left; the result is the text left after the whole
    match. *)
Fixpoint m (r : regex) (k : string -> option string) (s : string)
  : option string :=
  match r with
  | Chr c =>
      match s with
      | String a s' => if Ascii.eqb a c then k s' else None
      | EmptyString => None
      end
  | Class p =>
      match s with
      | String a s' => if p a then k s' else None
      | EmptyString => None
      end
  | Seq r1 r2 => m r1 (m r2 k) s
  | Alt r1 r2 =>
      match m r1 k s with
      | Some x => Some x
      | None => m r2 k s
      end
  | Opt r1 =>
      match m r1 k s with
      | Some x => Some x
      | None => k s
      end
  | PlusClass p => plus_class p k s
  | Rep n r1 => Nat.iter n (m r1) k s
  end.

(** A match anchored at the start of [s]: the text after the match. *)
Definition match_here (r : regex) (s : string) : option string :=
  m r (fun rest => Some rest) s.

(** [r.exec(s)] without the [g] flag: the leftmost position at which [r]
    matches, as (text before, matched text, text after). *)
Fixpoint exec (r : regex) (s : string) : option (string * string * string) :=
  match match_here r s with
  | Some rest =>
      Some (EmptyString,
            JsString.take (String.length s - String.length rest) s,
            rest)
  | None =>
      match s with
      | EmptyString => None
      | String c s' =>
          match exec r s' with
          | Some (b, mt, a) => Some (String c b, mt, a)
          | None => None
          end
      end
  end.

(** [r.test(s)] *)
Definition test (r : regex) (s : string) : bool :=
  match exec r s with Some _ => true | None => false end.

(** [s.replace(r, repl)] without the [g] flag. *)
Definition replace (r : regex) (repl s : string) : string :=
  match exec r s with
  | Some (b, mt, a) => b ++ JsString.getSubstitution mt b a repl ++ a
  | None => s
  end.

(** The worker of [s.split(r)], as [JsString.split_go]: at each position
    the expression is matched anchored there; an empty match splits
    unless the piece being read is still empty. *)
Fixpoint split_go (r : regex) (skip : nat) (cur : string) (s : string)
  : list string :=
  match s with
  | EmptyString => [cur]
  | String c s' =>
      match skip with
      | S k => split_go r k cur s'
      | O =>
          match match_here r s with
          | Some rest =>
              match String.length s - String.length rest with
              | O =>
                  match cur with
                  | EmptyString => split_go r O (String c EmptyString) s'
                  | _ => cur :: split_go r O (String c EmptyString) s'
                  end
              | S k => cur :: split_go r k EmptyString s'
              end
          | None => split_go r O (cur ++ String c EmptyString) s'
          end
      end
  end.

(** [s.split(r)] *)
Definition split (r : regex) (s : string) : list string :=
  split_go r O EmptyString s.

End Regex.

(* ================================================================== *)
(** ** The literals of the module *)
(* ================================================================== *)

(** [const FRAMEWORK_FILES_TXT = 'files.txt'] *)
Definition FRAMEWORK_FILES_TXT : string := "files.txt".

(** The replacement text of the hotpatch. *)
Definition AMP_ISO_COUNTRY_HOTPATCH : string := "{{AMP_ISO_COUNTRY_HOTPATCH}}".

Module Chars.

Definition CR : ascii := ascii_of_nat 13.
Definition LF : ascii := ascii_of_nat 10.

(** [lo <= c <= hi] on character codes *)
Definition range (lo hi c : ascii) : bool :=
  Nat.leb (nat_of_ascii lo) (nat_of_ascii c) &&
  Nat.leb (nat_of_ascii c) (nat_of_ascii hi).

Definition lower (c : ascii) : bool := range "a" "z" c.
Definition upper (c : ascii) : bool := range "A" "Z" c.
Definition digit (c : ascii) : bool := range "0" "9" c.
Definition letter (c : ascii) : bool := lower c || upper c.

Definition toUpperCase (c : ascii) : ascii :=
  if lower c then ascii_of_nat (nat_of_ascii c - 32) else c.
Definition toLowerCase (c : ascii) : ascii :=
  if upper c then ascii_of_nat (nat_of_ascii c + 32) else c.

(** A character class under the [i] flag: [c] is accepted when some
    member of the class has the same canonical (upper case) form.  On
    ASCII that member is [c] itself or [c] in the other case; a byte
    above 127 is canonical. *)
Definition ignoreCase (p : ascii -> bool) (c : ascii) : bool :=
  p c || p (toLowerCase c) || p (toUpperCase c).

(** [[\d.]] *)
Definition digit_or_dot (c : ascii) : bool := digit c || Ascii.eqb c ".".

End Chars.

Module Literals.
Import Regex.

(** [/\r?\n/] (line 153) *)
Definition re_newline : regex := Seq (Opt (Chr Chars.CR)) (Chr Chars.LF).

(** [/amp-geo-([\d.]+|latest)\.m?js/] (line 320) *)
Definition re_amp_geo : regex :=
  Seq (Lit "a" "mp-geo-")
      (Seq (Alt (PlusClass Chars.digit_or_dot) (Lit "l" "atest"))
           (Seq (Chr ".") (Seq (Opt (Chr "m")) (Lit "j" "s")))).

(** [/[a-z]{2} {26}/i] (line 321) *)
Definition re_country : regex :=
  Seq (Rep 2 (Class (Chars.ignoreCase (Chars.range "a" "z"))))
      (Rep 26 (Chr " ")).

End Literals.

(* ================================================================== *)
(** ** UTF-8 *)
(* ================================================================== *)

Module Utf8.

(** U+FFFD, the replacement character, in UTF-8. *)
Definition REPLACEMENT : string :=
  String (ascii_of_nat 239) (String (ascii_of_nat 191)
         (String (ascii_of_nat 189) EmptyString)).

(** What the first byte of a sequence announces: a character of its own,
    a sequence of [need] more bytes the first of which lies between [lo]
    and [hi], or nothing (a continuation byte, C0, C1, or F5 and above). *)
Inductive lead : Type :=
| Single
| Sequence (need lo hi : nat)
| Invalid.

Definition lead_of (n : nat) : lead :=
  if Nat.leb n 127 then Single
  else if Nat.leb 194 n && Nat.leb n 223 then Sequence 1 128 191
  else if Nat.eqb n 224 then Sequence 2 160 191
  else if Nat.eqb n 237 then Sequence 2 128 159
  else if Nat.leb 225 n && Nat.leb n 239 then Sequence 2 128 191
  else if Nat.eqb n 240 then Sequence 3 144 191
  else if Nat.leb 241 n && Nat.leb n 243 then Sequence 3 128 191
  else if Nat.eqb n 244 then Sequence 3 128 143
  else Invalid.

(** The decoder of the Encoding Standard, followed by the encoder: the
    text read from the bytes [s], as UTF-8.  [need] bytes of the sequence
    being read are still to come, the next one between [lo] and [hi];
    [pending] holds the bytes of the sequence read so far.  A byte that
    cannot continue the sequence ends it: the sequence becomes U+FFFD and
    the byte is read again as a first byte.  A sequence cut by the end of
    the input becomes U+FFFD. *)
Fixpoint decode (need lo hi : nat) (pending : string) (s : string) : string :=
  match s with
  | EmptyString =>
      match need with O => EmptyString | S _ => REPLACEMENT end
  | String c s' =>
      let n := nat_of_ascii c in
      let first :=
        match lead_of n with
        | Single => String c (decode 0 128 191 EmptyString s')
        | Sequence need' lo' hi' => decode need' lo' hi' (String c EmptyString) s'
        | Invalid => REPLACEMENT ++ decode 0 128 191 EmptyString s'
        end in
      match need with
      | O => first
      | S k =>
          if Nat.leb lo n && Nat.leb n hi then
            match k with
            | O => pending ++ String c (decode 0 128 191 EmptyString s')
            | S _ => decode k 128 191 (pending ++ String c EmptyString) s'
            end
          else REPLACEMENT ++ first
      end
  end.

(** [buffer.toString()], and so [res.text()] of [cross-fetch], the fetch
    the module uses by default: the bytes decoded as UTF-8, every
    ill-formed sequence read as U+FFFD.  A byte order mark is a character
    like any other: it is kept. *)
Definition toString (s : string) : string := decode 0 128 191 EmptyString s.

(** The bytes are well-formed UTF-8: as a JavaScript string, they hold no
    surrogate without its partner. *)
Definition wellFormed (s : string) : bool := String.eqb (toString s) s.

End Utf8.

(* ================================================================== *)
(** ** [encodeURIComponent] *)
(* ================================================================== *)

Module Uri.

(** The characters [encodeURIComponent] leaves alone: letters, digits and
    [- _ . ! ~ * ' ( )]. *)
Definition unreserved (c : ascii) : bool :=
  Chars.letter c || Chars.digit c ||
  existsb (Ascii.eqb c) (list_ascii_of_string "-_.!~*'()").

Definition hexDigit (n : nat) : ascii :=
  nth n (list_ascii_of_string "0123456789ABCDEF") "0"%char.

(** One byte as [%XX]. *)
Definition escape (c : ascii) : string :=
  let n := nat_of_ascii c in
  String "%" (String (hexDigit (n / 16)) (String (hexDigit (n mod 16)) EmptyString)).

(** The bytes of the UTF-8 form of the string, escaped unless unreserved. *)
Fixpoint encode (s : string) : string :=
  match s with
  | EmptyString => EmptyString
  | String c s' =>
      (if unreserved c then String c EmptyString else escape c)
        ++ encode s'
  end.

(** [encodeURIComponent(s)]; [None] is the [URIError] raised for a string
    that holds a surrogate without its partner (the only strings of the
    program whose bytes are not well-formed UTF-8). *)
Definition encodeURIComponent (s : string) : option string :=
  if Utf8.wellFormed s then Some (encode s) else None.

(** The message of that [URIError]. *)
Definition URIError : string := "URI malformed".

End Uri.

(* ================================================================== *)
(** ** Node's [path] module (POSIX) *)
(* ================================================================== *)

Module Path.

(** [path.sep] *)
Definition sep : string := "/".

(** One step of [normalizeString], on the stack [acc] of the segments kept
    so far, last first: an empty segment and [.] are dropped; [..] cancels
    the segment before it, and with nothing to cancel it is kept when
    [allowAboveRoot] and dropped otherwise; any other segment is kept. *)
Definition step (allowAboveRoot : bool) (acc : list string) (seg : string)
  : list string :=
  if String.eqb seg "" || String.eqb seg "." then acc
  else if String.eqb seg ".." then
    match acc with
    | top :: acc' => if String.eqb top ".." then seg :: acc else acc'
    | [] => if allowAboveRoot then [seg] else []
    end
  else seg :: acc.

(** [normalizeString]: the segments kept, first first. *)
Definition normalizeSegments (allowAboveRoot : bool) (acc segs : list string)
  : list string :=
  rev (fold_left (step allowAboveRoot) segs acc).

Definition isAbsolute (p : string) : bool := JsString.startsWith "/" p.

(** [path.normalize(p)] *)
Definition normalize (p : string) : string :=
  match p with
  | EmptyString => "."
  | _ =>
      let abs := isAbsolute p in
      let trailing := JsString.endsWith "/" p in
      let body :=
        JsString.join "/"
          (normalizeSegments (negb abs) [] (JsString.split "/" p)) in
      match body with
      | EmptyString => if abs then "/" else if trailing then "./" else "."
      | _ => (if abs then "/" else "") ++ body ++ (if trailing then "/" else "")
      end
  end.

(** [path.join(a, b)]: the non-empty arguments joined by a slash, then
    normalized; [.] when both are empty. *)
Definition join (a b : string) : string :=
  match a, b with
  | EmptyString, EmptyString => "."
  | EmptyString, _ => normalize b
  | _, EmptyString => normalize a
  | _, _ => normalize (a ++ "/" ++ b)
  end.

(** The loop of [path.dirname]: from the last character down to the one
    at index 1, the index of the first slash met after a character that
    is not a slash. *)
Fixpoint dirname_scan (rs : list ascii) (i : nat) (matchedSlash : bool)
  : option nat :=
  match rs with
  | [] => None
  | c :: rs' =>
      if Ascii.eqb c "/" then
        if matchedSlash then dirname_scan rs' (i - 1) true else Some i
      else dirname_scan rs' (i - 1) false
  end.

(** [path.dirname(p)] *)
Definition dirname (p : string) : string :=
  match p with
  | EmptyString => "."
  | String c0 rest =>
      let hasRoot := Ascii.eqb c0 "/" in
      match dirname_scan (rev (list_ascii_of_string rest))
                         (String.length p - 1) true with
      | None => if hasRoot then "/" else "."
      | Some e =>
          if hasRoot && Nat.eqb e 1 then "//" else JsString.take e p
      end
  end.

(** The name of a directory entry: not empty, not [.] nor [..], without a
    slash. *)
Definition is_name (n : string) : bool :=
  negb (String.eqb n "") && negb (String.eqb n ".") &&
  negb (String.eqb n "..") &&
  negb (existsb (Ascii.eqb "/") (list_ascii_of_string n)).

(** The location a path names: its segments from the root, a relative
    path being read from the working directory [cwd]. *)
Definition resolve (cwd : list string) (p : string) : list string :=
  normalizeSegments false []
    ((if isAbsolute p then [] else cwd) ++ JsString.split "/" p)%list.

End Path.

(* ================================================================== *)
(** ** The file system *)
(* ================================================================== *)

Module Fs.

(** A file system is the tree under the root directory. *)
#[warnings="-register-all"]
Inductive node : Type :=
| File (content : string)
| Dir (entries : list (string * node)).

(** What [lstat] and a read tell about a location. *)
Inductive kind : Type :=
| IsFile (content : string)
| IsDir.

Definition kind_of (n : node) : kind :=
  match n with File c => IsFile c | Dir _ => IsDir end.

Definition isDirectory (n : node) : bool :=
  match n with Dir _ => true | File _ => false end.

(** Directory entries: the first entry of a name is the one in force. *)
Fixpoint find (x : string) (es : list (string * node)) : option node :=
  match es with
  | [] => None
  | (y, n) :: es' => if String.eqb x y then Some n else find x es'
  end.

Fixpoint set (x : string) (v : node) (es : list (string * node))
  : list (string * node) :=
  match es with
  | [] => [(x, v)]
  | (y, n) :: es' =>
      if String.eqb x y then (y, v) :: es' else (y, n) :: set x v es'
  end.

Definition remove (x : string) (es : list (string * node))
  : list (string * node) :=
  filter (fun e => negb (String.eqb x (fst e))) es.

(** The node at a location. *)
Fixpoint lookup (p : list string) (n : node) : option node :=
  match p with
  | [] => Some n
  | x :: p' =>
      match n with
      | Dir es =>
          match find x es with
          | Some c => lookup p' c
          | None => None
          end
      | File _ => None
      end
  end.

Definition stat (p : list string) (n : node) : option kind :=
  option_map kind_of (lookup p n).

Definition exists_ (p : list string) (n : node) : bool :=
  match lookup p n with Some _ => true | None => false end.

(** The listing of a directory: names with their [isDirectory()]. *)
Definition readdir (p : list string) (n : node) : option (list (string * bool)) :=
  match lookup p n with
  | Some (Dir es) => Some (map (fun e => (fst e, isDirectory (snd e))) es)
  | _ => None
  end.

(** [mkdir -p]: the directories missing along [p] are created; a file on
    the way is an error. *)
Fixpoint mkdir_p (p : list string) (n : node) : option node :=
  match n with
  | File _ => None
  | Dir es =>
      match p with
      | [] => Some n
      | x :: p' =>
          let child := match find x es with Some c => c | None => Dir [] end in
          match mkdir_p p' child with
          | Some c' => Some (Dir (set x c' es))
          | None => None
          end
      end
  end.

(** [update f p n] rewrites, with [f], the entries of the directory that
    holds the last segment of [p]; that directory has to exist. *)
Fixpoint update
         (f : string -> list (string * node) -> option (list (string * node)))
         (p : list string) (n : node) : option node :=
  match p with
  | [] => None
  | x :: p' =>
      match n with
      | File _ => None
      | Dir es =>
          match p' with
          | [] => option_map Dir (f x es)
          | _ :: _ =>
              match find x es with
              | Some c =>
                  match update f p' c with
                  | Some c' => Some (Dir (set x c' es))
                  | None => None
                  end
              | None => None
              end
          end
      end
  end.

(** What a path leads to: an entry, nothing because a name is missing on
    the way, or nothing because a file is on the way. *)
Inductive found : Type :=
| Found (n : node)
| Missing
| Blocked.

Fixpoint probe (p : list string) (n : node) : found :=
  match p with
  | [] => Found n
  | x :: p' =>
      match n with
      | Dir es =>
          match find x es with
          | Some c => probe p' c
          | None => Missing
          end
      | File _ => Blocked
      end
  end.

(** [unlink]: the entry has to be there and not be a directory. *)
Definition unlink : list string -> node -> option node :=
  update (fun x es =>
            match find x es with
            | Some (File _) => Some (remove x es)
            | _ => None
            end).

(** [rmdir] with [recursive: true]: the entry has to be a directory; it
    goes with all it holds. *)
Definition rmdir_r : list string -> node -> option node :=
  update (fun x es =>
            match find x es with
            | Some (Dir _) => Some (remove x es)
            | _ => None
            end).

(** Opening a write stream creates the file or truncates it; the entry
    must not be a directory. *)
Definition write (content : string) : list string -> node -> option node :=
  update (fun x es =>
            match find x es with
            | Some (Dir _) => None
            | _ => Some (set x (File content) es)
            end).

End Fs.

(* ================================================================== *)
(** ** The world of the module and the monad of its methods *)
(* ================================================================== *)

(** A line feed, for the two-line error messages. *)
Definition NL : string := String Chars.LF EmptyString.

(** The outcome of a call: a value, an exception with its [message], or
    the end of the process.  For an [async] method, [Ok] is a promise that
    resolves and [Throw] one that rejects.  [Dies] is an exception that no
    handler can catch, raised inside a callback of the event loop or by an
    [error] event without a listener: the process ends there, and the
    promise of the method is never settled. *)
Inductive result (A : Type) : Type :=
| Ok (a : A)
| Throw (msg : string)
| Dies.
Arguments Ok {A} a.
Arguments Throw {A} msg.
Arguments Dies {A}.

(** The body of an HTTP response: it arrives whole, or the stream fails
    after [partial]. *)
Inductive body : Type :=
| BodyOk (content : string)
| BodyErr (partial : string) (msg : string).

(** What [fetch] settles to: a response with its [ok] flag, or a rejection. *)
Inductive fetched : Type :=
| Response (ok : bool) (b : body)
| NetworkError (msg : string).

(** The calls the module makes to its collaborators, in the order made. *)
Inductive event : Type :=
| LogInfo (msg : string)
| LogError (msg : string)
| CurrentVersion (ampUrlPrefix : option string)
| CachesGet (name : string)
| Fetch (url : string)
| Mkdir (p : string)
| Access (p : string)
| Readdir (p : string)
| Rmdir (p : string)
| Unlink (p : string)
| OpenWrite (p : string)
| Write (p : string) (content : string).

Record World : Type := {
  (** [os.type()] *)
  os_type : string;
  (** [os.homedir()] *)
  os_homedir : string;
  (** the working directory of the process, as segments from the root *)
  cwd : list string;
  (** [runtimeVersionProvider.currentVersion({ampUrlPrefix})] *)
  currentVersion : option string -> result (option string);
  (** [Caches.get(name)]: the [cacheDomain] of the cache, when there is one *)
  Caches_get : string -> result (option string);
  (** whether [new URL(s)] succeeds *)
  URL_parses : string -> bool;
  (** [this.fetch_]: what the [n]-th call made in the run, with this URL,
      settles to *)
  fetch_ : nat -> string -> fetched;
  (** the error, if any, with which the platform fails a file-system call
      whatever the tree holds (permissions, I/O errors) *)
  fault : event -> option string;
  (** the times at which the removals of [clearDirectory_] settle, by
      position in the listing *)
  settle_clear : nat -> nat;
  (** the times at which the downloads go on and settle, by position in
      the listing *)
  settle_fetch : nat -> nat
}.

Record State : Type := {
  fs : Fs.node;
  trace : list event;
  fetches : nat
}.

Definition M (A : Type) : Type := State -> result A * State.

Definition ret {A} (a : A) : M A := fun st => (Ok a, st).

Definition throw {A} (msg : string) : M A := fun st => (Throw msg, st).

Definition die {A} : M A := fun st => (Dies, st).

Definition bind {A B} (c : M A) (k : A -> M B) : M B :=
  fun st =>
    match c st with
    | (Ok a, st') => k a st'
    | (Throw msg, st') => (Throw msg, st')
    | (Dies, st') => (Dies, st')
    end.

Notation "x <- c ;; k" := (bind c (fun x => k))
  (at level 61, c at next level, right associativity).
Notation "c ;; k" := (bind c (fun _ => k))
  (at level 61, right associativity).

(** [try { c } catch (ex) { h ex.message }] *)
Definition try_catch {A} (c : M A) (h : string -> M A) : M A :=
  fun st =>
    match c st with
    | (Ok a, st') => (Ok a, st')
    | (Throw msg, st') => h msg st'
    | (Dies, st') => (Dies, st')
    end.

Definition emit (e : event) : M unit :=
  fun st => (Ok tt, {| fs := fs st; trace := (trace st ++ [e])%list;
                       fetches := fetches st |}).

Definition log_info (msg : string) : M unit := emit (LogInfo msg).
Definition log_error (msg : string) : M unit := emit (LogError msg).

(** Each call of a list is made, in the order of the list, and comes to
    its outcome; a call that throws does not stop the others, the end of
    the process does. *)
Fixpoint run_all {A B} (f : A -> M B) (l : list A)
  : State -> list (result B) * State :=
  fun st =>
    match l with
    | [] => ([], st)
    | a :: l' =>
        match f a st with
        | (Dies, st1) => ([Dies], st1)
        | (r, st1) =>
            let (rs, st2) := run_all f l' st1 in
            (r :: rs, st2)
        end
    end.

(** The rejection that settles first among [outs]: its settling time and
    its message.  [i] is the position of the head of [outs]; of two
    rejections that settle at the same time the one dispatched first wins. *)
Fixpoint first_rejection {A} (time : nat -> nat) (i : nat)
         (outs : list (result A)) : option (nat * string) :=
  match outs with
  | [] => None
  | o :: rest =>
      let later := first_rejection time (S i) rest in
      match o with
      | Throw msg =>
          match later with
          | Some (t, msg') =>
              if Nat.ltb t (time i) then Some (t, msg') else Some (time i, msg)
          | None => Some (time i, msg)
          end
      | _ => later
      end
  end.

(** One of the outcomes is the end of the process. *)
Definition died {A} (outs : list (result A)) : bool :=
  existsb (fun o => match o with Dies => true | _ => false end) outs.

(** [Promise.all]: resolved when every promise is, rejected with the first
    rejection otherwise. *)
Definition Promise_all {A} (time : nat -> nat) (outs : list (result A))
  : result unit :=
  if died outs then Dies
  else
    match first_rejection time 0 outs with
    | Some (_, msg) => Throw msg
    | None => Ok tt
    end.

(** *** File-system and network calls *)

Definition locate (w : World) (p : string) : list string :=
  Path.resolve (cwd w) p.

(** A call that may change the tree: it is recorded, then fails with the
    platform's fault if there is one, and otherwise runs on the tree. *)
Definition fs_call {A} (w : World) (e : event)
           (run : Fs.node -> result (A * Fs.node)) : M A :=
  fun st =>
    let st1 := {| fs := fs st; trace := (trace st ++ [e])%list;
                  fetches := fetches st |} in
    match fault w e with
    | Some msg => (Throw msg, st1)
    | None =>
        match run (fs st1) with
        | Ok (a, t) =>
            (Ok a, {| fs := t; trace := trace st1; fetches := fetches st1 |})
        | Throw msg => (Throw msg, st1)
        | Dies => (Dies, st1)
        end
    end.

Definition or_fail (msg : string) (o : option Fs.node) : result (unit * Fs.node) :=
  match o with Some t => Ok (tt, t) | None => Throw msg end.

(** The [message] of the error of a system call on a path. *)
Definition ENOENT (syscall p : string) : string :=
  "ENOENT: no such file or directory, " ++ syscall ++ " '" ++ p ++ "'".
Definition ENOTDIR (syscall p : string) : string :=
  "ENOTDIR: not a directory, " ++ syscall ++ " '" ++ p ++ "'".
Definition EISDIR (syscall p : string) : string :=
  "EISDIR: illegal operation on a directory, " ++ syscall ++ " '" ++ p ++ "'".
Definition EEXIST (syscall p : string) : string :=
  "EEXIST: file already exists, " ++ syscall ++ " '" ++ p ++ "'".

(** The error of a call that needs a directory at [p], and of one that
    needs something other than a directory there. *)
Definition no_directory (w : World) (syscall p : string) (t : Fs.node)
  : string :=
  match Fs.probe (locate w p) t with
  | Fs.Missing => ENOENT syscall p
  | _ => ENOTDIR syscall p
  end.

Definition no_file (w : World) (syscall p : string) (t : Fs.node) : string :=
  match Fs.probe (locate w p) t with
  | Fs.Missing => ENOENT syscall p
  | Fs.Blocked => ENOTDIR syscall p
  | Fs.Found _ => EISDIR syscall p
  end.

(** [fs.existsSync(p)] *)
Definition existsSync (w : World) (p : string) : M bool :=
  fun st => (Ok (Fs.exists_ (locate w p) (fs st)), st).

(** [fs.lstatSync(p).isDirectory()] *)
Definition lstatSync_isDirectory (w : World) (p : string) : M bool :=
  fun st =>
    match Fs.lookup (locate w p) (fs st) with
    | Some n => (Ok (Fs.isDirectory n), st)
    | None => (Throw (no_directory w "lstat" p (fs st)), st)
    end.

(** [fs.mkdirSync(p, {recursive: true})]: a file at [p] is in the way
    ([EEXIST]), or a file before it ([ENOTDIR]). *)
Definition mkdirSync (w : World) (p : string) : M unit :=
  fs_call w (Mkdir p)
    (fun t => or_fail (if Fs.exists_ (locate w p) t then EEXIST "mkdir" p
                       else ENOTDIR "mkdir" p)
                      (Fs.mkdir_p (locate w p) t)).

(** [fs.accessSync(p, R_OK | W_OK)] *)
Definition accessSync (w : World) (p : string) : M unit :=
  fs_call w (Access p)
    (fun t => if Fs.exists_ (locate w p) t then Ok (tt, t)
              else Throw (no_directory w "access" p t)).

(** [readdir(p, {withFileTypes: true})] *)
Definition readdir (w : World) (p : string) : M (list (string * bool)) :=
  fs_call w (Readdir p)
    (fun t => match Fs.readdir (locate w p) t with
              | Some l => Ok (l, t)
              | None => Throw (no_directory w "scandir" p t)
              end).

(** [rmdir(p, {recursive: true})] *)
Definition rmdir (w : World) (p : string) : M unit :=
  fs_call w (Rmdir p)
    (fun t => or_fail (no_directory w "rmdir" p t)
                      (Fs.rmdir_r (locate w p) t)).

(** [unlink(p)] *)
Definition unlink (w : World) (p : string) : M unit :=
  fs_call w (Unlink p)
    (fun t => or_fail (no_file w "unlink" p t)
                      (Fs.unlink (locate w p) t)).

(** [fs.createWriteStream(p)]: the file is created or truncated. *)
Definition createWriteStream (w : World) (p : string) : M unit :=
  fs_call w (OpenWrite p)
    (fun t => or_fail (no_file w "open" p t)
                      (Fs.write "" (locate w p) t)).

(** The data that reaches the open stream [p] before it is closed. *)
Definition writeStream (w : World) (p content : string) : M unit :=
  fs_call w (Write p content)
    (fun t => or_fail "EIO: i/o error, write"
                      (Fs.write content (locate w p) t)).

(** [await this.fetch_(url)] *)
Definition fetch (w : World) (url : string) : M (bool * body) :=
  fun st =>
    let st1 := {| fs := fs st; trace := (trace st ++ [Fetch url])%list;
                  fetches := S (fetches st) |} in
    match fetch_ w (fetches st) url with
    | Response ok b => (Ok (ok, b), st1)
    | NetworkError msg => (Throw msg, st1)
    end.

(** What awaiting a fetch that settled to [x] gives. *)
Definition answer (x : fetched) : result (bool * body) :=
  match x with
  | Response ok b => Ok (ok, b)
  | NetworkError msg => Throw msg
  end.

(** [await res.text()]: the body read to its end and decoded. *)
Definition text (b : body) : M string :=
  match b with
  | BodyOk content => ret (Utf8.toString content)
  | BodyErr _ msg => throw msg
  end.

(* ================================================================== *)
(** ** The class [DownloadFramework] *)
(* ================================================================== *)

(** The [clear] option can hold any value; the code only asks whether it is
    exactly [false]. *)
Inductive jsval : Type :=
| JUndefined
| JNull
| JBool (b : bool)
| JNumber (n : nat)
| JString (s : string).

(** [v !== false] *)
Definition not_false (v : jsval) : bool :=
  match v with JBool false => false | _ => true end.

(** The [options] argument; [None] is [undefined]. *)
Module Options.
Record t : Type := {
  clear : jsval;
  ampUrlPrefix : option string;
  dest : option string;
  rtv : option string
}.
End Options.

(** The object [getFramework] resolves to (lines 73-80). *)
Module Ret.
Record t : Type := {
  status : bool;
  error : string;
  count : nat;
  url : string;
  dest : option string;
  rtv : string
}.

(** The object as lines 73-80 build it. *)
Definition initial (dest : option string) : t :=
  {| status := false; error := ""; count := 0; url := ""; dest := dest;
     rtv := "" |}.

Definition set_status (r : t) (v : bool) : t :=
  {| status := v; error := error r; count := count r; url := url r;
     dest := dest r; rtv := rtv r |}.
Definition set_error (r : t) (v : string) : t :=
  {| status := status r; error := v; count := count r; url := url r;
     dest := dest r; rtv := rtv r |}.
Definition set_count (r : t) (v : nat) : t :=
  {| status := status r; error := error r; count := v; url := url r;
     dest := dest r; rtv := rtv r |}.
Definition set_url (r : t) (v : string) : t :=
  {| status := status r; error := error r; count := count r; url := v;
     dest := dest r; rtv := rtv r |}.
Definition set_dest (r : t) (v : option string) : t :=
  {| status := status r; error := error r; count := count r; url := url r;
     dest := v; rtv := rtv r |}.
Definition set_rtv (r : t) (v : string) : t :=
  {| status := status r; error := error r; count := count r; url := url r;
     dest := dest r; rtv := v |}.
End Ret.

(** An entry of the files listing (lines 156-159). *)
Record file : Type := {
  filepath : string;
  url : string
}.

(** The message of the [TypeError] raised by [dest.split] when [dest] is
    [undefined]. *)
Definition TypeError_split : string :=
  "Cannot read properties of undefined (reading 'split')".

(** [n.toString()] *)
Definition string_of_nat (n : nat) : string :=
  DecimalString.NilZero.string_of_uint (Nat.to_uint n).

(** *** [assertDirectoryWritable_] (lines 213-223) *)
Definition assertDirectoryWritable_ (w : World) (dirpath : option string)
  : M unit :=
  match dirpath with
  | None => throw "Directory not specified"
  | Some d =>
      if negb (JsString.truthy d) then throw "Directory not specified"
      else
        there <- existsSync w d ;;
        create <- (if negb there then ret true
                   else isdir <- lstatSync_isDirectory w d ;; ret (negb isdir)) ;;
        (if create : bool
         then log_info ("Creating destination directory: " ++ d) ;;
              mkdirSync w d
         else ret tt) ;;
        accessSync w d
  end.

(** *** [clearDirectory_] (lines 230-241) *)
Definition removeItem (w : World) (dirpath : string) (item : string * bool)
  : M unit :=
  if snd item
  then rmdir w (Path.join dirpath (fst item))
  else unlink w (Path.join dirpath (fst item)).

Definition clearDirectory_ (w : World) (dirpath : string) : M unit :=
  log_info "Clearing destination directory" ;;
  contents <- readdir w dirpath ;;
  fun st =>
    let (unlinkPromises, st') := run_all (removeItem w dirpath) contents st in
    (Promise_all (settle_clear w) unlinkPromises, st').

(** *** [isAbsoluteUrl_] (lines 249-256) *)
Definition isAbsoluteUrl_ (w : World) (u : string) : bool := URL_parses w u.

(** *** [createSubdirectories_] (lines 267-286) *)

(** [arr.indexOf(x)]; [None] is [-1]. *)
Fixpoint indexOf (x : string) (l : list string) : option nat :=
  match l with
  | [] => None
  | y :: l' =>
      if String.eqb y x then Some 0
      else match indexOf x l' with Some i => Some (S i) | None => None end
  end.

(** [arr.filter((x, idx) => keep x idx)], [i] being the index of the head. *)
Fixpoint filteri {A} (keep : A -> nat -> bool) (i : nat) (l : list A) : list A :=
  match l with
  | [] => []
  | x :: l' =>
      if keep x i then x :: filteri keep (S i) l' else filteri keep (S i) l'
  end.

(** [arr.forEach(f)] *)
Fixpoint forEach {A} (f : A -> M unit) (l : list A) : M unit :=
  match l with
  | [] => ret tt
  | x :: l' => f x ;; forEach f l'
  end.

Definition uniqueDirs (files : list file) : list string :=
  let dirs := map (fun f => Path.dirname (filepath f)) files in
  filteri
    (fun dir idx =>
       negb (String.eqb dir ".") &&
       match indexOf dir dirs with Some i => Nat.eqb i idx | None => false end)
    0 dirs.

Definition createSubdirectories_ (w : World) (files : list file) (dest : string)
  : M unit :=
  forEach
    (fun dir =>
       let dir := JsString.join Path.sep (JsString.split "/" dir) in
       let fullpath := Path.join dest dir in
       there <- existsSync w fullpath ;;
       if negb there then mkdirSync w fullpath else ret tt)
    (uniqueDirs files).

(** *** [fetchAndSaveAsync_] (lines 297-332) *)

(** The text saved for [amp-geo] (line 321). *)
Definition undoHotpatch (t : string) : string :=
  Regex.replace Literals.re_country AMP_ISO_COUNTRY_HOTPATCH t.

(** Lines 303-332: what the method does once its fetch has settled with
    the response [res].

    The stream is opened at line 316 and its [error] listener is attached
    at line 329.  For a file other than [amp-geo] nothing is awaited in
    between: an error of the stream, at opening or at writing, and an
    error of the body reject the promise.  For [amp-geo] the body is
    awaited first, and the text is written with [wstream.close] as the
    callback of the write: an error of the stream is raised as an [error]
    event that has no listener yet, or is handed to [close] where a
    function is expected, and either ends the process. *)
Definition saveResponse (w : World) (f : file) (dest : string)
           (res : bool * body) : M unit :=
  let fullpath := Path.join dest (filepath f) in
  if negb (fst res) then throw ("Failed to fetch " ++ url f)
  else
    opened <- try_catch (createWriteStream w fullpath ;; ret None)
                        (fun msg => ret (Some msg)) ;;
    if Regex.test Literals.re_amp_geo (filepath f) then
      match opened with
      | Some _ => die
      | None =>
          t <- text (snd res) ;;
          try_catch (writeStream w fullpath (undoHotpatch t))
                    (fun _ => die)
      end
    else
      match opened with
      | Some msg => throw msg
      | None =>
          match snd res with
          | BodyOk content => writeStream w fullpath content
          | BodyErr partial msg =>
              writeStream w fullpath partial ;; throw msg
          end
      end.

(** One call of the method, from its fetch to the end. *)
Definition fetchAndSaveAsync_ (w : World) (f : file) (dest : string) : M unit :=
  res <- fetch w (url f) ;;
  saveResponse w f dest res.

(** *** [getFramework] (lines 68-203)

    The body is cut into the blocks the comments of the source announce.
    A block either makes [getFramework] return ([inl ret]) or hands the
    values computed so far to the next block ([inr]). *)

Definition Step (A : Type) : Type := M (Ret.t + A).

Definition andThen {A B} (c : Step A) (k : A -> Step B) : Step B :=
  x <- c ;;
  match x with
  | inl r => ret (inl r)
  | inr a => k a
  end.

(** [ret.error = msg; log.error(ret.error); return ret;] *)
Definition fail {A} (r : Ret.t) (msg : string) : Step A :=
  log_error msg ;; ret (inl (Ret.set_error r msg)).

(** Lines 82-89: the first segment [~] of [dest] becomes the home
    directory, except on Windows.  [dest.split] raises a [TypeError] when
    [dest] is [undefined]. *)
Definition expandTilde (w : World) (dest : option string)
  : result (option string) :=
  if negb (String.eqb (os_type w) "Windows_NT") then
    match dest with
    | None => Throw TypeError_split
    | Some d =>
        match JsString.first (JsString.split Path.sep d) with
        | Some "~" => Ok (Some (JsString.replace "~" (os_homedir w) d))
        | _ => Ok dest
        end
    end
  else Ok dest.

(** Lines 69-98: the response object is prepared and the destination
    directory is verified. *)
Definition validateDestination (w : World) (options : Options.t)
  : Step (Ret.t * string) :=
  let r0 := Ret.initial (Options.dest options) in
  match expandTilde w (Options.dest options) with
  | Throw msg => throw msg
  | Dies => die
  | Ok dest =>
      let r := Ret.set_dest r0 dest in
      try_catch
        (assertDirectoryWritable_ w dest ;;
         ret (inr (r, match dest with Some d => d | None => "" end)))
        (fun msg => fail r msg)
  end.

(** Lines 100-116: the runtime version. *)
Definition resolveVersion (w : World) (options : Options.t) (r : Ret.t)
  : Step (Ret.t * string) :=
  let ampUrlPrefix := Options.ampUrlPrefix options in
  let resolved (rtv : string) : Step (Ret.t * string) :=
    log_info ("AMP framework runtime version: " ++ rtv) ;;
    ret (inr (Ret.set_rtv r rtv, rtv)) in
  match Options.rtv options with
  | Some (String _ _ as rtv) =>
      match Uri.encodeURIComponent rtv with
      | None => throw Uri.URIError
      | Some encoded =>
          if negb (String.eqb rtv encoded)
          then fail r ("Invalid runtime version specified: " ++ rtv)
          else resolved rtv
      end
  | _ =>
      emit (CurrentVersion ampUrlPrefix) ;;
      match currentVersion w ampUrlPrefix with
      | Throw msg => throw msg
      | Dies => die
      | Ok (Some (String _ _ as rtv)) => resolved rtv
      | Ok _ => fail r "Could not determine runtime version to download"
      end
  end.

(** Lines 134-136 *)
Definition frameworkBaseUrl (ampUrlPrefix rtv : string) : string :=
  ampUrlPrefix ++ (if JsString.endsWith "/" ampUrlPrefix then "" else "/")
               ++ "rtv/" ++ rtv ++ "/".

(** Lines 118-140: the cache the framework is taken from. *)
Definition resolveOrigin (w : World) (options : Options.t) (r : Ret.t)
           (rtv : string) : Step (Ret.t * string) :=
  let resolved (ampUrlPrefix : string) : Step (Ret.t * string) :=
    let base := frameworkBaseUrl ampUrlPrefix rtv in
    log_info ("AMP framework base URL: " ++ base) ;;
    ret (inr (Ret.set_url r base, base)) in
  match Options.ampUrlPrefix options with
  | Some (String _ _ as ampUrlPrefix) =>
      if negb (isAbsoluteUrl_ w ampUrlPrefix)
      then fail r "ampUrlPrefix must be an absolute URL"
      else resolved ampUrlPrefix
  | _ =>
      emit (CachesGet "google") ;;
      match Caches_get w "google" with
      | Throw msg => throw msg
      | Dies => die
      | Ok None => fail r "Could not determine AMP cache domain"
      | Ok (Some cacheDomain) => resolved ("https://" ++ cacheDomain)
      end
  end.

(** Lines 152-160 *)
Definition parseFilesListing (base t : string) : list file :=
  map (fun filepath => {| filepath := filepath; url := base ++ filepath |})
      (filter JsString.truthy (Regex.split Literals.re_newline t)).

(** Line 163 *)
Definition listsItself (files : list file) : bool :=
  existsb (fun f => String.eqb (filepath f) FRAMEWORK_FILES_TXT) files.

(** Lines 142-173: the files listing. *)
Definition fetchFilesListing (w : World) (r : Ret.t) (base : string)
  : Step (Ret.t * list file) :=
  let filesTxtUrl := base ++ FRAMEWORK_FILES_TXT in
  andThen
    (try_catch
       (res <- fetch w filesTxtUrl ;;
        if negb (fst res)
        then fail r ("Unable to fetch AMP framework files listing: "
                       ++ filesTxtUrl)
        else
          t <- text (snd res) ;;
          let files := parseFilesListing base t in
          if negb (listsItself files)
          then throw ("Expected " ++ FRAMEWORK_FILES_TXT
                        ++ " in file listing, but it was not found.")
          else ret (inr files))
       (fun msg =>
          fail r ("Unable to read AMP framework files listing" ++ NL ++ msg)))
    (fun files =>
       log_info ("AMP framework contains "
                   ++ string_of_nat (List.length files) ++ " files") ;;
       ret (inr (Ret.set_count r (List.length files), files))).

(** Lines 175-181: the destination directory is cleared unless [clear] is
    [false], then the subdirectories are created. *)
Definition prepareDestination (w : World) (clear : jsval) (dest : string)
           (files : list file) : M unit :=
  (if not_false clear then clearDirectory_ w dest else ret tt) ;;
  createSubdirectories_ w files dest.

(** The positions in the order of the times [time] gives them; of two
    positions with the same time the lower comes first. *)
Fixpoint insert_by (time : nat -> nat) (i : nat) (l : list nat) : list nat :=
  match l with
  | [] => [i]
  | j :: l' =>
      if Nat.leb (time i) (time j) then i :: l else j :: insert_by time i l'
  end.

Definition settling_order (time : nat -> nat) (n : nat) : list nat :=
  fold_right (insert_by time) [] (seq 0 n).

(** A download whose fetch has settled goes on at line 303 with the
    response, or rejects with the rejection of the fetch. *)
Definition resume (w : World) (dest : string)
           (p : file * result (bool * body)) : M unit :=
  match snd p with
  | Ok res => saveResponse w (fst p) dest res
  | Throw msg => throw msg
  | Dies => die
  end.

(** The downloads go on as their fetches settle, in the order the world
    gives by [settle_fetch], up to the first one that rejects.  A download
    that goes on is shown from line 303 to its end in one piece: the
    opening of its file and the write that follows are not interleaved
    with the steps of the other downloads. *)
Definition settleDownloads (w : World) (dest : string) (files : list file)
           (responses : list (result (bool * body))) : M unit :=
  let pending := combine files responses in
  forEach
    (fun i => match nth_error pending i with
              | Some p => resume w dest p
              | None => ret tt
              end)
    (settling_order (settle_fetch w) (List.length files)).

(** Lines 183-202: every file is fetched and saved.

    Line 189 calls the method for every file of the listing, and each call
    runs up to the fetch it awaits: the fetches are made in the order of
    the listing, before any response is looked at.  The downloads then
    go on as their responses come in.  [Promise.all] settles when every
    download has resolved or when the first one rejects: the state that
    comes out is the one reached then, the downloads still under way
    having left no mark in it yet. *)
Definition downloadFiles (w : World) (r : Ret.t) (dest : string)
           (files : list file) : M Ret.t :=
  log_info "Downloading AMP framework..." ;;
  fun st =>
    let (responses, st1) := run_all (fun f => fetch w (url f)) files st in
    match settleDownloads w dest files responses st1 with
    | (Ok _, st') =>
        (log_info ("AMP framework download complete: " ++ dest) ;;
         ret (Ret.set_status r true)) st'
    | (Throw msg, st') =>
        let e := "Failed to download AMP framework" ++ NL ++ msg in
        (log_error e ;; ret (Ret.set_error r e)) st'
    | (Dies, st') => (Dies, st')
    end.

(** Lines 68-173: all that comes before the destination is touched. *)
Definition planDownload (w : World) (options : Options.t)
  : Step (Ret.t * string * list file) :=
  andThen (validateDestination w options) (fun '(r1, dest) =>
  andThen (resolveVersion w options r1) (fun '(r2, rtv) =>
  andThen (resolveOrigin w options r2 rtv) (fun '(r3, base) =>
  andThen (fetchFilesListing w r3 base) (fun '(r4, files) =>
  ret (inr (r4, dest, files)))))).

Definition getFramework (w : World) (options : Options.t) : M Ret.t :=
  p <- planDownload w options ;;
  match p with
  | inl r => ret r
  | inr (r, dest, files) =>
      prepareDestination w (Options.clear options) dest files ;;
      downloadFiles w r dest files
  end.


(* ================================================================== *)
(** ** The words of the specification *)
(* ================================================================== *)

(** A string without a slash. *)
Definition no_slash (s : string) : Prop :=
  ~ In "/"%char (list_ascii_of_string s).

(** A segment that names an entry: not empty, not [.] nor [..]. *)
Definition plain (s : string) : Prop := s <> "" /\ s <> "." /\ s <> "..".

(** A segment that [normalizeString] may keep: not empty, without a
    slash. *)
Definition segment (s : string) : Prop := s <> "" /\ no_slash s.

(** The stack [T] of a relative path normalized on its own, where the [..]
    with nothing to cancel pile up at the bottom, against the stack [F] of
    the same path read from [acc], where they take segments of [acc] off. *)
Definition cancels (acc T F : list string) : Prop :=
  exists P k,
    Forall plain P /\ T = (P ++ repeat ".." k)%list /\
    F = (P ++ skipn k acc)%list.

(** The same request without a version. *)
Definition omit_rtv (o : Options.t) : Options.t :=
  {| Options.clear := Options.clear o;
     Options.ampUrlPrefix := Options.ampUrlPrefix o;
     Options.dest := Options.dest o;
     Options.rtv := None |}.

(** An origin normalized to exactly one trailing slash: it ends with a
    slash and not with two. *)
Definition one_trailing_slash (origin : string) : bool :=
  JsString.endsWith "/" origin && negb (JsString.endsWith "//" origin).

(** A run of two characters accepted by [letter] followed by 26 spaces. *)
Definition country_run (letter : ascii -> bool) (run : string) : Prop :=
  exists a b,
    letter a = true /\ letter b = true /\
    run = String a (String b (JsString.repeat " " 26)).

(** The pieces of a text split on a line feed or on a carriage return
    followed by a line feed: a line feed ends the piece being read, and so
    does a carriage return that a line feed follows; [cur] is the piece
    being read. *)
Fixpoint spec_lines_from (cur s : string) : list string :=
  match s with
  | EmptyString => [cur]
  | String c s' =>
      if Ascii.eqb c Chars.LF then cur :: spec_lines_from "" s'
      else
        match s' with
        | String d s'' =>
            if Ascii.eqb c Chars.CR && Ascii.eqb d Chars.LF
            then cur :: spec_lines_from "" s''
            else spec_lines_from (cur ++ String c "") s'
        | EmptyString => spec_lines_from (cur ++ String c "") s'
        end
  end.

Definition spec_lines (s : string) : list string := spec_lines_from "" s.

(** The entries of a listing in the words of the spec: the lines that are
    not empty, in order, each line [L] with the URL [base ++ L]. *)
Definition spec_entries (base t : string) : list file :=
  map (fun L => {| filepath := L; url := base ++ L |})
      (filter (fun L => negb (String.eqb L "")) (spec_lines t)).

(* ================================================================== *)
(** ** Relations between states *)
(* ================================================================== *)

(** The state with one more event. *)
Definition logged (e : event) (st : State) : State :=
  {| fs := fs st; trace := (trace st ++ [e])%list; fetches := fetches st |}.

(** The trace after is the trace before followed by events that are all
    in [P]. *)
Definition extends_by (P : event -> Prop) (st st' : State) : Prop :=
  exists evs, trace st' = (trace st ++ evs)%list /\ Forall P evs.

(** The events of directory clearing and of file materialization. *)
Definition materializes (e : event) : bool :=
  match e with
  | Readdir _ | Rmdir _ | Unlink _ | OpenWrite _ | Write _ _ => true
  | _ => false
  end.

(** The number of fetches among some events. *)
Definition count_fetches (evs : list event) : nat :=
  List.length (filter (fun e => match e with Fetch _ => true | _ => false end) evs).

(** An event that is neither a clearing, nor a materialization, nor a
    fetch. *)
Definition quiet (e : event) : Prop :=
  materializes e = false /\ count_fetches [e] = 0.

(** The relation "the tree is the same". *)
Definition same_fs (st st' : State) : Prop := fs st' = fs st.

(** The relation "as many fetches were made". *)
Definition same_fetches (st st' : State) : Prop := fetches st' = fetches st.

(** The relation "no fewer fetches were made". *)
Definition more_fetches (st st' : State) : Prop := fetches st <= fetches st'.

(** A file at [q] is still a file, on trees and on states. *)
Definition file_stays (q : list string) (t t' : Fs.node) : Prop :=
  (exists c, Fs.stat q t = Some (Fs.IsFile c)) ->
  exists c', Fs.stat q t' = Some (Fs.IsFile c').

Definition file_stays_st (q : list string) (st st' : State) : Prop :=
  file_stays q (fs st) (fs st').

(** What is at [q] is still there, as it was, on trees and on states. *)
Definition kept (q : list string) (t t' : Fs.node) : Prop :=
  forall k, Fs.stat q t = Some k -> Fs.stat q t' = Some k.

Definition kept_st (q : list string) (st st' : State) : Prop :=
  kept q (fs st) (fs st').

(** Any event. *)
Definition any_event (e : event) : Prop := True.

(** Any change of the tree. *)
Definition any_change (t t' : Fs.node) : Prop := True.

(** The call [removeItem] makes for an item of a listing. *)
Definition removal (dirpath : string) (item : string * bool) : event :=
  if snd item
  then Rmdir (Path.join dirpath (fst item))
  else Unlink (Path.join dirpath (fst item)).

(** The path the code builds for an item of the listing of [dirpath] names
    the entry of that name in the directory. *)
Definition names_child (w : World) (dirpath : string) (item : string * bool)
  : Prop :=
  locate w (Path.join dirpath (fst item)) = (locate w dirpath ++ [fst item])%list.

(** The answers to the fetches of the files of a listing, made in the
    order of the listing and numbered from [n]. *)
Fixpoint answers (w : World) (n : nat) (files : list file)
  : list (result (bool * body)) :=
  match files with
  | [] => []
  | f :: files' => answer (fetch_ w n (url f)) :: answers w (S n) files'
  end.

(** A computation that never ends the process. *)
Definition survives {A} (c : M A) : Prop :=
  forall st st', c st <> (Dies, st').

(** [respects R c]: the state after a run of [c] is related by [R] to the
    state before. *)
Definition respects (R : State -> State -> Prop) {A} (c : M A) : Prop :=
  forall st res st', c st = (res, st') -> R st st'.

(* ================================================================== *)
(** ** A sample world *)
(* ================================================================== *)

(** A Linux host whose cache serves a framework of three files, one of
    them the geolocation helper, and a working directory that already
    holds a file and a directory under [out]. *)
Module Sample.

Definition lines (l : list string) : string :=
  String.concat "" (map (fun s => s ++ NL) l).

Definition manifest : string :=
  lines ["files.txt"; "v0.js"; "v0/amp-geo-0.1.js"].

Definition geo_body : string :=
  "var c='us" ++ JsString.repeat " " 26 ++ "';".

(** The files the cache serves under a base URL. *)
Definition serve (base : string) (bundle : list (string * string))
           (u : string) : fetched :=
  match List.find (fun e => String.eqb u (base ++ fst e)) bundle with
  | Some e => Response true (BodyOk (snd e))
  | None => Response false (BodyOk "Not Found")
  end.

Definition bundle : list (string * string) :=
  [("files.txt", manifest); ("v0.js", "/* v0 */");
   ("v0/amp-geo-0.1.js", geo_body)].

Definition no_fault (e : event) : option string := None.

(** A Linux host with the given answer of the version provider, the given
    server and the given faults. *)
Definition host (version : result (option string))
           (server : nat -> string -> fetched)
           (faults : event -> option string) : World :=
  {| os_type := "Linux";
     os_homedir := "/home/amp";
     cwd := ["work"];
     currentVersion := fun _ => version;
     Caches_get := fun _ => Ok (Some "cdn.ampproject.org");
     URL_parses := fun u => JsString.startsWith "https://" u;
     fetch_ := server;
     fault := faults;
     settle_clear := fun i => i;
     settle_fetch := fun i => i |}.

Definition world : World :=
  host (Ok (Some "012345678"))
       (fun _ => serve "https://example.com/rtv/15/" bundle) no_fault.

(** [/work/out] holds [old.txt] and the directory [stale] with a file. *)
Definition disk : Fs.node :=
  Fs.Dir [("work",
           Fs.Dir [("out",
                    Fs.Dir [("old.txt", Fs.File "old");
                            ("stale", Fs.Dir [("x.js", Fs.File "x")])])])].

Definition start : State := {| fs := disk; trace := []; fetches := 0 |}.

Definition options : Options.t :=
  {| Options.clear := JUndefined;
     Options.ampUrlPrefix := Some "https://example.com";
     Options.dest := Some "out";
     Options.rtv := Some "15" |}.

(** The same request with another version, another prefix or another
    destination. *)
Definition request (rtv ampUrlPrefix dest : option string) : Options.t :=
  {| Options.clear := JUndefined;
     Options.ampUrlPrefix := ampUrlPrefix;
     Options.dest := dest;
     Options.rtv := rtv |}.

(** A host whose version provider finds no version. *)
Definition world_without_version : World :=
  host (Ok None) (fun _ => serve "https://example.com/rtv/15/" bundle) no_fault.

(** A host whose cache serves a listing that does not name [files.txt]. *)
Definition world_without_self : World :=
  host (Ok (Some "012345678"))
       (fun _ => serve "https://example.com/rtv/15/"
                       [("files.txt", lines ["a.js"; "b.css"])])
       no_fault.

(** A host whose cache serves the sample under a prefix that ends with two
    slashes. *)
Definition world_two_slashes : World :=
  host (Ok (Some "012345678"))
       (fun _ => serve "https://example.com//rtv/15/" bundle) no_fault.

(** A host whose cache serves a geolocation helper patched with an upper
    case country code. *)
Definition world_upper_case : World :=
  host (Ok (Some "012345678"))
       (fun _ => serve "https://example.com/rtv/15/"
                       [("files.txt", lines ["files.txt"; "v0/amp-geo-0.1.js"]);
                        ("v0/amp-geo-0.1.js", "US" ++ JsString.repeat " " 26)])
       no_fault.

(** The string of the bytes [l]. *)
Definition bytes (l : list nat) : string :=
  string_of_list_ascii (map ascii_of_nat l).

(** A host whose cache serves a geolocation helper that is not UTF-8: the
    three bytes 61 FF 62. *)
Definition world_not_utf8 : World :=
  host (Ok (Some "012345678"))
       (fun _ => serve "https://example.com/rtv/15/"
                       [("files.txt", lines ["files.txt"; "v0/amp-geo-0.1.js"]);
                        ("v0/amp-geo-0.1.js", bytes [97; 255; 98])])
       no_fault.

(** A version that is one surrogate, U+D800, without its partner. *)
Definition lone_surrogate : string := bytes [237; 160; 128].

(** The entry of the geolocation helper in the sample. *)
Definition geo_file : file :=
  {| filepath := "v0/amp-geo-0.1.js";
     url := "https://example.com/rtv/15/v0/amp-geo-0.1.js" |}.

(** A state in which the directory of the helper is there. *)
Definition ready : State :=
  {| fs := Fs.Dir [("work", Fs.Dir [("out", Fs.Dir [("v0", Fs.Dir [])])])];
     trace := [];
     fetches := 0 |}.

(** A host whose cache lists [v0.js] and does not serve it. *)
Definition world_missing_file : World :=
  host (Ok (Some "012345678"))
       (fun _ => serve "https://example.com/rtv/15/"
                       [("files.txt", manifest);
                        ("v0/amp-geo-0.1.js", geo_body)])
       no_fault.

(** The destination of the sample once prepared, with a directory in the
    place of the geolocation helper, and with a directory in the place of
    [v0.js]. *)
Definition helper_is_a_directory : State :=
  {| fs := Fs.Dir [("work",
             Fs.Dir [("out",
               Fs.Dir [("v0", Fs.Dir [("amp-geo-0.1.js", Fs.Dir [])])])])];
     trace := [];
     fetches := 0 |}.

Definition script_is_a_directory : State :=
  {| fs := Fs.Dir [("work",
             Fs.Dir [("out",
               Fs.Dir [("v0.js", Fs.Dir []); ("v0", Fs.Dir [])])])];
     trace := [];
     fetches := 0 |}.

(** The request of the sample with [clear: false]. *)
Definition options_keep : Options.t :=
  {| Options.clear := JBool false;
     Options.ampUrlPrefix := Some "https://example.com";
     Options.dest := Some "out";
     Options.rtv := Some "15" |}.

(** A host on which [unlink] is not permitted. *)
Definition world_unlink_fails : World :=
  host (Ok (Some "012345678"))
       (fun _ => serve "https://example.com/rtv/15/" bundle)
       (fun e => match e with
                 | Unlink _ => Some "EPERM: operation not permitted, unlink"
                 | _ => None
                 end).

(** A host on which the subdirectory [out/v0] cannot be created. *)
Definition world_mkdir_fails : World :=
  host (Ok (Some "012345678"))
       (fun _ => serve "https://example.com/rtv/15/" bundle)
       (fun e => match e with
                 | Mkdir "out/v0" => Some "EACCES: permission denied, mkdir"
                 | _ => None
                 end).

(** The state of the sample once its destination is verified. *)
Definition verified : State := logged (Access "out") start.

(** The run of the sample, evaluated. *)
Definition run : result Ret.t * State :=
  Eval vm_compute in getFramework world options start.

Definition result : Ret.t :=
  match fst run with Ok r => r | _ => Ret.initial None end.

Definition final : State := snd run.

End Sample.


(* ================================================================== *)
(** ** Words of the further properties *)
(* ================================================================== *)

(** A string without a dollar sign: as a replacement text it stands for
    itself. *)
Definition no_dollar (s : string) : Prop :=
  ~ In "$"%char (list_ascii_of_string s).

(** The paths whose first segment is a tilde: the tilde alone, or a tilde
    and a slash followed by anything. *)
Definition tilde_first (d : string) : bool :=
  String.eqb d "~" || String.prefix "~/" d.

(** The URLs fetched among some events, in order. *)
Definition fetched_urls (evs : list event) : list string :=
  flat_map (fun e => match e with Fetch u => [u] | _ => [] end) evs.

(** An event that is not a fetch. *)
Definition not_a_fetch (e : event) : Prop := fetched_urls [e] = [].

(** Between two states, the URLs [us] were fetched, in this order, and
    nothing else was. *)
Definition requested (us : list string) (st st' : State) : Prop :=
  fetches st' = fetches st + List.length us /\
  exists evs, trace st' = (trace st ++ evs)%list /\ fetched_urls evs = us.

(** A line of a listing that names a file: not empty, without a line feed,
    and not ending with a carriage return. *)
Definition listing_name (n : string) : Prop :=
  n <> "" /\ ~ In Chars.LF (list_ascii_of_string n) /\
  JsString.endsWith (String Chars.CR "") n = false.

(** A carriage return and a line feed. *)
Definition CRLF : string := String Chars.CR NL.

(** The version in the name of a geolocation helper: [latest], or digits
    and dots, at least one. *)
Definition geo_version (v : string) : Prop :=
  v = "latest" \/
  (v <> "" /\ forallb Chars.digit_or_dot (list_ascii_of_string v) = true).

(** The name of a geolocation helper, as line 320 reads it. *)
Definition geo_name (n : string) : Prop :=
  exists v ext,
    geo_version v /\ (ext = ".js" \/ ext = ".mjs") /\
    n = "amp-geo-" ++ v ++ ext.

(** Further hosts and requests for the sample. *)
Module Sample2.

(** The sample host under Windows. *)
Definition windows : World :=
  {| os_type := "Windows_NT";
     os_homedir := os_homedir Sample.world;
     cwd := cwd Sample.world;
     currentVersion := currentVersion Sample.world;
     Caches_get := Caches_get Sample.world;
     URL_parses := URL_parses Sample.world;
     fetch_ := fetch_ Sample.world;
     fault := fault Sample.world;
     settle_clear := settle_clear Sample.world;
     settle_fetch := settle_fetch Sample.world |}.

(** The state of the sample once its version is resolved, and once its
    origin is. *)
Definition versioned : State :=
  logged (LogInfo "AMP framework runtime version: 15") Sample.verified.

Definition located : State :=
  logged (LogInfo "AMP framework base URL: https://example.com/rtv/15/")
         versioned.

(** The entries of the sample listing, and the two of them that are not
    in a subdirectory. *)
Definition files : list file :=
  parseFilesListing "https://example.com/rtv/15/" Sample.manifest.

Definition flat : list file :=
  [{| filepath := "files.txt"; url := "https://example.com/rtv/15/files.txt" |};
   {| filepath := "v0.js"; url := "https://example.com/rtv/15/v0.js" |}].

(** A host whose cache does not answer. *)
Definition world_offline : World :=
  Sample.host (Ok (Some "012345678"))
              (fun _ _ => NetworkError "getaddrinfo ENOTFOUND example.com")
              Sample.no_fault.

(** The run of the sample on the host that lists [v0.js] and does not
    serve it, evaluated. *)
Definition run_missing_file : result Ret.t * State :=
  Eval vm_compute in
    getFramework Sample.world_missing_file Sample.options Sample.start.

Definition result_missing_file : Ret.t :=
  match fst run_missing_file with Ok r => r | _ => Ret.initial None end.

Definition final_missing_file : State := snd run_missing_file.

(** The download of the geolocation helper of the sample, evaluated. *)
Definition run_geo : result unit * State :=
  Eval vm_compute in
    fetchAndSaveAsync_ Sample.world Sample.geo_file "out" Sample.ready.

(** The creation of the subdirectories of the sample, evaluated. *)
Definition run_subdirectories : result unit * State :=
  Eval vm_compute in
    createSubdirectories_ Sample.world files "out" Sample.start.

(** The clearing of the destination of the sample, evaluated, on the
    sample host and on the host where [unlink] is not permitted. *)
Definition run_clear : result unit * State :=
  Eval vm_compute in clearDirectory_ Sample.world "out" Sample.start.

Definition run_clear_fails : result unit * State :=
  Eval vm_compute in
    clearDirectory_ Sample.world_unlink_fails "out" Sample.start.

(** The run of the sample on the host whose listing does not name
    [files.txt], evaluated. *)
Definition run_without_self : result Ret.t * State :=
  Eval vm_compute in
    getFramework Sample.world_without_self Sample.options Sample.start.

Definition result_without_self : Ret.t :=
  match fst run_without_self with Ok r => r | _ => Ret.initial None end.

End Sample2.


(** A location at which a file can be written: an entry of a directory
    that is there, and not a directory itself. *)
Definition writable (p : list string) (t : Fs.node) : Prop :=
  exists parent name,
    p = (parent ++ [name])%list /\
    Fs.stat parent t = Some Fs.IsDir /\
    Fs.stat p t <> Some Fs.IsDir.

(** What is saved of the body of a file (lines 320-325): the bytes as
    they are, and for the geolocation helper the text read from them,
    patched. *)
Definition saved (f : file) (content : string) : string :=
  if Regex.test Literals.re_amp_geo (filepath f)
  then undoHotpatch (Utf8.toString content) else content.

(** The file at [q] holds what the download of an entry of the listing
    saved there: the entry at some position [j], whose path leads to [q],
    and the body that the fetch number [j] answered. *)
Definition holds_an_entry (w : World) (dest : string) (files : list file)
           (n : nat) (q : list string) (st : State) : Prop :=
  exists j g c,
    nth_error files j = Some g /\
    locate w (Path.join dest (filepath g)) = q /\
    fetch_ w (n + j) (url g) = Response true (BodyOk c) /\
    Fs.stat q (fs st) = Some (Fs.IsFile (saved g c)).

(** The segments of the path of a file of the listing, and those of its
    directory. *)
Definition segments (f : file) : list string :=
  JsString.split "/" (filepath f).

Definition directories (f : file) : list string := removelast (segments f).

(** A file whose path is made of names. *)
Definition well_named (f : file) : Prop :=
  Forall (fun s => Path.is_name s = true) (segments f).

(** No file of the listing is on the way to the directory of another. *)
Definition no_clash (files : list file) : Prop :=
  forall f g rest,
    In f files -> In g files -> directories g <> (segments f ++ rest)%list.

(** The plan of the sample and the preparation of its destination,
    evaluated. *)
Module Sample3.

Definition plan : result (Ret.t + Ret.t * string * list file) * State :=
  Eval vm_compute in planDownload Sample.world Sample.options Sample.start.

Definition planned : State := snd plan.

Definition planned_result : Ret.t :=
  match fst plan with
  | Ok (inr (r, _, _)) => r
  | _ => Ret.initial None
  end.

Definition prepared : State :=
  Eval vm_compute in
    snd (prepareDestination Sample.world JUndefined "out" Sample2.files
                            planned).

(** What [out] holds on the disk of the sample. *)
Definition out_entries : list (string * Fs.node) :=
  [("old.txt", Fs.File "old");
   ("stale", Fs.Dir [("x.js", Fs.File "x")])].

End Sample3.

(* ================================================================== *)
(** ** Facts about strings *)
(* ================================================================== *)

Section StringFacts.

Lemma append_assoc (a b c : string) : (a ++ b) ++ c = a ++ (b ++ c).
Proof. induction a as [|x a IH]; simpl; [reflexivity | now rewrite IH]. Qed.

Lemma append_nil_r (a : string) : a ++ "" = a.
Proof. induction a as [|x a IH]; simpl; [reflexivity | now rewrite IH]. Qed.

Lemma append_length (a b : string) :
  String.length (a ++ b) = String.length a + String.length b.
Proof. induction a as [|x a IH]; simpl; [reflexivity | now rewrite IH]. Qed.

Lemma append_cancel_l (a b c : string) : a ++ b = a ++ c -> b = c.
Proof.
  induction a as [|x a IH]; simpl; intros H; [assumption|].
  injection H as H. auto.
Qed.

Lemma length_zero (a : string) : String.length a = 0 -> a = "".
Proof. destruct a; simpl; [reflexivity | discriminate]. Qed.

(** Two splittings of one string with right parts of the same length are
    the same splitting. *)
Lemma append_cancel_r (a b c d : string) :
  a ++ c = b ++ d -> String.length c = String.length d -> a = b /\ c = d.
Proof.
  revert b. induction a as [|x a IH]; intros [|y b] H L; simpl in *.
  - now split.
  - exfalso. subst c. simpl in L. rewrite append_length in L. lia.
  - exfalso. subst d. simpl in L. rewrite append_length in L. lia.
  - injection H as -> H. destruct (IH _ H L) as [-> ->]. now split.
Qed.

Lemma take_append (a b : string) : JsString.take (String.length a) (a ++ b) = a.
Proof. induction a as [|x a IH]; simpl; [now destruct b | now rewrite IH]. Qed.

Lemma drop_append (a b : string) : JsString.drop (String.length a) (a ++ b) = b.
Proof. induction a as [|x a IH]; simpl; auto. Qed.

Lemma prefix_iff (p s : string) :
  String.prefix p s = true <-> exists r, s = p ++ r.
Proof.
  revert s. induction p as [|x p IH]; intros s.
  - destruct s; simpl; split; eauto.
  - destruct s as [|y s]; simpl.
    + split; [discriminate | intros [r H]; discriminate].
    + destruct (ascii_dec x y) as [->|N].
      * rewrite IH. split; intros [r H]; exists r; [now subst | now injection H].
      * split; [discriminate | intros [r H]; congruence].
Qed.

Lemma endsWith_iff (suf s : string) :
  JsString.endsWith suf s = true <-> exists p, s = p ++ suf.
Proof.
  induction s as [|c s IH]; cbn [JsString.endsWith].
  - rewrite orb_false_r, String.eqb_eq. split.
    + intros <-. now exists "".
    + intros [[|? ?] H]; simpl in H; [now subst | discriminate].
  - rewrite orb_true_iff, String.eqb_eq, IH. split.
    + intros [<- | [p ->]]; [now exists "" | now exists (String c p)].
    + intros [[|d p] H]; simpl in H; [now left | right].
      injection H as -> ->. now exists p.
Qed.

End StringFacts.

(* ================================================================== *)
(** ** Reasoning about runs *)
(* ================================================================== *)

(** A relation [R] between the state before and the state after, that is
    reflexive and transitive and that every step of a computation keeps,
    holds of the whole computation.  The steps are: recording an event that
    is [allowed], replacing the tree by one that [changes_ok] admits, and
    counting a fetch. *)
Section Respects.

Variable R : State -> State -> Prop.
Variable allowed : event -> Prop.
Variable changes_ok : Fs.node -> Fs.node -> Prop.

Hypothesis R_refl : forall st, R st st.
Hypothesis R_trans : forall a b c, R a b -> R b c -> R a c.
Hypothesis R_logged : forall e st, allowed e -> R st (logged e st).
Hypothesis R_fs : forall st t,
  changes_ok (fs st) t ->
  R st {| fs := t; trace := trace st; fetches := fetches st |}.

Local Abbreviation respects := (respects R).

Lemma respects_ret {A} (a : A) : respects (ret a).
Proof. intros st res st' H. injection H as _ <-. apply R_refl. Qed.

Lemma respects_throw {A} (msg : string) : respects (@throw A msg).
Proof. intros st res st' H. injection H as _ <-. apply R_refl. Qed.

Lemma respects_die {A} : respects (@die A).
Proof. intros st res st' H. injection H as _ <-. apply R_refl. Qed.

Lemma respects_bind {A B} (c : M A) (k : A -> M B) :
  respects c -> (forall a, respects (k a)) -> respects (bind c k).
Proof.
  intros Hc Hk st res st'. unfold bind.
  destruct (c st) as [[a|msg|] st1] eqn:E; intros H.
  - eapply R_trans; [eapply Hc, E | eapply Hk, H].
  - injection H as _ <-. eapply Hc, E.
  - injection H as _ <-. eapply Hc, E.
Qed.

Lemma respects_try_catch {A} (c : M A) (h : string -> M A) :
  respects c -> (forall msg, respects (h msg)) -> respects (try_catch c h).
Proof.
  intros Hc Hh st res st'. unfold try_catch.
  destruct (c st) as [[a|msg|] st1] eqn:E; intros H.
  - injection H as _ <-. eapply Hc, E.
  - eapply R_trans; [eapply Hc, E | eapply Hh, H].
  - injection H as _ <-. eapply Hc, E.
Qed.

Lemma respects_andThen {A B} (c : Step A) (k : A -> Step B) :
  respects c -> (forall a, respects (k a)) -> respects (andThen c k).
Proof.
  intros Hc Hk. apply respects_bind; [assumption|].
  intros [r|a]; [apply respects_ret | apply Hk].
Qed.

Lemma respects_forEach {A} (f : A -> M unit) (l : list A) :
  (forall a, In a l -> respects (f a)) -> respects (forEach f l).
Proof.
  induction l as [|a l IH]; intros Hf; simpl.
  - apply respects_ret.
  - apply respects_bind; [apply Hf; now left|].
    intros _. apply IH. intros b Hb. apply Hf. now right.
Qed.

Lemma respects_run_all {A B} (f : A -> M B) (l : list A) st outs st' :
  (forall a, In a l -> respects (f a)) ->
  run_all f l st = (outs, st') -> R st st'.
Proof.
  revert st outs st'. induction l as [|a l IH]; intros st outs st' Hf; simpl.
  - intros H. injection H as _ <-. apply R_refl.
  - destruct (f a st) as [r st1] eqn:E1.
    assert (H1 : R st st1) by (eapply (Hf a); [now left | exact E1]).
    destruct (run_all f l st1) as [rs st2] eqn:E2.
    assert (H2 : R st1 st2).
    { eapply IH; [|exact E2]. intros b Hb. apply Hf. now right. }
    destruct r; intros H; injection H as _ <-;
      [eapply R_trans; eassumption.. | exact H1].
Qed.

Lemma respects_emit (e : event) : allowed e -> respects (emit e).
Proof. intros He st res st' H. injection H as _ <-. now apply R_logged. Qed.

Lemma respects_fail {A} (r : Ret.t) (msg : string) :
  allowed (LogError msg) -> respects (@fail A r msg).
Proof.
  intros He.
  apply respects_bind; [now apply respects_emit | intros; apply respects_ret].
Qed.

Lemma respects_fs_call {A} (w : World) (e : event)
      (run : Fs.node -> result (A * Fs.node)) :
  allowed e ->
  (forall t a t', run t = Ok (a, t') -> changes_ok t t') ->
  respects (fs_call w e run).
Proof.
  intros He Hrun st res st'. unfold fs_call.
  fold (logged e st).
  destruct (fault w e).
  - intros H. injection H as _ <-. now apply R_logged.
  - destruct (run (fs (logged e st))) as [[a t]|msg|] eqn:E; intros H;
      injection H as _ <-.
    + apply R_trans with (logged e st); [apply R_logged, He|].
      apply (R_fs (logged e st)). eapply Hrun, E.
    + now apply R_logged.
    + now apply R_logged.
Qed.

Lemma respects_existsSync w p : respects (existsSync w p).
Proof. intros st res st' H. injection H as _ <-. apply R_refl. Qed.

Lemma respects_lstatSync w p : respects (lstatSync_isDirectory w p).
Proof.
  intros st res st'. unfold lstatSync_isDirectory.
  destruct (Fs.lookup _ _); intros H; injection H as _ <-; apply R_refl.
Qed.

Lemma respects_text b : respects (text b).
Proof. destruct b; [apply respects_ret | apply respects_throw]. Qed.

(** A tree left as it is is a change every [changes_ok] of interest admits;
    the calls that only read need it. *)
Hypothesis changes_ok_refl : forall t, changes_ok t t.

Lemma respects_accessSync w p : allowed (Access p) -> respects (accessSync w p).
Proof.
  intros He. apply respects_fs_call; [exact He|].
  intros t a t'. destruct (Fs.exists_ _ t); [|discriminate].
  intros H. injection H as _ <-. apply changes_ok_refl.
Qed.

Lemma respects_readdir w p : allowed (Readdir p) -> respects (readdir w p).
Proof.
  intros He. apply respects_fs_call; [exact He|].
  intros t a t'. destruct (Fs.readdir _ t); [|discriminate].
  intros H. injection H as _ <-. apply changes_ok_refl.
Qed.

Lemma or_fail_ok msg o t' : or_fail msg o = Ok (tt, t') -> o = Some t'.
Proof. destruct o; [intros H; now injection H as -> | discriminate]. Qed.

Lemma respects_mkdirSync w p :
  allowed (Mkdir p) ->
  (forall t t', Fs.mkdir_p (locate w p) t = Some t' -> changes_ok t t') ->
  respects (mkdirSync w p).
Proof.
  intros He Hc. apply respects_fs_call; [exact He|].
  intros t [] t' H. apply Hc. eapply or_fail_ok, H.
Qed.

(** Lines 213-223 *)
Lemma respects_assertDirectoryWritable w dest :
  (forall m, allowed (LogInfo m)) ->
  (forall p, allowed (Mkdir p)) -> (forall p, allowed (Access p)) ->
  (forall p t t', Fs.mkdir_p (locate w p) t = Some t' -> changes_ok t t') ->
  respects (assertDirectoryWritable_ w dest).
Proof.
  intros Hl Hm Ha Hc. unfold assertDirectoryWritable_.
  destruct dest as [d|]; [|apply respects_throw].
  destruct (negb (JsString.truthy d)); [apply respects_throw|].
  apply respects_bind; [apply respects_existsSync|]. intros there.
  apply respects_bind.
  { destruct (negb there); [apply respects_ret|].
    apply respects_bind; [apply respects_lstatSync | intros; apply respects_ret]. }
  intros create. apply respects_bind; [|intros; now apply respects_accessSync].
  destruct create; [|apply respects_ret].
  apply respects_bind; [now apply respects_emit|].
  intros _. apply respects_mkdirSync; [apply Hm | apply Hc].
Qed.

(** Lines 69-98 *)
Lemma respects_validateDestination w o :
  (forall m, allowed (LogInfo m)) -> (forall m, allowed (LogError m)) ->
  (forall p, allowed (Mkdir p)) -> (forall p, allowed (Access p)) ->
  (forall p t t', Fs.mkdir_p (locate w p) t = Some t' -> changes_ok t t') ->
  respects (validateDestination w o).
Proof.
  intros Hl He Hm Ha Hc. unfold validateDestination.
  destruct (expandTilde w (Options.dest o));
    [|apply respects_throw|apply respects_die].
  apply respects_try_catch.
  - apply respects_bind; [now apply respects_assertDirectoryWritable|].
    intros; apply respects_ret.
  - intros msg. now apply respects_fail.
Qed.

(** Lines 100-116 *)
Lemma respects_resolveVersion w o r :
  (forall m, allowed (LogInfo m)) -> (forall m, allowed (LogError m)) ->
  (forall p, allowed (CurrentVersion p)) ->
  respects (resolveVersion w o r).
Proof.
  intros Hl He Hv. unfold resolveVersion.
  assert (Hres : forall v,
    respects (log_info ("AMP framework runtime version: " ++ v) ;;
              ret (inr (Ret.set_rtv r v, v)) : Step (Ret.t * string))).
  { intros v. apply respects_bind; [now apply respects_emit|].
    intros; apply respects_ret. }
  destruct (Options.rtv o) as [[|c v]|].
  2:{ destruct (Uri.encodeURIComponent _); [|apply respects_throw].
      destruct (negb _); [now apply respects_fail | apply Hres]. }
  all: apply respects_bind; [now apply respects_emit|]; intros _;
    destruct (currentVersion w _) as [[[|c v]|]|msg|];
    try (now apply respects_fail);
    [apply Hres | apply respects_throw | apply respects_die].
Qed.

(** Lines 118-140 *)
Lemma respects_resolveOrigin w o r v :
  (forall m, allowed (LogInfo m)) -> (forall m, allowed (LogError m)) ->
  (forall n, allowed (CachesGet n)) ->
  respects (resolveOrigin w o r v).
Proof.
  intros Hl He Hg. unfold resolveOrigin.
  assert (Hres : forall p,
    respects (log_info ("AMP framework base URL: " ++ frameworkBaseUrl p v) ;;
              ret (inr (Ret.set_url r (frameworkBaseUrl p v),
                        frameworkBaseUrl p v)) : Step (Ret.t * string))).
  { intros p. apply respects_bind; [now apply respects_emit|].
    intros; apply respects_ret. }
  destruct (Options.ampUrlPrefix o) as [[|c p]|].
  2:{ destruct (negb _); [now apply respects_fail | apply Hres]. }
  all: apply respects_bind; [now apply respects_emit|]; intros _;
    destruct (Caches_get w _) as [[d|]|msg|];
    [apply Hres | now apply respects_fail | apply respects_throw
    | apply respects_die].
Qed.

(** The steps of the last blocks: removals, writes and fetches. *)
Hypothesis R_fetched : forall st,
  R st {| fs := fs st; trace := trace st; fetches := S (fetches st) |}.
Hypothesis allowed_all : forall e, allowed e.

Lemma respects_fetch w u : respects (fetch w u).
Proof.
  intros st res st'. unfold fetch.
  assert (H : R st {| fs := fs st; trace := (trace st ++ [Fetch u])%list;
                      fetches := S (fetches st) |}).
  { apply R_trans with (logged (Fetch u) st); [apply R_logged, allowed_all|].
    apply (R_fetched (logged (Fetch u) st)). }
  destruct (fetch_ w (fetches st) u); intros E; injection E as _ <-; exact H.
Qed.

Lemma respects_rmdir w p :
  (forall t t', Fs.rmdir_r (locate w p) t = Some t' -> changes_ok t t') ->
  respects (rmdir w p).
Proof.
  intros Hc. apply respects_fs_call; [apply allowed_all|].
  intros t [] t' H. apply Hc. eapply or_fail_ok, H.
Qed.

Lemma respects_unlink w p :
  (forall t t', Fs.unlink (locate w p) t = Some t' -> changes_ok t t') ->
  respects (unlink w p).
Proof.
  intros Hc. apply respects_fs_call; [apply allowed_all|].
  intros t [] t' H. apply Hc. eapply or_fail_ok, H.
Qed.

Lemma respects_createWriteStream w p :
  (forall c t t', Fs.write c (locate w p) t = Some t' -> changes_ok t t') ->
  respects (createWriteStream w p).
Proof.
  intros Hc. apply respects_fs_call; [apply allowed_all|].
  intros t [] t' H. eapply Hc. eapply or_fail_ok, H.
Qed.

Lemma respects_writeStream w p c :
  (forall c t t', Fs.write c (locate w p) t = Some t' -> changes_ok t t') ->
  respects (writeStream w p c).
Proof.
  intros Hc. apply respects_fs_call; [apply allowed_all|].
  intros t [] t' H. eapply Hc. eapply or_fail_ok, H.
Qed.

(** Lines 303-332 *)
Lemma respects_saveResponse w f dest res :
  (forall c t t',
     Fs.write c (locate w (Path.join dest (filepath f))) t = Some t' ->
     changes_ok t t') ->
  respects (saveResponse w f dest res).
Proof.
  intros Hc. unfold saveResponse.
  destruct (negb (fst res)); [apply respects_throw|].
  apply respects_bind.
  { apply respects_try_catch; [|intros; apply respects_ret].
    apply respects_bind; [now apply respects_createWriteStream|].
    intros; apply respects_ret. }
  intros opened. destruct (Regex.test _ _).
  - destruct opened; [apply respects_die|].
    apply respects_bind; [apply respects_text|]. intros t.
    apply respects_try_catch; [now apply respects_writeStream|].
    intros; apply respects_die.
  - destruct opened; [apply respects_throw|].
    destruct (snd res); [now apply respects_writeStream|].
    apply respects_bind; [now apply respects_writeStream|].
    intros; apply respects_throw.
Qed.

(** Lines 297-332 *)
Lemma respects_fetchAndSaveAsync w f dest :
  (forall c t t',
     Fs.write c (locate w (Path.join dest (filepath f))) t = Some t' ->
     changes_ok t t') ->
  respects (fetchAndSaveAsync_ w f dest).
Proof.
  intros Hc. unfold fetchAndSaveAsync_.
  apply respects_bind; [apply respects_fetch|]. intros res.
  now apply respects_saveResponse.
Qed.

Lemma respects_resume w dest p :
  (forall c t t',
     Fs.write c (locate w (Path.join dest (filepath (fst p)))) t = Some t' ->
     changes_ok t t') ->
  respects (resume w dest p).
Proof.
  intros Hc. unfold resume.
  destruct (snd p);
    [now apply respects_saveResponse | apply respects_throw | apply respects_die].
Qed.

(** Lines 230-241 *)
Lemma respects_clearDirectory w dirpath :
  (forall p t t', Fs.rmdir_r (locate w p) t = Some t' -> changes_ok t t') ->
  (forall p t t', Fs.unlink (locate w p) t = Some t' -> changes_ok t t') ->
  respects (clearDirectory_ w dirpath).
Proof.
  intros Hr Hu. unfold clearDirectory_.
  apply respects_bind; [apply respects_emit, allowed_all|]. intros _.
  apply respects_bind; [apply respects_readdir, allowed_all|]. intros contents.
  intros st res st'.
  destruct (run_all (removeItem w dirpath) contents st) as [outs st1] eqn:E.
  intros H. injection H as _ <-.
  eapply respects_run_all; [|exact E].
  intros item _. unfold removeItem.
  destruct (snd item); [apply respects_rmdir, Hr | apply respects_unlink, Hu].
Qed.

(** Lines 267-286 *)
Lemma respects_createSubdirectories w files dest :
  (forall p t t', Fs.mkdir_p (locate w p) t = Some t' -> changes_ok t t') ->
  respects (createSubdirectories_ w files dest).
Proof.
  intros Hc. unfold createSubdirectories_.
  apply respects_forEach. intros dir _.
  apply respects_bind; [apply respects_existsSync|]. intros there.
  destruct (negb there); [|apply respects_ret].
  apply respects_mkdirSync; [apply allowed_all | apply Hc].
Qed.


(** Lines 142-173 *)
Lemma respects_fetchFilesListing w r base :
  respects (fetchFilesListing w r base).
Proof.
  unfold fetchFilesListing. apply respects_andThen.
  - apply respects_try_catch.
    + apply respects_bind; [apply respects_fetch|]. intros res.
      destruct (negb (fst res)); [apply respects_fail, allowed_all|].
      apply respects_bind; [apply respects_text|]. intros t.
      destruct (negb _); [apply respects_throw | apply respects_ret].
    + intros msg. apply respects_fail, allowed_all.
  - intros files. apply respects_bind; [apply respects_emit, allowed_all|].
    intros; apply respects_ret.
Qed.

End Respects.

(* ================================================================== *)
(** ** What cannot end the process *)
(* ================================================================== *)

(** The calls to the file system and to the network raise exceptions the
    caller can catch, and reject promises; so do the blocks made of them. *)
Section Survives.

Lemma survives_ret {A} (a : A) : survives (ret a).
Proof. intros st st'. discriminate. Qed.

Lemma survives_throw {A} (msg : string) : survives (@throw A msg).
Proof. intros st st'. discriminate. Qed.

Lemma survives_bind {A B} (c : M A) (k : A -> M B) :
  survives c -> (forall a, survives (k a)) -> survives (bind c k).
Proof.
  intros Hc Hk st st'. unfold bind.
  destruct (c st) as [[a|msg|] st1] eqn:E;
    [apply Hk | discriminate | exfalso; exact (Hc _ _ E)].
Qed.

Lemma survives_try_catch {A} (c : M A) (h : string -> M A) :
  survives c -> (forall msg, survives (h msg)) -> survives (try_catch c h).
Proof.
  intros Hc Hh st st'. unfold try_catch.
  destruct (c st) as [[a|msg|] st1] eqn:E;
    [discriminate | apply Hh | exfalso; exact (Hc _ _ E)].
Qed.

Lemma survives_andThen {A B} (c : Step A) (k : A -> Step B) :
  survives c -> (forall a, survives (k a)) -> survives (andThen c k).
Proof.
  intros Hc Hk. apply survives_bind; [assumption|].
  intros [r|a]; [apply survives_ret | apply Hk].
Qed.

Lemma survives_forEach {A} (f : A -> M unit) (l : list A) :
  (forall a, survives (f a)) -> survives (forEach f l).
Proof.
  intros Hf. induction l as [|a l IH]; simpl.
  - apply survives_ret.
  - apply survives_bind; [apply Hf | intros _; exact IH].
Qed.

Lemma survives_emit (e : event) : survives (emit e).
Proof. intros st st'. discriminate. Qed.

Lemma survives_fail {A} (r : Ret.t) (msg : string) : survives (@fail A r msg).
Proof.
  apply survives_bind; [apply survives_emit | intros; apply survives_ret].
Qed.

Lemma survives_fs_call {A} (w : World) (e : event)
      (run : Fs.node -> result (A * Fs.node)) :
  (forall t, run t <> Dies) -> survives (fs_call w e run).
Proof.
  intros Hrun st st'. unfold fs_call.
  destruct (fault w e); [discriminate|].
  match goal with |- context [run ?t] =>
    destruct (run t) as [[a t']|msg|] eqn:E; [discriminate.. |] end.
  exfalso. exact (Hrun _ E).
Qed.

Lemma or_fail_survives msg o : or_fail msg o <> Dies.
Proof. destruct o; discriminate. Qed.

Lemma survives_existsSync w p : survives (existsSync w p).
Proof. intros st st'. discriminate. Qed.

Lemma survives_lstatSync w p : survives (lstatSync_isDirectory w p).
Proof.
  intros st st'. unfold lstatSync_isDirectory.
  destruct (Fs.lookup _ _); discriminate.
Qed.

Lemma survives_mkdirSync w p : survives (mkdirSync w p).
Proof. apply survives_fs_call. intros t. apply or_fail_survives. Qed.

Lemma survives_accessSync w p : survives (accessSync w p).
Proof.
  apply survives_fs_call. intros t. destruct (Fs.exists_ _ t); discriminate.
Qed.

Lemma survives_readdir w p : survives (readdir w p).
Proof.
  apply survives_fs_call. intros t. destruct (Fs.readdir _ t); discriminate.
Qed.

Lemma survives_rmdir w p : survives (rmdir w p).
Proof. apply survives_fs_call. intros t. apply or_fail_survives. Qed.

Lemma survives_unlink w p : survives (unlink w p).
Proof. apply survives_fs_call. intros t. apply or_fail_survives. Qed.

Lemma survives_createWriteStream w p : survives (createWriteStream w p).
Proof. apply survives_fs_call. intros t. apply or_fail_survives. Qed.

Lemma survives_writeStream w p c : survives (writeStream w p c).
Proof. apply survives_fs_call. intros t. apply or_fail_survives. Qed.

Lemma survives_fetch w u : survives (fetch w u).
Proof.
  intros st st'. unfold fetch. destruct (fetch_ w _ u); discriminate.
Qed.

Lemma survives_text b : survives (text b).
Proof. destruct b; [apply survives_ret | apply survives_throw]. Qed.

Lemma survives_removeItem w dirpath item : survives (removeItem w dirpath item).
Proof.
  unfold removeItem.
  destruct (snd item); [apply survives_rmdir | apply survives_unlink].
Qed.

Lemma survives_assertDirectoryWritable w dest :
  survives (assertDirectoryWritable_ w dest).
Proof.
  unfold assertDirectoryWritable_.
  destruct dest as [d|]; [|apply survives_throw].
  destruct (negb (JsString.truthy d)); [apply survives_throw|].
  apply survives_bind; [apply survives_existsSync|]. intros there.
  apply survives_bind.
  { destruct (negb there); [apply survives_ret|].
    apply survives_bind; [apply survives_lstatSync | intros; apply survives_ret]. }
  intros create. apply survives_bind; [|intros; apply survives_accessSync].
  destruct create; [|apply survives_ret].
  apply survives_bind; [apply survives_emit | intros; apply survives_mkdirSync].
Qed.

Lemma survives_createSubdirectories w files dest :
  survives (createSubdirectories_ w files dest).
Proof.
  unfold createSubdirectories_. apply survives_forEach. intros dir.
  apply survives_bind; [apply survives_existsSync|]. intros there.
  destruct (negb there); [apply survives_mkdirSync | apply survives_ret].
Qed.

Lemma survives_fetchFilesListing w r base :
  survives (fetchFilesListing w r base).
Proof.
  unfold fetchFilesListing. apply survives_andThen.
  - apply survives_try_catch.
    + apply survives_bind; [apply survives_fetch|]. intros res.
      destruct (negb (fst res)); [apply survives_fail|].
      apply survives_bind; [apply survives_text|]. intros t.
      destruct (negb _); [apply survives_throw | apply survives_ret].
    + intros msg. apply survives_fail.
  - intros files. apply survives_bind; [apply survives_emit|].
    intros; apply survives_ret.
Qed.

(** Calls that cannot end the process are all made and all come to an
    outcome. *)
Lemma run_all_cons {A B} (f : A -> M B) a l st :
  survives (f a) ->
  run_all f (a :: l) st =
  let (r, st1) := f a st in
  let (rs, st2) := run_all f l st1 in
  (r :: rs, st2).
Proof.
  intros Hf. simpl. destruct (f a st) as [[b|msg|] st1] eqn:E;
    [reflexivity.. | exfalso; exact (Hf _ _ E)].
Qed.

Lemma run_all_survives {A B} (f : A -> M B) l :
  (forall a, survives (f a)) ->
  forall st outs st', run_all f l st = (outs, st') -> died outs = false.
Proof.
  intros Hf. induction l as [|a l IH]; intros st outs st'.
  - intros H. now injection H as <- _.
  - rewrite run_all_cons by apply Hf.
    destruct (f a st) as [r st1] eqn:E1.
    destruct (run_all f l st1) as [rs st2] eqn:E2.
    intros H. injection H as <- _. cbn [died existsb].
    fold (died rs). rewrite (IH _ _ _ E2), orb_false_r.
    destruct r; [reflexivity.. | exfalso; exact (Hf _ _ _ E1)].
Qed.

Lemma survives_clearDirectory w dirpath : survives (clearDirectory_ w dirpath).
Proof.
  unfold clearDirectory_.
  apply survives_bind; [apply survives_emit|]. intros _.
  apply survives_bind; [apply survives_readdir|]. intros contents st st'.
  destruct (run_all (removeItem w dirpath) contents st) as [outs st1] eqn:E.
  assert (Hd : died outs = false).
  { eapply run_all_survives; [apply survives_removeItem | exact E]. }
  unfold Promise_all. rewrite Hd.
  destruct (first_rejection _ _ _) as [[? ?]|]; discriminate.
Qed.

Lemma survives_prepareDestination w clear dest files :
  survives (prepareDestination w clear dest files).
Proof.
  unfold prepareDestination. apply survives_bind.
  - destruct (not_false clear);
      [apply survives_clearDirectory | apply survives_ret].
  - intros _. apply survives_createSubdirectories.
Qed.

End Survives.

(* ================================================================== *)
(** ** The blocks of [getFramework] *)
(* ================================================================== *)

Section Blocks.

Variable w : World.

Lemma assertDirectoryWritable_ok dest st st' :
  assertDirectoryWritable_ w dest st = (Ok tt, st') ->
  exists d, dest = Some d /\ d <> "".
Proof.
  destruct dest as [d|]; [|discriminate].
  destruct d; [discriminate|]. intros _. eexists. split; [reflexivity|discriminate].
Qed.

(** Lines 69-98 raise only the [TypeError] of [dest.split]; a failure
    returns the initial object with the message, and a success hands on
    the initial object and the expanded path. *)
Lemma validateDestination_inv o st res st' :
  validateDestination w o st = (res, st') ->
  match res with
  | Dies => False
  | Throw msg => expandTilde w (Options.dest o) = Throw msg /\ st' = st
  | Ok (inl r) =>
      exists dest msg,
        expandTilde w (Options.dest o) = Ok dest /\
        r = Ret.set_error (Ret.initial dest) msg
  | Ok (inr (r, d)) =>
      expandTilde w (Options.dest o) = Ok (Some d) /\ d <> "" /\
      r = Ret.initial (Some d) /\
      assertDirectoryWritable_ w (Some d) st = (Ok tt, st')
  end.
Proof.
  unfold validateDestination.
  destruct (expandTilde w (Options.dest o)) as [dest|msg|] eqn:Ex.
  - unfold try_catch, bind.
    destruct (assertDirectoryWritable_ w dest st) as [[[]|msg|] st1] eqn:E.
    + intros H. injection H as <- <-.
      destruct (assertDirectoryWritable_ok _ _ E) as (d & -> & Hd).
      repeat split; assumption.
    + unfold fail, bind, log_error, emit, ret. intros H. injection H as <- <-.
      exists dest, msg. split; reflexivity.
    + exfalso. eapply survives_assertDirectoryWritable, E.
  - intros H. injection H as <- <-. split; reflexivity.
  - exfalso. revert Ex. unfold expandTilde.
    repeat match goal with
           | |- context [match ?x with _ => _ end] => destruct x
           end; discriminate.
Qed.

(** Lines 100-116 raise only what the version provider raises; a failure
    sets the message alone; a success sets [rtv], to the option when it
    is non-empty and percent-encoding leaves it as it is, to the answer
    of the provider when the option is empty or absent. *)
Lemma resolveVersion_inv o r st res st' :
  resolveVersion w o r st = (res, st') ->
  match res with
  | Dies =>
      JsString.truthy_opt (Options.rtv o) = false /\
      currentVersion w (Options.ampUrlPrefix o) = Dies
  | Throw msg =>
      (JsString.truthy_opt (Options.rtv o) = false /\
       currentVersion w (Options.ampUrlPrefix o) = Throw msg) \/
      (exists v, Options.rtv o = Some v /\ v <> "" /\
                 Uri.encodeURIComponent v = None /\ msg = Uri.URIError /\
                 st' = st)
  | Ok (inl r') => exists msg, r' = Ret.set_error r msg
  | Ok (inr (r', v)) =>
      r' = Ret.set_rtv r v /\ v <> "" /\
      ((Options.rtv o = Some v /\ Uri.encodeURIComponent v = Some v) \/
       (JsString.truthy_opt (Options.rtv o) = false /\
        currentVersion w (Options.ampUrlPrefix o) = Ok (Some v)))
  end.
Proof.
  unfold resolveVersion, fail, bind, log_info, log_error, emit, ret, throw, die.
  destruct (Options.rtv o) as [[|c v]|] eqn:Ertv; cbn [JsString.truthy_opt JsString.truthy].
  - destruct (currentVersion w (Options.ampUrlPrefix o)) as [[[|c v]|]|msg|];
      intros H; injection H as <- <-; eauto.
    repeat split; [discriminate | right; now split].
  - destruct (Uri.encodeURIComponent (String c v)) as [e|] eqn:Ee.
    + destruct (String.eqb_spec (String c v) e)
        as [E|E]; cbn [negb]; intros H; injection H as <- <-; eauto.
      repeat split; [discriminate | left; split; congruence].
    + intros H; injection H as <- <-. right. exists (String c v).
      repeat split; [discriminate | assumption].
  - destruct (currentVersion w (Options.ampUrlPrefix o)) as [[[|c v]|]|msg|];
      intros H; injection H as <- <-; eauto.
    repeat split; [discriminate | right; now split].
Qed.

(** Lines 118-140 raise only what the cache list raises; a failure sets
    the message alone; a success sets [url] to the base URL built from
    the option when it is non-empty and parses, from the domain of the
    Google cache when the option is empty or absent. *)
Lemma resolveOrigin_inv o r v st res st' :
  resolveOrigin w o r v st = (res, st') ->
  match res with
  | Dies =>
      JsString.truthy_opt (Options.ampUrlPrefix o) = false /\
      Caches_get w "google" = Dies
  | Throw msg =>
      JsString.truthy_opt (Options.ampUrlPrefix o) = false /\
      Caches_get w "google" = Throw msg
  | Ok (inl r') => exists msg, r' = Ret.set_error r msg
  | Ok (inr (r', base)) =>
      r' = Ret.set_url r base /\
      ((exists p, Options.ampUrlPrefix o = Some p /\ p <> "" /\
                  isAbsoluteUrl_ w p = true /\ base = frameworkBaseUrl p v) \/
       (exists domain, JsString.truthy_opt (Options.ampUrlPrefix o) = false /\
                  Caches_get w "google" = Ok (Some domain) /\
                  base = frameworkBaseUrl ("https://" ++ domain) v))
  end.
Proof.
  unfold resolveOrigin, fail, bind, log_info, log_error, emit, ret, throw, die.
  destruct (Options.ampUrlPrefix o) as [[|c p]|] eqn:Ep;
    cbn [JsString.truthy_opt JsString.truthy].
  - destruct (Caches_get w "google") as [[domain|]|msg|];
      intros H; injection H as <- <-; eauto.
    split; [reflexivity | right; exists domain; now repeat split].
  - destruct (isAbsoluteUrl_ w (String c p)) eqn:Eabs; cbn [negb];
      intros H; injection H as <- <-; eauto.
    split; [reflexivity | left; exists (String c p)].
    repeat split; [discriminate | assumption].
  - destruct (Caches_get w "google") as [[domain|]|msg|];
      intros H; injection H as <- <-; eauto.
    split; [reflexivity | right; exists domain; now repeat split].
Qed.

(** Lines 142-173 raise nothing; a failure sets the message alone; a
    success sets [count] to the length of the listing parsed from the
    body of the response, which lists [files.txt]. *)
Lemma fetchFilesListing_inv r base st res st' :
  fetchFilesListing w r base st = (res, st') ->
  match res with
  | Throw _ | Dies => False
  | Ok (inl r') => exists msg, r' = Ret.set_error r msg
  | Ok (inr (r', files)) =>
      r' = Ret.set_count r (List.length files) /\
      listsItself files = true /\
      exists t,
        fetch_ w (fetches st) (base ++ FRAMEWORK_FILES_TXT)
          = Response true (BodyOk t) /\
        files = parseFilesListing base (Utf8.toString t)
  end.
Proof.
  unfold fetchFilesListing, andThen, try_catch, fetch, text, fail, bind,
    log_info, log_error, emit, ret, throw.
  destruct (fetch_ w (fetches st) (base ++ FRAMEWORK_FILES_TXT))
    as [[|] [t|partial msg]|msg]; cbn [fst snd negb];
    try (intros H; injection H as <- <-; eauto; fail).
  destruct (listsItself (parseFilesListing base (Utf8.toString t))) eqn:E;
    cbn [negb]; intros H; injection H as <- <-; eauto.
Qed.

(** [Promise.all] resolves exactly when no promise rejects. *)
Lemma first_rejection_none {A} time i (outs : list (result A)) :
  first_rejection time i outs = None <->
  (forall msg, ~ In (Throw msg) outs).
Proof.
  revert i. induction outs as [|o outs IH]; intros i; simpl.
  - split; [intros _ msg [] | reflexivity].
  - destruct o as [a|m|].
    + rewrite IH. split; intros H msg.
      * intros [E|E]; [discriminate | exact (H msg E)].
      * intros E. apply (H msg). now right.
    + split.
      * destruct (first_rejection time (S i) outs) as [[t m']|];
          [destruct (Nat.ltb t (time i))|]; discriminate.
      * intros H. exfalso. apply (H m). now left.
    + rewrite IH. split; intros H msg.
      * intros [E|E]; [discriminate | exact (H msg E)].
      * intros E. apply (H msg). now right.
Qed.

(** The rejection [Promise.all] reports is one that no other rejection
    precedes: it settles strictly earlier, or at the same time and was
    dispatched no later. *)
Lemma first_rejection_some {A} time i (outs : list (result A)) t msg :
  first_rejection time i outs = Some (t, msg) ->
  exists j,
    nth_error outs j = Some (Throw msg) /\ t = time (i + j) /\
    forall k msg', nth_error outs k = Some (Throw msg') ->
      time (i + j) < time (i + k) \/ (time (i + j) = time (i + k) /\ j <= k).
Proof.
  revert i t msg. induction outs as [|o outs IH]; intros i t msg; simpl;
    [discriminate|].
  destruct (first_rejection time (S i) outs) as [[t' m']|] eqn:E.
  - destruct (IH (S i) t' m' E) as (j & Hj & Ht & Hmin).
    assert (Hshift : forall n, S i + n = i + S n) by (intros; lia).
    assert (Hlater : Some (t', m') = Some (t, msg) ->
      exists j0,
        nth_error (o :: outs) j0 = Some (Throw msg) /\ t = time (i + j0) /\
        forall k msg', nth_error (o :: outs) k = Some (Throw msg') ->
          k <> 0 ->
          time (i + j0) < time (i + k) \/
          (time (i + j0) = time (i + k) /\ j0 <= k)).
    { intros H. injection H as <- <-. exists (S j). rewrite <- Hshift.
      repeat split; [exact Hj | exact Ht |].
      intros [|k] msg' Hk Hk0; simpl in Hk; [congruence|].
      rewrite <- Hshift. destruct (Hmin k msg' Hk); [left | right]; lia. }
    destruct o as [a|m|].
    + intros H. destruct (Hlater H) as (j0 & H1 & H2 & H3).
      exists j0. repeat split; [exact H1 | exact H2 |].
      intros [|k] msg' Hk; [discriminate|]. now apply (H3 (S k) msg').
    + destruct (Nat.ltb t' (time i)) eqn:L; intros H; injection H as <- <-.
      * apply Nat.ltb_lt in L. exists (S j). rewrite <- Hshift.
        repeat split; [exact Hj | exact Ht |].
        intros [|k] msg' Hk; simpl in Hk.
        -- rewrite Nat.add_0_r. left. lia.
        -- rewrite <- Hshift. destruct (Hmin k msg' Hk); [left | right]; lia.
      * apply Nat.ltb_ge in L. exists 0. rewrite Nat.add_0_r.
        repeat split.
        intros [|k] msg' Hk; simpl in Hk.
        -- rewrite Nat.add_0_r. right. lia.
        -- rewrite <- Hshift. destruct (Hmin k msg' Hk); [left | ]; lia.
    + intros H. destruct (Hlater H) as (j0 & H1 & H2 & H3).
      exists j0. repeat split; [exact H1 | exact H2 |].
      intros [|k] msg' Hk; [discriminate|]. now apply (H3 (S k) msg').
  - destruct o as [a|m|]; [discriminate| |discriminate].
    intros H. injection H as <- <-. exists 0. rewrite Nat.add_0_r.
    repeat split.
    intros [|k] msg' Hk; simpl in Hk.
    + rewrite Nat.add_0_r. right. lia.
    + exfalso. apply (proj1 (first_rejection_none time (S i) outs) E msg').
      eapply nth_error_In, Hk.
Qed.

(** Lines 183-202 raise nothing: the object returned has [status] set
    when every download resolved, and [error] set from the first
    rejection otherwise. *)
Lemma downloadFiles_inv r dest files st :
  forall responses st1,
    run_all (fun f => fetch w (url f)) files
            (logged (LogInfo "Downloading AMP framework...") st)
      = (responses, st1) ->
    downloadFiles w r dest files st =
    match settleDownloads w dest files responses st1 with
    | (Ok _, st2) =>
        (Ok (Ret.set_status r true),
         logged (LogInfo ("AMP framework download complete: " ++ dest)) st2)
    | (Throw msg, st2) =>
        let e := "Failed to download AMP framework" ++ NL ++ msg in
        (Ok (Ret.set_error r e), logged (LogError e) st2)
    | (Dies, st2) => (Dies, st2)
    end.
Proof.
  intros responses st1 E.
  unfold downloadFiles, bind at 1, log_info at 1, emit at 1.
  fold (logged (LogInfo "Downloading AMP framework...") st).
  rewrite E.
  destruct (settleDownloads w dest files responses st1) as [[[]|msg|] st2];
    reflexivity.
Qed.

(** The way through the blocks of a run that returns. *)
Lemma getFramework_returns o st r st' :
  getFramework w o st = (Ok r, st') ->
  validateDestination w o st = (Ok (inl r), st') \/
  exists r1 dest st1,
    validateDestination w o st = (Ok (inr (r1, dest)), st1) /\
    (resolveVersion w o r1 st1 = (Ok (inl r), st') \/
     exists r2 v st2,
       resolveVersion w o r1 st1 = (Ok (inr (r2, v)), st2) /\
       (resolveOrigin w o r2 v st2 = (Ok (inl r), st') \/
        exists r3 base st3,
          resolveOrigin w o r2 v st2 = (Ok (inr (r3, base)), st3) /\
          (fetchFilesListing w r3 base st3 = (Ok (inl r), st') \/
           exists r4 files st4 st5,
             fetchFilesListing w r3 base st3 = (Ok (inr (r4, files)), st4) /\
             prepareDestination w (Options.clear o) dest files st4
               = (Ok tt, st5) /\
             downloadFiles w r4 dest files st5 = (Ok r, st')))).
Proof.
  unfold getFramework, planDownload, andThen, bind, ret.
  destruct (validateDestination w o st) as [[[r1|[r1 dest]]|m1|] st1];
    [intros H; injection H as <- <-; now left | | discriminate..].
  intros H. right. exists r1, dest, st1. split; [reflexivity|]. revert H.
  destruct (resolveVersion w o r1 st1) as [[[r2|[r2 v]]|m2|] st2];
    [intros H; injection H as <- <-; now left | | discriminate..].
  intros H. right. exists r2, v, st2. split; [reflexivity|]. revert H.
  destruct (resolveOrigin w o r2 v st2) as [[[r3|[r3 base]]|m3|] st3];
    [intros H; injection H as <- <-; now left | | discriminate..].
  intros H. right. exists r3, base, st3. split; [reflexivity|]. revert H.
  destruct (fetchFilesListing w r3 base st3) as [[[r4|[r4 files]]|m4|] st4];
    [intros H; injection H as <- <-; now left | | discriminate..].
  intros H. right. exists r4, files, st4. revert H.
  destruct (prepareDestination w (Options.clear o) dest files st4)
    as [[[]|m5|] st5]; [|discriminate..].
  intros H'. exists st5. repeat split. exact H'.
Qed.

End Blocks.

(* ================================================================== *)
(** ** The fields of the result *)
(* ================================================================== *)

Section ResultFields.

Variable w : World.

Lemma downloadFiles_fields r dest files st r' st' :
  downloadFiles w r dest files st = (Ok r', st') ->
  Ret.dest r' = Ret.dest r /\ Ret.rtv r' = Ret.rtv r /\
  Ret.url r' = Ret.url r /\ Ret.count r' = Ret.count r.
Proof.
  destruct (run_all (fun f => fetch w (url f)) files
                    (logged (LogInfo "Downloading AMP framework...") st))
    as [responses st1] eqn:E.
  rewrite (downloadFiles_inv w r dest files st E).
  destruct (settleDownloads w dest files responses st1) as [[[]|msg|] st2];
    [| |discriminate]; intros H; injection H as <- _; repeat split.
Qed.

(** C10.  The object a run returns is filled as far as the run went.  Its
    [dest] is the destination with the tilde expanded.  When the
    destination check or the version block makes the run return, [rtv]
    and [url] are empty and [count] is 0; when the origin block does,
    [rtv] is the resolved version, [url] is empty and [count] is 0; when
    the listing block does (the check that the listing names [files.txt]
    is its last step), [rtv] and [url] are set and [count] is still 0;
    past it, [count] is the number of entries of the listing. *)
Theorem C10_result_fields o st r st' :
  getFramework w o st = (Ok r, st') ->
  expandTilde w (Options.dest o) = Ok (Ret.dest r) /\
  ((validateDestination w o st = (Ok (inl r), st') /\
    Ret.status r = false /\ Ret.rtv r = "" /\ Ret.url r = "" /\
    Ret.count r = 0) \/
   exists r1 dest st1,
     validateDestination w o st = (Ok (inr (r1, dest)), st1) /\
     ((resolveVersion w o r1 st1 = (Ok (inl r), st') /\
       Ret.status r = false /\ Ret.rtv r = "" /\ Ret.url r = "" /\
       Ret.count r = 0) \/
      exists r2 v st2,
        resolveVersion w o r1 st1 = (Ok (inr (r2, v)), st2) /\
        Ret.rtv r = v /\ v <> "" /\
        ((resolveOrigin w o r2 v st2 = (Ok (inl r), st') /\
          Ret.status r = false /\ Ret.url r = "" /\ Ret.count r = 0) \/
         exists r3 base st3,
           resolveOrigin w o r2 v st2 = (Ok (inr (r3, base)), st3) /\
           Ret.url r = base /\
           ((fetchFilesListing w r3 base st3 = (Ok (inl r), st') /\
             Ret.status r = false /\ Ret.count r = 0) \/
            exists r4 files st4,
              fetchFilesListing w r3 base st3 = (Ok (inr (r4, files)), st4) /\
              Ret.count r = List.length files)))).
Proof.
  intros H. apply getFramework_returns in H.
  destruct H as [H1 | (r1 & dest & st1 & H1 & H)].
  { pose proof (validateDestination_inv _ _ _ H1) as (d & msg & Hd & ->).
    split; [exact Hd|]. left. repeat split. exact H1. }
  pose proof (validateDestination_inv _ _ _ H1) as (Hd & _ & -> & _).
  destruct H as [H2 | (r2 & v & st2 & H2 & H)].
  { pose proof (resolveVersion_inv _ _ _ _ H2) as (msg & ->).
    split; [exact Hd|]. right. exists (Ret.initial (Some dest)), dest, st1.
    split; [exact H1|]. left. repeat split. exact H2. }
  pose proof (resolveVersion_inv _ _ _ _ H2) as (-> & Hv & _).
  destruct H as [H3 | (r3 & base & st3 & H3 & H)].
  { pose proof (resolveOrigin_inv _ _ _ _ _ H3) as (msg & ->).
    split; [exact Hd|]. right. exists (Ret.initial (Some dest)), dest, st1.
    split; [exact H1|]. right. eexists _, v, st2.
    split; [exact H2|]. split; [reflexivity|]. split; [exact Hv|].
    left. repeat split. exact H3. }
  pose proof (resolveOrigin_inv _ _ _ _ _ H3) as (-> & _).
  destruct H as [H4 | (r4 & files & st4 & st5 & H4 & _ & H5)].
  { pose proof (fetchFilesListing_inv _ _ _ _ H4) as (msg & ->).
    split; [exact Hd|]. right. exists (Ret.initial (Some dest)), dest, st1.
    split; [exact H1|]. right. eexists _, v, st2.
    split; [exact H2|]. split; [reflexivity|]. split; [exact Hv|].
    right. eexists _, base, st3. split; [exact H3|]. split; [reflexivity|].
    left. repeat split. exact H4. }
  pose proof (fetchFilesListing_inv _ _ _ _ H4) as (-> & _).
  apply downloadFiles_fields in H5. destruct H5 as (Ed & Ev & Eu & Ec).
  simpl in Ed, Ev, Eu, Ec.
  split; [rewrite Ed; exact Hd|]. right.
  exists (Ret.initial (Some dest)), dest, st1.
  split; [exact H1|]. right. eexists _, v, st2.
  split; [exact H2|]. split; [exact Ev|]. split; [exact Hv|].
  right. eexists _, base, st3. split; [exact H3|]. split; [exact Eu|].
  right. eexists _, files, st4. split; [exact H4 | exact Ec].
Qed.

End ResultFields.

(** The sample run returns past the listing block: its result has the
    fields C10 gives for that case. *)
Lemma C10_result_fields_witness :
  let w := Sample.world in
  let o := Sample.options in
  let st := Sample.start in
  let r := Sample.result in
  let st' := Sample.final in
  getFramework w o st = (Ok r, st') /\
  expandTilde w (Options.dest o) = Ok (Ret.dest r) /\
  ((validateDestination w o st = (Ok (inl r), st') /\
    Ret.status r = false /\ Ret.rtv r = "" /\ Ret.url r = "" /\
    Ret.count r = 0) \/
   exists r1 dest st1,
     validateDestination w o st = (Ok (inr (r1, dest)), st1) /\
     ((resolveVersion w o r1 st1 = (Ok (inl r), st') /\
       Ret.status r = false /\ Ret.rtv r = "" /\ Ret.url r = "" /\
       Ret.count r = 0) \/
      exists r2 v st2,
        resolveVersion w o r1 st1 = (Ok (inr (r2, v)), st2) /\
        Ret.rtv r = v /\ v <> "" /\
        ((resolveOrigin w o r2 v st2 = (Ok (inl r), st') /\
          Ret.status r = false /\ Ret.url r = "" /\ Ret.count r = 0) \/
         exists r3 base st3,
           resolveOrigin w o r2 v st2 = (Ok (inr (r3, base)), st3) /\
           Ret.url r = base /\
           ((fetchFilesListing w r3 base st3 = (Ok (inl r), st') /\
             Ret.status r = false /\ Ret.count r = 0) \/
            exists r4 files st4,
              fetchFilesListing w r3 base st3 = (Ok (inr (r4, files)), st4) /\
              Ret.count r = List.length files)))).
Proof.
  intros w o st r st'.
  assert (H : getFramework w o st = (Ok r, st')) by (vm_compute; reflexivity).
  exact (conj H (C10_result_fields w o st H)).
Defined.

(* ================================================================== *)
(** ** The runtime version *)
(* ================================================================== *)

(** C6, as stated, fails on the empty string: it is its own percent-encoded
    form, yet the code takes it for an absent version and asks the version
    provider, whose failure is the failure of the run. *)
Lemma C6_counterexample :
  Uri.encodeURIComponent "" = Some "" /\
  exists st',
    getFramework Sample.world_without_version
      (Sample.request (Some "") (Some "https://example.com") (Some "out"))
      Sample.start
    = (Ok (Ret.set_error (Ret.initial (Some "out"))
             "Could not determine runtime version to download"), st') /\
    In (CurrentVersion (Some "https://example.com")) (trace st').
Proof.
  split; [reflexivity|]. eexists. split; [vm_compute; reflexivity|].
  vm_compute. auto.
Qed.

(** The version block reads the options through [rtv] alone, and takes the
    empty string for no version. *)
Lemma resolveVersion_empty w o r :
  Options.rtv o = Some "" ->
  resolveVersion w o r = resolveVersion w (omit_rtv o) r.
Proof. intros H. unfold resolveVersion. rewrite H. reflexivity. Qed.

Lemma getFramework_empty_version w o st :
  Options.rtv o = Some "" ->
  getFramework w o st = getFramework w (omit_rtv o) st.
Proof.
  intros H. unfold getFramework, planDownload, andThen.
  change (validateDestination w (omit_rtv o)) with (validateDestination w o).
  unfold bind.
  destruct (validateDestination w o st) as [[[r1|[r1 dest]]|m1|] st1];
    try reflexivity.
  rewrite (@resolveVersion_empty w o r1 H). reflexivity.
Qed.

(** A version that holds a surrogate without its partner:
    [encodeURIComponent] raises, outside any [try], and the promise of
    [getFramework] rejects with the [URIError]; nothing is logged and the
    version provider is not called. *)
Example version_with_a_lone_surrogate :
  Uri.encodeURIComponent Sample.lone_surrogate = None /\
  getFramework Sample.world
    (Sample.request (Some Sample.lone_surrogate) (Some "https://example.com")
                    (Some "out"))
    Sample.start
  = (Throw Uri.URIError, Sample.verified).
Proof. split; vm_compute; reflexivity. Qed.

(** C6, amended.  Let [v] be the version option and the destination be
    verified.

    When [v] is not the empty string, the version provider is not called,
    and
    - when [encodeURIComponent] returns [v] itself, the version is
      resolved: [rtv] is set to [v] and the only event is the log line;
    - when it returns another string, the run returns with the error
      "Invalid runtime version specified: v" and the only event is that
      error;
    - when it raises (a surrogate without its partner in [v]), the promise
      rejects with its [URIError] and nothing is recorded.
    So the version is resolved exactly when percent-encoding leaves it as
    it is.

    When [v] is the empty string, the run is the run of the same request
    without a version: the first thing the version block does is to call
    the version provider. *)
Theorem C6_supplied_version w o st r1 dest st1 v :
  validateDestination w o st = (Ok (inr (r1, dest)), st1) ->
  Options.rtv o = Some v ->
  (v <> "" ->
   (Uri.encodeURIComponent v = Some v ->
    resolveVersion w o r1 st1
    = (Ok (inr (Ret.set_rtv r1 v, v)),
       logged (LogInfo ("AMP framework runtime version: " ++ v)) st1)) /\
   (forall e, Uri.encodeURIComponent v = Some e -> e <> v ->
    let msg := "Invalid runtime version specified: " ++ v in
    resolveVersion w o r1 st1
    = (Ok (inl (Ret.set_error r1 msg)), logged (LogError msg) st1) /\
    getFramework w o st
    = (Ok (Ret.set_error r1 msg), logged (LogError msg) st1)) /\
   (Uri.encodeURIComponent v = None ->
    resolveVersion w o r1 st1 = (Throw Uri.URIError, st1) /\
    getFramework w o st = (Throw Uri.URIError, st1)) /\
   ((exists r2 st2, resolveVersion w o r1 st1 = (Ok (inr (r2, v)), st2)) <->
    Uri.encodeURIComponent v = Some v) /\
   (forall res st2,
      resolveVersion w o r1 st1 = (res, st2) ->
      exists evs, trace st2 = (trace st1 ++ evs)%list /\
                  forall p, ~ In (CurrentVersion p) evs)) /\
  (v = "" ->
   getFramework w o st = getFramework w (omit_rtv o) st /\
   forall res st2,
     resolveVersion w o r1 st1 = (res, st2) ->
     exists evs,
       trace st2
       = (trace st1 ++ CurrentVersion (Options.ampUrlPrefix o) :: evs)%list).
Proof.
  intros Hval Hrtv. split.
  - intros Hv.
    assert (Hok : Uri.encodeURIComponent v = Some v ->
      resolveVersion w o r1 st1
      = (Ok (inr (Ret.set_rtv r1 v, v)),
         logged (LogInfo ("AMP framework runtime version: " ++ v)) st1)).
    { intros E. unfold resolveVersion. rewrite Hrtv.
      destruct v as [|c v]; [congruence|].
      rewrite E, String.eqb_refl. reflexivity. }
    assert (Hko : forall e, Uri.encodeURIComponent v = Some e -> e <> v ->
      resolveVersion w o r1 st1
      = (Ok (inl (Ret.set_error r1 ("Invalid runtime version specified: " ++ v))),
         logged (LogError ("Invalid runtime version specified: " ++ v)) st1)).
    { intros e E Hne. unfold resolveVersion. rewrite Hrtv.
      destruct v as [|c v]; [congruence|]. rewrite E.
      assert (Hneq : String.eqb (String c v) e = false)
        by (apply String.eqb_neq; congruence).
      rewrite Hneq. reflexivity. }
    assert (Hthrow : Uri.encodeURIComponent v = None ->
      resolveVersion w o r1 st1 = (Throw Uri.URIError, st1)).
    { intros E. unfold resolveVersion. rewrite Hrtv.
      destruct v as [|c v]; [congruence|]. rewrite E. reflexivity. }
    split; [exact Hok|]. split; [|split; [|split]].
    + intros e E Hne. split; [exact (Hko e E Hne)|].
      unfold getFramework, planDownload, andThen, bind.
      rewrite Hval, (Hko e E Hne). reflexivity.
    + intros E. split; [exact (Hthrow E)|].
      unfold getFramework, planDownload, andThen, bind.
      rewrite Hval, (Hthrow E). reflexivity.
    + split.
      * intros (r2 & st2 & H).
        destruct (Uri.encodeURIComponent v) as [e|] eqn:E.
        -- destruct (string_dec e v) as [->|Hne]; [reflexivity|].
           rewrite (Hko e eq_refl Hne) in H. discriminate.
        -- rewrite (Hthrow eq_refl) in H. discriminate.
      * intros E. eexists _, _. exact (Hok E).
    + intros res st2 H.
      destruct (Uri.encodeURIComponent v) as [e|] eqn:E.
      * destruct (string_dec e v) as [->|Hne].
        -- rewrite (Hok eq_refl) in H. injection H as _ <-.
           eexists [_]. split; [reflexivity|].
           intros p [F|[]]. discriminate.
        -- rewrite (Hko e eq_refl Hne) in H. injection H as _ <-.
           eexists [_]. split; [reflexivity|].
           intros p [F|[]]. discriminate.
      * rewrite (Hthrow eq_refl) in H. injection H as _ <-.
        exists []. split; [now rewrite app_nil_r | intros p []].
  - intros ->. split; [now apply getFramework_empty_version|].
    intros res st2. unfold resolveVersion. rewrite Hrtv.
    unfold bind at 1, emit at 1.
    destruct (currentVersion w (Options.ampUrlPrefix o)) as [[[|c v]|]|msg|];
      unfold fail, bind, log_info, log_error, emit, ret, throw, die;
      intros H; injection H as _ <-; cbn [trace];
      try rewrite <- app_assoc; eexists; reflexivity.
Qed.

(** The sample: the version "15" is its own percent-encoded form. *)
Lemma C6_supplied_version_witness :
  let w := Sample.world in
  let o := Sample.options in
  let st := Sample.start in
  let r1 := Ret.initial (Some "out") in
  let dest := "out" in
  let st1 := Sample.verified in
  let v := "15" in
  (validateDestination w o st = (Ok (inr (r1, dest)), st1) /\
   Options.rtv o = Some v) /\
  (v <> "" ->
   (Uri.encodeURIComponent v = Some v ->
    resolveVersion w o r1 st1
    = (Ok (inr (Ret.set_rtv r1 v, v)),
       logged (LogInfo ("AMP framework runtime version: " ++ v)) st1)) /\
   (forall e, Uri.encodeURIComponent v = Some e -> e <> v ->
    let msg := "Invalid runtime version specified: " ++ v in
    resolveVersion w o r1 st1
    = (Ok (inl (Ret.set_error r1 msg)), logged (LogError msg) st1) /\
    getFramework w o st
    = (Ok (Ret.set_error r1 msg), logged (LogError msg) st1)) /\
   (Uri.encodeURIComponent v = None ->
    resolveVersion w o r1 st1 = (Throw Uri.URIError, st1) /\
    getFramework w o st = (Throw Uri.URIError, st1)) /\
   ((exists r2 st2, resolveVersion w o r1 st1 = (Ok (inr (r2, v)), st2)) <->
    Uri.encodeURIComponent v = Some v) /\
   (forall res st2,
      resolveVersion w o r1 st1 = (res, st2) ->
      exists evs, trace st2 = (trace st1 ++ evs)%list /\
                  forall p, ~ In (CurrentVersion p) evs)) /\
  (v = "" ->
   getFramework w o st = getFramework w (omit_rtv o) st /\
   forall res st2,
     resolveVersion w o r1 st1 = (res, st2) ->
     exists evs,
       trace st2
       = (trace st1 ++ CurrentVersion (Options.ampUrlPrefix o) :: evs)%list).
Proof.
  intros w o st r1 dest st1 v.
  assert (H1 : validateDestination w o st = (Ok (inr (r1, dest)), st1))
    by (vm_compute; reflexivity).
  assert (H2 : Options.rtv o = Some v) by reflexivity.
  exact (conj (conj H1 H2) (C6_supplied_version w o st H1 H2)).
Defined.

(* ================================================================== *)
(** ** Traces and trees across the first blocks *)
(* ================================================================== *)

Section Extends.

Variable P : event -> Prop.

Lemma extends_by_refl st : extends_by P st st.
Proof. exists []. split; [now rewrite app_nil_r | constructor]. Qed.

Lemma extends_by_trans a b c :
  extends_by P a b -> extends_by P b c -> extends_by P a c.
Proof.
  intros (e1 & H1 & F1) (e2 & H2 & F2). exists (e1 ++ e2)%list. split.
  - rewrite H2, H1. now rewrite app_assoc.
  - apply Forall_app. now split.
Qed.

Lemma extends_by_logged e st : P e -> extends_by P st (logged e st).
Proof. intros He. exists [e]. split; [reflexivity | now constructor]. Qed.

Lemma extends_by_fs st t :
  True -> extends_by P st {| fs := t; trace := trace st; fetches := fetches st |}.
Proof. intros _. exists []. split; [simpl; now rewrite app_nil_r | constructor]. Qed.

End Extends.

Section FirstBlocks.

Variable w : World.

(** The destination check records no clearing, no materialization and no
    fetch. *)
Lemma validateDestination_quiet o st res st' :
  validateDestination w o st = (res, st') -> extends_by quiet st st'.
Proof.
  apply (@respects_validateDestination (extends_by quiet) quiet (fun _ _ => True)
           (extends_by_refl quiet) (@extends_by_trans quiet)
           (@extends_by_logged quiet) (@extends_by_fs quiet) (fun _ => I));
    intros; try split; reflexivity || exact I.
Qed.

Lemma validateDestination_fetches o st res st' :
  validateDestination w o st = (res, st') -> fetches st' = fetches st.
Proof.
  apply (@respects_validateDestination same_fetches (fun _ => True) (fun _ _ => True));
    unfold same_fetches; intros; try exact I; try reflexivity.
  etransitivity; eassumption.
Qed.

(** The version and origin blocks record no clearing, no materialization
    and no fetch, and leave the tree and the count of fetches as they are. *)
Lemma resolveVersion_quiet o r st res st' :
  resolveVersion w o r st = (res, st') ->
  extends_by quiet st st' /\ fs st' = fs st /\ fetches st' = fetches st.
Proof.
  intros H. repeat split.
  - revert H.
    apply (@respects_resolveVersion (extends_by quiet) quiet
             (extends_by_refl quiet) (@extends_by_trans quiet)
             (@extends_by_logged quiet)); intros; split; reflexivity.
  - revert H.
    apply (@respects_resolveVersion same_fs (fun _ => True));
      unfold same_fs; intros; try exact I; try reflexivity.
    etransitivity; eassumption.
  - revert H.
    apply (@respects_resolveVersion same_fetches (fun _ => True));
      unfold same_fetches; intros; try exact I; try reflexivity.
    etransitivity; eassumption.
Qed.

Lemma resolveOrigin_quiet o r v st res st' :
  resolveOrigin w o r v st = (res, st') ->
  extends_by quiet st st' /\ fs st' = fs st /\ fetches st' = fetches st.
Proof.
  intros H. repeat split.
  - revert H.
    apply (@respects_resolveOrigin (extends_by quiet) quiet
             (extends_by_refl quiet) (@extends_by_trans quiet)
             (@extends_by_logged quiet)); intros; split; reflexivity.
  - revert H.
    apply (@respects_resolveOrigin same_fs (fun _ => True));
      unfold same_fs; intros; try exact I; try reflexivity.
    etransitivity; eassumption.
  - revert H.
    apply (@respects_resolveOrigin same_fetches (fun _ => True));
      unfold same_fetches; intros; try exact I; try reflexivity.
    etransitivity; eassumption.
Qed.

End FirstBlocks.

(* ================================================================== *)
(** ** The files listing *)
(* ================================================================== *)

Lemma listsItself_iff files :
  listsItself files = true <-> In FRAMEWORK_FILES_TXT (map filepath files).
Proof.
  unfold listsItself. rewrite existsb_exists, in_map_iff. split.
  - intros (f & Hf & E). apply String.eqb_eq in E. now exists f.
  - intros (f & E & Hf). exists f. split; [exact Hf | now apply String.eqb_eq].
Qed.

Lemma count_fetches_app a b :
  count_fetches (a ++ b) = count_fetches a + count_fetches b.
Proof. unfold count_fetches. now rewrite filter_app, length_app. Qed.

Lemma quiet_no_fetch evs : Forall quiet evs -> count_fetches evs = 0.
Proof.
  induction 1 as [|e evs [_ He] _ IH]; [reflexivity|].
  change (e :: evs) with ([e] ++ evs)%list.
  rewrite count_fetches_app, He, IH. reflexivity.
Qed.

Lemma quiet_no_materialization evs :
  Forall quiet evs -> Forall (fun e => materializes e = false) evs.
Proof. apply Forall_impl. now intros e [H _]. Qed.

(** C5.  When the three blocks before the listing pass, the listing is
    fetched with success and its entries do not name [files.txt], the run
    returns a failure whose message is that of the validity check.  Its
    [count] is 0; the tree is the one the destination check left; the only
    events after the origin block are the fetch of the listing and the
    error; and the whole run records no clearing and no materialization,
    and a single fetch. *)
Theorem C5_listing_without_itself w o st r1 dest st1 r2 v st2 r3 base st3 t :
  validateDestination w o st = (Ok (inr (r1, dest)), st1) ->
  resolveVersion w o r1 st1 = (Ok (inr (r2, v)), st2) ->
  resolveOrigin w o r2 v st2 = (Ok (inr (r3, base)), st3) ->
  fetch_ w (fetches st3) (base ++ FRAMEWORK_FILES_TXT)
    = Response true (BodyOk t) ->
  ~ In FRAMEWORK_FILES_TXT (map filepath (parseFilesListing base (Utf8.toString t))) ->
  let msg := "Unable to read AMP framework files listing" ++ NL
               ++ "Expected files.txt in file listing, but it was not found." in
  let r := Ret.set_error r3 msg in
  let st' := {| fs := fs st3;
                trace := (trace st3 ++ [Fetch (base ++ FRAMEWORK_FILES_TXT);
                                        LogError msg])%list;
                fetches := S (fetches st3) |} in
  getFramework w o st = (Ok r, st') /\
  Ret.status r = false /\ Ret.count r = 0 /\
  fs st' = fs st1 /\
  exists evs,
    trace st' = (trace st ++ evs)%list /\
    Forall (fun e => materializes e = false) evs /\
    count_fetches evs = 1.
Proof.
  intros H1 H2 H3 Hf Hno msg r st'.
  assert (Hl : listsItself (parseFilesListing base (Utf8.toString t)) = false).
  { destruct (listsItself _) eqn:E; [|reflexivity].
    exfalso. apply Hno. now apply listsItself_iff. }
  pose proof (validateDestination_inv _ _ _ H1) as (_ & _ & -> & _).
  pose proof (resolveVersion_inv _ _ _ _ H2) as (-> & _).
  pose proof (resolveOrigin_inv _ _ _ _ _ H3) as (-> & _).
  destruct (resolveVersion_quiet _ _ _ _ H2) as (Q2 & F2 & _).
  destruct (resolveOrigin_quiet _ _ _ _ _ H3) as (Q3 & F3 & _).
  pose proof (validateDestination_quiet _ _ _ H1) as Q1.
  split; [|split; [reflexivity|split; [reflexivity|split]]].
  - unfold getFramework, planDownload, andThen, bind.
    rewrite H1, H2, H3.
    unfold fetchFilesListing, andThen, try_catch, fetch, text, fail, bind,
      log_error, emit, ret, throw.
    rewrite Hf. cbn [fst snd negb]. rewrite Hl. cbn [negb].
    unfold st', r, msg. simpl. rewrite <- app_assoc. reflexivity.
  - simpl. now rewrite F3, F2.
  - destruct (extends_by_trans (extends_by_trans Q1 Q2) Q3) as (evs & E & Q).
    exists (evs ++ [Fetch (base ++ FRAMEWORK_FILES_TXT); LogError msg])%list.
    simpl. rewrite E, <- app_assoc. split; [reflexivity|]. split.
    + apply Forall_app. split; [now apply quiet_no_materialization|].
      repeat constructor.
    + rewrite count_fetches_app, (quiet_no_fetch Q). reflexivity.
Qed.

(** The listing of the spec's example, [a.js] and [b.css]. *)
Lemma C5_listing_without_itself_witness :
  let w := Sample.world_without_self in
  let o := Sample.options in
  let st := Sample.start in
  let r1 := Ret.initial (Some "out") in
  let dest := "out" in
  let st1 := Sample.verified in
  let r2 := Ret.set_rtv r1 "15" in
  let v := "15" in
  let st2 := logged (LogInfo "AMP framework runtime version: 15") st1 in
  let base := "https://example.com/rtv/15/" in
  let r3 := Ret.set_url r2 base in
  let st3 := logged (LogInfo ("AMP framework base URL: " ++ base)) st2 in
  let t := Sample.lines ["a.js"; "b.css"] in
  (validateDestination w o st = (Ok (inr (r1, dest)), st1) /\
   resolveVersion w o r1 st1 = (Ok (inr (r2, v)), st2) /\
   resolveOrigin w o r2 v st2 = (Ok (inr (r3, base)), st3) /\
   fetch_ w (fetches st3) (base ++ FRAMEWORK_FILES_TXT)
     = Response true (BodyOk t) /\
   ~ In FRAMEWORK_FILES_TXT (map filepath (parseFilesListing base (Utf8.toString t)))) /\
  let msg := "Unable to read AMP framework files listing" ++ NL
               ++ "Expected files.txt in file listing, but it was not found." in
  let r := Ret.set_error r3 msg in
  let st' := {| fs := fs st3;
                trace := (trace st3 ++ [Fetch (base ++ FRAMEWORK_FILES_TXT);
                                        LogError msg])%list;
                fetches := S (fetches st3) |} in
  getFramework w o st = (Ok r, st') /\
  Ret.status r = false /\ Ret.count r = 0 /\
  fs st' = fs st1 /\
  exists evs,
    trace st' = (trace st ++ evs)%list /\
    Forall (fun e => materializes e = false) evs /\
    count_fetches evs = 1.
Proof.
  intros w o st r1 dest st1 r2 v st2 base r3 st3 t.
  assert (H1 : validateDestination w o st = (Ok (inr (r1, dest)), st1))
    by (vm_compute; reflexivity).
  assert (H2 : resolveVersion w o r1 st1 = (Ok (inr (r2, v)), st2))
    by (vm_compute; reflexivity).
  assert (H3 : resolveOrigin w o r2 v st2 = (Ok (inr (r3, base)), st3))
    by (vm_compute; reflexivity).
  assert (H4 : fetch_ w (fetches st3) (base ++ FRAMEWORK_FILES_TXT)
               = Response true (BodyOk t)) by (vm_compute; reflexivity).
  assert (H5 : ~ In FRAMEWORK_FILES_TXT (map filepath (parseFilesListing base (Utf8.toString t))))
    by (vm_compute; intuition discriminate).
  exact (conj (conj H1 (conj H2 (conj H3 (conj H4 H5))))
              (C5_listing_without_itself w o st H1 H2 H3 H4 H5)).
Defined.

(* ================================================================== *)
(** ** The base URL *)
(* ================================================================== *)

(** A run that returns with [url] set went through the version and origin
    blocks. *)
Lemma returns_with_url w o st r st' :
  getFramework w o st = (Ok r, st') ->
  Ret.url r <> "" ->
  exists r1 dest st1 r2 st2 r3 st3,
    validateDestination w o st = (Ok (inr (r1, dest)), st1) /\
    resolveVersion w o r1 st1 = (Ok (inr (r2, Ret.rtv r)), st2) /\
    resolveOrigin w o r2 (Ret.rtv r) st2 = (Ok (inr (r3, Ret.url r)), st3).
Proof.
  intros H Hu. apply getFramework_returns in H.
  destruct H as [H1 | (r1 & dest & st1 & H1 & H)].
  { pose proof (validateDestination_inv _ _ _ H1) as (d & msg & _ & ->).
    now contradiction Hu. }
  pose proof (validateDestination_inv _ _ _ H1) as (_ & _ & E1 & _).
  destruct H as [H2 | (r2 & v & st2 & H2 & H)].
  { pose proof (resolveVersion_inv _ _ _ _ H2) as (msg & ->). subst r1.
    now contradiction Hu. }
  pose proof (resolveVersion_inv _ _ _ _ H2) as (E2 & _).
  destruct H as [H3 | (r3 & base & st3 & H3 & H)].
  { pose proof (resolveOrigin_inv _ _ _ _ _ H3) as (msg & ->). subst r2 r1.
    now contradiction Hu. }
  pose proof (resolveOrigin_inv _ _ _ _ _ H3) as (E3 & _).
  assert (Hr : Ret.rtv r = v /\ Ret.url r = base).
  { destruct H as [H4 | (r4 & files & st4 & st5 & H4 & _ & H5)].
    - pose proof (fetchFilesListing_inv _ _ _ _ H4) as (msg & ->).
      subst r3 r2. now split.
    - pose proof (fetchFilesListing_inv _ _ _ _ H4) as (-> & _).
      apply downloadFiles_fields in H5. destruct H5 as (_ & Ev & Eu & _).
      subst r3 r2. now split. }
  destruct Hr as [-> ->]. now exists r1, dest, st1, r2, st2, r3, st3.
Qed.

(** C3, as stated, fails on a prefix that ends with two slashes: the base
    URL keeps both, so what comes before "rtv/15/" does not end with exactly
    one slash. *)
Lemma C3_counterexample :
  exists r st',
    getFramework Sample.world_two_slashes
      (Sample.request (Some "15") (Some "https://example.com//") (Some "out"))
      Sample.start = (Ok r, st') /\
    Ret.status r = true /\
    Ret.url r = "https://example.com//rtv/15/" /\
    forall origin,
      Ret.url r = origin ++ "rtv/15/" -> one_trailing_slash origin = false.
Proof.
  eexists _, _. split; [vm_compute; reflexivity|].
  split; [reflexivity|]. split; [reflexivity|].
  intros origin H. cbn [Ret.url] in H.
  change "https://example.com//rtv/15/"
    with ("https://example.com//" ++ "rtv/15/") in H.
  apply append_cancel_r in H; [|reflexivity].
  destruct H as [<- _]. reflexivity.
Qed.

(** C3, amended.  With a prefix [p] and a version [v] given (neither is the
    empty string), the [url] of a run that got as far as the origin is [p],
    then a slash unless [p] ends with one, then "rtv/v/".  So the origin
    ends with a slash, and with exactly one whenever [p] does not end with
    two; with "https://example.com" and "15" the base URL is
    "https://example.com/rtv/15/". *)
Theorem C3_base_url w o st p v r st' :
  Options.ampUrlPrefix o = Some p -> p <> "" ->
  Options.rtv o = Some v -> v <> "" ->
  getFramework w o st = (Ok r, st') ->
  Ret.url r <> "" ->
  let origin := if JsString.endsWith "/" p then p else p ++ "/" in
  Ret.url r = origin ++ "rtv/" ++ v ++ "/" /\
  JsString.endsWith "/" origin = true /\
  (JsString.endsWith "//" p = false -> one_trailing_slash origin = true) /\
  (p = "https://example.com" -> v = "15" ->
   Ret.url r = "https://example.com/rtv/15/").
Proof.
  intros Hp Hp0 Hv Hv0 H Hu origin.
  destruct (returns_with_url _ _ _ H Hu)
    as (r1 & dest & st1 & r2 & st2 & r3 & st3 & _ & H2 & H3).
  pose proof (resolveVersion_inv _ _ _ _ H2) as (_ & _ & Ev).
  pose proof (resolveOrigin_inv _ _ _ _ _ H3) as (_ & Eo).
  assert (Erv : Ret.rtv r = v).
  { destruct Ev as [[E _] | [E _]].
    - congruence.
    - rewrite Hv in E. destruct v; [congruence | discriminate]. }
  assert (Eurl : Ret.url r = frameworkBaseUrl p v).
  { destruct Eo as [(p' & E & _ & _ & Eb) | (d & E & _)].
    - rewrite Eb, Erv. congruence.
    - rewrite Hp in E. destruct p; [congruence | discriminate]. }
  assert (Eform : frameworkBaseUrl p v = origin ++ "rtv/" ++ v ++ "/").
  { unfold frameworkBaseUrl, origin.
    destruct (JsString.endsWith "/" p); [reflexivity|].
    now rewrite append_assoc. }
  assert (Eslash : JsString.endsWith "/" origin = true).
  { unfold origin. destruct (JsString.endsWith "/" p) eqn:E; [exact E|].
    apply endsWith_iff. now exists p. }
  split; [congruence|]. split; [exact Eslash|]. split.
  - intros H2s. unfold one_trailing_slash. rewrite Eslash. cbn [andb].
    unfold origin. destruct (JsString.endsWith "/" p) eqn:E.
    + now rewrite H2s.
    + destruct (JsString.endsWith "//" (p ++ "/")) eqn:E2; [|reflexivity].
      apply endsWith_iff in E2. destruct E2 as [q E2].
      change "//" with ("/" ++ "/") in E2. rewrite <- append_assoc in E2.
      apply append_cancel_r in E2; [|reflexivity]. destruct E2 as [E2 _].
      assert (JsString.endsWith "/" p = true)
        by (apply endsWith_iff; now exists q).
      congruence.
  - intros -> ->. rewrite Eurl. reflexivity.
Qed.

(** The sample asks for version "15" under "https://example.com". *)
Lemma C3_base_url_witness :
  let w := Sample.world in
  let o := Sample.options in
  let st := Sample.start in
  let p := "https://example.com" in
  let v := "15" in
  let r := Sample.result in
  let st' := Sample.final in
  (Options.ampUrlPrefix o = Some p /\ p <> "" /\
   Options.rtv o = Some v /\ v <> "" /\
   getFramework w o st = (Ok r, st') /\
   Ret.url r <> "") /\
  let origin := if JsString.endsWith "/" p then p else p ++ "/" in
  Ret.url r = origin ++ "rtv/" ++ v ++ "/" /\
  JsString.endsWith "/" origin = true /\
  (JsString.endsWith "//" p = false -> one_trailing_slash origin = true) /\
  (p = "https://example.com" -> v = "15" ->
   Ret.url r = "https://example.com/rtv/15/").
Proof.
  intros w o st p v r st'.
  assert (H1 : Options.ampUrlPrefix o = Some p) by reflexivity.
  assert (H2 : p <> "") by discriminate.
  assert (H3 : Options.rtv o = Some v) by reflexivity.
  assert (H4 : v <> "") by discriminate.
  assert (H5 : getFramework w o st = (Ok r, st')) by (vm_compute; reflexivity).
  assert (H6 : Ret.url r <> "") by discriminate.
  exact (conj (conj H1 (conj H2 (conj H3 (conj H4 (conj H5 H6)))))
              (C3_base_url w o st H1 H2 H3 H4 H5 H6)).
Defined.

(* ================================================================== *)
(** ** Parsing the listing *)
(* ================================================================== *)

Section Newline.

Import Regex.

Lemma match_newline_LF s : match_here Literals.re_newline (String Chars.LF s) = Some s.
Proof. reflexivity. Qed.

Lemma match_newline_CRLF s :
  match_here Literals.re_newline (String Chars.CR (String Chars.LF s)) = Some s.
Proof. reflexivity. Qed.

Lemma match_newline_CR_other s :
  (forall s', s <> String Chars.LF s') ->
  match_here Literals.re_newline (String Chars.CR s) = None.
Proof.
  intros H. unfold match_here, Literals.re_newline. cbn.
  destruct s as [|d s']; [reflexivity|].
  destruct (Ascii.eqb d "010") eqn:E; [|reflexivity].
  apply Ascii.eqb_eq in E. subst d. exfalso. exact (H s' eq_refl).
Qed.

Lemma match_newline_other c s :
  c <> Chars.LF -> c <> Chars.CR ->
  match_here Literals.re_newline (String c s) = None.
Proof.
  intros H1 H2. unfold match_here, Literals.re_newline. cbn.
  destruct (Ascii.eqb c "013") eqn:E2;
    [apply Ascii.eqb_eq in E2; now contradiction H2|].
  destruct (Ascii.eqb c "010") eqn:E1;
    [apply Ascii.eqb_eq in E1; now contradiction H1|].
  reflexivity.
Qed.

(** [split(/\r?\n/)] cuts where the specification says. *)
Lemma split_newline_spec n : forall s cur,
  String.length s <= n ->
  Regex.split_go Literals.re_newline 0 cur s = spec_lines_from cur s.
Proof.
  induction n as [|n IH]; intros s cur Hn.
  - destruct s; [reflexivity | simpl in Hn; lia].
  - destruct s as [|c s']; [reflexivity|].
    cbn [Regex.split_go spec_lines_from].
    destruct (Ascii.eqb_spec c Chars.LF) as [->|NLF].
    + rewrite match_newline_LF.
      replace (String.length (String Chars.LF s') - String.length s') with 1
        by (cbn [String.length]; lia).
      rewrite IH by (cbn [String.length] in Hn; lia). reflexivity.
    + destruct (Ascii.eqb_spec c Chars.CR) as [->|NCR].
      * destruct s' as [|d s''].
        -- rewrite match_newline_CR_other by discriminate. reflexivity.
        -- destruct (Ascii.eqb_spec d Chars.LF) as [->|NLF'].
           ++ rewrite match_newline_CRLF.
              replace (String.length (String Chars.CR (String Chars.LF s''))
                       - String.length s'') with 2
                by (cbn [String.length]; lia).
              cbn [andb Regex.split_go].
              rewrite IH by (cbn [String.length] in Hn; lia). reflexivity.
           ++ rewrite match_newline_CR_other by congruence.
              cbn [andb]. apply IH. cbn [String.length] in *. lia.
      * rewrite match_newline_other by assumption.
        destruct s' as [|d s'']; [reflexivity|].
        cbn [andb]. apply IH. cbn [String.length] in *. lia.
Qed.

Lemma parseFilesListing_spec base t :
  parseFilesListing base t = spec_entries base t.
Proof.
  unfold parseFilesListing, spec_entries, Regex.split, spec_lines.
  rewrite (split_newline_spec t "" (le_n (String.length t))).
  f_equal. apply filter_ext. now intros [|c l].
Qed.

End Newline.

(** What the listing block does with a response that arrives whole. *)
Lemma fetchFilesListing_ok w r base st t :
  fetch_ w (fetches st) (base ++ FRAMEWORK_FILES_TXT) = Response true (BodyOk t) ->
  exists st',
    fetchFilesListing w r base st =
    (if listsItself (parseFilesListing base (Utf8.toString t))
     then Ok (inr (Ret.set_count r
                     (List.length (parseFilesListing base (Utf8.toString t))),
                   parseFilesListing base (Utf8.toString t)))
     else Ok (inl (Ret.set_error r
                     ("Unable to read AMP framework files listing" ++ NL
                        ++ "Expected files.txt in file listing, but it was not found."))),
     st').
Proof.
  intros Hf.
  unfold fetchFilesListing, andThen, try_catch, fetch, text, fail, bind,
    log_info, log_error, emit, ret, throw.
  rewrite Hf. cbn [fst snd negb].
  destruct (listsItself (parseFilesListing base (Utf8.toString t)));
    cbn [negb]; eexists; reflexivity.
Qed.

(** C7, as stated, fails on a listing that does not name [files.txt]: the
    body served has two entries and the result counts none. *)
Lemma C7_counterexample :
  exists r st',
    getFramework Sample.world_without_self Sample.options Sample.start
      = (Ok r, st') /\
    fetch_ Sample.world_without_self (fetches Sample.start)
           (Ret.url r ++ FRAMEWORK_FILES_TXT)
      = Response true (BodyOk (Sample.lines ["a.js"; "b.css"])) /\
    List.length (spec_entries (Ret.url r) (Sample.lines ["a.js"; "b.css"])) = 2 /\
    Ret.count r = 0.
Proof.
  eexists _, _. split; [vm_compute; reflexivity|].
  repeat split.
Qed.

(** C7, amended.  The entries parsed from the body of the listing are the
    lines of the body, read as text and cut at each line feed and at each
    carriage return followed by a line feed, without the empty ones, in
    order, each line [L] with the URL [base ++ L].  The [count] of the
    result is their number when they name [files.txt], and 0 when they do
    not. *)
Theorem C7_files_listing w o st r st' t :
  getFramework w o st = (Ok r, st') ->
  Ret.url r <> "" ->
  fetch_ w (fetches st) (Ret.url r ++ FRAMEWORK_FILES_TXT)
    = Response true (BodyOk t) ->
  let entries :=
    map (fun L => {| filepath := L; url := Ret.url r ++ L |})
        (filter (fun L => negb (String.eqb L ""))
                (spec_lines (Utf8.toString t))) in
  parseFilesListing (Ret.url r) (Utf8.toString t) = entries /\
  (In FRAMEWORK_FILES_TXT (map filepath entries) ->
   Ret.count r = List.length entries) /\
  (~ In FRAMEWORK_FILES_TXT (map filepath entries) -> Ret.count r = 0).
Proof.
  intros H Hu Hf entries.
  assert (Hp : parseFilesListing (Ret.url r) (Utf8.toString t) = entries)
    by apply parseFilesListing_spec.
  split; [exact Hp|].
  destruct (returns_with_url _ _ _ H Hu)
    as (r1 & dest & st1 & r2 & st2 & r3 & st3 & H1 & H2 & H3).
  assert (Hn : fetches st3 = fetches st).
  { destruct (resolveOrigin_quiet _ _ _ _ _ H3) as (_ & _ & ->).
    destruct (resolveVersion_quiet _ _ _ _ H2) as (_ & _ & ->).
    exact (validateDestination_fetches _ _ _ H1). }
  rewrite <- Hn in Hf.
  destruct (fetchFilesListing_ok w r3 _ _ Hf) as (st4 & H4).
  rewrite Hp in H4.
  pose proof (validateDestination_inv _ _ _ H1) as (_ & _ & -> & _).
  pose proof (resolveVersion_inv _ _ _ _ H2) as (-> & _).
  pose proof (resolveOrigin_inv _ _ _ _ _ H3) as (-> & _).
  revert H. unfold getFramework, planDownload, andThen, bind.
  rewrite H1, H2, H3, H4.
  destruct (listsItself entries) eqn:El; unfold ret; cbn beta iota.
  - destruct (prepareDestination w (Options.clear o) dest entries st4)
      as [[[]|m|] st5]; [|discriminate..].
    intros H. split.
    + intros _.
      apply downloadFiles_fields in H. destruct H as (_ & _ & _ & Ec).
      exact Ec.
    + intros Hno. exfalso. apply Hno. now apply listsItself_iff.
  - intros H. injection H as <- _. split.
    + intros Hin. apply listsItself_iff in Hin. congruence.
    + reflexivity.
Qed.

(** The sample: three lines, three entries. *)
Lemma C7_files_listing_witness :
  let w := Sample.world in
  let o := Sample.options in
  let st := Sample.start in
  let r := Sample.result in
  let st' := Sample.final in
  let t := Sample.manifest in
  (getFramework w o st = (Ok r, st') /\
   Ret.url r <> "" /\
   fetch_ w (fetches st) (Ret.url r ++ FRAMEWORK_FILES_TXT)
     = Response true (BodyOk t)) /\
  let entries :=
    map (fun L => {| filepath := L; url := Ret.url r ++ L |})
        (filter (fun L => negb (String.eqb L ""))
                (spec_lines (Utf8.toString t))) in
  parseFilesListing (Ret.url r) (Utf8.toString t) = entries /\
  (In FRAMEWORK_FILES_TXT (map filepath entries) ->
   Ret.count r = List.length entries) /\
  (~ In FRAMEWORK_FILES_TXT (map filepath entries) -> Ret.count r = 0).
Proof.
  intros w o st r st' t.
  assert (H1 : getFramework w o st = (Ok r, st')) by (vm_compute; reflexivity).
  assert (H2 : Ret.url r <> "") by discriminate.
  assert (H3 : fetch_ w (fetches st) (Ret.url r ++ FRAMEWORK_FILES_TXT)
               = Response true (BodyOk t)) by (vm_compute; reflexivity).
  exact (conj (conj H1 (conj H2 H3)) (C7_files_listing w o st H1 H2 H3)).
Defined.

(* ================================================================== *)
(** ** Facts about the file system *)
(* ================================================================== *)

Section FsFacts.

Import Fs.

Lemma find_set_same x v es : find x (set x v es) = Some v.
Proof.
  induction es as [|[y n] es IH]; simpl.
  - now rewrite String.eqb_refl.
  - destruct (String.eqb x y) eqn:E; simpl; rewrite E; [reflexivity | exact IH].
Qed.

Lemma find_set_other x y v es : x <> y -> find y (set x v es) = find y es.
Proof.
  intros N. induction es as [|[z n] es IH]; simpl.
  - apply String.eqb_neq in N. rewrite String.eqb_sym in N. now rewrite N.
  - destruct (String.eqb x z) eqn:E; simpl.
    + apply String.eqb_eq in E. subst z.
      apply not_eq_sym, String.eqb_neq in N. now rewrite N.
    + now rewrite IH.
Qed.

Lemma find_remove_same x es : find x (remove x es) = None.
Proof.
  induction es as [|[y n] es IH]; simpl; [reflexivity|].
  destruct (String.eqb x y) eqn:E; simpl; [exact IH | now rewrite E].
Qed.

Lemma find_remove_other x y es : x <> y -> find y (remove x es) = find y es.
Proof.
  intros N. induction es as [|[z n] es IH]; simpl; [reflexivity|].
  destruct (String.eqb x z) eqn:E; simpl.
  - apply String.eqb_eq in E. subst z.
    apply not_eq_sym, String.eqb_neq in N. now rewrite N.
  - now rewrite IH.
Qed.

(** A file that was written is there, with the content written. *)
Lemma stat_write_same c p t t' :
  write c p t = Some t' -> stat p t' = Some (IsFile c).
Proof.
  unfold write, stat. revert t t'.
  induction p as [|x p IH]; intros t t'; [discriminate|].
  cbn [update]. destruct t as [?|es]; [discriminate|].
  destruct p as [|y p].
  - destruct (find x es) as [[?|?]|]; cbn [option_map]; try discriminate;
      intros H; injection H as <-; cbn [lookup]; now rewrite find_set_same.
  - destruct (find x es) as [child|]; [|discriminate].
    destruct (update _ (y :: p) child) as [child'|] eqn:E; [|discriminate].
    intros H. injection H as <-.
    cbn [lookup]. rewrite find_set_same. exact (IH _ _ E).
Qed.

(** Writing a file leaves what is at every other location as it is. *)
Lemma stat_write_other c p t t' q k :
  write c p t = Some t' -> q <> p -> stat q t = Some k -> stat q t' = Some k.
Proof.
  unfold write, stat. revert t t' q.
  induction p as [|x p IH]; intros t t' q; [discriminate|].
  cbn [update]. destruct t as [?|es]; [discriminate|].
  destruct p as [|y p].
  - destruct (find x es) as [[old|?]|] eqn:Ex; cbn [option_map];
      try discriminate; intros H; injection H as <-; intros N;
      (destruct q as [|z q]; [now intros | cbn [lookup]]);
      (destruct (string_dec x z) as [<-|Nz];
       [|now rewrite (find_set_other _ _ Nz)]);
      rewrite find_set_same, Ex; (destruct q; [congruence|]);
      cbn [lookup option_map]; discriminate.
  - destruct (find x es) as [child|] eqn:Ex; [|discriminate].
    destruct (update _ (y :: p) child) as [child'|] eqn:E; [|discriminate].
    intros H. injection H as <-. intros N.
    destruct q as [|z q]; [now intros | cbn [lookup]].
    destruct (string_dec x z) as [<-|Nz].
    + rewrite find_set_same, Ex. apply (IH _ _ _ E). congruence.
    + now rewrite (find_set_other _ _ Nz).
Qed.

(** [mkdir -p] leaves what is there as it is. *)
Lemma stat_mkdir_p p : forall t t' q k,
  mkdir_p p t = Some t' -> stat q t = Some k -> stat q t' = Some k.
Proof.
  unfold stat.
  induction p as [|x p IH]; intros t t' q k; cbn [mkdir_p];
    destruct t as [?|es]; try discriminate.
  - intros H. now injection H as <-.
  - destruct (mkdir_p p _) as [child'|] eqn:E; [|discriminate].
    intros H. injection H as <-.
    destruct q as [|z q]; [now intros | cbn [lookup]].
    destruct (string_dec x z) as [<-|Nz].
    + rewrite find_set_same.
      destruct (find x es) as [child|] eqn:Ex; [|discriminate].
      exact (IH _ _ _ _ E).
    + now rewrite (find_set_other _ _ Nz).
Qed.

End FsFacts.

(* ================================================================== *)
(** ** Facts about the matcher *)
(* ================================================================== *)

Section RegexFacts.

Import Regex.

Lemma plus_class_suffix p k s x :
  plus_class p k s = Some x ->
  exists mt rest, s = mt ++ rest /\ k rest = Some x.
Proof.
  revert x. induction s as [|a s IH]; intros x; cbn [plus_class]; [discriminate|].
  destruct (p a); [|discriminate].
  destruct (plus_class p k s) as [y|] eqn:E.
  - intros H. injection H as <-.
    destruct (IH y eq_refl) as (mt & rest & -> & Hk).
    now exists (String a mt), rest.
  - intros H. now exists (String a ""), s.
Qed.

(** What the matcher leaves is the end of what it was given. *)
Lemma m_suffix r : forall k s x,
  m r k s = Some x -> exists mt rest, s = mt ++ rest /\ k rest = Some x.
Proof.
  induction r as [c|p|r1 IH1 r2 IH2|r1 IH1 r2 IH2|r1 IH1|p|n r1 IH1];
    intros k s x; cbn [m].
  - destruct s as [|a s]; [discriminate|].
    destruct (Ascii.eqb a c); [|discriminate].
    intros H. now exists (String a ""), s.
  - destruct s as [|a s]; [discriminate|].
    destruct (p a); [|discriminate].
    intros H. now exists (String a ""), s.
  - intros H. destruct (IH1 _ _ _ H) as (m1 & rest1 & -> & H1).
    destruct (IH2 _ _ _ H1) as (m2 & rest & -> & H2).
    exists (m1 ++ m2), rest. now rewrite append_assoc.
  - destruct (m r1 k s) as [y|] eqn:E.
    + intros H. injection H as <-. exact (IH1 _ _ _ E).
    + exact (IH2 _ _ _).
  - destruct (m r1 k s) as [y|] eqn:E.
    + intros H. injection H as <-. exact (IH1 _ _ _ E).
    + intros H. now exists "", s.
  - apply plus_class_suffix.
  - revert k s x. induction n as [|n IHn]; intros k s x; cbn [Nat.iter].
    + intros H. now exists "", s.
    + intros H. destruct (IH1 _ _ _ H) as (m1 & rest1 & -> & H1).
      destruct (IHn _ _ _ H1) as (m2 & rest & -> & H2).
      exists (m1 ++ m2), rest. now rewrite append_assoc.
Qed.

Lemma match_here_suffix r s rest :
  match_here r s = Some rest ->
  exists mt, s = mt ++ rest /\
             JsString.take (String.length s - String.length rest) s = mt.
Proof.
  intros H. destruct (m_suffix _ _ _ H) as (mt & rest' & -> & E).
  injection E as ->. exists mt. split; [reflexivity|].
  rewrite append_length.
  replace (String.length mt + String.length rest - String.length rest)
    with (String.length mt) by lia.
  apply take_append.
Qed.

Lemma exec_unfold r s :
  exec r s =
  match match_here r s with
  | Some rest =>
      Some ("", JsString.take (String.length s - String.length rest) s, rest)
  | None =>
      match s with
      | EmptyString => None
      | String c s' =>
          match exec r s' with
          | Some (b, mt, a) => Some (String c b, mt, a)
          | None => None
          end
      end
  end.
Proof. destruct s; reflexivity. Qed.

(** [exec] finds the leftmost position at which the expression matches. *)
Lemma exec_some r s b mt a :
  exec r s = Some (b, mt, a) ->
  s = b ++ mt ++ a /\
  match_here r (mt ++ a) = Some a /\
  forall b1 b2, b = b1 ++ b2 -> b2 <> "" -> match_here r (b2 ++ mt ++ a) = None.
Proof.
  revert b. induction s as [|c s IH]; intros b; rewrite exec_unfold.
  - destruct (match_here r "") as [rest|] eqn:E; [|discriminate].
    destruct (match_here_suffix _ _ E) as (mt' & Hs & Ht). rewrite Ht.
    intros H. injection H as <- <- <-.
    destruct mt'; [|discriminate]. simpl in Hs. subst rest.
    repeat split; [exact E|].
    intros [|? ?] b2 Hb Hn; [simpl in Hb; congruence | discriminate].
  - destruct (match_here r (String c s)) as [rest|] eqn:E.
    + destruct (match_here_suffix _ _ E) as (mt' & Hs & Ht). rewrite Ht.
      intros H. injection H as <- <- <-.
      split; [exact Hs|]. split; [now rewrite <- Hs|].
      intros [|? ?] b2 Hb Hn; [simpl in Hb; congruence | discriminate].
    + destruct (exec r s) as [[[b' mt'] a']|] eqn:Ex; [|discriminate].
      intros H. injection H as <- <- <-.
      destruct (IH _ eq_refl) as (Hs & Hm & Hmin).
      split; [simpl; now rewrite <- Hs|]. split; [exact Hm|].
      intros [|d b1] b2 Hb Hn; simpl in Hb.
      * subst b2. simpl. now rewrite <- Hs.
      * injection Hb as -> Hb. now apply (Hmin b1).
Qed.

Lemma exec_none r s :
  exec r s = None -> forall b1 b2, s = b1 ++ b2 -> match_here r b2 = None.
Proof.
  induction s as [|c s IH]; rewrite exec_unfold.
  - destruct (match_here r "") eqn:E; [discriminate|].
    intros _ [|? ?] b2 H; [simpl in H; now subst | discriminate].
  - destruct (match_here r (String c s)) eqn:E; [discriminate|].
    destruct (exec r s) as [[[? ?] ?]|] eqn:Ex; [discriminate|].
    intros _ [|d b1] b2 H; simpl in H; [now subst|].
    injection H as -> H. now apply (IH eq_refl b1).
Qed.

Lemma ignoreCase_letter c :
  Chars.ignoreCase (Chars.range "a" "z") c = Chars.letter c.
Proof. destruct c as [[] [] [] [] [] [] [] []]; reflexivity. Qed.

Lemma iter_chr c n : forall k s,
  Nat.iter n (m (Chr c)) k s =
  if String.prefix (JsString.repeat c n) s then k (JsString.drop n s) else None.
Proof.
  induction n as [|n IH]; intros k s.
  - now destruct s.
  - rewrite Nat.iter_succ. cbn [m JsString.repeat].
    destruct s as [|a s]; [reflexivity|].
    cbn [String.prefix JsString.drop].
    destruct (Ascii.eqb_spec a c) as [->|N].
    + destruct (ascii_dec c c); [apply IH | contradiction].
    + destruct (ascii_dec c a); [congruence | reflexivity].
Qed.

Lemma iter_class2 p k s :
  Nat.iter 2 (m (Class p)) k s =
  match s with
  | String a (String b s') => if p a && p b then k s' else None
  | _ => None
  end.
Proof.
  destruct s as [|a [|b s]]; cbn; try reflexivity;
    destruct (p a); try reflexivity; destruct (p b); reflexivity.
Qed.

Lemma m_country k s :
  m Literals.re_country k s =
  Nat.iter 2 (m (Class (Chars.ignoreCase (Chars.range "a" "z"))))
           (Nat.iter 26 (m (Chr " ")) k) s.
Proof. reflexivity. Qed.

Lemma drop_repeat c n tl : JsString.drop n (JsString.repeat c n ++ tl) = tl.
Proof. induction n as [|n IH]; [reflexivity | exact IH]. Qed.

(** [/[a-z]{2} {26}/i] matches, at the start of a text, two letters of
    either case followed by 26 spaces. *)
Lemma match_country s rest :
  match_here Literals.re_country s = Some rest <->
  exists run, country_run Chars.letter run /\ s = run ++ rest.
Proof.
  unfold match_here. rewrite m_country, iter_class2.
  split.
  - destruct s as [|a [|b s]]; try discriminate.
    rewrite !ignoreCase_letter.
    destruct (Chars.letter a) eqn:Ea; [|discriminate].
    destruct (Chars.letter b) eqn:Eb; [|discriminate].
    cbn [andb]. rewrite iter_chr.
    destruct (String.prefix _ s) eqn:Ep; [|discriminate].
    apply prefix_iff in Ep. destruct Ep as [tl ->].
    rewrite drop_repeat.
    intros H. injection H as <-.
    exists (String a (String b (JsString.repeat " " 26))).
    split; [now exists a, b | reflexivity].
  - intros (run & (a & b & Ea & Eb & ->) & ->).
    cbn [append]. rewrite !ignoreCase_letter, Ea, Eb.
    cbn [andb]. rewrite iter_chr.
    assert (Ep : String.prefix (JsString.repeat " " 26)
                   (JsString.repeat " " 26 ++ rest) = true)
      by (apply prefix_iff; now exists rest).
    now rewrite Ep, drop_repeat.
Qed.

Lemma country_run_length letter run :
  country_run letter run -> String.length run = 28.
Proof. now intros (a & b & _ & _ & ->). Qed.

(** Two ways to cut one text: the shorter first part starts the longer. *)
Lemma append_split (a b c d : string) :
  a ++ b = c ++ d -> String.length a <= String.length c ->
  exists e, c = a ++ e /\ b = e ++ d.
Proof.
  revert c. induction a as [|x a IH]; intros c H L.
  - exists c. now split.
  - destruct c as [|y c]; [simpl in L; lia|].
    simpl in H. injection H as -> H. simpl in L.
    destruct (IH c H) as (e & -> & ->); [lia|]. now exists e.
Qed.

End RegexFacts.

(* ================================================================== *)
(** ** The hotpatch of the geolocation helper *)
(* ================================================================== *)

Lemma append_cancel_len (a b c d : string) :
  a ++ b = c ++ d -> String.length a = String.length c -> a = c /\ b = d.
Proof.
  intros H L. destruct (append_split a b c d H) as (e & -> & ->); [lia|].
  rewrite append_length in L. assert (e = "") by (apply length_zero; lia).
  subst e. now rewrite append_nil_r.
Qed.

(** What [exec] matches with [/[a-z]{2} {26}/i] is a run. *)
Lemma exec_country_run t b mt a :
  Regex.exec Literals.re_country t = Some (b, mt, a) ->
  country_run Chars.letter mt.
Proof.
  intros E. destruct (exec_some _ _ E) as (_ & Hm & _).
  apply match_country in Hm. destruct Hm as (run & Hrun & Hs).
  apply append_cancel_r in Hs; [|reflexivity]. destruct Hs as [-> _].
  exact Hrun.
Qed.

(** The first run of two letters and 26 spaces becomes the placeholder. *)
Lemma undoHotpatch_first_run t pre run post :
  t = pre ++ run ++ post ->
  country_run Chars.letter run ->
  (forall pre' run' post',
     t = pre' ++ run' ++ post' -> country_run Chars.letter run' ->
     String.length pre <= String.length pre') ->
  undoHotpatch t = pre ++ AMP_ISO_COUNTRY_HOTPATCH ++ post.
Proof.
  intros Ht Hrun Hfirst. unfold undoHotpatch, Regex.replace.
  assert (Hhere : Regex.match_here Literals.re_country (run ++ post) = Some post)
    by (apply match_country; now exists run).
  destruct (Regex.exec Literals.re_country t) as [[[b mt] a]|] eqn:E.
  - pose proof (exec_country_run _ E) as Hmt.
    destruct (exec_some _ _ E) as (Hs & _ & Hmin).
    pose proof (Hfirst b mt a Hs Hmt) as Hle.
    rewrite Ht in Hs.
    destruct (append_split _ _ _ _ Hs Hle) as (e & -> & He).
    destruct e as [|c e].
    + simpl in He. apply append_cancel_len in He.
      * destruct He as [-> ->]. now rewrite append_nil_r.
      * now rewrite (country_run_length Hrun), (country_run_length Hmt).
    + exfalso.
      assert (Hn : Regex.match_here Literals.re_country
                     (String c e ++ mt ++ a) = None)
        by (apply (Hmin pre); [reflexivity | discriminate]).
      rewrite <- He in Hn. congruence.
  - exfalso. rewrite (@exec_none _ _ E pre (run ++ post) Ht) in Hhere.
    discriminate.
Qed.

(** A text without such a run is left as it is. *)
Lemma undoHotpatch_no_run t :
  (forall pre run post, t = pre ++ run ++ post -> ~ country_run Chars.letter run) ->
  undoHotpatch t = t.
Proof.
  intros Hno. unfold undoHotpatch, Regex.replace.
  destruct (Regex.exec Literals.re_country t) as [[[b mt] a]|] eqn:E;
    [|reflexivity].
  exfalso. destruct (exec_some _ _ E) as (Hs & _ & _).
  exact (Hno b mt a Hs (exec_country_run _ E)).
Qed.

(** The download of a geolocation helper whose body arrives whole: when
    it resolves, the three events are the fetch, the opening of the stream
    and the write of the patched text, and the file holds that text. *)
Lemma fetchAndSave_geo w f dest st st' body :
  Regex.test Literals.re_amp_geo (filepath f) = true ->
  fetch_ w (fetches st) (url f) = Response true (BodyOk body) ->
  fetchAndSaveAsync_ w f dest st = (Ok tt, st') ->
  let fullpath := Path.join dest (filepath f) in
  let saved := undoHotpatch (Utf8.toString body) in
  Fs.stat (locate w fullpath) (fs st') = Some (Fs.IsFile saved) /\
  trace st' = (trace st ++ [Fetch (url f); OpenWrite fullpath;
                            Write fullpath saved])%list /\
  fetches st' = S (fetches st).
Proof.
  intros Hgeo Hf.
  unfold fetchAndSaveAsync_, saveResponse, bind, fetch, try_catch.
  rewrite Hf. cbn [fst snd negb]. rewrite Hgeo.
  unfold createWriteStream, writeStream, fs_call, text, ret, throw, die.
  cbn [fs trace fetches].
  destruct (fault w (OpenWrite _)); [discriminate|].
  destruct (Fs.write "" _ _) as [t1|]; cbn [or_fail]; [|discriminate].
  cbn [fs trace fetches].
  destruct (fault w (Write _ _)); [discriminate|].
  destruct (Fs.write (undoHotpatch (Utf8.toString body)) _ t1) as [t2|] eqn:E2;
    cbn [or_fail]; [|discriminate].
  intros H. injection H as <-. cbn [fs trace fetches].
  repeat split.
  - exact (stat_write_same _ _ _ E2).
  - now rewrite <- !app_assoc.
Qed.

(** C2, as stated, fails on a body whose country code is in upper case: it
    holds no run of two lower case letters and 26 spaces, yet the file
    saved is not the body. *)
Lemma C2_counterexample :
  let body := "US" ++ JsString.repeat " " 26 in
  Regex.test Literals.re_amp_geo "v0/amp-geo-0.1.js" = true /\
  (forall pre run post,
     body = pre ++ run ++ post -> ~ country_run Chars.lower run) /\
  exists r st',
    getFramework Sample.world_upper_case Sample.options Sample.start
      = (Ok r, st') /\
    Ret.status r = true /\
    fetch_ Sample.world_upper_case 2
           "https://example.com/rtv/15/v0/amp-geo-0.1.js"
      = Response true (BodyOk body) /\
    Fs.stat ["work"; "out"; "v0"; "amp-geo-0.1.js"] (fs st')
      = Some (Fs.IsFile AMP_ISO_COUNTRY_HOTPATCH) /\
    AMP_ISO_COUNTRY_HOTPATCH <> body.
Proof.
  intros body. split; [reflexivity|]. split.
  - intros pre run post H Hrun.
    pose proof (country_run_length Hrun) as L.
    assert (Lb : String.length body = 28) by reflexivity.
    rewrite H, !append_length, L in Lb.
    assert (pre = "") by (apply length_zero; lia). subst pre.
    destruct Hrun as (a & b & Ea & _ & ->).
    simpl in H. injection H as <- _. discriminate.
  - eexists _, _. split; [vm_compute; reflexivity|].
    repeat split. discriminate.
Qed.

(** A body that is not UTF-8 is not saved byte for byte either: it holds
    no run, and the byte FF of [61 FF 62] is saved as the three bytes of
    U+FFFD. *)
Example helper_that_is_not_utf8 :
  let body := Sample.bytes [97; 255; 98] in
  Utf8.wellFormed body = false /\
  undoHotpatch (Utf8.toString body) = Utf8.toString body /\
  exists r st',
    getFramework Sample.world_not_utf8 Sample.options Sample.start
      = (Ok r, st') /\
    Ret.status r = true /\
    fetch_ Sample.world_not_utf8 2
           "https://example.com/rtv/15/v0/amp-geo-0.1.js"
      = Response true (BodyOk body) /\
    Fs.stat ["work"; "out"; "v0"; "amp-geo-0.1.js"] (fs st')
      = Some (Fs.IsFile (Sample.bytes [97; 239; 191; 189; 98])).
Proof.
  intros body. split; [reflexivity|]. split; [reflexivity|].
  eexists _, _. split; [vm_compute; reflexivity|]. repeat split.
Qed.

(** C2, amended.  For an entry whose path matches
    [/amp-geo-([\d.]+|latest)\.m?js/] and whose body arrives whole, a
    download that resolves leaves at the path of the entry a file that
    holds the text of the body with its first run of two ASCII letters,
    of either case, followed by 26 spaces replaced by
    [{{AMP_ISO_COUNTRY_HOTPATCH}}] and the rest as it was; a text without
    such a run is saved as it is.  The text of a body that is well-formed
    UTF-8 is the body itself, byte for byte; in a body that is not, the
    text has U+FFFD where the ill-formed sequences were. *)
Theorem C2_undo_hotpatch w f dest st st' body :
  Regex.test Literals.re_amp_geo (filepath f) = true ->
  fetch_ w (fetches st) (url f) = Response true (BodyOk body) ->
  fetchAndSaveAsync_ w f dest st = (Ok tt, st') ->
  let t := Utf8.toString body in
  (Utf8.wellFormed body = true -> t = body) /\
  exists saved,
    Fs.stat (locate w (Path.join dest (filepath f))) (fs st')
      = Some (Fs.IsFile saved) /\
    In (Write (Path.join dest (filepath f)) saved) (trace st') /\
    (forall pre run post,
       t = pre ++ run ++ post ->
       country_run Chars.letter run ->
       (forall pre' run' post',
          t = pre' ++ run' ++ post' -> country_run Chars.letter run' ->
          String.length pre <= String.length pre') ->
       saved = pre ++ AMP_ISO_COUNTRY_HOTPATCH ++ post) /\
    ((forall pre run post,
        t = pre ++ run ++ post -> ~ country_run Chars.letter run) ->
     saved = t).
Proof.
  intros Hgeo Hf H t.
  split; [intros Hw; now apply String.eqb_eq|].
  destruct (@fetchAndSave_geo w f dest st st' body Hgeo Hf H)
    as (Hstat & Htrace & _).
  exists (undoHotpatch t). split; [exact Hstat|]. split.
  - rewrite Htrace. apply in_or_app. right. simpl. auto.
  - split.
    + intros pre run post. apply undoHotpatch_first_run.
    + apply undoHotpatch_no_run.
Qed.

(** The helper of the sample, patched with [us]. *)
Lemma C2_undo_hotpatch_witness :
  let w := Sample.world in
  let f := Sample.geo_file in
  let dest := "out" in
  let st := Sample.ready in
  let st' := snd (fetchAndSaveAsync_ w f dest st) in
  let body := Sample.geo_body in
  (Regex.test Literals.re_amp_geo (filepath f) = true /\
   fetch_ w (fetches st) (url f) = Response true (BodyOk body) /\
   fetchAndSaveAsync_ w f dest st = (Ok tt, st')) /\
  let t := Utf8.toString body in
  (Utf8.wellFormed body = true -> t = body) /\
  exists saved,
    Fs.stat (locate w (Path.join dest (filepath f))) (fs st')
      = Some (Fs.IsFile saved) /\
    In (Write (Path.join dest (filepath f)) saved) (trace st') /\
    (forall pre run post,
       t = pre ++ run ++ post ->
       country_run Chars.letter run ->
       (forall pre' run' post',
          t = pre' ++ run' ++ post' -> country_run Chars.letter run' ->
          String.length pre <= String.length pre') ->
       saved = pre ++ AMP_ISO_COUNTRY_HOTPATCH ++ post) /\
    ((forall pre run post,
        t = pre ++ run ++ post -> ~ country_run Chars.letter run) ->
     saved = t).
Proof.
  intros w f dest st st' body.
  assert (H1 : Regex.test Literals.re_amp_geo (filepath f) = true)
    by (vm_compute; reflexivity).
  assert (H2 : fetch_ w (fetches st) (url f) = Response true (BodyOk body))
    by (vm_compute; reflexivity).
  assert (H3 : fetchAndSaveAsync_ w f dest st = (Ok tt, st'))
    by (vm_compute; reflexivity).
  exact (conj (conj H1 (conj H2 H3)) (C2_undo_hotpatch w f dest st H1 H2 H3)).
Defined.

(* ================================================================== *)
(** ** The downloads *)
(* ================================================================== *)

Lemma run_all_length {A B} (g : A -> M B) l :
  (forall a, survives (g a)) ->
  forall st outs st',
    run_all g l st = (outs, st') -> List.length outs = List.length l.
Proof.
  intros Hg. induction l as [|a l IH]; intros st outs st'.
  - intros H. now injection H as <- _.
  - rewrite run_all_cons by apply Hg.
    destruct (g a st) as [o st1]. destruct (run_all g l st1) as [os st2] eqn:E.
    intros H. injection H as <- _. simpl. f_equal. exact (IH _ _ _ E).
Qed.

(** The way through the blocks of a plan that goes on to the downloads. *)
Lemma planDownload_inv w o st r dest files st4 :
  planDownload w o st = (Ok (inr (r, dest, files)), st4) ->
  exists r1 st1 r2 v st2 r3 base st3,
    validateDestination w o st = (Ok (inr (r1, dest)), st1) /\
    resolveVersion w o r1 st1 = (Ok (inr (r2, v)), st2) /\
    resolveOrigin w o r2 v st2 = (Ok (inr (r3, base)), st3) /\
    fetchFilesListing w r3 base st3 = (Ok (inr (r, files)), st4).
Proof.
  unfold planDownload, andThen, bind, ret.
  destruct (validateDestination w o st) as [[[r1|[r1 d]]|m1|] st1] eqn:E1;
    try discriminate.
  destruct (resolveVersion w o r1 st1) as [[[r2|[r2 v]]|m2|] st2] eqn:E2;
    try discriminate.
  destruct (resolveOrigin w o r2 v st2) as [[[r3|[r3 base]]|m3|] st3] eqn:E3;
    try discriminate.
  destruct (fetchFilesListing w r3 base st3) as [[[r4|[r4 fs4]]|m4|] st4'] eqn:E4;
    try discriminate.
  intros H. injection H as <- <- <- <-.
  exists r1, st1, r2, v, st2, r3, base, st3. repeat split; assumption.
Qed.

(** The object a plan hands to the downloads. *)
Lemma planDownload_fields w o st r dest files st4 :
  planDownload w o st = (Ok (inr (r, dest, files)), st4) ->
  Ret.status r = false /\ Ret.error r = "" /\
  Ret.count r = List.length files /\ Ret.dest r = Some dest /\
  listsItself files = true /\
  exists t, files = parseFilesListing (Ret.url r) t.
Proof.
  intros H.
  destruct (planDownload_inv _ _ _ H)
    as (r1 & st1 & r2 & v & st2 & r3 & base & st3 & H1 & H2 & H3 & H4).
  pose proof (validateDestination_inv _ _ _ H1) as (_ & _ & -> & _).
  pose proof (resolveVersion_inv _ _ _ _ H2) as (-> & _).
  pose proof (resolveOrigin_inv _ _ _ _ _ H3) as (-> & _).
  pose proof (fetchFilesListing_inv _ _ _ _ H4) as (-> & Hl & t & _ & Ht).
  repeat split; [exact Hl|]. now exists (Utf8.toString t).
Qed.

(** *** The fetches of line 189 *)

Lemma fetch_eq w u st :
  fetch w u st =
  (answer (fetch_ w (fetches st) u),
   {| fs := fs st; trace := (trace st ++ [Fetch u])%list;
      fetches := S (fetches st) |}).
Proof. unfold fetch. now destruct (fetch_ w (fetches st) u). Qed.

(** The fetches are made in the order of the listing, and nothing else
    happens meanwhile. *)
Lemma fetch_all w files : forall st,
  run_all (fun f => fetch w (url f)) files st =
  (answers w (fetches st) files,
   {| fs := fs st;
      trace := (trace st ++ map (fun f => Fetch (url f)) files)%list;
      fetches := fetches st + List.length files |}).
Proof.
  induction files as [|f files IH]; intros st.
  - simpl. rewrite app_nil_r, Nat.add_0_r. now destruct st.
  - rewrite run_all_cons by apply survives_fetch.
    rewrite fetch_eq, IH. cbn [fs trace fetches answers map List.length].
    rewrite <- app_assoc, Nat.add_succ_r. reflexivity.
Qed.

Lemma answers_nth w files : forall n i f,
  nth_error files i = Some f ->
  nth_error (answers w n files) i = Some (answer (fetch_ w (n + i) (url f))).
Proof.
  induction files as [|g files IH]; intros n [|i] f; simpl; try discriminate.
  - intros H. injection H as ->. now rewrite Nat.add_0_r.
  - intros H. rewrite (IH (S n) i f H). do 3 f_equal. lia.
Qed.

Lemma combine_nth_error {A B} (l : list A) : forall (l' : list B) i a b,
  nth_error l i = Some a -> nth_error l' i = Some b ->
  nth_error (combine l l') i = Some (a, b).
Proof.
  induction l as [|x l IH]; intros [|y l'] [|i] a b; simpl; try discriminate.
  - intros H1 H2. now injection H1 as ->; injection H2 as ->.
  - apply IH.
Qed.

Lemma combine_nth_error_some {A B} (l : list A) : forall (l' : list B) i a b,
  nth_error (combine l l') i = Some (a, b) ->
  nth_error l i = Some a /\ nth_error l' i = Some b.
Proof.
  induction l as [|x l IH]; intros [|y l'] [|i] a b; simpl; try discriminate.
  - intros H. now injection H as -> ->.
  - apply IH.
Qed.

(** *** The order in which the downloads go on *)

Lemma insert_by_In time i l x :
  In x (insert_by time i l) <-> x = i \/ In x l.
Proof.
  induction l as [|j l IH]; simpl.
  - intuition.
  - destruct (Nat.leb (time i) (time j)); simpl; [intuition|].
    rewrite IH. intuition.
Qed.

Lemma insert_by_NoDup time i l :
  ~ In i l -> NoDup l -> NoDup (insert_by time i l).
Proof.
  induction l as [|j l IH]; simpl; intros Hi Hl.
  - constructor; [intros []|constructor].
  - destruct (Nat.leb (time i) (time j)).
    + constructor; assumption.
    + inversion Hl as [|? ? Hj Hl']; subst. constructor.
      * rewrite insert_by_In. intros [->|H]; [apply Hi; now left | now apply Hj].
      * apply IH; [intros H; apply Hi; now right | exact Hl'].
Qed.

Lemma sorted_seq_In time n : forall a i,
  In i (fold_right (insert_by time) [] (seq a n)) <-> a <= i < a + n.
Proof.
  induction n as [|n IH]; intros a i; simpl.
  - split; [intros [] | lia].
  - rewrite insert_by_In, IH. lia.
Qed.

Lemma sorted_seq_NoDup time n : forall a,
  NoDup (fold_right (insert_by time) [] (seq a n)).
Proof.
  induction n as [|n IH]; intros a; simpl; [constructor|].
  apply insert_by_NoDup; [|apply IH].
  rewrite sorted_seq_In. lia.
Qed.

(** Every download goes on, once. *)
Lemma settling_order_In time n i : In i (settling_order time n) <-> i < n.
Proof. unfold settling_order. rewrite sorted_seq_In. lia. Qed.

Lemma settling_order_NoDup time n : NoDup (settling_order time n).
Proof. apply sorted_seq_NoDup. Qed.

(** *** Loops *)

Lemma forEach_app {A} (f : A -> M unit) l1 l2 : forall st,
  forEach f (l1 ++ l2) st = (forEach f l1 ;; forEach f l2) st.
Proof.
  induction l1 as [|a l1 IH]; intros st; simpl; [reflexivity|].
  unfold bind.
  destruct (f a st) as [[[]|m|] s1]; [|reflexivity..].
  rewrite IH. reflexivity.
Qed.

(** A loop that comes to its end went through each of its rounds. *)
Lemma forEach_ok_split {A} (f : A -> M unit) l1 x l2 st st' :
  forEach f (l1 ++ x :: l2) st = (Ok tt, st') ->
  exists sa sb,
    forEach f l1 st = (Ok tt, sa) /\ f x sa = (Ok tt, sb) /\
    forEach f l2 sb = (Ok tt, st').
Proof.
  rewrite forEach_app. unfold bind at 1.
  destruct (forEach f l1 st) as [[[]|m|] sa]; try discriminate.
  simpl. unfold bind at 1.
  destruct (f x sa) as [[[]|m|] sb] eqn:E; try discriminate.
  intros H. now exists sa, sb.
Qed.

(** A loop that comes to its end keeps what each of its rounds keeps. *)
Lemma forEach_ok_invariant {A} (f : A -> M unit) (P : State -> Prop) l :
  (forall x st st', In x l -> f x st = (Ok tt, st') -> P st -> P st') ->
  forall st st', forEach f l st = (Ok tt, st') -> P st -> P st'.
Proof.
  induction l as [|x l IH]; intros Hf st st'; simpl.
  - unfold ret. intros H. now injection H as <-.
  - unfold bind. destruct (f x st) as [[[]|m|] s1] eqn:E; try discriminate.
    intros H HP. apply (IH (fun y a b Hy => Hf y a b (or_intror Hy)) s1 st' H).
    exact (Hf x st s1 (or_introl eq_refl) E HP).
Qed.

(** *** One download *)

(** A download that resolves: the response was a success whose body came
    whole; the events are the opening of the stream and the write of what
    is saved, and the file holds what was saved. *)
Lemma saveResponse_ok w f dest res st st' :
  saveResponse w f dest res st = (Ok tt, st') ->
  let fullpath := Path.join dest (filepath f) in
  exists content,
    res = (true, BodyOk content) /\
    trace st' = (trace st ++ [OpenWrite fullpath;
                              Write fullpath (saved f content)])%list /\
    Fs.stat (locate w fullpath) (fs st') = Some (Fs.IsFile (saved f content)) /\
    fetches st' = fetches st.
Proof.
  unfold saveResponse, saved, bind, try_catch.
  destruct res as [[|] b]; cbn [fst snd negb]; [|discriminate].
  unfold createWriteStream, writeStream, fs_call, text, ret, throw, die.
  cbn [fs trace fetches].
  destruct (fault w (OpenWrite _)).
  { destruct (Regex.test _ _); [|destruct b]; discriminate. }
  destruct (Fs.write "" _ _) as [t1|]; cbn [or_fail].
  2:{ destruct (Regex.test _ _); [|destruct b]; discriminate. }
  destruct (Regex.test Literals.re_amp_geo (filepath f)).
  - destruct b as [content|partial msg]; [|discriminate].
    cbn [fs trace fetches].
    destruct (fault w (Write _ _)); [discriminate|].
    destruct (Fs.write (undoHotpatch (Utf8.toString content))
                       (locate w (Path.join dest (filepath f))) t1)
      as [t2|] eqn:E2; cbn [or_fail]; [|discriminate].
    intros H. injection H as <-. cbn [fs trace fetches].
    exists content. repeat split.
    + now rewrite <- !app_assoc.
    + exact (stat_write_same _ _ _ E2).
  - destruct b as [content|partial msg]; cbn [fs trace fetches].
    + destruct (fault w (Write _ _)); [discriminate|].
      destruct (Fs.write content (locate w (Path.join dest (filepath f))) t1)
        as [t2|] eqn:E2; cbn [or_fail]; [|discriminate].
      intros H. injection H as <-. cbn [fs trace fetches].
      exists content. repeat split.
      * now rewrite <- !app_assoc.
      * exact (stat_write_same _ _ _ E2).
    + destruct (fault w (Write _ _)); [discriminate|].
      destruct (Fs.write partial (locate w (Path.join dest (filepath f))) t1);
        cbn [or_fail]; discriminate.
Qed.

Lemma resume_ok w dest f r st st' :
  resume w dest (f, r) st = (Ok tt, st') ->
  exists res, r = Ok res /\ saveResponse w f dest res st = (Ok tt, st').
Proof.
  unfold resume. cbn [fst snd]. destruct r as [res|msg|]; try discriminate.
  intros H. now exists res.
Qed.

(** One call of the method on its own. *)
Lemma fetchAndSave_ok w f dest st st' :
  fetchAndSaveAsync_ w f dest st = (Ok tt, st') ->
  let fullpath := Path.join dest (filepath f) in
  exists content,
    fetch_ w (fetches st) (url f) = Response true (BodyOk content) /\
    trace st' = (trace st ++ [Fetch (url f); OpenWrite fullpath;
                              Write fullpath (saved f content)])%list /\
    Fs.stat (locate w fullpath) (fs st') = Some (Fs.IsFile (saved f content)) /\
    fetches st' = S (fetches st).
Proof.
  unfold fetchAndSaveAsync_, bind at 1. rewrite fetch_eq.
  destruct (fetch_ w (fetches st) (url f)) as [ok b|msg]; cbn [answer];
    [|discriminate].
  intros H. destruct (saveResponse_ok _ _ _ _ _ H) as (content & E & T & S & F).
  injection E as -> ->. exists content. cbn [trace fetches] in T, F.
  rewrite <- app_assoc in T. repeat split; assumption.
Qed.

(** The events of the listing block when it goes on. *)
Lemma fetchFilesListing_trace w r base st r' files st' :
  fetchFilesListing w r base st = (Ok (inr (r', files)), st') ->
  trace st' = (trace st ++ [Fetch (base ++ FRAMEWORK_FILES_TXT);
                            LogInfo ("AMP framework contains "
                                       ++ string_of_nat (List.length files)
                                       ++ " files")])%list /\
  fetches st' = S (fetches st) /\ fs st' = fs st.
Proof.
  unfold fetchFilesListing, andThen, try_catch, fetch, text, fail, bind,
    log_info, log_error, emit, ret, throw.
  destruct (fetch_ w (fetches st) (base ++ FRAMEWORK_FILES_TXT))
    as [[|] [t|partial msg]|msg]; cbn [fst snd negb]; try discriminate.
  destruct (listsItself (parseFilesListing base (Utf8.toString t)));
    cbn [negb]; [|discriminate].
  intros H. injection H as _ <- <-. cbn [fs trace fetches].
  repeat split. now rewrite <- app_assoc.
Qed.

(** *** The last blocks only add events to the trace *)

Lemma extends_by_fetched P st :
  extends_by P st {| fs := fs st; trace := trace st; fetches := S (fetches st) |}.
Proof. exists []. split; [simpl; now rewrite app_nil_r | constructor]. Qed.

Ltac extends_side :=
  first [ exact (extends_by_refl any_event)
        | exact (@extends_by_trans any_event)
        | exact (@extends_by_logged any_event)
        | exact (@extends_by_fs any_event)
        | exact (extends_by_fetched any_event)
        | intros; exact I ].

Lemma clearDirectory_extends w dirpath :
  respects (extends_by any_event) (clearDirectory_ w dirpath).
Proof.
  apply (@respects_clearDirectory (extends_by any_event) any_event any_change);
    extends_side.
Qed.

Lemma createSubdirectories_extends w files dest :
  respects (extends_by any_event) (createSubdirectories_ w files dest).
Proof.
  apply (@respects_createSubdirectories (extends_by any_event) any_event
           any_change); extends_side.
Qed.

Lemma prepareDestination_extends w clear dest files :
  respects (extends_by any_event) (prepareDestination w clear dest files).
Proof.
  unfold prepareDestination.
  apply (@respects_bind (extends_by any_event)); [extends_side| |].
  - destruct (not_false clear); [apply clearDirectory_extends|].
    apply (@respects_ret (extends_by any_event)); extends_side.
  - intros _. apply createSubdirectories_extends.
Qed.

Lemma fetchAndSave_extends w f dest :
  respects (extends_by any_event) (fetchAndSaveAsync_ w f dest).
Proof.
  apply (@respects_fetchAndSaveAsync (extends_by any_event) any_event
           any_change); extends_side.
Qed.

Lemma resume_extends w dest p :
  respects (extends_by any_event) (resume w dest p).
Proof.
  apply (@respects_resume (extends_by any_event) any_event any_change);
    extends_side.
Qed.

(** *** The count of fetches *)

Ltac fetches_side :=
  unfold more_fetches;
  first [ intros; exact I
        | intros; cbn [fetches logged]; lia ].

Lemma prepareDestination_more_fetches w clear dest files :
  respects more_fetches (prepareDestination w clear dest files).
Proof.
  unfold prepareDestination.
  apply (@respects_bind more_fetches); [fetches_side| |].
  - destruct (not_false clear).
    + apply (@respects_clearDirectory more_fetches any_event any_change);
        fetches_side.
    + apply (@respects_ret more_fetches); fetches_side.
  - intros _.
    apply (@respects_createSubdirectories more_fetches any_event any_change);
      fetches_side.
Qed.

Lemma fetchAndSave_more_fetches w f dest :
  respects more_fetches (fetchAndSaveAsync_ w f dest).
Proof.
  apply (@respects_fetchAndSaveAsync more_fetches any_event any_change);
    fetches_side.
Qed.

Ltac same_fetches_side :=
  unfold same_fetches;
  first [ intros; exact I
        | intros; reflexivity
        | intros; etransitivity; eassumption ].

(** The preparation of the destination fetches nothing. *)
Lemma prepareDestination_same_fetches w clear dest files :
  respects same_fetches (prepareDestination w clear dest files).
Proof.
  unfold prepareDestination.
  apply (@respects_bind same_fetches); [same_fetches_side| |].
  - destruct (not_false clear).
    + apply (@respects_clearDirectory same_fetches any_event any_change);
        same_fetches_side.
    + apply (@respects_ret same_fetches); same_fetches_side.
  - intros _.
    apply (@respects_createSubdirectories same_fetches any_event any_change);
      same_fetches_side.
Qed.

(** *** A file that was saved is still a file when the downloads end *)

Lemma write_file_stays q c p t t' :
  Fs.write c p t = Some t' -> file_stays q t t'.
Proof.
  intros H (c0 & Hq). destruct (list_eq_dec string_dec q p) as [->|N].
  - exists c. exact (@stat_write_same _ _ _ _ H).
  - exists c0. exact (@stat_write_other _ _ _ _ _ _ H N Hq).
Qed.

Lemma fetchAndSave_file_stays q w f dest :
  respects (file_stays_st q) (fetchAndSaveAsync_ w f dest).
Proof.
  apply (@respects_fetchAndSaveAsync (file_stays_st q) any_event (file_stays q));
    unfold file_stays_st, file_stays; cbn [fs logged];
    try solve [intros; exact I | intros; assumption | intros; auto].
  intros c t t' H. exact (write_file_stays q _ _ _ H).
Qed.

Lemma resume_file_stays q w dest p :
  respects (file_stays_st q) (resume w dest p).
Proof.
  apply (@respects_resume (file_stays_st q) any_event (file_stays q));
    unfold file_stays_st, file_stays; cbn [fs logged];
    try solve [intros; exact I | intros; assumption | intros; auto].
  intros c t t' H. exact (write_file_stays q _ _ _ H).
Qed.

(** A download leaves what is elsewhere as it was. *)
Lemma resume_kept q w dest p :
  locate w (Path.join dest (filepath (fst p))) <> q ->
  respects (kept_st q) (resume w dest p).
Proof.
  intros Hq.
  apply (@respects_resume (kept_st q) any_event (kept q));
    unfold kept_st, kept; cbn [fs logged];
    try solve [intros; exact I | intros; assumption | intros; auto].
  intros c t t' H k Hk.
  exact (@stat_write_other c _ t t' q k H (not_eq_sym Hq) Hk).
Qed.

(** A plan that makes the run return reports a failure. *)
Lemma planDownload_inl w o st r st' :
  planDownload w o st = (Ok (inl r), st') -> Ret.status r = false.
Proof.
  unfold planDownload, andThen, bind, ret.
  destruct (validateDestination w o st) as [[[r1|[r1 d]]|m1|] st1] eqn:E1;
    try discriminate.
  { intros H. injection H as <- _.
    now pose proof (validateDestination_inv _ _ _ E1) as (? & ? & _ & ->). }
  pose proof (validateDestination_inv _ _ _ E1) as (_ & _ & -> & _).
  destruct (resolveVersion w o _ st1) as [[[r2|[r2 v]]|m2|] st2] eqn:E2;
    try discriminate.
  { intros H. injection H as <- _.
    now pose proof (resolveVersion_inv _ _ _ _ E2) as (? & ->). }
  pose proof (resolveVersion_inv _ _ _ _ E2) as (-> & _).
  destruct (resolveOrigin w o _ v st2) as [[[r3|[r3 base]]|m3|] st3] eqn:E3;
    try discriminate.
  { intros H. injection H as <- _.
    now pose proof (resolveOrigin_inv _ _ _ _ _ E3) as (? & ->). }
  pose proof (resolveOrigin_inv _ _ _ _ _ E3) as (-> & _).
  destruct (fetchFilesListing w _ base st3) as [[[r4|[r4 fs4]]|m4|] st4] eqn:E4;
    try discriminate.
  intros H. injection H as <- _.
  now pose proof (fetchFilesListing_inv _ _ _ _ E4) as (? & ->).
Qed.

(** A run that returns either stopped in its plan, or went through the
    preparation of the destination and the downloads. *)
Lemma run_shape w o st r st' :
  getFramework w o st = (Ok r, st') ->
  (planDownload w o st = (Ok (inl r), st') /\ Ret.status r = false) \/
  exists r4 dest files st4 st5,
    planDownload w o st = (Ok (inr (r4, dest, files)), st4) /\
    prepareDestination w (Options.clear o) dest files st4 = (Ok tt, st5) /\
    downloadFiles w r4 dest files st5 = (Ok r, st').
Proof.
  unfold getFramework, bind.
  destruct (planDownload w o st) as [[[r1|[[r4 dest] files]]|m|] st4] eqn:E;
    try discriminate.
  - unfold ret. intros H. injection H as <- <-. left.
    split; [reflexivity | exact (planDownload_inl _ _ _ E)].
  - destruct (prepareDestination w (Options.clear o) dest files st4)
      as [[[]|m|] st5] eqn:E5; [|discriminate..].
    intros H. right. now exists r4, dest, files, st4, st5.
Qed.

Lemma parseFilesListing_url base t f :
  In f (parseFilesListing base t) -> url f = base ++ filepath f.
Proof.
  unfold parseFilesListing. rewrite in_map_iff.
  now intros (L & <- & _).
Qed.

(** The downloads of a run that succeeds: every fetch was made, and every
    download went on to its end. *)
Lemma downloadFiles_ok w r dest files st r' st' :
  downloadFiles w r dest files st = (Ok r', st') ->
  Ret.status r = false ->
  Ret.status r' = true ->
  exists s1 s2,
    s1 = {| fs := fs st;
            trace := (trace st ++ LogInfo "Downloading AMP framework..."
                        :: map (fun f => Fetch (url f)) files)%list;
            fetches := fetches st + List.length files |} /\
    settleDownloads w dest files (answers w (fetches st) files) s1
      = (Ok tt, s2) /\
    r' = Ret.set_status r true /\
    st' = logged (LogInfo ("AMP framework download complete: " ++ dest)) s2.
Proof.
  intros H Hr Hr'.
  rewrite (@downloadFiles_inv w r dest files st _ _ (fetch_all w files _)) in H.
  cbn [fs trace fetches logged] in H.
  rewrite <- app_assoc in H. cbn [app] in H.
  destruct (settleDownloads _ _ _ _ _) as [[[]|msg|] s2] eqn:E in H;
    [| |discriminate].
  - injection H as <- <-. eexists _, s2. repeat split. exact E.
  - injection H as <- _. cbn in Hr'. congruence.
Qed.

(** Once a file holds what was saved for an entry, it does to the end of
    the downloads. *)
Lemma rounds_hold w dest files n q l st st' :
  forEach (fun i => match nth_error (combine files (answers w n files)) i with
                    | Some p => resume w dest p
                    | None => ret tt
                    end) l st = (Ok tt, st') ->
  holds_an_entry w dest files n q st ->
  holds_an_entry w dest files n q st'.
Proof.
  apply forEach_ok_invariant. clear st st'.
  intros j st st' _.
  destruct (nth_error (combine files (answers w n files)) j) as [[g rg]|] eqn:Ej.
  - intros H HP.
    destruct (combine_nth_error_some _ _ _ Ej) as (Hg & Ha).
    rewrite (answers_nth w files n j Hg) in Ha. injection Ha as <-.
    destruct (list_eq_dec string_dec
                (locate w (Path.join dest (filepath g))) q) as [Eq|Nq].
    + destruct (resume_ok _ _ _ _ _ H) as (res & Er & Hs).
      destruct (saveResponse_ok _ _ _ _ _ Hs) as (c & -> & _ & Hstat & _).
      exists j, g, c. split; [exact Hg|]. split; [exact Eq|]. split.
      * destruct (fetch_ w (n + j) (url g)) as [ok b|msg]; cbn [answer] in Er;
          [now injection Er as -> -> | discriminate].
      * now rewrite <- Eq.
    + destruct HP as (j0 & g0 & c0 & H1 & H2 & H3 & H4).
      exists j0, g0, c0. repeat split; try assumption.
      exact (@resume_kept q w dest (g, answer (fetch_ w (n + j) (url g)))
               Nq st _ st' H _ H4).
  - unfold ret. intros H. now injection H as <-.
Qed.

(** In a run of the downloads that comes to its end, the download of each
    entry went on at some point, from a state [sa] to a state [sb], and
    the other downloads went on before and after. *)
Lemma settleDownloads_each w dest files n s1 s2 i f :
  settleDownloads w dest files (answers w n files) s1 = (Ok tt, s2) ->
  nth_error files i = Some f ->
  exists l1 l2 sa sb content,
    settling_order (settle_fetch w) (List.length files) = (l1 ++ i :: l2)%list /\
    fetch_ w (n + i) (url f) = Response true (BodyOk content) /\
    saveResponse w f dest (true, BodyOk content) sa = (Ok tt, sb) /\
    extends_by any_event s1 sa /\ extends_by any_event sb s2 /\
    (forall q, file_stays_st q sb s2) /\
    (forall q,
       (forall j g, nth_error files j = Some g ->
          locate w (Path.join dest (filepath g)) = q -> j = i) ->
       q = locate w (Path.join dest (filepath f)) ->
       kept_st q sb s2) /\
    holds_an_entry w dest files n (locate w (Path.join dest (filepath f))) s2.
Proof.
  intros H Hf.
  assert (Hi : In i (settling_order (settle_fetch w) (List.length files))).
  { apply settling_order_In. apply nth_error_Some. congruence. }
  destruct (in_split _ _ Hi) as (l1 & l2 & Eo).
  pose proof (settling_order_NoDup (settle_fetch w) (List.length files)) as Nd.
  unfold settleDownloads in H. rewrite Eo in H, Nd.
  destruct (forEach_ok_split _ _ _ _ _ H) as (sa & sb & H1 & Hx & H2).
  rewrite (combine_nth_error _ _ _ Hf (answers_nth w files n i Hf)) in Hx.
  destruct (resume_ok _ _ _ _ _ Hx) as (res & Er & Hs).
  destruct (saveResponse_ok _ _ _ _ _ Hs) as (content & -> & _).
  assert (Ef : fetch_ w (n + i) (url f) = Response true (BodyOk content)).
  { destruct (fetch_ w (n + i) (url f)) as [ok b|msg]; cbn [answer] in Er;
      [now injection Er as -> -> | discriminate]. }
  assert (Hround : forall j,
    respects (extends_by any_event)
      (match nth_error (combine files (answers w n files)) j with
       | Some p => resume w dest p
       | None => ret tt
       end)).
  { intros j. destruct (nth_error (combine files (answers w n files)) j);
      [apply resume_extends | apply (@respects_ret (extends_by any_event))];
      extends_side. }
  exists l1, l2, sa, sb, content.
  split; [exact Eo|]. split; [exact Ef|]. split; [exact Hs|].
  split; [|split; [|split; [|split]]].
  - eapply (@respects_forEach (extends_by any_event)); [extends_side..| |exact H1].
    intros j _. apply Hround.
  - eapply (@respects_forEach (extends_by any_event)); [extends_side..| |exact H2].
    intros j _. apply Hround.
  - intros q.
    eapply (@respects_forEach (file_stays_st q)); [| | |exact H2].
    + intros st. unfold file_stays_st, file_stays. auto.
    + intros a b c. unfold file_stays_st, file_stays. auto.
    + intros j _. cbv beta.
      destruct (nth_error (combine files (answers w n files)) j);
        [apply resume_file_stays|].
      apply (@respects_ret (file_stays_st q)).
      intros st. unfold file_stays_st, file_stays. auto.
  - intros q Hq Eq.
    eapply (@respects_forEach (kept_st q)); [| | |exact H2].
    + intros st k. auto.
    + intros a b c Hab Hbc k Hk. apply Hbc, Hab, Hk.
    + intros j Hj. cbv beta.
      destruct (nth_error (combine files (answers w n files)) j)
        as [[g rg]|] eqn:Ej.
      * apply resume_kept. cbn [fst]. intros Eg.
        assert (Hg : nth_error files j = Some g).
        { clear - Ej. revert j Ej. generalize (answers w n files).
          induction files as [|x files IH]; intros [|y l] [|j]; simpl;
            try discriminate.
          - intros H. now injection H as -> _.
          - apply IH. }
        pose proof (Hq j g Hg Eg) as ->.
        apply NoDup_remove_2 in Nd. apply Nd, in_or_app. now right.
      * apply (@respects_ret (kept_st q)). intros st k. auto.
  - eapply rounds_hold; [exact H2|].
    destruct (saveResponse_ok _ _ _ _ _ Hs) as (c & Ec & _ & Hstat & _).
    injection Ec as <-. now exists i, f, content.
Qed.

(** What the downloads come to.  When the plan is made and the
    destination prepared, every fetch is made, and the run returns with
    the [count] of the listing whatever comes of the downloads: with
    [status] set when every download resolves, with the message of the
    download that rejected first otherwise.  It returns nothing when a
    download ends the process before any rejects. *)
Lemma downloads_outcome w o st r dest files st3 st4 :
  planDownload w o st = (Ok (inr (r, dest, files)), st3) ->
  prepareDestination w (Options.clear o) dest files st3 = (Ok tt, st4) ->
  let s1 :=
    {| fs := fs st4;
       trace := (trace st4 ++ LogInfo "Downloading AMP framework..."
                   :: map (fun f => Fetch (url f)) files)%list;
       fetches := fetches st4 + List.length files |} in
  match settleDownloads w dest files (answers w (fetches st4) files) s1 with
  | (Ok _, s2) =>
      exists r',
        getFramework w o st
        = (Ok r', logged (LogInfo ("AMP framework download complete: "
                                     ++ dest)) s2) /\
        Ret.status r' = true /\ Ret.error r' = "" /\
        Ret.count r' = List.length files
  | (Throw msg, s2) =>
      let e := "Failed to download AMP framework" ++ NL ++ msg in
      exists r',
        getFramework w o st = (Ok r', logged (LogError e) s2) /\
        Ret.status r' = false /\ Ret.error r' = e /\
        Ret.count r' = List.length files
  | (Dies, s2) => getFramework w o st = (Dies, s2)
  end.
Proof.
  intros Hplan Hprep s1.
  destruct (planDownload_fields _ _ _ Hplan) as (Hs & He & Hc & _).
  assert (Hget : getFramework w o st = downloadFiles w r dest files st4).
  { unfold getFramework, bind. rewrite Hplan. cbn beta iota.
    now rewrite Hprep. }
  rewrite Hget.
  rewrite (@downloadFiles_inv w r dest files st4 _ _ (fetch_all w files _)).
  cbn [fs trace fetches logged]. rewrite <- app_assoc. cbn [app]. fold s1.
  destruct (settleDownloads w dest files (answers w (fetches st4) files) s1)
    as [[[]|msg|] s2].
  - eexists. split; [reflexivity|]. cbn. repeat split; assumption.
  - eexists. split; [reflexivity|]. cbn. repeat split; assumption.
  - reflexivity.
Qed.

(** An error at the opening of the stream: the download of the
    geolocation helper ends the process, that of any other file rejects
    with the error. *)
Lemma stream_cannot_be_opened w f dest b st msg st1 :
  createWriteStream w (Path.join dest (filepath f)) st = (Throw msg, st1) ->
  saveResponse w f dest (true, b) st
  = (if Regex.test Literals.re_amp_geo (filepath f) then Dies else Throw msg,
     st1).
Proof.
  intros H. unfold saveResponse, bind, try_catch. cbn [fst snd negb].
  rewrite H. unfold ret, die, throw.
  now destruct (Regex.test Literals.re_amp_geo (filepath f)).
Qed.

(** C4.  The request of the sample with [clear: false], on a destination
    where a directory stands in the place of a file of the listing.  When
    the file is [v0.js], the download rejects and the run returns the
    failure the claim describes: [status] is [false], [count] is the
    number of entries and [error] carries the message of the stream.  When
    the file is the geolocation helper, the same error of the stream ends
    the process: the promise of the run has no outcome. *)
Theorem C4_stream_error_ends_the_process :
  let w := Sample.world in
  let o := Sample.options_keep in
  Regex.test Literals.re_amp_geo "v0/amp-geo-0.1.js" = true /\
  Regex.test Literals.re_amp_geo "v0.js" = false /\
  (exists r st',
     getFramework w o Sample.script_is_a_directory = (Ok r, st') /\
     Ret.status r = false /\ Ret.count r = 3 /\
     Ret.error r = "Failed to download AMP framework" ++ NL
                     ++ EISDIR "open" "out/v0.js") /\
  (exists st',
     getFramework w o Sample.helper_is_a_directory = (Dies, st') /\
     List.last (trace st') (LogInfo "") = OpenWrite "out/v0/amp-geo-0.1.js").
Proof.
  intros w o. split; [reflexivity|]. split; [reflexivity|]. split.
  - eexists _, _. split; [vm_compute; reflexivity|]. repeat split.
  - eexists. split; [vm_compute; reflexivity|]. reflexivity.
Qed.

(** C9.  On a run that succeeds, the listing that was fetched names
    [files.txt] with the URL the listing itself was fetched from, and every
    entry of the listing, this one included, is downloaded after the
    listing was fetched.  For the entry at position [i]: the trace holds
    the fetch of the listing and, later, the fetch of the entry, which is
    the fetch number [i] after that of the listing; later the opening of
    its file under the destination; later the write of the body this fetch
    answered (its text, patched, for the geolocation helper; the body as
    it is for any other entry, [files.txt] among them).  At the end a file
    is there: it holds what was written for an entry of the listing whose
    path leads to that place, and so for this entry when no other entry
    of the listing leads there.  So [files.txt] is fetched a second time
    and saved like the other entries. *)
Theorem C9_listing_is_downloaded w o st r st' :
  getFramework w o st = (Ok r, st') ->
  Ret.status r = true ->
  let listingUrl := Ret.url r ++ FRAMEWORK_FILES_TXT in
  exists dest body,
    Ret.dest r = Some dest /\
    fetch_ w (fetches st) listingUrl = Response true (BodyOk body) /\
    let files := parseFilesListing (Ret.url r) (Utf8.toString body) in
    In {| filepath := FRAMEWORK_FILES_TXT; url := listingUrl |} files /\
    Regex.test Literals.re_amp_geo FRAMEWORK_FILES_TXT = false /\
    forall i f, nth_error files i = Some f ->
      let fullpath := Path.join dest (filepath f) in
      exists before between later during after content,
        trace st' = (trace st ++ before ++ Fetch listingUrl :: between
                       ++ Fetch (url f) :: later ++ OpenWrite fullpath
                       :: during ++ Write fullpath (saved f content)
                       :: after)%list /\
        fetch_ w (S (fetches st) + i) (url f)
          = Response true (BodyOk content) /\
        (exists j g c,
           nth_error files j = Some g /\
           locate w (Path.join dest (filepath g)) = locate w fullpath /\
           fetch_ w (S (fetches st) + j) (url g)
             = Response true (BodyOk c) /\
           Fs.stat (locate w fullpath) (fs st')
             = Some (Fs.IsFile (saved g c))) /\
        ((forall j g, nth_error files j = Some g ->
            locate w (Path.join dest (filepath g)) = locate w fullpath ->
            j = i) ->
         Fs.stat (locate w fullpath) (fs st')
           = Some (Fs.IsFile (saved f content))).
Proof.
  intros H Hs listingUrl.
  destruct (run_shape _ _ _ H)
    as [[_ Hf] | (r4 & dest & files & st4 & st5 & Hplan & Hprep & Hdown)];
    [congruence|].
  destruct (planDownload_fields _ _ _ Hplan) as (Hs4 & _ & _ & Hd4 & Hl & _).
  destruct (planDownload_inv _ _ _ Hplan)
    as (r1 & st1 & r2 & v & st2 & r3 & base & st3 & H1 & H2 & H3 & H4).
  pose proof (fetchFilesListing_inv _ _ _ _ H4) as (E4 & _ & body & Hft & Hfiles).
  destruct (fetchFilesListing_trace _ _ _ _ H4) as (T4 & F4 & _).
  pose proof (resolveOrigin_inv _ _ _ _ _ H3) as (E3 & _).
  assert (Hbase : Ret.url r4 = base) by (subst r4 r3; reflexivity).
  destruct (resolveVersion_quiet _ _ _ _ H2) as (Q2 & _ & F2).
  destruct (resolveOrigin_quiet _ _ _ _ _ H3) as (Q3 & _ & F3).
  pose proof (validateDestination_quiet _ _ _ H1) as Q1.
  pose proof (validateDestination_fetches _ _ _ H1) as F1.
  destruct (extends_by_trans (extends_by_trans Q1 Q2) Q3) as (e123 & T3 & _).
  destruct (prepareDestination_extends _ _ _ _ _ Hprep) as (e5 & T5 & _).
  pose proof (@prepareDestination_same_fetches w _ _ _ _ _ _ Hprep) as F5.
  unfold same_fetches in F5.
  destruct (downloadFiles_ok _ _ _ _ _ Hdown Hs4 Hs)
    as (s1 & s2 & Es1 & Hsettle & -> & ->).
  subst listingUrl. cbn [Ret.url Ret.dest Ret.set_status] in *.
  rewrite Hbase. exists dest, body. rewrite <- Hfiles. split; [exact Hd4|].
  split; [now rewrite <- F1, <- F2, <- F3|].
  split.
  { unfold listsItself in Hl. apply existsb_exists in Hl.
    destruct Hl as (f & Hin & Ef). apply String.eqb_eq in Ef.
    assert (Eu : url f = base ++ filepath f)
      by (apply (parseFilesListing_url base (Utf8.toString body));
          now rewrite <- Hfiles).
    destruct f as [fp fu]. cbn in Ef, Eu. subst fp fu. exact Hin. }
  split; [reflexivity|].
  intros i f Hi.
  destruct (settleDownloads_each _ _ _ _ _ _ Hsettle Hi)
    as (l1 & l2 & sa & sb & content & _ & Ef & Hsave
        & (ea & Ta & _) & (eb & Tb & _) & _ & Hkept & Hholds).
  destruct (saveResponse_ok _ _ _ _ _ Hsave) as (c' & Ec & Tsave & Hstat & _).
  injection Ec as <-.
  destruct (nth_error_split _ _ Hi) as (p1 & p2 & Ep & Lp).
  exists e123,
    (LogInfo ("AMP framework contains " ++ string_of_nat (List.length files)
                ++ " files")
       :: e5 ++ LogInfo "Downloading AMP framework..."
       :: map (fun f => Fetch (url f)) p1)%list,
    (map (fun f => Fetch (url f)) p2 ++ ea)%list,
    [],
    (eb ++ [LogInfo ("AMP framework download complete: " ++ dest)])%list,
    content.
  split; [|split; [|split]].
  - cbn [trace logged]. rewrite Tb, Tsave, Ta, Es1. cbn [trace].
    rewrite T5, T4, T3. rewrite Ep at 2. rewrite map_app. cbn [map].
    repeat (rewrite <- app_assoc; cbn [app]). reflexivity.
  - rewrite <- Ef. f_equal. rewrite F5, F4, F3, F2, F1. reflexivity.
  - destruct Hholds as (j & g & c & Hg & Eq & Eg & Hc).
    exists j, g, c. cbn [fs logged]. repeat split; try assumption.
    rewrite <- Eg. f_equal. rewrite F5, F4, F3, F2, F1. reflexivity.
  - intros Huniq. cbn [fs logged].
    apply (Hkept (locate w (Path.join dest (filepath f))) Huniq eq_refl).
    exact Hstat.
Qed.

(** The sample run succeeds. *)
Lemma C9_listing_is_downloaded_witness :
  let w := Sample.world in
  let o := Sample.options in
  let st := Sample.start in
  let r := Sample.result in
  let st' := Sample.final in
  (getFramework w o st = (Ok r, st') /\ Ret.status r = true) /\
  let listingUrl := Ret.url r ++ FRAMEWORK_FILES_TXT in
  exists dest body,
    Ret.dest r = Some dest /\
    fetch_ w (fetches st) listingUrl = Response true (BodyOk body) /\
    let files := parseFilesListing (Ret.url r) (Utf8.toString body) in
    In {| filepath := FRAMEWORK_FILES_TXT; url := listingUrl |} files /\
    Regex.test Literals.re_amp_geo FRAMEWORK_FILES_TXT = false /\
    forall i f, nth_error files i = Some f ->
      let fullpath := Path.join dest (filepath f) in
      exists before between later during after content,
        trace st' = (trace st ++ before ++ Fetch listingUrl :: between
                       ++ Fetch (url f) :: later ++ OpenWrite fullpath
                       :: during ++ Write fullpath (saved f content)
                       :: after)%list /\
        fetch_ w (S (fetches st) + i) (url f)
          = Response true (BodyOk content) /\
        (exists j g c,
           nth_error files j = Some g /\
           locate w (Path.join dest (filepath g)) = locate w fullpath /\
           fetch_ w (S (fetches st) + j) (url g)
             = Response true (BodyOk c) /\
           Fs.stat (locate w fullpath) (fs st')
             = Some (Fs.IsFile (saved g c))) /\
        ((forall j g, nth_error files j = Some g ->
            locate w (Path.join dest (filepath g)) = locate w fullpath ->
            j = i) ->
         Fs.stat (locate w fullpath) (fs st')
           = Some (Fs.IsFile (saved f content))).
Proof.
  intros w o st r st'.
  assert (H1 : getFramework w o st = (Ok r, st')) by (vm_compute; reflexivity).
  assert (H2 : Ret.status r = true) by reflexivity.
  exact (conj (conj H1 H2) (C9_listing_is_downloaded w o st H1 H2)).
Defined.

(* ================================================================== *)
(** ** Facts about paths *)
(* ================================================================== *)

Section SplitFacts.

Local Abbreviation split_go := (JsString.split_go "/" 0).

Lemma split_go_slash c s cur :
  split_go cur (String c s) =
  if Ascii.eqb c "/" then cur :: split_go "" s
  else split_go (cur ++ String c "") s.
Proof.
  cbn [JsString.split_go String.prefix].
  destruct (Ascii.eqb_spec c "/") as [->|N].
  - destruct (ascii_dec "/" "/"); [|contradiction]. now destruct s.
  - destruct (ascii_dec "/" c); [congruence | reflexivity].
Qed.

Lemma split_go_app a : forall cur b,
  split_go cur (a ++ String "/" b) = (split_go cur a ++ split_go "" b)%list.
Proof.
  induction a as [|c a IH]; intros cur b.
  - cbn [append]. now rewrite split_go_slash.
  - cbn [append]. rewrite !split_go_slash.
    destruct (Ascii.eqb c "/"); rewrite IH; reflexivity.
Qed.

Lemma no_slash_cons c s : no_slash (String c s) <-> c <> "/"%char /\ no_slash s.
Proof.
  unfold no_slash. cbn [list_ascii_of_string In]. split.
  - intros H. split; [intros ->; apply H; now left | intros Hs; apply H; now right].
  - intros [Hc Hs] [E|E]; [now apply Hc | now apply Hs].
Qed.

Lemma no_slash_append a b : no_slash a -> no_slash b -> no_slash (a ++ b).
Proof.
  induction a as [|c a IH]; [now intros|].
  cbn [append]. rewrite !no_slash_cons. intros [Hc Ha] Hb. auto.
Qed.

Lemma split_go_no_slash n : forall cur,
  no_slash n -> split_go cur n = [cur ++ n].
Proof.
  induction n as [|c n IH]; intros cur H.
  - now rewrite append_nil_r.
  - apply no_slash_cons in H. destruct H as [Hc Hn].
    rewrite split_go_slash. apply Ascii.eqb_neq in Hc. rewrite Hc.
    rewrite (IH _ Hn), append_assoc. reflexivity.
Qed.

Lemma split_go_pieces s : forall cur,
  no_slash cur -> Forall no_slash (split_go cur s).
Proof.
  induction s as [|c s IH]; intros cur H.
  - now repeat constructor.
  - rewrite split_go_slash. destruct (Ascii.eqb_spec c "/") as [->|N].
    + constructor; [exact H|]. apply IH. now intros [].
    + apply IH. apply no_slash_append; [exact H|].
      apply no_slash_cons. split; [exact N | now intros []].
Qed.

Lemma split_pieces s : Forall no_slash (JsString.split "/" s).
Proof. apply split_go_pieces. now intros []. Qed.

Lemma split_append d n :
  no_slash n ->
  JsString.split "/" (d ++ "/" ++ n) = (JsString.split "/" d ++ [n])%list.
Proof.
  intros H. unfold JsString.split. cbn [append].
  now rewrite split_go_app, (split_go_no_slash "" H).
Qed.

Lemma split_join x : forall L,
  Forall no_slash (x :: L) ->
  JsString.split "/" (JsString.join "/" (x :: L)) = x :: L.
Proof.
  unfold JsString.split, JsString.join. intros L. revert x.
  induction L as [|y L IH]; intros x H.
  - cbn [String.concat]. inversion H; subst. now apply split_go_no_slash.
  - inversion H as [|? ? Hx HL]; subst.
    change (String.concat "/" (x :: y :: L))
      with (x ++ String "/" (String.concat "/" (y :: L))).
    rewrite split_go_app, (split_go_no_slash "" Hx), (IH _ HL). reflexivity.
Qed.

Lemma split_slash_first s :
  JsString.split "/" (String "/" s) = "" :: JsString.split "/" s.
Proof. unfold JsString.split. now rewrite split_go_slash. Qed.

End SplitFacts.

(** The segments [normalizeString] keeps. *)
Section NormalizeFacts.

Import Path.

Local Abbreviation walk a := (fold_left (step a)).

Local Abbreviation seg := segment.

Lemma segment_cases s : s = "" \/ s = "." \/ s = ".." \/ plain s.
Proof.
  destruct (String.eqb_spec s "") as [->|N1]; [auto|].
  destruct (String.eqb_spec s ".") as [->|N2]; [auto|].
  destruct (String.eqb_spec s "..") as [->|N3]; [auto|].
  do 3 right. now repeat split.
Qed.

Lemma step_plain a acc s : plain s -> step a acc s = s :: acc.
Proof.
  intros (H1 & H2 & H3). unfold step.
  apply String.eqb_neq in H1, H2, H3. now rewrite H1, H2, H3.
Qed.

Lemma step_dots_plain a top acc : plain top -> step a (top :: acc) ".." = acc.
Proof.
  intros (_ & _ & H). unfold step. cbn [String.eqb Ascii.eqb Bool.eqb orb].
  cbn. apply String.eqb_neq in H. now rewrite H.
Qed.

Lemma step_true_dots k : step true (repeat ".." k) ".." = repeat ".." (S k).
Proof. now destruct k. Qed.

Lemma step_false_dots acc : Forall plain acc -> step false acc ".." = tl acc.
Proof.
  intros H. destruct acc as [|top acc]; [reflexivity|].
  inversion H; subst. now apply step_dots_plain.
Qed.

Lemma step_seg a acc s : Forall seg acc -> no_slash s -> Forall seg (step a acc s).
Proof.
  intros Hacc Hs.
  destruct (segment_cases s) as [->|[->|[->|Hp]]]; try exact Hacc.
  - assert (Hd : seg "..") by (split; [discriminate | exact Hs]).
    unfold step. cbn [String.eqb Ascii.eqb Bool.eqb orb]. cbn.
    destruct acc as [|top acc].
    + destruct a; now repeat constructor.
    + destruct (String.eqb top "..");
        [now constructor | now inversion Hacc].
  - rewrite (step_plain a acc Hp). constructor; [|exact Hacc].
    split; [apply Hp | exact Hs].
Qed.

Lemma walk_seg a l : forall acc,
  Forall seg acc -> Forall no_slash l -> Forall seg (walk a l acc).
Proof.
  induction l as [|s l IH]; intros acc Hacc Hl; [exact Hacc|].
  inversion Hl; subst. cbn [fold_left]. apply IH; [now apply step_seg | assumption].
Qed.

Lemma walk_plain l : forall acc,
  Forall plain acc -> Forall plain (walk false l acc).
Proof.
  induction l as [|s l IH]; intros acc H; [exact H|].
  cbn [fold_left]. apply IH.
  destruct (segment_cases s) as [->|[->|[->|Hp]]]; try exact H.
  - rewrite (step_false_dots H). destruct acc; [constructor | now inversion H].
  - rewrite (step_plain false acc Hp). now constructor.
Qed.

Lemma walk_plain_list a L : forall acc,
  Forall plain L -> walk a L acc = (rev L ++ acc)%list.
Proof.
  induction L as [|x L IH]; intros acc H; [reflexivity|].
  inversion H as [|? ? Hx HL]; subst.
  cbn [fold_left rev]. rewrite (step_plain a acc Hx), (IH _ HL).
  now rewrite <- app_assoc.
Qed.

Lemma skipn_S_tl {A} k : forall l : list A, skipn (S k) l = tl (skipn k l).
Proof.
  induction k as [|k IH]; intros l; [now destruct l|].
  destruct l as [|x l]; [reflexivity|].
  change (skipn (S (S k)) (x :: l)) with (skipn (S k) l).
  change (skipn (S k) (x :: l)) with (skipn k l). apply IH.
Qed.

Lemma Forall_skipn {A} (P : A -> Prop) k : forall l,
  Forall P l -> Forall P (skipn k l).
Proof.
  induction k as [|k IH]; intros l H; [exact H|].
  destruct l; [constructor|]. inversion H; subst. now apply IH.
Qed.

Lemma walk_dots k : forall acc,
  Forall plain acc -> walk false (repeat ".." k) acc = skipn k acc.
Proof.
  induction k as [|k IH]; intros acc H; [reflexivity|].
  cbn [repeat fold_left]. rewrite (step_false_dots H), IH.
  - destruct acc; [now destruct k | reflexivity].
  - destruct acc; [constructor | now inversion H].
Qed.

Lemma rev_repeat {A} (x : A) k : rev (repeat x k) = repeat x k.
Proof.
  induction k as [|k IH]; [reflexivity|].
  cbn [repeat rev]. rewrite IH. clear IH.
  induction k as [|k IH]; [reflexivity|]. cbn [repeat app]. now rewrite IH.
Qed.

Section Simulation.

Variable acc : list string.
Hypothesis acc_plain : Forall plain acc.

Local Abbreviation sim := (cancels acc).

Lemma sim_step T F s : sim T F -> sim (step true T s) (step false F s).
Proof.
  intros (P & k & HP & -> & ->). unfold cancels.
  destruct (segment_cases s) as [->|[->|[->|Hp]]].
  - now exists P, k.
  - now exists P, k.
  - destruct P as [|p P].
    + exists [], (S k). split; [constructor|]. cbn [app]. split.
      * apply step_true_dots.
      * rewrite step_false_dots by now apply Forall_skipn.
        symmetry. apply skipn_S_tl.
    + inversion HP as [|? ? Hp HP']; subst. exists P, k.
      cbn [app]. now rewrite !(step_dots_plain _ _ Hp).
  - exists (s :: P), k. rewrite !(step_plain _ _ Hp).
    split; [now constructor | now split].
Qed.

Lemma sim_walk l : forall T F, sim T F -> sim (walk true l T) (walk false l F).
Proof.
  induction l as [|s l IH]; intros T F H; [exact H|].
  cbn [fold_left]. apply IH. now apply sim_step.
Qed.

(** A relative path normalized on its own and then read from [acc] leads
    where the path itself leads from [acc]. *)
Lemma walk_normalized l :
  walk false (rev (walk true l [])) acc = walk false l acc.
Proof.
  destruct (@sim_walk l [] acc) as (P & k & HP & -> & ->).
  { exists [], 0. now repeat split. }
  rewrite rev_app_distr, rev_repeat, fold_left_app.
  rewrite (walk_dots k acc_plain).
  rewrite walk_plain_list by now apply Forall_rev.
  now rewrite rev_involutive.
Qed.

End Simulation.

Lemma is_name_spec n :
  is_name n = true <-> plain n /\ no_slash n.
Proof.
  unfold is_name, plain, no_slash.
  rewrite !andb_true_iff, !negb_true_iff.
  rewrite <- !not_true_iff_false, !String.eqb_eq, existsb_exists.
  split.
  - intros [[[H1 H2] H3] H4]. repeat split; try assumption.
    intros Hin. apply H4. exists "/"%char. split; [exact Hin | reflexivity].
  - intros [(H1 & H2 & H3) H4]. repeat split; try assumption.
    intros (c & Hin & Hc). apply Ascii.eqb_eq in Hc. subst c. now apply H4.
Qed.

Lemma slash_last p : ~ no_slash (p ++ "/").
Proof.
  induction p as [|c p IH]; cbn [append]; rewrite no_slash_cons.
  - now intros [H _].
  - now intros [_ H].
Qed.

Lemma endsWith_slash_name n : forall d,
  n <> "" -> no_slash n -> JsString.endsWith "/" (d ++ n) = false.
Proof.
  intros d Hn Hs. apply not_true_iff_false. rewrite endsWith_iff.
  intros [p E]. revert p E. induction d as [|c d IH]; intros p E.
  - cbn [append] in E. subst n. now apply (@slash_last p).
  - destruct p as [|c' p]; cbn [append] in E.
    + injection E as _ E. destruct d; [now apply Hn | discriminate].
    + injection E as _ E. now apply (IH p).
Qed.

Lemma isAbsolute_cons c s : isAbsolute (String c s) = Ascii.eqb c "/".
Proof.
  unfold isAbsolute, JsString.startsWith. cbn [String.prefix].
  destruct (Ascii.eqb_spec c "/") as [->|N].
  - destruct (ascii_dec "/" "/"); [now destruct s | contradiction].
  - destruct (ascii_dec "/" c); [congruence | reflexivity].
Qed.

Lemma join_cons x y L :
  JsString.join "/" (x :: y :: L) = x ++ "/" ++ JsString.join "/" (y :: L).
Proof. reflexivity. Qed.

Lemma join_snoc L : forall n, n <> "" -> JsString.join "/" (L ++ [n]) <> "".
Proof.
  induction L as [|x L IH]; intros n Hn; [exact Hn|].
  cbn [app]. destruct (L ++ [n])%list as [|y L'] eqn:E.
  - now destruct L.
  - rewrite join_cons. now destruct x.
Qed.

Lemma isAbsolute_join x L :
  seg x -> isAbsolute (JsString.join "/" (x :: L)) = false.
Proof.
  intros [Hx Hs]. destruct x as [|c x]; [contradiction|].
  apply no_slash_cons in Hs. destruct Hs as [Hc _].
  apply Ascii.eqb_neq in Hc.
  destruct L as [|y L]; [|rewrite join_cons]; cbn [JsString.join String.concat append];
    now rewrite isAbsolute_cons.
Qed.

Lemma split_join_list L :
  L <> [] -> Forall no_slash L ->
  JsString.split "/" (JsString.join "/" L) = L.
Proof. destruct L as [|x L]; [contradiction | intros _; apply split_join]. Qed.

Lemma seg_no_slash L : Forall seg L -> Forall no_slash L.
Proof. apply Forall_impl. now intros s [_ H]. Qed.

(** [path.join] of a directory and a name: the normalized directory with
    the name after it. *)
Lemma join_name d n :
  d <> "" -> plain n -> no_slash n ->
  Path.join d n =
  (if isAbsolute d then "/" else "") ++
  JsString.join "/"
    (rev (walk (negb (isAbsolute d)) (JsString.split "/" d) []) ++ [n]).
Proof.
  intros Hd Hp Hs. destruct d as [|c d]; [contradiction|].
  destruct n as [|c' n]; [now destruct Hp|].
  unfold Path.join. set (nm := String c' n) in *.
  unfold normalize. cbn [append].
  rewrite !isAbsolute_cons.
  assert (X : String c (d ++ String "/" nm) = String c d ++ "/" ++ nm)
    by reflexivity.
  rewrite X. clear X.
  rewrite (split_append _ Hs).
  unfold normalizeSegments. rewrite fold_left_app. cbn [fold_left].
  rewrite (step_plain _ _ Hp). cbn [rev].
  assert (Hne : nm <> "") by discriminate.
  rewrite <- (append_assoc (String c d) "/" nm).
  rewrite (@endsWith_slash_name nm (String c d ++ "/") Hne Hs).
  pose proof (@join_snoc
    (rev (walk (negb (Ascii.eqb c "/")) (JsString.split "/" (String c d)) []))
    nm Hne) as Hj.
  destruct (JsString.join "/" _) eqn:E in Hj |- *; [contradiction|].
  now rewrite append_nil_r.
Qed.

(** The path law: [path.join] of a directory and the name of an entry
    names that entry of the directory. *)
Lemma resolve_join cwd d n :
  d <> "" -> is_name n = true ->
  resolve cwd (Path.join d n) = (resolve cwd d ++ [n])%list.
Proof.
  intros Hd Hn. apply is_name_spec in Hn. destruct Hn as [Hp Hs].
  rewrite (join_name Hd Hp Hs).
  set (Sd := JsString.split "/" d).
  assert (HS : Forall no_slash Sd) by apply split_pieces.
  assert (Hseg : forall a, Forall seg (rev (walk a Sd []) ++ [n])).
  { intros a. apply Forall_app. split.
    - apply Forall_rev. apply walk_seg; [constructor | exact HS].
    - repeat constructor; [apply Hp | exact Hs]. }
  assert (Hsplit : forall a,
    JsString.split "/" (JsString.join "/" (rev (walk a Sd []) ++ [n]))
    = (rev (walk a Sd []) ++ [n])%list).
  { intros a. apply split_join_list; [now destruct (rev (walk a Sd []))|].
    apply seg_no_slash, Hseg. }
  unfold resolve, normalizeSegments.
  destruct (isAbsolute d) eqn:Habs; cbn [negb].
  - change ("/" ++ ?s) with (String "/" s).
    rewrite isAbsolute_cons. cbn [Ascii.eqb Bool.eqb andb app].
    rewrite split_slash_first, Hsplit.
    cbn [fold_left]. change (step false [] "") with (@nil string).
    rewrite fold_left_app. cbn [fold_left]. rewrite (step_plain _ _ Hp).
    rewrite walk_plain_list
      by (apply Forall_rev, walk_plain; constructor).
    now rewrite rev_involutive, app_nil_r.
  - cbn [append].
    assert (Hrel : isAbsolute
      (JsString.join "/" (rev (walk true Sd []) ++ [n])) = false).
    { specialize (Hseg true).
      destruct (rev (walk true Sd []) ++ [n])%list as [|x L] eqn:E;
        [now destruct (rev (walk true Sd []))|].
      inversion Hseg; subst. now apply isAbsolute_join. }
    rewrite Hrel, Hsplit. rewrite !fold_left_app. cbn [fold_left].
    rewrite (step_plain _ _ Hp).
    rewrite walk_normalized by (apply walk_plain; constructor).
    reflexivity.
Qed.

End NormalizeFacts.

Lemma is_name_names_child w dirpath item :
  dirpath <> "" -> Path.is_name (fst item) = true ->
  names_child w dirpath item.
Proof. intros Hd Hn. unfold names_child, locate. now apply resolve_join. Qed.

(* ================================================================== *)
(** ** The destination directory *)
(* ================================================================== *)

(** *** Without clearing, what was there stays *)

Section Kept.

Variable w : World.
Variable q : list string.

Lemma kept_refl st : kept_st q st st.
Proof. now intros k. Qed.

Lemma kept_trans a b c : kept_st q a b -> kept_st q b c -> kept_st q a c.
Proof. intros H1 H2 k Hk. apply H2, H1, Hk. Qed.

Ltac kept_side :=
  first [ exact kept_refl
        | exact kept_trans
        | intros; exact I
        | intros; unfold kept_st, kept; cbn [fs logged]; now auto ].

Lemma mkdir_kept p t t' : Fs.mkdir_p p t = Some t' -> kept q t t'.
Proof. intros H k. exact (@stat_mkdir_p p t t' q k H). Qed.

Lemma planDownload_kept o : respects (kept_st q) (planDownload w o).
Proof.
  unfold planDownload.
  apply (@respects_andThen (kept_st q)); [kept_side..| |].
  { apply (@respects_validateDestination (kept_st q) any_event (kept q));
      try kept_side.
    intros p t t'. apply mkdir_kept. }
  intros [r1 dest].
  apply (@respects_andThen (kept_st q)); [kept_side..| |].
  { apply (@respects_resolveVersion (kept_st q) any_event); kept_side. }
  intros [r2 rtv].
  apply (@respects_andThen (kept_st q)); [kept_side..| |].
  { apply (@respects_resolveOrigin (kept_st q) any_event); kept_side. }
  intros [r3 base].
  apply (@respects_andThen (kept_st q)); [kept_side..| |].
  { apply (@respects_fetchFilesListing (kept_st q) any_event); kept_side. }
  intros [r4 files]. apply (@respects_ret (kept_st q)); kept_side.
Qed.



End Kept.

(** *** With clearing, the directory is emptied first *)

Section Clearing.

Import Fs.





End Clearing.

Section ClearDirectory.

Variable w : World.
Variable dirpath : string.

(** A removal records its call, whatever comes of it. *)
Lemma removeItem_trace item st res st' :
  removeItem w dirpath item st = (res, st') ->
  trace st' = (trace st ++ [removal dirpath item])%list.
Proof.
  unfold removeItem, removal, rmdir, unlink, fs_call.
  destruct (snd item).
  - destruct (fault w _); [intros H; now injection H as _ <-|].
    destruct (or_fail _ _) as [[a t]|msg|]; intros H; now injection H as _ <-.
  - destruct (fault w _); [intros H; now injection H as _ <-|].
    destruct (or_fail _ _) as [[a t]|msg|]; intros H; now injection H as _ <-.
Qed.


Lemma run_all_remove_trace items : forall st outs st',
  run_all (removeItem w dirpath) items st = (outs, st') ->
  trace st' = (trace st ++ map (removal dirpath) items)%list.
Proof.
  induction items as [|item items IH]; intros st outs st';
    [|rewrite run_all_cons by apply survives_removeItem]; cbn [run_all map].
  - intros H. injection H as _ <-. now rewrite app_nil_r.
  - destruct (removeItem w dirpath item st) as [o s1] eqn:E1.
    destruct (run_all _ items s1) as [os s2] eqn:E2.
    intros H. injection H as _ <-.
    rewrite (IH _ _ _ E2), (@removeItem_trace item st o s1 E1), <- app_assoc.
    reflexivity.
Qed.




End ClearDirectory.



(** The two halves of C8 on the sample: by default the file [old.txt] and
    the directory [stale] are gone when the run ends; with [clear: false]
    they are still there beside the files of the framework. *)
Example clear_on_the_sample :
  Fs.readdir ["work"; "out"] (fs Sample.final)
    = Some [("v0", true); ("files.txt", false); ("v0.js", false)] /\
  Fs.readdir ["work"; "out"]
             (fs (snd (getFramework Sample.world Sample.options_keep Sample.start)))
    = Some [("old.txt", false); ("stale", true); ("v0", true);
            ("files.txt", false); ("v0.js", false)].
Proof. split; vm_compute; reflexivity. Qed.

(* ================================================================== *)
(** ** What [getFramework] lets through *)
(* ================================================================== *)

(** An empty destination is reported in the result. *)
Lemma empty_dest_is_reported w o st :
  Options.dest o = Some "" ->
  getFramework w o st =
  (Ok (Ret.set_error (Ret.initial (Some "")) "Directory not specified"),
   logged (LogError "Directory not specified") st).
Proof.
  intros Hd. unfold getFramework, planDownload, andThen, bind at 1 2 3 4 5.
  unfold validateDestination, expandTilde. rewrite Hd.
  destruct (negb (String.eqb (os_type w) "Windows_NT")); reflexivity.
Qed.

(** An absent destination is not: except on Windows, the promise rejects
    with the [TypeError] of [dest.split], before anything is done. *)
Lemma undefined_dest_rejects w o st :
  Options.dest o = None ->
  os_type w <> "Windows_NT" ->
  getFramework w o st = (Throw TypeError_split, st).
Proof.
  intros Hd Hw. unfold getFramework, planDownload, andThen, bind at 1 2 3 4 5.
  unfold validateDestination, expandTilde. rewrite Hd.
  apply String.eqb_neq in Hw. rewrite Hw. reflexivity.
Qed.

(** The blocks after the plan return nothing early: what they raise is
    what the promise rejects with. *)
Lemma prepare_failure_rejects w o st r dest files st3 msg st4 :
  planDownload w o st = (Ok (inr (r, dest, files)), st3) ->
  prepareDestination w (Options.clear o) dest files st3 = (Throw msg, st4) ->
  getFramework w o st = (Throw msg, st4).
Proof.
  intros Hplan Hprep. unfold getFramework, bind at 1.
  rewrite Hplan. cbn beta iota. unfold bind. now rewrite Hprep.
Qed.

(** C1 does not hold of the code.  On the sample host, a request without
    destination makes the promise reject with a [TypeError]; so does, with
    the error of the file system, a request whose destination holds a file
    that cannot be unlinked, and one for which a subdirectory cannot be
    created.  (An empty destination is reported in the result, as the
    claim says.) *)
Theorem C1_getFramework_rejects :
  fst (getFramework Sample.world
         (Sample.request (Some "15") (Some "https://example.com") None)
         Sample.start)
  = Throw TypeError_split /\
  fst (getFramework Sample.world_unlink_fails Sample.options Sample.start)
  = Throw "EPERM: operation not permitted, unlink" /\
  fst (getFramework Sample.world_mkdir_fails Sample.options Sample.start)
  = Throw "EACCES: permission denied, mkdir" /\
  fst (getFramework Sample.world
         (Sample.request (Some "15") (Some "https://example.com") (Some ""))
         Sample.start)
  = Ok (Ret.set_error (Ret.initial (Some "")) "Directory not specified").
Proof.
  split; [|split; [|split]].
  - rewrite undefined_dest_rejects; [reflexivity | reflexivity | discriminate].
  - vm_compute. reflexivity.
  - vm_compute. reflexivity.
  - now rewrite empty_dest_is_reported.
Qed.
(* ================================================================== *)
(** * Further properties of the module *)
(* ================================================================== *)

(** ** The destination *)

Section FsMore.

Import Fs.

Lemma mkdir_p_is_dir p : forall t t',
  mkdir_p p t = Some t' -> exists es, lookup p t' = Some (Dir es).
Proof.
  induction p as [|x p IH]; intros [c|es] t'; cbn [mkdir_p]; try discriminate.
  - intros H. injection H as <-. now exists es.
  - destruct (mkdir_p p _) as [c'|] eqn:E; [|discriminate].
    intros H. injection H as <-. cbn [lookup]. rewrite find_set_same.
    exact (IH _ _ E).
Qed.


End FsMore.



Lemma mkdirSync_ok w d st st' :
  mkdirSync w d st = (Ok tt, st') ->
  exists t', Fs.mkdir_p (locate w d) (fs st) = Some t' /\
             st' = {| fs := t'; trace := (trace st ++ [Mkdir d])%list;
                      fetches := fetches st |}.
Proof.
  unfold mkdirSync, fs_call. cbn [fs trace fetches].
  destruct (fault w (Mkdir d)); [discriminate|].
  destruct (Fs.mkdir_p (locate w d) (fs st)) as [t'|]; [|discriminate].
  cbn [or_fail]. intros H. injection H as <-. now exists t'.
Qed.



(** *** Where a run returns *)

Lemma returns_at_destination w o st r st' :
  validateDestination w o st = (Ok (inl r), st') ->
  getFramework w o st = (Ok r, st').
Proof.
  intros H. unfold getFramework, planDownload, andThen, bind, ret.
  now rewrite H.
Qed.

Lemma returns_at_version w o st r1 dest st1 r st' :
  validateDestination w o st = (Ok (inr (r1, dest)), st1) ->
  resolveVersion w o r1 st1 = (Ok (inl r), st') ->
  getFramework w o st = (Ok r, st').
Proof.
  intros H1 H2. unfold getFramework, planDownload, andThen, bind, ret.
  rewrite H1. cbv beta iota. now rewrite H2.
Qed.

Lemma returns_at_origin w o st r1 dest st1 r2 v st2 r st' :
  validateDestination w o st = (Ok (inr (r1, dest)), st1) ->
  resolveVersion w o r1 st1 = (Ok (inr (r2, v)), st2) ->
  resolveOrigin w o r2 v st2 = (Ok (inl r), st') ->
  getFramework w o st = (Ok r, st').
Proof.
  intros H1 H2 H3. unfold getFramework, planDownload, andThen, bind, ret.
  rewrite H1. cbv beta iota. rewrite H2. cbv beta iota. now rewrite H3.
Qed.

Lemma returns_at_listing w o st r1 dest st1 r2 v st2 r3 base st3 r st' :
  validateDestination w o st = (Ok (inr (r1, dest)), st1) ->
  resolveVersion w o r1 st1 = (Ok (inr (r2, v)), st2) ->
  resolveOrigin w o r2 v st2 = (Ok (inr (r3, base)), st3) ->
  fetchFilesListing w r3 base st3 = (Ok (inl r), st') ->
  getFramework w o st = (Ok r, st').
Proof.
  intros H1 H2 H3 H4.
  unfold getFramework, planDownload, andThen, bind, ret.
  rewrite H1. cbv beta iota. rewrite H2. cbv beta iota. rewrite H3.
  cbv beta iota. now rewrite H4.
Qed.



(** X3.  Lines 84-98.  On Windows [dest.split] is not called: a request
    without destination returns the failure "Directory not specified",
    where the other platforms reject. *)
Theorem X3_windows_missing_destination w o st :
  os_type w = "Windows_NT" ->
  Options.dest o = None ->
  getFramework w o st =
  (Ok (Ret.set_error (Ret.initial None) "Directory not specified"),
   logged (LogError "Directory not specified") st).
Proof.
  intros Hw Hd. apply returns_at_destination.
  unfold validateDestination, expandTilde. rewrite Hd, Hw. reflexivity.
Qed.

(** The sample host under Windows, asked without destination. *)
Lemma X3_windows_missing_destination_witness :
  let w := Sample2.windows in
  let o := Sample.request (Some "15") (Some "https://example.com") None in
  let st := Sample.start in
  os_type w = "Windows_NT" /\
  getFramework w o st =
  (Ok (Ret.set_error (Ret.initial None) "Directory not specified"),
   logged (LogError "Directory not specified") st).
Proof.
  intros w o st.
  exact (conj eq_refl
           (@X3_windows_missing_destination w o st eq_refl eq_refl)).
Defined.

Section Tilde.

Lemma getSubstitution_no_dollar matched before after repl :
  no_dollar repl ->
  JsString.getSubstitution matched before after repl = repl.
Proof.
  unfold no_dollar. induction repl as [|c r IH]; [reflexivity|].
  cbn [list_ascii_of_string In JsString.getSubstitution]. intros H.
  destruct (Ascii.eqb_spec c "$") as [->|N]; [exfalso; apply H; now left|].
  rewrite IH; [reflexivity | intros Hin; apply H; now right].
Qed.

Lemma replace_first_char c home rest :
  no_dollar home ->
  JsString.replace (String c "") home (String c rest) = home ++ rest.
Proof.
  intros H. unfold JsString.replace. cbn [JsString.indexOf String.prefix].
  destruct (ascii_dec c c) as [_|N]; [|contradiction].
  replace (String.prefix "" rest) with true by now destruct rest.
  cbn [String.length JsString.drop append].
  now rewrite getSubstitution_no_dollar.
Qed.

(** The first piece of a split. *)
Lemma split_go_head s : forall cur,
  exists h tl,
    JsString.split_go "/" 0 cur s = (cur ++ h) :: tl /\
    no_slash h /\
    (s = h \/ exists rest, s = h ++ String "/" rest).
Proof.
  induction s as [|c s IH]; intros cur.
  - exists "", []. rewrite append_nil_r. repeat split; [now intros [] | now left].
  - rewrite split_go_slash. destruct (Ascii.eqb_spec c "/") as [->|N].
    + exists "", (JsString.split_go "/" 0 "" s). rewrite append_nil_r.
      repeat split; [now intros [] | right; now exists s].
    + destruct (IH (cur ++ String c "")) as (h & tl & E & Hh & Hs).
      exists (String c h), tl. rewrite E, append_assoc. cbn [append].
      repeat split.
      * apply no_slash_cons. now split.
      * destruct Hs as [->|(rest & ->)]; [now left | right; now exists rest].
Qed.

Lemma first_split_tilde d :
  JsString.first (JsString.split "/" d) = Some "~" <-> tilde_first d = true.
Proof.
  unfold tilde_first. rewrite orb_true_iff, String.eqb_eq, prefix_iff.
  unfold JsString.split. split.
  - destruct (split_go_head d "") as (h & tl & E & _ & Hs). rewrite E.
    cbn [JsString.first hd_error append]. intros H. injection H as ->.
    destruct Hs as [->|(rest & ->)]; [now left | right; now exists rest].
  - intros [->|(rest & ->)]; [reflexivity|].
    cbn [append]. rewrite !split_go_slash. reflexivity.
Qed.

(** Lines 84-88 with the test of line 85 as a boolean. *)
Lemma expandTilde_unfold w d :
  os_type w <> "Windows_NT" ->
  expandTilde w (Some d) =
  Ok (Some (if tilde_first d
            then JsString.replace "~" (os_homedir w) d else d)).
Proof.
  intros Hw. unfold expandTilde. apply String.eqb_neq in Hw. rewrite Hw.
  cbn [negb]. unfold Path.sep.
  destruct (tilde_first d) eqn:E.
  - apply first_split_tilde in E. now rewrite E.
  - destruct (JsString.first (JsString.split "/" d)) as [h|] eqn:Eh;
      [|reflexivity].
    destruct (String.eqb_spec h "~") as [->|N].
    + apply first_split_tilde in Eh. congruence.
    + clear Eh E. destruct h as [|a h]; [reflexivity|].
      destruct a as [[] [] [] [] [] [] [] []]; try reflexivity.
      destruct h; [now contradiction N | reflexivity].
Qed.

End Tilde.

(** X4.  Lines 84-89.  Except on Windows, a destination whose first
    segment is a tilde (the tilde alone, or a tilde and a slash before the
    rest) has the tilde replaced by the home directory, when the home
    directory holds no dollar sign; any other destination, one that starts
    with a tilde and a name included, is left as it is. *)
Theorem X4_tilde_expansion w d :
  os_type w <> "Windows_NT" ->
  (tilde_first d = false -> expandTilde w (Some d) = Ok (Some d)) /\
  (tilde_first d = true -> no_dollar (os_homedir w) ->
   expandTilde w (Some d) = Ok (Some (os_homedir w ++ JsString.drop 1 d))).
Proof.
  intros Hw. rewrite (@expandTilde_unfold w d Hw). split; intros E.
  - now rewrite E.
  - intros Hh. rewrite E. unfold tilde_first in E.
    apply orb_true_iff in E. rewrite String.eqb_eq, prefix_iff in E.
    destruct E as [->|(rest & ->)]; cbn [append];
      now rewrite (@replace_first_char "~" _ _ Hh).
Qed.

(** On the sample host: [~/amp/out] is expanded, [~amp/out] is not. *)
Lemma X4_tilde_expansion_witness :
  let w := Sample.world in
  os_type w <> "Windows_NT" /\
  expandTilde w (Some "~/amp/out") = Ok (Some "/home/amp/amp/out") /\
  expandTilde w (Some "~amp/out") = Ok (Some "~amp/out").
Proof.
  intros w.
  assert (Hw : os_type w <> "Windows_NT") by discriminate.
  split; [exact Hw|]. split.
  - apply (proj2 (@X4_tilde_expansion w "~/amp/out" Hw)); [reflexivity|].
    unfold no_dollar. cbn. intuition discriminate.
  - apply (proj1 (@X4_tilde_expansion w "~amp/out" Hw)). reflexivity.
Defined.

(** X5.  Lines 102-116.  Without a version in the request (absent or
    empty), the version provider is asked once, with the prefix of the
    request as it was given.  A version it answers is taken as it is,
    without the check of line 109; no version, or an empty one, makes the
    run return "Could not determine runtime version to download"; what the
    provider raises rejects the promise. *)
Theorem X5_version_discovery w o st r1 dest st1 :
  validateDestination w o st = (Ok (inr (r1, dest)), st1) ->
  JsString.truthy_opt (Options.rtv o) = false ->
  let asked := logged (CurrentVersion (Options.ampUrlPrefix o)) st1 in
  let none := "Could not determine runtime version to download" in
  (forall v,
     currentVersion w (Options.ampUrlPrefix o) = Ok (Some v) -> v <> "" ->
     resolveVersion w o r1 st1 =
     (Ok (inr (Ret.set_rtv r1 v, v)),
      logged (LogInfo ("AMP framework runtime version: " ++ v)) asked)) /\
  (currentVersion w (Options.ampUrlPrefix o) = Ok None \/
   currentVersion w (Options.ampUrlPrefix o) = Ok (Some "") ->
   getFramework w o st =
   (Ok (Ret.set_error r1 none), logged (LogError none) asked)) /\
  (forall msg,
     currentVersion w (Options.ampUrlPrefix o) = Throw msg ->
     getFramework w o st = (Throw msg, asked)).
Proof.
  intros H1 Hrtv asked none.
  assert (Hres : resolveVersion w o r1 st1 =
    match currentVersion w (Options.ampUrlPrefix o) with
    | Throw msg => (Throw msg, asked)
    | Dies => (Dies, asked)
    | Ok (Some (String _ _ as v)) =>
        (Ok (inr (Ret.set_rtv r1 v, v)),
         logged (LogInfo ("AMP framework runtime version: " ++ v)) asked)
    | Ok _ => (Ok (inl (Ret.set_error r1 none)), logged (LogError none) asked)
    end).
  { unfold resolveVersion.
    destruct (Options.rtv o) as [[|c v]|]; try discriminate;
      unfold bind at 1, emit; fold (logged (CurrentVersion (Options.ampUrlPrefix o)) st1);
      fold asked;
      destruct (currentVersion w (Options.ampUrlPrefix o)) as [[[|c v]|]|msg|];
      reflexivity. }
  split; [|split].
  - intros v Hv Hne. rewrite Hres, Hv. destruct v; [contradiction | reflexivity].
  - intros Hv. eapply returns_at_version; [exact H1|]. rewrite Hres.
    destruct Hv as [-> | ->]; reflexivity.
  - intros msg Hv. unfold getFramework, planDownload, andThen, bind, ret.
    rewrite H1. cbv beta iota. now rewrite Hres, Hv.
Qed.

(** On the sample host, asked without version. *)
Lemma X5_version_discovery_witness :
  let w := Sample.world in
  let o := Sample.request None (Some "https://example.com") (Some "out") in
  let st := Sample.start in
  let r1 := Ret.initial (Some "out") in
  let st1 := Sample.verified in
  validateDestination w o st = (Ok (inr (r1, "out")), st1) /\
  resolveVersion w o r1 st1 =
  (Ok (inr (Ret.set_rtv r1 "012345678", "012345678")),
   logged (LogInfo "AMP framework runtime version: 012345678")
          (logged (CurrentVersion (Some "https://example.com")) st1)).
Proof.
  intros w o st r1 st1.
  assert (H1 : validateDestination w o st = (Ok (inr (r1, "out")), st1))
    by (vm_compute; reflexivity).
  split; [exact H1|].
  refine (proj1 (@X5_version_discovery w o st r1 "out" st1 H1 eq_refl)
                "012345678" eq_refl _).
  discriminate.
Defined.

Lemma endsWith_append suf p d :
  d <> "" -> String.length suf = 1 ->
  JsString.endsWith suf (p ++ d) = JsString.endsWith suf d.
Proof.
  intros Hd Hsuf. induction p as [|c p IH]; [reflexivity|].
  cbn [append JsString.endsWith]. rewrite IH.
  destruct (String.eqb_spec (String c (p ++ d)) suf) as [E|_]; [|reflexivity].
  exfalso. rewrite <- E in Hsuf. cbn [String.length] in Hsuf.
  destruct p; [destruct d; [contradiction | discriminate] | discriminate].
Qed.

(** X6.  Lines 120-140.  Without a prefix in the request (absent or
    empty), the cache list is asked for the Google cache, once.  Its domain
    [d] gives the base URL "https://d/rtv/v/" (the slash before [rtv] is
    added unless [d] ends with one) and is not parsed as a URL; no cache
    makes the run return "Could not determine AMP cache domain"; what the
    cache list raises rejects the promise. *)
Theorem X6_default_cache w o st r1 dest st1 r2 v st2 :
  validateDestination w o st = (Ok (inr (r1, dest)), st1) ->
  resolveVersion w o r1 st1 = (Ok (inr (r2, v)), st2) ->
  JsString.truthy_opt (Options.ampUrlPrefix o) = false ->
  let asked := logged (CachesGet "google") st2 in
  let none := "Could not determine AMP cache domain" in
  (forall domain,
     Caches_get w "google" = Ok (Some domain) ->
     let base := frameworkBaseUrl ("https://" ++ domain) v in
     resolveOrigin w o r2 v st2 =
     (Ok (inr (Ret.set_url r2 base, base)),
      logged (LogInfo ("AMP framework base URL: " ++ base)) asked) /\
     (domain <> "" -> JsString.endsWith "/" domain = false ->
      base = "https://" ++ domain ++ "/rtv/" ++ v ++ "/")) /\
  (Caches_get w "google" = Ok None ->
   getFramework w o st =
   (Ok (Ret.set_error r2 none), logged (LogError none) asked)) /\
  (forall msg,
     Caches_get w "google" = Throw msg ->
     getFramework w o st = (Throw msg, asked)).
Proof.
  intros H1 H2 Hp asked none.
  assert (Hres : resolveOrigin w o r2 v st2 =
    match Caches_get w "google" with
    | Throw msg => (Throw msg, asked)
    | Dies => (Dies, asked)
    | Ok None => (Ok (inl (Ret.set_error r2 none)), logged (LogError none) asked)
    | Ok (Some domain) =>
        let base := frameworkBaseUrl ("https://" ++ domain) v in
        (Ok (inr (Ret.set_url r2 base, base)),
         logged (LogInfo ("AMP framework base URL: " ++ base)) asked)
    end).
  { unfold resolveOrigin.
    destruct (Options.ampUrlPrefix o) as [[|c p]|]; try discriminate;
      unfold bind at 1, emit; fold (logged (CachesGet "google") st2);
      fold asked;
      destruct (Caches_get w "google") as [[domain|]|msg|]; reflexivity. }
  split; [|split].
  - intros domain Hc base. rewrite Hres, Hc. split; [reflexivity|].
    intros Hne He. unfold base, frameworkBaseUrl.
    rewrite (@endsWith_append "/" "https://" domain Hne eq_refl), He.
    now rewrite !append_assoc.
  - intros Hc. eapply returns_at_origin; [exact H1 | exact H2 |].
    now rewrite Hres, Hc.
  - intros msg Hc. unfold getFramework, planDownload, andThen, bind, ret.
    rewrite H1. cbv beta iota. rewrite H2. cbv beta iota.
    now rewrite Hres, Hc.
Qed.

(** On the sample host, asked without prefix. *)
Lemma X6_default_cache_witness :
  let w := Sample.world in
  let o := Sample.request (Some "15") None (Some "out") in
  let st := Sample.start in
  let r1 := Ret.initial (Some "out") in
  let r2 := Ret.set_rtv r1 "15" in
  let base := "https://cdn.ampproject.org/rtv/15/" in
  validateDestination w o st = (Ok (inr (r1, "out")), Sample.verified) /\
  resolveVersion w o r1 Sample.verified
    = (Ok (inr (r2, "15")), Sample2.versioned) /\
  resolveOrigin w o r2 "15" Sample2.versioned =
  (Ok (inr (Ret.set_url r2 base, base)),
   logged (LogInfo ("AMP framework base URL: " ++ base))
          (logged (CachesGet "google") Sample2.versioned)).
Proof.
  intros w o st r1 r2 base.
  assert (H1 : validateDestination w o st
               = (Ok (inr (r1, "out")), Sample.verified))
    by (vm_compute; reflexivity).
  assert (H2 : resolveVersion w o r1 Sample.verified
               = (Ok (inr (r2, "15")), Sample2.versioned))
    by (vm_compute; reflexivity).
  split; [exact H1|]. split; [exact H2|].
  exact (proj1 (proj1 (@X6_default_cache w o st r1 "out" Sample.verified r2
                         "15" Sample2.versioned H1 H2 eq_refl)
                      "cdn.ampproject.org" eq_refl)).
Defined.

(** X7.  Lines 128-140.  A prefix given in the request is only parsed
    as a URL: when it does not parse, the run returns "ampUrlPrefix must be
    an absolute URL"; when it does, the base URL is built from it.  Either
    way the cache list is not asked. *)
Theorem X7_prefix_not_absolute w o st r1 dest st1 r2 v st2 p :
  validateDestination w o st = (Ok (inr (r1, dest)), st1) ->
  resolveVersion w o r1 st1 = (Ok (inr (r2, v)), st2) ->
  Options.ampUrlPrefix o = Some p -> p <> "" ->
  let msg := "ampUrlPrefix must be an absolute URL" in
  (isAbsoluteUrl_ w p = false ->
   getFramework w o st = (Ok (Ret.set_error r2 msg), logged (LogError msg) st2)) /\
  (isAbsoluteUrl_ w p = true ->
   let base := frameworkBaseUrl p v in
   resolveOrigin w o r2 v st2 =
   (Ok (inr (Ret.set_url r2 base, base)),
    logged (LogInfo ("AMP framework base URL: " ++ base)) st2)).
Proof.
  intros H1 H2 Hp Hne msg.
  destruct p as [|c p]; [contradiction|].
  split; intros Ha.
  - eapply returns_at_origin; [exact H1 | exact H2 |].
    unfold resolveOrigin. now rewrite Hp, Ha.
  - unfold resolveOrigin. now rewrite Hp, Ha.
Qed.

(** On the sample host, asked with the prefix [example.com]. *)
Lemma X7_prefix_not_absolute_witness :
  let w := Sample.world in
  let o := Sample.request (Some "15") (Some "example.com") (Some "out") in
  let st := Sample.start in
  let r1 := Ret.initial (Some "out") in
  let r2 := Ret.set_rtv r1 "15" in
  let msg := "ampUrlPrefix must be an absolute URL" in
  validateDestination w o st = (Ok (inr (r1, "out")), Sample.verified) /\
  resolveVersion w o r1 Sample.verified
    = (Ok (inr (r2, "15")), Sample2.versioned) /\
  getFramework w o st
    = (Ok (Ret.set_error r2 msg), logged (LogError msg) Sample2.versioned).
Proof.
  intros w o st r1 r2 msg.
  assert (H1 : validateDestination w o st
               = (Ok (inr (r1, "out")), Sample.verified))
    by (vm_compute; reflexivity).
  assert (H2 : resolveVersion w o r1 Sample.verified
               = (Ok (inr (r2, "15")), Sample2.versioned))
    by (vm_compute; reflexivity).
  assert (H4 : "example.com" <> "") by discriminate.
  split; [exact H1|]. split; [exact H2|].
  exact (proj1 (@X7_prefix_not_absolute w o st r1 "out" Sample.verified r2
                  "15" Sample2.versioned "example.com" H1 H2 eq_refl H4)
               eq_refl).
Defined.

(** X8.  Lines 144-170.  The listing is fetched once.  When the
    response is not [ok], the run returns "Unable to fetch AMP framework
    files listing: " and the URL of the listing; when the fetch rejects, or
    the body cannot be read, it returns "Unable to read AMP framework files
    listing" and, on the next line, the message of the error.  The tree is
    not changed. *)
Theorem X8_listing_unavailable w o st r1 dest st1 r2 v st2 r3 base st3 :
  validateDestination w o st = (Ok (inr (r1, dest)), st1) ->
  resolveVersion w o r1 st1 = (Ok (inr (r2, v)), st2) ->
  resolveOrigin w o r2 v st2 = (Ok (inr (r3, base)), st3) ->
  let u := base ++ FRAMEWORK_FILES_TXT in
  let asked := {| fs := fs st3; trace := (trace st3 ++ [Fetch u])%list;
                  fetches := S (fetches st3) |} in
  let failed msg :=
    getFramework w o st =
    (Ok (Ret.set_error r3 msg), logged (LogError msg) asked) in
  (forall b, fetch_ w (fetches st3) u = Response false b ->
     failed ("Unable to fetch AMP framework files listing: " ++ u)) /\
  (forall m, fetch_ w (fetches st3) u = NetworkError m ->
     failed ("Unable to read AMP framework files listing" ++ NL ++ m)) /\
  (forall partial m,
     fetch_ w (fetches st3) u = Response true (BodyErr partial m) ->
     failed ("Unable to read AMP framework files listing" ++ NL ++ m)).
Proof.
  intros H1 H2 H3 u asked failed.
  assert (Hget : forall r st',
    fetchFilesListing w r3 base st3 = (Ok (inl r), st') ->
    getFramework w o st = (Ok r, st')).
  { intros r st' H4. eapply returns_at_listing; eassumption. }
  unfold failed.
  split; [|split]; intros; apply Hget;
    unfold fetchFilesListing, andThen, try_catch, fetch, bind at 1 2;
    fold u; rewrite H; reflexivity.
Qed.

(** On a host whose cache does not answer. *)
Lemma X8_listing_unavailable_witness :
  let w := Sample2.world_offline in
  let o := Sample.options in
  let st := Sample.start in
  let r1 := Ret.initial (Some "out") in
  let r2 := Ret.set_rtv r1 "15" in
  let base := "https://example.com/rtv/15/" in
  let r3 := Ret.set_url r2 base in
  let msg := "Unable to read AMP framework files listing" ++ NL
             ++ "getaddrinfo ENOTFOUND example.com" in
  validateDestination w o st = (Ok (inr (r1, "out")), Sample.verified) /\
  resolveVersion w o r1 Sample.verified
    = (Ok (inr (r2, "15")), Sample2.versioned) /\
  resolveOrigin w o r2 "15" Sample2.versioned
    = (Ok (inr (r3, base)), Sample2.located) /\
  getFramework w o st =
  (Ok (Ret.set_error r3 msg),
   logged (LogError msg)
     {| fs := fs Sample2.located;
        trace := (trace Sample2.located ++ [Fetch (base ++ "files.txt")])%list;
        fetches := S (fetches Sample2.located) |}).
Proof.
  intros w o st r1 r2 base r3 msg.
  assert (H1 : validateDestination w o st
               = (Ok (inr (r1, "out")), Sample.verified))
    by (vm_compute; reflexivity).
  assert (H2 : resolveVersion w o r1 Sample.verified
               = (Ok (inr (r2, "15")), Sample2.versioned))
    by (vm_compute; reflexivity).
  assert (H3 : resolveOrigin w o r2 "15" Sample2.versioned
               = (Ok (inr (r3, base)), Sample2.located))
    by (vm_compute; reflexivity).
  split; [exact H1|]. split; [exact H2|]. split; [exact H3|].
  exact (proj1 (proj2 (@X8_listing_unavailable w o st r1 "out" Sample.verified
                         r2 "15" Sample2.versioned r3 base Sample2.located
                         H1 H2 H3))
               "getaddrinfo ENOTFOUND example.com" eq_refl).
Defined.

Lemma expandTilde_throws w dest msg :
  expandTilde w dest = Throw msg ->
  os_type w <> "Windows_NT" /\ dest = None /\ msg = TypeError_split.
Proof.
  unfold expandTilde.
  destruct (String.eqb_spec (os_type w) "Windows_NT") as [E|N]; cbn [negb];
    [discriminate|].
  destruct dest as [d|].
  - destruct (JsString.first (JsString.split Path.sep d)) as [h|];
      [|discriminate].
    destruct h as [|a h]; [discriminate|].
    destruct a as [[] [] [] [] [] [] [] []]; try discriminate.
    destruct h; discriminate.
  - intros H. injection H as <-. now repeat split.
Qed.

(** The downloads reject nothing: a download that rejects is reported in
    the object returned. *)
Lemma downloadFiles_never_rejects w r dest files st msg st' :
  downloadFiles w r dest files st <> (Throw msg, st').
Proof.
  rewrite (@downloadFiles_inv w r dest files st _ _ (fetch_all w files _)).
  destruct (settleDownloads _ _ _ _ _) as [[[]|m|] s2]; discriminate.
Qed.

(** X9.  Lines 68-203.  The promise of [getFramework] rejects in six
    ways only: the [TypeError] of a request without destination (not on
    Windows), what the version provider raises, the [URIError] that
    [encodeURIComponent] raises for a version with a surrogate that has no
    partner, what the cache list raises, what the clearing of the
    destination raises, and what the creation of the subdirectories raises.
    No failure of the listing or of a download rejects it. *)
Theorem X9_rejections w o st msg st' :
  getFramework w o st = (Throw msg, st') ->
  (os_type w <> "Windows_NT" /\ Options.dest o = None /\
   msg = TypeError_split /\ st' = st) \/
  (JsString.truthy_opt (Options.rtv o) = false /\
   currentVersion w (Options.ampUrlPrefix o) = Throw msg) \/
  (exists v, Options.rtv o = Some v /\ v <> "" /\
             Uri.encodeURIComponent v = None /\ msg = Uri.URIError) \/
  (JsString.truthy_opt (Options.ampUrlPrefix o) = false /\
   Caches_get w "google" = Throw msg) \/
  (exists r dest files st3,
     planDownload w o st = (Ok (inr (r, dest, files)), st3) /\
     ((not_false (Options.clear o) = true /\
       clearDirectory_ w dest st3 = (Throw msg, st')) \/
      (exists stc,
         (if not_false (Options.clear o) then clearDirectory_ w dest else ret tt) st3
           = (Ok tt, stc) /\
         createSubdirectories_ w files dest stc = (Throw msg, st')))).
Proof.
  unfold getFramework, bind at 1.
  destruct (planDownload w o st) as [[[r|[[r dest] files]]|m|] st3] eqn:Hplan.
  - discriminate.
  - intros H. right; right; right; right. exists r, dest, files, st3.
    split; [reflexivity|]. revert H.
    unfold bind at 1.
    destruct (prepareDestination w (Options.clear o) dest files st3)
      as [[[]|m|] st4] eqn:Hprep.
    + intros H. exfalso. exact (downloadFiles_never_rejects _ _ _ _ _ H).
    + intros H. injection H as <- <-. revert Hprep.
      unfold prepareDestination, bind.
      destruct (not_false (Options.clear o)).
      * destruct (clearDirectory_ w dest st3) as [[[]|m'|] stc] eqn:Ec.
        -- intros H. right. now exists stc.
        -- intros H. injection H as <- <-. left. now split.
        -- discriminate.
      * unfold ret at 1. intros H. right. now exists st3.
    + discriminate.
  - intros H. injection H as <- <-. revert Hplan.
    unfold planDownload, andThen, bind, ret.
    destruct (validateDestination w o st) as [[[r1|[r1 d]]|m1|] st1] eqn:E1;
      try discriminate.
    2:{ intros H. injection H as <- <-.
        pose proof (@validateDestination_inv w o st _ _ E1) as [Ht ->].
        apply expandTilde_throws in Ht. left. tauto. }
    destruct (resolveVersion w o r1 st1) as [[[r2|[r2 v]]|m2|] st2] eqn:E2;
      try discriminate.
    2:{ intros H. injection H as <- <-.
        pose proof (@resolveVersion_inv w o r1 st1 _ _ E2) as Hv.
        destruct Hv as [Hv | (v & Hv1 & Hv2 & Hv3 & Hv4 & _)];
          [right; left; exact Hv | right; right; left; now exists v]. }
    destruct (resolveOrigin w o r2 v st2) as [[[r3|[r3 base]]|m3|] st3'] eqn:E3;
      try discriminate.
    2:{ intros H. injection H as <- <-.
        pose proof (@resolveOrigin_inv w o r2 v st2 _ _ E3) as Hv.
        right; right; right; left. exact Hv. }
    destruct (fetchFilesListing w r3 base st3') as [[[r4|[r4 fs4]]|m4|] st4] eqn:E4;
      try discriminate.
    intros H. injection H as <- <-.
    exfalso. exact (@fetchFilesListing_inv w r3 base st3' _ _ E4).
  - discriminate.
Qed.

(** On the host where [unlink] is not permitted, the clearing rejects. *)
Lemma X9_rejections_witness :
  let w := Sample.world_unlink_fails in
  let o := Sample.options in
  let st := Sample.start in
  let msg := "EPERM: operation not permitted, unlink" in
  let st' := snd (getFramework w o st) in
  getFramework w o st = (Throw msg, st') /\
  ((os_type w <> "Windows_NT" /\ Options.dest o = None /\
    msg = TypeError_split /\ st' = st) \/
   (JsString.truthy_opt (Options.rtv o) = false /\
    currentVersion w (Options.ampUrlPrefix o) = Throw msg) \/
   (exists v, Options.rtv o = Some v /\ v <> "" /\
              Uri.encodeURIComponent v = None /\ msg = Uri.URIError) \/
   (JsString.truthy_opt (Options.ampUrlPrefix o) = false /\
    Caches_get w "google" = Throw msg) \/
   (exists r dest files st3,
      planDownload w o st = (Ok (inr (r, dest, files)), st3) /\
      ((not_false (Options.clear o) = true /\
        clearDirectory_ w dest st3 = (Throw msg, st')) \/
       (exists stc,
          (if not_false (Options.clear o)
           then clearDirectory_ w dest else ret tt) st3 = (Ok tt, stc) /\
          createSubdirectories_ w files dest stc = (Throw msg, st'))))).
Proof.
  intros w o st msg st'.
  assert (H : getFramework w o st = (Throw msg, st'))
    by (vm_compute; reflexivity).
  exact (conj H (X9_rejections w o st H)).
Defined.

Section LoggedFailures.

Variable w : World.

(** The last event of a block that makes the run return is the error of
    the object it returns, logged. *)
Local Abbreviation reported r st' :=
  (exists evs, trace st' = (evs ++ [LogError (Ret.error r)])%list).

Lemma validateDestination_reported o st r st' :
  validateDestination w o st = (Ok (inl r), st') -> reported r st'.
Proof.
  unfold validateDestination.
  destruct (expandTilde w (Options.dest o)) as [dest|msg|]; [|discriminate..].
  unfold try_catch, bind.
  destruct (assertDirectoryWritable_ w dest st) as [[[]|msg|] st1];
    [discriminate| |discriminate].
  unfold fail, bind, log_error, emit, ret. intros H. injection H as <- <-.
  now exists (trace st1).
Qed.

Lemma resolveVersion_reported o r0 st r st' :
  resolveVersion w o r0 st = (Ok (inl r), st') -> reported r st'.
Proof.
  unfold resolveVersion, fail, bind, log_info, log_error, emit, ret, throw, die.
  destruct (Options.rtv o) as [[|c v]|].
  - destruct (currentVersion w (Options.ampUrlPrefix o)) as [[[|c v]|]|msg|];
      intros H; try discriminate; injection H as <- <-; cbn [trace Ret.error Ret.set_error];
      eexists; reflexivity.
  - destruct (Uri.encodeURIComponent _); [|discriminate].
    destruct (negb _); intros H; try discriminate; injection H as <- <-.
    cbn [trace Ret.error Ret.set_error]. eexists; reflexivity.
  - destruct (currentVersion w (Options.ampUrlPrefix o)) as [[[|c v]|]|msg|];
      intros H; try discriminate; injection H as <- <-; cbn [trace Ret.error Ret.set_error];
      eexists; reflexivity.
Qed.

Lemma resolveOrigin_reported o r0 v st r st' :
  resolveOrigin w o r0 v st = (Ok (inl r), st') -> reported r st'.
Proof.
  unfold resolveOrigin, fail, bind, log_info, log_error, emit, ret, throw, die.
  destruct (Options.ampUrlPrefix o) as [[|c p]|].
  - destruct (Caches_get w "google") as [[domain|]|msg|];
      intros H; try discriminate; injection H as <- <-;
      cbn [trace Ret.error Ret.set_error]; eexists; reflexivity.
  - destruct (negb _); intros H; try discriminate; injection H as <- <-.
    cbn [trace Ret.error Ret.set_error]. eexists; reflexivity.
  - destruct (Caches_get w "google") as [[domain|]|msg|];
      intros H; try discriminate; injection H as <- <-;
      cbn [trace Ret.error Ret.set_error]; eexists; reflexivity.
Qed.

Lemma fetchFilesListing_reported r0 base st r st' :
  fetchFilesListing w r0 base st = (Ok (inl r), st') -> reported r st'.
Proof.
  unfold fetchFilesListing, andThen, try_catch, fetch, text, fail, bind,
    log_info, log_error, emit, ret, throw.
  destruct (fetch_ w (fetches st) (base ++ FRAMEWORK_FILES_TXT))
    as [[|] [t|partial msg]|msg]; cbn [fst snd negb];
    try (intros H; injection H as <- <-;
         cbn [trace Ret.error Ret.set_error]; eexists; reflexivity).
  destruct (listsItself (parseFilesListing base (Utf8.toString t)));
    cbn [negb];
    intros H; try discriminate; injection H as <- <-;
    cbn [trace Ret.error Ret.set_error]; eexists; reflexivity.
Qed.

End LoggedFailures.

(** X10.  Lines 92-202.  The last thing a run that returns does is to
    log its outcome: with [status] set, [error] is empty and the last event
    is the line "AMP framework download complete: " and the destination;
    otherwise the last event is [log.error] of the [error] of the
    result. *)
Theorem X10_outcome_is_logged w o st r st' :
  getFramework w o st = (Ok r, st') ->
  (Ret.status r = true /\ Ret.error r = "" /\
   exists dest evs,
     Ret.dest r = Some dest /\
     trace st' = (evs ++ [LogInfo ("AMP framework download complete: "
                                     ++ dest)])%list) \/
  (Ret.status r = false /\
   exists evs, trace st' = (evs ++ [LogError (Ret.error r)])%list).
Proof.
  intros H. destruct (@getFramework_returns w o st r st' H)
    as [H1 | (r1 & dest & st1 & H1 & [H2 | (r2 & v & st2 & H2 &
         [H3 | (r3 & base & st3 & H3 &
         [H4 | (r4 & files & st4 & st5 & H4 & H5 & H6)])])])].
  - right. split; [|eapply validateDestination_reported; exact H1].
    now destruct (@validateDestination_inv w o st _ _ H1) as (? & ? & _ & ->).
  - right. split; [|eapply resolveVersion_reported; exact H2].
    destruct (@validateDestination_inv w o st _ _ H1) as (_ & _ & -> & _).
    now destruct (@resolveVersion_inv w o _ st1 _ _ H2) as (? & ->).
  - right. split; [|eapply resolveOrigin_reported; exact H3].
    destruct (@validateDestination_inv w o st _ _ H1) as (_ & _ & -> & _).
    destruct (@resolveVersion_inv w o _ st1 _ _ H2) as (-> & _).
    now destruct (@resolveOrigin_inv w o _ v st2 _ _ H3) as (? & ->).
  - right. split; [|eapply fetchFilesListing_reported; exact H4].
    destruct (@validateDestination_inv w o st _ _ H1) as (_ & _ & -> & _).
    destruct (@resolveVersion_inv w o _ st1 _ _ H2) as (-> & _).
    destruct (@resolveOrigin_inv w o _ v st2 _ _ H3) as (-> & _).
    now destruct (@fetchFilesListing_inv w _ base st3 _ _ H4) as (? & ->).
  - destruct (@validateDestination_inv w o st _ _ H1) as (_ & _ & -> & _).
    destruct (@resolveVersion_inv w o _ st1 _ _ H2) as (-> & _).
    destruct (@resolveOrigin_inv w o _ v st2 _ _ H3) as (-> & _).
    destruct (@fetchFilesListing_inv w _ base st3 _ _ H4) as (-> & _).
    rewrite (@downloadFiles_inv w _ dest files st5 _ _ (fetch_all w files _))
      in H6.
    destruct (settleDownloads _ _ _ _ _) as [[[]|m|] s6] in H6;
      [| |discriminate].
    + injection H6 as <- <-. left. repeat split.
      exists dest, (trace s6). now split.
    + injection H6 as <- <-. right. split; [reflexivity|].
      now exists (trace s6).
Qed.

(** On the host that does not serve [v0.js]. *)
Lemma X10_outcome_is_logged_witness :
  let w := Sample.world_missing_file in
  let o := Sample.options in
  let st := Sample.start in
  let r := Sample2.result_missing_file in
  let st' := Sample2.final_missing_file in
  getFramework w o st = (Ok r, st') /\
  ((Ret.status r = true /\ Ret.error r = "" /\
    exists dest evs,
      Ret.dest r = Some dest /\
      trace st' = (evs ++ [LogInfo ("AMP framework download complete: "
                                      ++ dest)])%list) \/
   (Ret.status r = false /\
    exists evs, trace st' = (evs ++ [LogError (Ret.error r)])%list)).
Proof.
  intros w o st r st'.
  assert (H : getFramework w o st = (Ok r, st')) by (vm_compute; reflexivity).
  exact (conj H (X10_outcome_is_logged w o st H)).
Defined.

(* ================================================================== *)
(** ** What is fetched *)
(* ================================================================== *)

Section Requests.

Lemma fetched_urls_app a b :
  fetched_urls (a ++ b) = (fetched_urls a ++ fetched_urls b)%list.
Proof. apply flat_map_app. Qed.

Lemma requested_refl st : requested [] st st.
Proof.
  split; [cbn; lia|]. exists []. now rewrite app_nil_r.
Qed.

Lemma requested_trans a b st1 st2 st3 :
  requested a st1 st2 -> requested b st2 st3 -> requested (a ++ b) st1 st3.
Proof.
  intros [F1 (e1 & T1 & U1)] [F2 (e2 & T2 & U2)]. split.
  - rewrite F2, F1, length_app. lia.
  - exists (e1 ++ e2)%list. rewrite T2, T1, app_assoc, fetched_urls_app.
    now rewrite U1, U2.
Qed.

Lemma requested_none_trans st1 st2 st3 :
  requested [] st1 st2 -> requested [] st2 st3 -> requested [] st1 st3.
Proof. apply (@requested_trans [] []). Qed.

Lemma requested_logged e st : not_a_fetch e -> requested [] st (logged e st).
Proof.
  intros He. split; [cbn; lia|]. exists [e]. now split.
Qed.

Lemma requested_fs st t :
  any_change (fs st) t ->
  requested [] st {| fs := t; trace := trace st; fetches := fetches st |}.
Proof.
  intros _. split; [cbn; lia|]. exists []. cbn. now rewrite app_nil_r.
Qed.

Lemma quiet_not_a_fetch evs : Forall quiet evs -> fetched_urls evs = [].
Proof.
  induction 1 as [|e evs [_ He] _ IH]; [reflexivity|].
  change (e :: evs) with ([e] ++ evs)%list. rewrite fetched_urls_app, IH.
  destruct e; try reflexivity. discriminate.
Qed.

Lemma quiet_requested st st' :
  extends_by quiet st st' -> fetches st' = fetches st -> requested [] st st'.
Proof.
  intros (evs & T & Q) F. split; [cbn; lia|].
  exists evs. split; [exact T | now apply quiet_not_a_fetch].
Qed.

Variable w : World.

Local Abbreviation quietly c := (respects (requested []) c).

Lemma fs_call_requested {A} e (run : Fs.node -> result (A * Fs.node)) :
  not_a_fetch e -> quietly (fs_call w e run).
Proof.
  intros He.
  apply (@respects_fs_call (requested []) not_a_fetch any_change
           requested_none_trans requested_logged requested_fs); [exact He|].
  intros; exact I.
Qed.

Lemma bind_requested {A B} (c : M A) (k : A -> M B) :
  quietly c -> (forall a, quietly (k a)) -> quietly (bind c k).
Proof.
  apply (@respects_bind (requested []) requested_none_trans).
Qed.

Lemma ret_requested {A} (a : A) : quietly (ret a).
Proof. apply (@respects_ret (requested []) requested_refl). Qed.

Lemma throw_requested {A} msg : quietly (@throw A msg).
Proof. apply (@respects_throw (requested []) requested_refl). Qed.

Lemma emit_requested e : not_a_fetch e -> quietly (emit e).
Proof. apply (@respects_emit (requested []) not_a_fetch requested_logged). Qed.

(** Lines 230-241 fetch nothing. *)
Lemma clearDirectory_requested dirpath : quietly (clearDirectory_ w dirpath).
Proof.
  unfold clearDirectory_.
  apply bind_requested; [now apply emit_requested|]. intros _.
  apply bind_requested; [now apply fs_call_requested|]. intros contents.
  intros st res st'.
  destruct (run_all (removeItem w dirpath) contents st) as [outs st1] eqn:E.
  intros H. injection H as _ <-.
  eapply (@respects_run_all (requested []) requested_refl requested_none_trans);
    [|exact E].
  intros item _. unfold removeItem, rmdir, unlink.
  destruct (snd item); now apply fs_call_requested.
Qed.

(** Lines 267-286 fetch nothing. *)
Lemma createSubdirectories_requested files dest :
  quietly (createSubdirectories_ w files dest).
Proof.
  unfold createSubdirectories_.
  apply (@respects_forEach (requested []) requested_refl requested_none_trans).
  intros dir _. apply bind_requested.
  - intros st res st' H. injection H as _ <-. apply requested_refl.
  - intros there. destruct (negb there); [|apply ret_requested].
    now apply fs_call_requested.
Qed.

Lemma prepareDestination_requested clear dest files :
  quietly (prepareDestination w clear dest files).
Proof.
  unfold prepareDestination. apply bind_requested.
  - destruct (not_false clear);
      [apply clearDirectory_requested | apply ret_requested].
  - intros _. apply createSubdirectories_requested.
Qed.

Lemma die_requested {A} : quietly (@die A).
Proof. apply (@respects_die (requested []) requested_refl). Qed.

(** Lines 303-332 fetch nothing. *)
Lemma saveResponse_requested f dest res : quietly (saveResponse w f dest res).
Proof.
  unfold saveResponse. destruct (negb (fst res)); [apply throw_requested|].
  apply bind_requested.
  { apply (@respects_try_catch (requested []) requested_none_trans);
      [|intros; apply ret_requested].
    apply bind_requested; [now apply fs_call_requested|].
    intros; apply ret_requested. }
  intros opened. destruct (Regex.test _ _).
  - destruct opened; [apply die_requested|].
    apply bind_requested.
    { destruct (snd res); [apply ret_requested | apply throw_requested]. }
    intros t.
    apply (@respects_try_catch (requested []) requested_none_trans);
      [now apply fs_call_requested | intros; apply die_requested].
  - destruct opened; [apply throw_requested|].
    destruct (snd res); [now apply fs_call_requested|].
    apply bind_requested; [now apply fs_call_requested|].
    intros; apply throw_requested.
Qed.

Lemma resume_requested dest p : quietly (resume w dest p).
Proof.
  unfold resume. destruct (snd p);
    [apply saveResponse_requested | apply throw_requested | apply die_requested].
Qed.

(** Lines 297-332 fetch the URL of the file, once, whatever comes of it. *)
Lemma fetchAndSave_requested f dest :
  respects (requested [url f]) (fetchAndSaveAsync_ w f dest).
Proof.
  intros st res st'. unfold fetchAndSaveAsync_, bind at 1. rewrite fetch_eq.
  set (st1 := {| fs := fs st; trace := (trace st ++ [Fetch (url f)])%list;
                 fetches := S (fetches st) |}).
  assert (H1 : requested [url f] st st1).
  { split; [cbn; lia|]. exists [Fetch (url f)]. now split. }
  destruct (answer (fetch_ w (fetches st) (url f))) as [x|msg|].
  - intros H.
    apply (@requested_trans [url f] [] st st1 st') in H1; [exact H1|].
    exact (@saveResponse_requested f dest x st1 res st' H).
  - intros H. injection H as _ <-. exact H1.
  - intros H. injection H as _ <-. exact H1.
Qed.

(** Line 189 fetches the URL of each file of the listing, once, in the
    order of the listing. *)
Lemma fetch_all_requested files st :
  requested (map url files) st
    {| fs := fs st;
       trace := (trace st ++ map (fun f => Fetch (url f)) files)%list;
       fetches := fetches st + List.length files |}.
Proof.
  split; [cbn [fetches]; now rewrite length_map|].
  eexists. split; [reflexivity|].
  induction files as [|f files IH]; [reflexivity|]. cbn [map fetched_urls flat_map app].
  f_equal. exact IH.
Qed.

(** Lines 183-202 fetch the URL of each file of the listing, once, in the
    order of the listing, whatever comes of the downloads. *)
Lemma downloadFiles_requested r dest files :
  respects (requested (map url files)) (downloadFiles w r dest files).
Proof.
  intros st res st'.
  rewrite (@downloadFiles_inv w r dest files st _ _ (fetch_all w files _)).
  set (s0 := logged (LogInfo "Downloading AMP framework...") st).
  assert (H0 : requested [] st s0) by now apply requested_logged.
  pose proof (requested_trans H0 (fetch_all_requested files s0)) as H01.
  cbn [app] in H01.
  match goal with
  | |- context [settleDownloads w dest files ?a ?s] =>
      destruct (settleDownloads w dest files a s) as [[[]|m|] s2] eqn:E2;
      assert (H2 : requested [] s s2)
  end.
  1,3,5: (revert E2;
          apply (@respects_forEach (requested []) requested_refl
                   requested_none_trans);
          intros i _; cbv beta;
          destruct (nth_error _ i);
          [apply resume_requested | apply ret_requested]).
  all: pose proof (requested_trans H01 H2) as H012;
       rewrite app_nil_r in H012.
  - intros H. injection H as _ <-.
    rewrite <- (app_nil_r (map url files)).
    eapply requested_trans; [exact H012 | now apply requested_logged].
  - intros H. injection H as _ <-.
    rewrite <- (app_nil_r (map url files)).
    eapply requested_trans; [exact H012 | now apply requested_logged].
  - intros H. injection H as _ <-. exact H012.
Qed.

End Requests.

(** X11.  Lines 145-192.  A run that returns a [count] other than 0
    fetched the listing and then every entry of it, each once and in the
    order of the listing, and nothing else: so whether downloads failed or
    not, and as many fetches as [count] and one. *)
Theorem X11_every_file_is_requested_once w o st r st' :
  getFramework w o st = (Ok r, st') ->
  Ret.count r <> 0 ->
  let listingUrl := Ret.url r ++ FRAMEWORK_FILES_TXT in
  exists body,
    fetch_ w (fetches st) listingUrl = Response true (BodyOk body) /\
    let files := parseFilesListing (Ret.url r) (Utf8.toString body) in
    Ret.count r = List.length files /\
    requested (listingUrl :: map url files) st st'.
Proof.
  intros H Hc listingUrl. destruct (@getFramework_returns w o st r st' H)
    as [H1 | (r1 & dest & st1 & H1 & [H2 | (r2 & v & st2 & H2 &
         [H3 | (r3 & base & st3 & H3 &
         [H4 | (r4 & files & st4 & st5 & H4 & H5 & H6)])])])].
  - exfalso. apply Hc.
    now destruct (@validateDestination_inv w o st _ _ H1) as (? & ? & _ & ->).
  - exfalso. apply Hc.
    destruct (@validateDestination_inv w o st _ _ H1) as (_ & _ & -> & _).
    now destruct (@resolveVersion_inv w o _ st1 _ _ H2) as (? & ->).
  - exfalso. apply Hc.
    destruct (@validateDestination_inv w o st _ _ H1) as (_ & _ & -> & _).
    destruct (@resolveVersion_inv w o _ st1 _ _ H2) as (-> & _).
    now destruct (@resolveOrigin_inv w o _ v st2 _ _ H3) as (? & ->).
  - exfalso. apply Hc.
    destruct (@validateDestination_inv w o st _ _ H1) as (_ & _ & -> & _).
    destruct (@resolveVersion_inv w o _ st1 _ _ H2) as (-> & _).
    destruct (@resolveOrigin_inv w o _ v st2 _ _ H3) as (-> & _).
    now destruct (@fetchFilesListing_inv w _ base st3 _ _ H4) as (? & ->).
  - pose proof (@validateDestination_quiet w o st _ _ H1) as Q1.
    pose proof (@validateDestination_fetches w o st _ _ H1) as F1.
    destruct (@resolveVersion_quiet w o r1 st1 _ _ H2) as (Q2 & _ & F2).
    destruct (@resolveOrigin_quiet w o r2 v st2 _ _ H3) as (Q3 & _ & F3).
    destruct (@fetchFilesListing_trace w r3 base st3 r4 files st4 H4)
      as (T4 & F4 & _).
    destruct (@fetchFilesListing_inv w r3 base st3 _ _ H4)
      as (E4 & _ & t & Hf & Hfiles).
    destruct (@resolveOrigin_inv w o r2 v st2 _ _ H3) as (E3 & _).
    destruct (@downloadFiles_fields w r4 dest files st5 r st' H6)
      as (_ & _ & Eu & Ec).
    assert (Hbase : Ret.url r = base) by (rewrite Eu, E4, E3; reflexivity).
    unfold listingUrl. rewrite Hbase. exists t.
    split; [rewrite <- F1, <- F2, <- F3; exact Hf|].
    split; [rewrite Ec, E4, <- Hfiles; reflexivity|].
    rewrite <- Hfiles.
    pose proof (quiet_requested Q1 F1) as R1.
    pose proof (quiet_requested Q2 F2) as R2.
    pose proof (quiet_requested Q3 F3) as R3.
    assert (R4 : requested [base ++ FRAMEWORK_FILES_TXT] st3 st4).
    { split; [rewrite F4; cbn; lia|]. eexists. split; [exact T4 | reflexivity]. }
    pose proof (@prepareDestination_requested w _ dest files st4 _ _ H5) as R5.
    pose proof (@downloadFiles_requested w r4 dest files st5 _ _ H6) as R6.
    pose proof (requested_trans
                  (requested_trans
                     (requested_trans
                        (requested_trans (requested_trans R1 R2) R3) R4) R5) R6)
      as R.
    exact R.
Qed.

(** On the host that does not serve [v0.js], every file is requested. *)
Lemma X11_every_file_is_requested_once_witness :
  let w := Sample.world_missing_file in
  let o := Sample.options in
  let st := Sample.start in
  let r := Sample2.result_missing_file in
  let st' := Sample2.final_missing_file in
  let listingUrl := Ret.url r ++ FRAMEWORK_FILES_TXT in
  getFramework w o st = (Ok r, st') /\ Ret.status r = false /\
  exists body,
    fetch_ w (fetches st) listingUrl = Response true (BodyOk body) /\
    let files := parseFilesListing (Ret.url r) (Utf8.toString body) in
    Ret.count r = List.length files /\
    requested (listingUrl :: map url files) st st'.
Proof.
  intros w o st r st' listingUrl.
  assert (H : getFramework w o st = (Ok r, st')) by (vm_compute; reflexivity).
  assert (Hc : Ret.count r <> 0) by (vm_compute; discriminate).
  split; [exact H|]. split; [reflexivity|].
  exact (X11_every_file_is_requested_once w o st H Hc).
Defined.

(** X12.  Lines 297-332.  A download changes nothing in the tree but at
    the path of its file; and when the response is not [ok] or the fetch
    rejects, it rejects ("Failed to fetch " and the URL, or the error of
    the fetch) and leaves the whole tree as it was: the file is not
    created, nor truncated. *)
Theorem X12_download_touches_one_file w f dest st res st' :
  fetchAndSaveAsync_ w f dest st = (res, st') ->
  let fullpath := Path.join dest (filepath f) in
  (forall q k, q <> locate w fullpath ->
     Fs.stat q (fs st) = Some k -> Fs.stat q (fs st') = Some k) /\
  (forall b, fetch_ w (fetches st) (url f) = Response false b ->
     res = Throw ("Failed to fetch " ++ url f) /\ fs st' = fs st) /\
  (forall msg, fetch_ w (fetches st) (url f) = NetworkError msg ->
     res = Throw msg /\ fs st' = fs st).
Proof.
  intros H fullpath. split; [|split].
  - intros q k Hq Hk.
    assert (K : kept_st q st st'); [|exact (K k Hk)].
    revert H.
    apply (@respects_fetchAndSaveAsync (kept_st q) any_event (kept q));
      unfold kept_st, kept; cbn [fs logged];
      try solve [intros; exact I | intros; assumption | intros; auto].
    intros c t t' Hw k' Hk'.
    exact (@stat_write_other c _ t t' q k' Hw Hq Hk').
  - intros b Hf. revert H.
    unfold fetchAndSaveAsync_, bind at 1, fetch, saveResponse.
    rewrite Hf. cbn [fst negb]. unfold throw. intros H.
    injection H as <- <-. now split.
  - intros msg Hf. revert H. unfold fetchAndSaveAsync_, bind at 1, fetch.
    rewrite Hf. intros H. injection H as <- <-. now split.
Qed.

(** The download of the geolocation helper of the sample. *)
Lemma X12_download_touches_one_file_witness :
  let w := Sample.world in
  let f := Sample.geo_file in
  let st := Sample.ready in
  let res := fst Sample2.run_geo in
  let st' := snd Sample2.run_geo in
  let fullpath := Path.join "out" (filepath f) in
  fetchAndSaveAsync_ w f "out" st = (res, st') /\
  (forall q k, q <> locate w fullpath ->
     Fs.stat q (fs st) = Some k -> Fs.stat q (fs st') = Some k) /\
  (forall b, fetch_ w (fetches st) (url f) = Response false b ->
     res = Throw ("Failed to fetch " ++ url f) /\ fs st' = fs st) /\
  (forall msg, fetch_ w (fetches st) (url f) = NetworkError msg ->
     res = Throw msg /\ fs st' = fs st).
Proof.
  intros w f st res st' fullpath.
  assert (H : fetchAndSaveAsync_ w f "out" st = (res, st'))
    by (vm_compute; reflexivity).
  exact (conj H (X12_download_touches_one_file w f "out" st H)).
Defined.

(* ================================================================== *)
(** ** The subdirectories *)
(* ================================================================== *)

Section UniqueDirs.

Lemma indexOf_nth x l : forall i,
  indexOf x l = Some i -> nth_error l i = Some x.
Proof.
  induction l as [|y l IH]; intros i; cbn [indexOf]; [discriminate|].
  destruct (String.eqb_spec y x) as [->|N].
  - intros H. now injection H as <-.
  - destruct (indexOf x l) as [j|]; [|discriminate].
    intros H. injection H as <-. cbn [nth_error]. now apply IH.
Qed.

Lemma indexOf_In x l : In x l -> exists i, indexOf x l = Some i.
Proof.
  induction l as [|y l IH]; [contradiction|]. cbn [indexOf In].
  destruct (String.eqb_spec y x) as [->|N]; [now exists 0|].
  intros [E|Hin]; [contradiction|].
  destruct (IH Hin) as (i & ->). now exists (S i).
Qed.

Lemma filteri_In {A} (keep : A -> nat -> bool) x l : forall i,
  In x (filteri keep i l) <->
  exists j, nth_error l j = Some x /\ keep x (i + j) = true.
Proof.
  induction l as [|y l IH]; intros i; cbn [filteri].
  - split; [contradiction | now intros ([|j] & H & _)].
  - assert (Hrest : In x (filteri keep (S i) l) <->
                    exists j, nth_error (y :: l) (S j) = Some x /\
                              keep x (i + S j) = true).
    { rewrite IH. split; intros (j & H1 & H2); exists j;
        (split; [exact H1|]); now rewrite <- ?Nat.add_succ_r, ?Nat.add_succ_r in *. }
    destruct (keep y i) eqn:E.
    + cbn [In]. rewrite Hrest. split.
      * intros [->|(j & H)]; [exists 0; now rewrite Nat.add_0_r | now exists (S j)].
      * intros ([|j] & H1 & H2).
        -- left. now injection H1.
        -- right. now exists j.
    + rewrite Hrest. split.
      * intros (j & H). now exists (S j).
      * intros ([|j] & H1 & H2).
        -- injection H1 as ->. rewrite Nat.add_0_r in H2. congruence.
        -- now exists j.
Qed.

Lemma filteri_NoDup {A} (keep : A -> nat -> bool) l :
  (forall x i j, keep x i = true -> keep x j = true -> i = j) ->
  forall i, NoDup (filteri keep i l).
Proof.
  intros Hk. induction l as [|y l IH]; intros i; cbn [filteri];
    [constructor|].
  destruct (keep y i) eqn:E; [|apply IH].
  constructor; [|apply IH].
  rewrite filteri_In. intros (j & _ & Hj).
  specialize (Hk y i (S i + j) E Hj). lia.
Qed.

End UniqueDirs.

Lemma uniqueDirs_NoDup files : NoDup (uniqueDirs files).
Proof.
  unfold uniqueDirs.
  set (dirs := map (fun f => Path.dirname (filepath f)) files).
  apply filteri_NoDup. intros x i j Hi Hj.
  apply andb_true_iff in Hi, Hj. destruct Hi as [_ Hi], Hj as [_ Hj].
  destruct (indexOf x dirs) as [n|]; [|discriminate].
  apply Nat.eqb_eq in Hi, Hj. congruence.
Qed.

Lemma uniqueDirs_In files d :
  In d (uniqueDirs files) <->
  d <> "." /\ exists f, In f files /\ Path.dirname (filepath f) = d.
Proof.
  unfold uniqueDirs.
  set (dirs := map (fun f => Path.dirname (filepath f)) files).
  rewrite filteri_In. cbn [Nat.add].
  assert (Hin : In d dirs <->
                exists f, In f files /\ Path.dirname (filepath f) = d).
  { unfold dirs. rewrite in_map_iff. split; intros (f & H1 & H2);
      exists f; now split. }
  rewrite <- Hin. split.
  - intros (j & Hj & Hk). apply andb_true_iff in Hk. destruct Hk as [Hd _].
    split; [|eapply nth_error_In, Hj].
    apply negb_true_iff, String.eqb_neq in Hd. exact Hd.
  - intros [Hd Hi]. destruct (indexOf_In _ _ Hi) as (i & Ei).
    exists i. split; [exact (indexOf_nth _ _ Ei)|].
    rewrite Ei, Nat.eqb_refl, andb_true_r.
    now apply negb_true_iff, String.eqb_neq.
Qed.

(** X13.  Lines 269-272.  The directories to create are listed without
    repetition, and they are the directories of the files of the listing
    other than [.]. *)
Theorem X13_unique_directories files :
  NoDup (uniqueDirs files) /\
  forall d,
    In d (uniqueDirs files) <->
    d <> "." /\ exists f, In f files /\ Path.dirname (filepath f) = d.
Proof.
  split; [apply uniqueDirs_NoDup | intros d; apply uniqueDirs_In].
Qed.

Section DirnameFacts.

Lemma dirname_scan_no_slash rs : forall i b,
  ~ In "/"%char rs -> Path.dirname_scan rs i b = None.
Proof.
  induction rs as [|c rs IH]; intros i b H; [reflexivity|].
  cbn [Path.dirname_scan].
  destruct (Ascii.eqb_spec c "/") as [->|N]; [exfalso; apply H; now left|].
  apply IH. intros Hin. apply H. now right.
Qed.

(** A name without a slash is in the directory [.]. *)
Lemma dirname_no_slash p : no_slash p -> Path.dirname p = ".".
Proof.
  destruct p as [|c0 rest]; [reflexivity|].
  intros H. apply no_slash_cons in H. destruct H as [Hc Hr].
  unfold Path.dirname. rewrite dirname_scan_no_slash.
  - apply Ascii.eqb_neq in Hc. now rewrite Hc.
  - rewrite <- in_rev. exact Hr.
Qed.

Lemma join_split_go s : forall cur,
  JsString.join "/" (JsString.split_go "/" 0 cur s) = cur ++ s.
Proof.
  induction s as [|c s IH]; intros cur.
  - now rewrite append_nil_r.
  - rewrite split_go_slash. destruct (Ascii.eqb_spec c "/") as [->|N].
    + destruct (split_go_head s "") as (h & tl & E & _).
      pose proof (IH "") as IH0. rewrite E in IH0 |- *.
      rewrite join_cons, IH0. reflexivity.
    + rewrite IH, append_assoc. reflexivity.
Qed.

(** Line 276 on a POSIX host: the separators are already the platform's. *)
Lemma join_split s : JsString.join Path.sep (JsString.split "/" s) = s.
Proof. apply (join_split_go s ""). Qed.

End DirnameFacts.

(** X14.  Lines 267-286.  When no file of the listing has a slash in
    its path, there is no directory to create: [createSubdirectories_]
    returns and leaves the state as it was. *)
Theorem X14_flat_listing_needs_no_directory w files dest st :
  (forall f, In f files -> no_slash (filepath f)) ->
  uniqueDirs files = [] /\
  createSubdirectories_ w files dest st = (Ok tt, st).
Proof.
  intros H.
  assert (E : uniqueDirs files = []).
  { destruct (uniqueDirs files) as [|d l] eqn:E; [reflexivity|]. exfalso.
    assert (Hin : In d (uniqueDirs files)) by (rewrite E; now left).
    apply uniqueDirs_In in Hin. destruct Hin as (Hd & f & Hf & Ed).
    apply Hd. rewrite <- Ed. apply dirname_no_slash, H, Hf. }
  split; [exact E|]. unfold createSubdirectories_. now rewrite E.
Qed.

(** The two files of the sample that are in no subdirectory. *)
Lemma X14_flat_listing_needs_no_directory_witness :
  let w := Sample.world in
  let files := Sample2.flat in
  let st := Sample.start in
  (forall f, In f files -> no_slash (filepath f)) /\
  uniqueDirs files = [] /\
  createSubdirectories_ w files "out" st = (Ok tt, st).
Proof.
  intros w files st.
  assert (H : forall f, In f files -> no_slash (filepath f)).
  { intros f [<-|[<-|[]]]; unfold no_slash; cbn; intuition discriminate. }
  exact (conj H (@X14_flat_listing_needs_no_directory w files "out" st H)).
Defined.

Section SubdirectoriesAreThere.

Variable w : World.
Variable dest : string.

Lemma exists_stat p t : Fs.exists_ p t = true <-> exists k, Fs.stat p t = Some k.
Proof.
  unfold Fs.exists_, Fs.stat. destruct (Fs.lookup p t) as [n|]; cbn [option_map].
  - split; [now exists (Fs.kind_of n) | reflexivity].
  - split; [discriminate | now intros (k & H)].
Qed.

(** The step of line 274-285 for one directory. *)
Local Abbreviation ensure :=
  (fun dir =>
     let dir := JsString.join Path.sep (JsString.split "/" dir) in
     let fullpath := Path.join dest dir in
     there <- existsSync w fullpath ;;
     if negb there then mkdirSync w fullpath else ret tt).

Lemma ensure_kept q dir : respects (kept_st q) (ensure dir).
Proof.
  cbv beta zeta.
  apply (@respects_bind (kept_st q) (@kept_trans q)).
  - intros st res st' H. injection H as _ <-. apply kept_refl.
  - intros there. destruct (negb there).
    + apply (@respects_mkdirSync (kept_st q) any_event (kept q) (@kept_trans q)).
      * intros e s _ k Hk. exact Hk.
      * intros s t Hc. exact Hc.
      * exact I.
      * intros t t'. apply mkdir_kept.
    + apply (@respects_ret (kept_st q) (@kept_refl q)).
Qed.

Lemma ensure_ok dir st st' :
  ensure dir st = (Ok tt, st') ->
  Fs.exists_ (locate w (Path.join dest dir)) (fs st') = true.
Proof.
  cbv beta zeta. rewrite join_split. unfold bind, existsSync.
  destruct (Fs.exists_ (locate w (Path.join dest dir)) (fs st)) eqn:E;
    cbn [negb].
  - unfold ret. intros H. now injection H as <-.
  - intros H. apply mkdirSync_ok in H. destruct H as (t' & Hm & ->).
    cbn [fs]. destruct (mkdir_p_is_dir _ _ Hm) as (es & Hl).
    unfold Fs.exists_. now rewrite Hl.
Qed.

Lemma forEach_ensure_ok dirs : forall st st',
  forEach ensure dirs st = (Ok tt, st') ->
  forall dir, In dir dirs ->
    Fs.exists_ (locate w (Path.join dest dir)) (fs st') = true.
Proof.
  induction dirs as [|d dirs IH]; intros st st' H dir Hin; [contradiction|].
  cbn [forEach] in H. unfold bind at 1 in H.
  destruct (ensure d st) as [[[]|m|] st1] eqn:E1; [|discriminate..].
  destruct Hin as [<-|Hin]; [|exact (IH _ _ H _ Hin)].
  apply ensure_ok in E1. apply exists_stat in E1. destruct E1 as (k & Hk).
  apply exists_stat. exists k.
  assert (K : kept_st (locate w (Path.join dest d)) st1 st').
  { revert H.
    apply (@respects_forEach (kept_st _) (@kept_refl _) (@kept_trans _)).
    intros a _. apply ensure_kept. }
  exact (K k Hk).
Qed.

End SubdirectoriesAreThere.

(** X15.  Lines 267-286.  When [createSubdirectories_] returns, the
    directory of every file of the listing, unless it is [.], exists under
    the destination. *)
Theorem X15_subdirectories_are_there w files dest st st' :
  createSubdirectories_ w files dest st = (Ok tt, st') ->
  forall f, In f files ->
    let dir := Path.dirname (filepath f) in
    dir <> "." ->
    Fs.exists_ (locate w (Path.join dest dir)) (fs st') = true.
Proof.
  intros H f Hf dir Hd.
  apply (@forEach_ensure_ok w dest (uniqueDirs files) st st' H).
  apply uniqueDirs_In. split; [exact Hd|]. now exists f.
Qed.

(** On the sample, [out/v0] is there for the geolocation helper. *)
Lemma X15_subdirectories_are_there_witness :
  let w := Sample.world in
  let files := Sample2.files in
  let st := Sample.start in
  let st' := snd Sample2.run_subdirectories in
  createSubdirectories_ w files "out" st = (Ok tt, st') /\
  In Sample.geo_file files /\
  Fs.exists_ (locate w (Path.join "out" (Path.dirname "v0/amp-geo-0.1.js")))
             (fs st') = true.
Proof.
  intros w files st st'.
  assert (H : createSubdirectories_ w files "out" st = (Ok tt, st'))
    by (vm_compute; reflexivity).
  assert (Hin : In Sample.geo_file files) by (vm_compute; tauto).
  split; [exact H|]. split; [exact Hin|].
  refine (@X15_subdirectories_are_there w files "out" st st' H
            Sample.geo_file Hin _).
  vm_compute. discriminate.
Defined.

(** X16.  Line 321.  The placeholder is as long as what it replaces,
    two letters and 26 spaces: undoing the hotpatch never changes the
    length of the text. *)
Theorem X16_hotpatch_keeps_the_length t :
  String.length AMP_ISO_COUNTRY_HOTPATCH = 2 + 26 /\
  String.length (undoHotpatch t) = String.length t.
Proof.
  split; [reflexivity|].
  unfold undoHotpatch, Regex.replace.
  destruct (Regex.exec Literals.re_country t) as [[[b mt] a]|] eqn:E;
    [|reflexivity].
  destruct (exec_some _ _ E) as (Hs & _ & _).
  pose proof (country_run_length (exec_country_run _ E)) as Hl.
  rewrite getSubstitution_no_dollar.
  - rewrite Hs, !append_length, Hl. reflexivity.
  - unfold no_dollar. cbn. intuition discriminate.
Qed.

(* ================================================================== *)
(** ** Writing a listing and reading it back *)
(* ================================================================== *)

Section ListingRoundTrip.

Local Abbreviation no_LF n := (~ In Chars.LF (list_ascii_of_string n)).

Lemma no_LF_cons c n : no_LF (String c n) -> c <> Chars.LF /\ no_LF n.
Proof.
  cbn [list_ascii_of_string In]. intros H. split.
  - intros ->. apply H. now left.
  - intros Hin. apply H. now right.
Qed.

Lemma spec_lines_last n : forall cur,
  no_LF n -> spec_lines_from cur n = [cur ++ n].
Proof.
  induction n as [|c n IH]; intros cur H.
  - now rewrite append_nil_r.
  - apply no_LF_cons in H. destruct H as [Hc Hn].
    cbn [spec_lines_from]. apply Ascii.eqb_neq in Hc. rewrite Hc.
    destruct n as [|d n'].
    + reflexivity.
    + destruct (no_LF_cons Hn) as [Hd _]. apply Ascii.eqb_neq in Hd.
      rewrite Hd, andb_false_r, (IH _ Hn), append_assoc. reflexivity.
Qed.

Lemma spec_lines_LF n : forall cur rest,
  no_LF n -> JsString.endsWith (String Chars.CR "") n = false ->
  spec_lines_from cur (n ++ String Chars.LF rest)
  = (cur ++ n) :: spec_lines_from "" rest.
Proof.
  induction n as [|c n IH]; intros cur rest H He.
  - cbn [append spec_lines_from]. rewrite Ascii.eqb_refl.
    now rewrite append_nil_r.
  - apply no_LF_cons in H. destruct H as [Hc Hn].
    cbn [JsString.endsWith] in He. apply orb_false_iff in He.
    destruct He as [He1 He2].
    cbn [append spec_lines_from]. apply Ascii.eqb_neq in Hc. rewrite Hc.
    destruct n as [|d n'].
    + cbn [append]. rewrite Ascii.eqb_refl, andb_true_r.
      destruct (Ascii.eqb_spec c Chars.CR) as [->|N]; [discriminate|].
      change (String Chars.LF rest) with ("" ++ String Chars.LF rest).
      rewrite (IH (cur ++ String c "") rest); [|now intros [] | reflexivity].
      now rewrite append_nil_r.
    + destruct (no_LF_cons Hn) as [Hd _]. apply Ascii.eqb_neq in Hd.
      cbn [append]. rewrite Hd, andb_false_r.
      change (String d (n' ++ String Chars.LF rest))
        with (String d n' ++ String Chars.LF rest).
      rewrite (IH _ _ Hn He2), append_assoc. reflexivity.
Qed.

Lemma spec_lines_CRLF n : forall cur rest,
  no_LF n ->
  spec_lines_from cur (n ++ String Chars.CR (String Chars.LF rest))
  = (cur ++ n) :: spec_lines_from "" rest.
Proof.
  induction n as [|c n IH]; intros cur rest H.
  - cbn [append spec_lines_from]. now rewrite append_nil_r.
  - apply no_LF_cons in H. destruct H as [Hc Hn].
    cbn [append spec_lines_from]. apply Ascii.eqb_neq in Hc. rewrite Hc.
    destruct n as [|d n'].
    + cbn [append]. rewrite andb_false_r.
      change (String Chars.CR (String Chars.LF rest))
        with ("" ++ String Chars.CR (String Chars.LF rest)).
      rewrite (IH (cur ++ String c "") rest); [|now intros []].
      now rewrite append_nil_r.
    + destruct (no_LF_cons Hn) as [Hd _]. apply Ascii.eqb_neq in Hd.
      cbn [append]. rewrite Hd, andb_false_r.
      change (String d (n' ++ String Chars.CR (String Chars.LF rest)))
        with (String d n' ++ String Chars.CR (String Chars.LF rest)).
      rewrite (IH _ _ Hn), append_assoc. reflexivity.
Qed.

Local Abbreviation named := (fun L => negb (String.eqb L "")).

Lemma named_name n : listing_name n -> named n = true.
Proof. intros [H _]. now apply negb_true_iff, String.eqb_neq. Qed.

Lemma filter_names names :
  Forall listing_name names -> filter named names = names.
Proof.
  induction 1 as [|n names Hn _ IH]; [reflexivity|].
  cbn [filter]. now rewrite (named_name Hn), IH.
Qed.

Lemma lines_terminated (term : string) names :
  (forall n cur rest, listing_name n ->
     spec_lines_from cur (n ++ term ++ rest)
     = (cur ++ n) :: spec_lines_from "" rest) ->
  Forall listing_name names ->
  spec_lines (String.concat "" (map (fun n => n ++ term) names))
  = (names ++ [""])%list.
Proof.
  intros Hterm. unfold spec_lines. induction 1 as [|n names Hn Hnames IH].
  - reflexivity.
  - cbn [map]. 
    assert (E : String.concat "" ((n ++ term) :: map (fun n => n ++ term) names)
                = n ++ term ++ String.concat "" (map (fun n => n ++ term) names)).
    { destruct (map (fun n => n ++ term) names) eqn:Em.
      - cbn [String.concat]. now rewrite append_nil_r.
      - cbn [String.concat append]. now rewrite append_assoc. }
    rewrite E, (Hterm _ _ _ Hn), IH. reflexivity.
Qed.

Lemma lines_joined names :
  Forall listing_name names ->
  filter named (spec_lines (String.concat NL names)) = names.
Proof.
  unfold spec_lines. induction 1 as [|n names Hn Hnames IH]; [reflexivity|].
  destruct Hn as (Hne & Hlf & Hcr).
  destruct names as [|n' names].
  - cbn [String.concat]. rewrite (@spec_lines_last n "" Hlf). cbn [append filter].
    apply String.eqb_neq in Hne. now rewrite Hne.
  - change (String.concat NL (n :: n' :: names))
      with (n ++ String Chars.LF (String.concat NL (n' :: names))).
    rewrite (@spec_lines_LF n "" _ Hlf Hcr). cbn [append filter].
    apply String.eqb_neq in Hne. rewrite Hne. cbn [negb]. now rewrite IH.
Qed.

End ListingRoundTrip.

(** X17.  Lines 151-160.  A listing written from names (not empty,
    without a line feed, not ending with a carriage return), whether joined
    by line feeds, or each ended by a line feed, or each ended by a
    carriage return and a line feed, is read back as the entries of these
    names, in order. *)
Theorem X17_listing_round_trip base names :
  Forall listing_name names ->
  let entries := map (fun n => {| filepath := n; url := base ++ n |}) names in
  parseFilesListing base (String.concat NL names) = entries /\
  parseFilesListing base (String.concat "" (map (fun n => n ++ NL) names))
    = entries /\
  parseFilesListing base (String.concat "" (map (fun n => n ++ CRLF) names))
    = entries.
Proof.
  intros H entries. rewrite !parseFilesListing_spec. unfold spec_entries.
  split; [|split]; unfold entries; f_equal.
  - now apply lines_joined.
  - rewrite (@lines_terminated NL names); [| |exact H].
    + rewrite filter_app, (filter_names H). cbn. apply app_nil_r.
    + intros n cur rest (_ & Hlf & Hcr). now apply spec_lines_LF.
  - rewrite (@lines_terminated CRLF names); [| |exact H].
    + rewrite filter_app, (filter_names H). cbn. apply app_nil_r.
    + intros n cur rest (_ & Hlf & _). now apply spec_lines_CRLF.
Qed.

(** The three names of the sample listing. *)
Lemma X17_listing_round_trip_witness :
  let base := "https://example.com/rtv/15/" in
  let names := ["files.txt"; "v0.js"; "v0/amp-geo-0.1.js"] in
  let entries := map (fun n => {| filepath := n; url := base ++ n |}) names in
  Forall listing_name names /\
  parseFilesListing base (String.concat NL names) = entries /\
  parseFilesListing base (String.concat "" (map (fun n => n ++ NL) names))
    = entries /\
  parseFilesListing base (String.concat "" (map (fun n => n ++ CRLF) names))
    = entries.
Proof.
  intros base names entries.
  assert (H : Forall listing_name names).
  { repeat constructor; try discriminate;
      cbn; intuition discriminate. }
  exact (conj H (@X17_listing_round_trip base names H)).
Defined.

(* ================================================================== *)
(** ** More on the clearing *)
(* ================================================================== *)

(** X18.  Lines 230-241.  When the listing of the directory is read,
    the removal of every item is called, in the order of the listing,
    whatever comes of the others and of the whole; when it is not read, the
    call rejects after the log line and the [readdir], and the tree is as
    it was. *)
Theorem X18_every_removal_is_attempted w dirpath st res st' :
  clearDirectory_ w dirpath st = (res, st') ->
  let announced := (trace st ++ [LogInfo "Clearing destination directory";
                                 Readdir dirpath])%list in
  match fault w (Readdir dirpath),
        Fs.readdir (locate w dirpath) (fs st) with
  | None, Some listing =>
      trace st' = (announced ++ map (removal dirpath) listing)%list
  | _, _ =>
      trace st' = announced /\ fs st' = fs st /\ exists msg, res = Throw msg
  end.
Proof.
  unfold clearDirectory_, bind, log_info, emit, readdir, fs_call.
  cbn [fs trace fetches].
  destruct (fault w (Readdir dirpath)) as [m|].
  { intros H. injection H as <- <-. cbn [trace fs].
    rewrite <- app_assoc. repeat split. now exists m. }
  destruct (Fs.readdir (locate w dirpath) (fs st)) as [listing|] eqn:El.
  - cbn [fs trace fetches].
    destruct (run_all (removeItem w dirpath) listing _) as [outs s1] eqn:Er.
    intros H. injection H as _ <-.
    rewrite (@run_all_remove_trace w dirpath listing _ outs s1 Er).
    cbn [trace]. now rewrite <- !app_assoc.
  - intros H. injection H as <- <-. cbn [trace fs].
    rewrite <- app_assoc. repeat split. eexists; reflexivity.
Qed.

(** On the host where [unlink] is not permitted: the removal of [stale]
    is called after the removal of [old.txt] failed. *)
Lemma X18_every_removal_is_attempted_witness :
  let w := Sample.world_unlink_fails in
  let st := Sample.start in
  let res := fst Sample2.run_clear_fails in
  let st' := snd Sample2.run_clear_fails in
  clearDirectory_ w "out" st = (res, st') /\
  res = Throw "EPERM: operation not permitted, unlink" /\
  trace st' = [LogInfo "Clearing destination directory"; Readdir "out";
               Unlink "out/old.txt"; Rmdir "out/stale"].
Proof.
  intros w st res st'.
  assert (H : clearDirectory_ w "out" st = (res, st'))
    by (vm_compute; reflexivity).
  split; [exact H|]. split; [reflexivity|].
  exact (X18_every_removal_is_attempted w "out" st H).
Defined.

Section StaysInside.

Import Fs.

(** Removing the entry at [p] leaves what is at [q] as it is, unless [q]
    is [p] or below it. *)
Lemma stat_remove_other f :
  (forall x es es', f x es = Some es' -> es' = remove x es) ->
  forall p t t' q k,
    update f p t = Some t' ->
    (forall rest, q <> (p ++ rest)%list) ->
    stat q t = Some k -> stat q t' = Some k.
Proof.
  intros Hf. unfold stat.
  induction p as [|x p IH]; intros t t' q k; [discriminate|].
  cbn [update]. destruct t as [?|es]; [discriminate|].
  destruct p as [|y p].
  - destruct (f x es) as [es'|] eqn:E; cbn [option_map]; [|discriminate].
    intros H. injection H as <-. rewrite (Hf _ _ _ E). intros Hq.
    destruct q as [|z q]; [now intros|]. cbn [lookup].
    destruct (string_dec x z) as [<-|Nz]; [now destruct (Hq q)|].
    now rewrite (find_remove_other _ Nz).
  - destruct (find x es) as [c|] eqn:Ex; [|discriminate].
    destruct (update f (y :: p) c) as [c'|] eqn:Eu; [|discriminate].
    intros H. injection H as <-. intros Hq.
    destruct q as [|z q]; [now intros|]. cbn [lookup].
    destruct (string_dec x z) as [<-|Nz].
    + rewrite find_set_same, Ex. apply (IH _ _ _ _ Eu).
      intros rest ->. now apply (Hq rest).
    + now rewrite (find_set_other _ _ Nz).
Qed.

Lemma unlink_other p t t' q k :
  unlink p t = Some t' -> (forall rest, q <> (p ++ rest)%list) ->
  stat q t = Some k -> stat q t' = Some k.
Proof.
  apply stat_remove_other. intros y es es'.
  destruct (find y es) as [[?|?]|]; try discriminate.
  intros H. now injection H as <-.
Qed.

Lemma rmdir_other p t t' q k :
  rmdir_r p t = Some t' -> (forall rest, q <> (p ++ rest)%list) ->
  stat q t = Some k -> stat q t' = Some k.
Proof.
  apply stat_remove_other. intros y es es'.
  destruct (find y es) as [[?|?]|]; try discriminate.
  intros H. now injection H as <-.
Qed.

End StaysInside.

Lemma removeItem_kept w dirpath item q :
  dirpath <> "" -> Path.is_name (fst item) = true ->
  (forall x rest, q <> (locate w dirpath ++ x :: rest)%list) ->
  respects (kept_st q) (removeItem w dirpath item).
Proof.
  intros Hd Hn Hq.
  pose proof (@is_name_names_child w dirpath item Hd Hn) as Hp.
  unfold names_child in Hp.
  assert (Hq' : forall rest,
    q <> (locate w (Path.join dirpath (fst item)) ++ rest)%list).
  { intros rest. rewrite Hp, <- app_assoc. apply Hq. }
  unfold removeItem, rmdir, unlink.
  destruct (snd item);
    apply (@respects_fs_call (kept_st q) any_event (kept q) (@kept_trans q));
    unfold kept_st, kept; cbn [fs logged];
    try solve [intros; exact I | intros; assumption | intros; auto].
  - intros t [] t' H k Hk. apply or_fail_ok in H.
    exact (@rmdir_other _ t t' q k H Hq' Hk).
  - intros t [] t' H k Hk. apply or_fail_ok in H.
    exact (@unlink_other _ t t' q k H Hq' Hk).
Qed.

(** X19.  Lines 230-241.  Clearing a directory changes nothing outside
    of it: what is at a location that is not below the directory is there
    after the call, as it was, whether the call resolves or rejects (the
    entries of the directory having names). *)
Theorem X19_clearing_stays_inside w dirpath st res st' :
  clearDirectory_ w dirpath st = (res, st') ->
  dirpath <> "" ->
  (forall listing,
     Fs.readdir (locate w dirpath) (fs st) = Some listing ->
     Forall (fun item => Path.is_name (fst item) = true) listing) ->
  forall q k,
    (forall x rest, q <> (locate w dirpath ++ x :: rest)%list) ->
    Fs.stat q (fs st) = Some k -> Fs.stat q (fs st') = Some k.
Proof.
  intros H Hd Hnames q k Hq Hk. revert H.
  unfold clearDirectory_, bind, log_info, emit, readdir, fs_call.
  cbn [fs trace fetches].
  destruct (fault w (Readdir dirpath)) as [m|].
  { intros H. injection H as _ <-. exact Hk. }
  destruct (Fs.readdir (locate w dirpath) (fs st)) as [listing|] eqn:El.
  2:{ intros H. injection H as _ <-. exact Hk. }
  cbn [fs trace fetches].
  destruct (run_all (removeItem w dirpath) listing _) as [outs s1] eqn:Er.
  intros H. injection H as _ <-.
  assert (K : kept_st q {| fs := fs st;
                           trace := ((trace st ++
                                      [LogInfo "Clearing destination directory"])
                                     ++ [Readdir dirpath])%list;
                           fetches := fetches st |} s1).
  { eapply (@respects_run_all (kept_st q) (@kept_refl q) (@kept_trans q));
      [|exact Er].
    intros item Hin. apply removeItem_kept; [exact Hd | | exact Hq].
    pose proof (Hnames listing eq_refl) as HF.
    rewrite Forall_forall in HF. exact (HF item Hin). }
  exact (K k Hk).
Qed.

(** On the sample: the destination itself is still a directory. *)
Lemma X19_clearing_stays_inside_witness :
  let w := Sample.world in
  let st := Sample.start in
  let res := fst Sample2.run_clear in
  let st' := snd Sample2.run_clear in
  clearDirectory_ w "out" st = (res, st') /\
  Fs.stat ["work"; "out"] (fs st') = Some Fs.IsDir.
Proof.
  intros w st res st'.
  assert (H : clearDirectory_ w "out" st = (res, st'))
    by (vm_compute; reflexivity).
  assert (Hd : "out" <> "") by discriminate.
  assert (Hn : forall listing,
            Fs.readdir (locate w "out") (fs st) = Some listing ->
            Forall (fun item => Path.is_name (fst item) = true) listing).
  { intros listing E. vm_compute in E. injection E as <-.
    repeat constructor. }
  split; [exact H|].
  refine (@X19_clearing_stays_inside w "out" st res st' H Hd Hn
            ["work"; "out"] Fs.IsDir _ eq_refl).
  intros x rest E. vm_compute in E. discriminate E.
Defined.

(* ================================================================== *)
(** ** A run that stops before the downloads *)
(* ================================================================== *)

Section EarlyReturn.

Variable w : World.

Local Abbreviation untouched := (fun e => materializes e = false).

Lemma quiet_untouched st st' :
  extends_by quiet st st' -> extends_by untouched st st'.
Proof.
  intros (evs & T & Q). exists evs. split; [exact T|].
  revert Q. apply Forall_impl. now intros e [H _].
Qed.

Lemma fetchFilesListing_stops r base st r' st' :
  fetchFilesListing w r base st = (Ok (inl r'), st') ->
  extends_by untouched st st' /\ fetches st' = S (fetches st).
Proof.
  unfold fetchFilesListing, andThen, try_catch, fetch, text, fail, bind,
    log_info, log_error, emit, ret, throw.
  destruct (fetch_ w (fetches st) (base ++ FRAMEWORK_FILES_TXT))
    as [[|] [t|partial msg]|msg]; cbn [fst snd negb];
    try (intros H; injection H as _ <-; cbn [trace fetches]; split;
         [eexists; split; [rewrite <- app_assoc; reflexivity
                          | now repeat constructor]
         | reflexivity]).
  destruct (listsItself (parseFilesListing base (Utf8.toString t)));
    cbn [negb];
    intros H; try discriminate; injection H as _ <-; cbn [trace fetches];
    split; [|reflexivity].
  eexists; split; [rewrite <- app_assoc; reflexivity | now repeat constructor].
Qed.

Lemma planDownload_stops o st r st' :
  planDownload w o st = (Ok (inl r), st') ->
  extends_by untouched st st' /\ fetches st' <= S (fetches st).
Proof.
  unfold planDownload, andThen, bind, ret.
  destruct (validateDestination w o st) as [[[r1|[r1 d]]|m1|] st1] eqn:E1;
    try discriminate.
  { intros H. injection H as _ <-.
    pose proof (@validateDestination_quiet w o st _ _ E1) as Q.
    pose proof (@validateDestination_fetches w o st _ _ E1) as F.
    split; [now apply quiet_untouched | lia]. }
  pose proof (quiet_untouched (@validateDestination_quiet w o st _ _ E1)) as Q1.
  pose proof (@validateDestination_fetches w o st _ _ E1) as F1.
  destruct (resolveVersion w o r1 st1) as [[[r2|[r2 v]]|m2|] st2] eqn:E2;
    try discriminate;
    destruct (@resolveVersion_quiet w o r1 st1 _ _ E2) as (Q2 & _ & F2);
    apply quiet_untouched in Q2.
  { intros H. injection H as _ <-.
    split; [exact (extends_by_trans Q1 Q2) | lia]. }
  destruct (resolveOrigin w o r2 v st2) as [[[r3|[r3 base]]|m3|] st3] eqn:E3;
    try discriminate;
    destruct (@resolveOrigin_quiet w o r2 v st2 _ _ E3) as (Q3 & _ & F3);
    apply quiet_untouched in Q3.
  { intros H. injection H as _ <-.
    split; [exact (extends_by_trans (extends_by_trans Q1 Q2) Q3) | lia]. }
  destruct (fetchFilesListing w r3 base st3) as [[[r4|[r4 fs4]]|m4|] st4] eqn:E4;
    try discriminate.
  intros H. injection H as _ <-.
  destruct (fetchFilesListing_stops _ _ _ E4) as (Q4 & F4).
  split; [|lia].
  exact (extends_by_trans (extends_by_trans (extends_by_trans Q1 Q2) Q3) Q4).
Qed.

End EarlyReturn.

(** X20.  Lines 68-173.  A run that returns with [count] 0 stopped
    before the destination is touched: it is a failure, whatever was in the
    tree is there as it was, no directory was read, nothing was removed, no
    file was opened or written, and at most one fetch was made. *)
Theorem X20_nothing_is_touched_before_the_listing_is_valid w o st r st' :
  getFramework w o st = (Ok r, st') ->
  Ret.count r = 0 ->
  Ret.status r = false /\
  (forall q k, Fs.stat q (fs st) = Some k -> Fs.stat q (fs st') = Some k) /\
  extends_by (fun e => materializes e = false) st st' /\
  fetches st' <= S (fetches st).
Proof.
  intros H Hc.
  destruct (run_shape _ _ _ H)
    as [[Hplan Hs] | (r4 & dest & files & st4 & st5 & Hplan & _ & Hdown)].
  - split; [exact Hs|]. split.
    + intros q k. exact (@planDownload_kept w q o st _ _ Hplan k).
    + eapply planDownload_stops; exact Hplan.
  - exfalso.
    destruct (planDownload_fields _ _ _ Hplan) as (_ & _ & Hn & _ & Hl & _).
    destruct (@downloadFiles_fields w r4 dest files st5 r st' Hdown)
      as (_ & _ & _ & Ec).
    destruct files; [discriminate|]. cbn in Hn. lia.
Qed.

(** On the host whose listing does not name [files.txt]. *)
Lemma X20_nothing_is_touched_before_the_listing_is_valid_witness :
  let w := Sample.world_without_self in
  let o := Sample.options in
  let st := Sample.start in
  let r := Sample2.result_without_self in
  let st' := snd Sample2.run_without_self in
  getFramework w o st = (Ok r, st') /\
  Ret.status r = false /\
  (forall q k, Fs.stat q (fs st) = Some k -> Fs.stat q (fs st') = Some k) /\
  extends_by (fun e => materializes e = false) st st' /\
  fetches st' <= S (fetches st).
Proof.
  intros w o st r st'.
  assert (H : getFramework w o st = (Ok r, st')) by (vm_compute; reflexivity).
  exact (conj H
           (X20_nothing_is_touched_before_the_listing_is_valid w o st H
              eq_refl)).
Defined.

(* ================================================================== *)
(** ** Which versions and which file names the code accepts *)
(* ================================================================== *)

Section Unreserved.

Import Uri.

Lemma encode_length s : String.length s <= String.length (encode s).
Proof.
  induction s as [|c s IH]; [reflexivity|].
  cbn [encode]. rewrite append_length.
  destruct (unreserved c); cbn [String.length escape]; lia.
Qed.

(** Escaping leaves a string as it is exactly when every character of it
    is unreserved. *)
Lemma encode_fixed s :
  s = encode s <->
  forallb unreserved (list_ascii_of_string s) = true.
Proof.
  induction s as [|c s IH]; [now split|].
  cbn [encode list_ascii_of_string forallb].
  rewrite andb_true_iff. destruct (unreserved c) eqn:E.
  - cbn [append]. rewrite <- IH. split.
    + intros H. injection H as H. now split.
    + intros [_ H]. now f_equal.
  - split; [|now intros [H _]].
    intros H. exfalso. apply (f_equal String.length) in H.
    cbn [escape append String.length] in H.
    pose proof (encode_length s). lia.
Qed.

(** The unreserved characters are ASCII, and ASCII text is well-formed. *)
Lemma unreserved_ascii c :
  unreserved c = true -> Nat.leb (nat_of_ascii c) 127 = true.
Proof.
  destruct c as [[] [] [] [] [] [] [] []]; vm_compute; intros H;
    (reflexivity || discriminate H).
Qed.

Lemma toString_ascii s :
  forallb (fun c => Nat.leb (nat_of_ascii c) 127) (list_ascii_of_string s) = true ->
  Utf8.toString s = s.
Proof.
  unfold Utf8.toString. induction s as [|c s IH]; [reflexivity|].
  cbn [list_ascii_of_string forallb]. rewrite andb_true_iff. intros [Hc Hs].
  cbn [Utf8.decode]. unfold Utf8.lead_of. rewrite Hc. now rewrite IH.
Qed.

Lemma wellFormed_unreserved s :
  forallb unreserved (list_ascii_of_string s) = true ->
  Utf8.wellFormed s = true.
Proof.
  intros H. unfold Utf8.wellFormed. apply String.eqb_eq, toString_ascii.
  rewrite forallb_forall in *. intros c Hc. apply unreserved_ascii, H, Hc.
Qed.

(** [encodeURIComponent] returns the string it is given exactly when every
    character of it is unreserved. *)
Lemma encodeURIComponent_fixed s :
  encodeURIComponent s = Some s <->
  forallb unreserved (list_ascii_of_string s) = true.
Proof.
  unfold encodeURIComponent. split.
  - destruct (Utf8.wellFormed s); [|discriminate].
    intros H. injection H as H. now apply encode_fixed.
  - intros H. rewrite (wellFormed_unreserved _ H). f_equal.
    symmetry. now apply encode_fixed.
Qed.

End Unreserved.

(** X21.  Lines 109-115.  A version given in the request is accepted
    exactly when each of its characters is a letter, a digit or one of
    [- _ . ! ~ * ' ( )]. *)
Theorem X21_accepted_versions w o r st v :
  Options.rtv o = Some v -> v <> "" ->
  ((exists r2 st2, resolveVersion w o r st = (Ok (inr (r2, v)), st2)) <->
   forallb Uri.unreserved (list_ascii_of_string v) = true) /\
  (forall c, Uri.unreserved c = true <->
     Chars.letter c = true \/ Chars.digit c = true \/
     In c (list_ascii_of_string "-_.!~*'()")).
Proof.
  intros Hv Hne. split.
  - rewrite <- encodeURIComponent_fixed. unfold resolveVersion. rewrite Hv.
    destruct v as [|c v]; [contradiction|].
    destruct (Uri.encodeURIComponent (String c v)) as [e|] eqn:Ee.
    + destruct (String.eqb_spec (String c v) e) as [E|N]; cbn [negb].
      * split; [intros _; now subst e|]. intros _. eexists _, _. reflexivity.
      * split; [intros (r2 & st2 & H); discriminate | intros E; congruence].
    + split; [intros (r2 & st2 & H); discriminate | discriminate].
  - intros c. unfold Uri.unreserved. rewrite !orb_true_iff, existsb_exists.
    split.
    + intros [[H|H]|(x & Hin & Hx)]; auto.
      apply Ascii.eqb_eq in Hx. subst x. auto.
    + intros [H|[H|H]]; auto. right. exists c. split; [exact H|].
      apply Ascii.eqb_refl.
Qed.

(** The version of the sample. *)
Lemma X21_accepted_versions_witness :
  let w := Sample.world in
  let o := Sample.options in
  let r := Ret.initial (Some "out") in
  let st := Sample.verified in
  Options.rtv o = Some "15" /\
  exists r2 st2, resolveVersion w o r st = (Ok (inr (r2, "15")), st2).
Proof.
  intros w o r st.
  assert (Hne : "15" <> "") by discriminate.
  split; [reflexivity|].
  exact (proj2 (proj1 (@X21_accepted_versions w o r st "15" eq_refl Hne))
               eq_refl).
Defined.

Section GeoPattern.

Import Regex.

Lemma m_Lit_app lit : forall c k rest,
  m (Lit c lit) k (String c lit ++ rest) = k rest.
Proof.
  induction lit as [|d lit IH]; intros c k rest; cbn [Lit m append].
  - now rewrite Ascii.eqb_refl.
  - rewrite Ascii.eqb_refl. apply (IH d).
Qed.

Lemma m_Lit_inv lit : forall c k s x,
  m (Lit c lit) k s = Some x ->
  exists rest, s = String c lit ++ rest /\ k rest = Some x.
Proof.
  induction lit as [|d lit IH]; intros c k s x; cbn [Lit m].
  - destruct s as [|a s]; [discriminate|].
    destruct (Ascii.eqb_spec a c) as [->|N]; [|discriminate].
    intros H. now exists s.
  - destruct s as [|a s]; [discriminate|].
    destruct (Ascii.eqb_spec a c) as [->|N]; [|discriminate].
    intros H. destruct (IH _ _ _ _ H) as (rest & -> & Hk). now exists rest.
Qed.

Lemma plus_class_complete p k ver : forall rest x,
  ver <> "" -> forallb p (list_ascii_of_string ver) = true ->
  k rest = Some x ->
  exists y, plus_class p k (ver ++ rest) = Some y.
Proof.
  induction ver as [|c ver IH]; intros rest x Hne Hp Hk; [contradiction|].
  cbn [list_ascii_of_string forallb] in Hp. apply andb_true_iff in Hp.
  destruct Hp as [Hc Hp]. cbn [append plus_class]. rewrite Hc.
  destruct ver as [|d ver].
  - cbn [append]. destruct (plus_class p k rest) as [y|]; [now exists y|].
    now exists x.
  - destruct (IH rest x) as (y & Hy); [discriminate | exact Hp | exact Hk|].
    rewrite Hy. now exists y.
Qed.

Lemma plus_class_sound p k s : forall x,
  plus_class p k s = Some x ->
  exists ver rest,
    s = ver ++ rest /\ ver <> "" /\
    forallb p (list_ascii_of_string ver) = true /\ k rest = Some x.
Proof.
  induction s as [|a s IH]; intros x; cbn [plus_class]; [discriminate|].
  destruct (p a) eqn:Ea; [|discriminate].
  destruct (plus_class p k s) as [y|] eqn:E.
  - intros H. injection H as <-.
    destruct (IH y eq_refl) as (ver & rest & -> & _ & Hp & Hk).
    exists (String a ver), rest. repeat split; [discriminate | | exact Hk].
    cbn [list_ascii_of_string forallb]. now rewrite Ea, Hp.
  - intros H. exists (String a ""), s.
    repeat split; [discriminate | | exact H].
    cbn [list_ascii_of_string forallb]. now rewrite Ea.
Qed.

(** [\.m?js] *)
Local Abbreviation extension :=
  (Seq (Chr ".") (Seq (Opt (Chr "m")) (Lit "j" "s"))).

Lemma extension_complete k ext post :
  ext = ".js" \/ ext = ".mjs" ->
  m extension k (ext ++ post) = k post.
Proof.
  intros [-> | ->]; cbn; now destruct (k post).
Qed.

Lemma extension_sound k s x :
  m extension k s = Some x ->
  exists ext post,
    (ext = ".js" \/ ext = ".mjs") /\ s = ext ++ post /\ k post = Some x.
Proof.
  cbn [m].
  destruct s as [|a s]; [discriminate|].
  destruct (Ascii.eqb_spec a ".") as [->|N]; [|discriminate].
  cbn [m]. fold (m (Lit "j" "s") k).
  assert (Hjs : forall s', m (Lit "j" "s") k s' = Some x ->
            exists post, s' = "js" ++ post /\ k post = Some x).
  { intros s' H. exact (m_Lit_inv _ _ _ _ H). }
  destruct s as [|b s].
  - intros H. destruct (Hjs _ H) as (post & E & _). discriminate.
  - destruct (Ascii.eqb_spec b "m") as [->|Nb].
    + destruct (m (Lit "j" "s") k s) as [y|] eqn:E.
      * intros H. injection H as ->.
        destruct (Hjs _ E) as (post & -> & Hk).
        exists ".mjs", post. repeat split; [now right | exact Hk].
      * intros H. destruct (Hjs _ H) as (post & E' & _). discriminate.
    + intros H. destruct (Hjs _ H) as (post & -> & Hk).
      exists ".js", post. repeat split; [now left | exact Hk].
Qed.

Lemma match_geo_unfold s :
  match_here Literals.re_amp_geo s =
  m (Lit "a" "mp-geo-")
    (fun s1 =>
       match plus_class Chars.digit_or_dot
                        (m extension (fun rest => Some rest)) s1 with
       | Some x => Some x
       | None => m (Lit "l" "atest") (m extension (fun rest => Some rest)) s1
       end) s.
Proof. reflexivity. Qed.

Lemma match_geo_complete n post :
  geo_name n ->
  exists x, match_here Literals.re_amp_geo (n ++ post) = Some x.
Proof.
  intros (v & ext & Hv & Hext & ->).
  rewrite match_geo_unfold, !append_assoc.
  change ("amp-geo-" ++ v ++ ext ++ post)
    with (String "a" "mp-geo-" ++ (v ++ ext ++ post)).
  rewrite m_Lit_app.
  destruct Hv as [-> | [Hne Hp]].
  - assert (Hl : forall k rest,
      plus_class Chars.digit_or_dot k ("latest" ++ rest) = None)
      by reflexivity.
    rewrite Hl.
    change ("latest" ++ ext ++ post)
      with (String "l" "atest" ++ (ext ++ post)).
    rewrite m_Lit_app, (extension_complete _ _ Hext). now exists post.
  - destruct (@plus_class_complete Chars.digit_or_dot
                (m extension (fun rest => Some rest)) v (ext ++ post) post
                Hne Hp (extension_complete _ _ Hext)) as (y & ->).
    now exists y.
Qed.

Lemma match_geo_sound s a :
  match_here Literals.re_amp_geo s = Some a ->
  exists n, geo_name n /\ s = n ++ a.
Proof.
  rewrite match_geo_unfold.
  intros H. apply (m_Lit_inv "mp-geo-" "a") in H.
  destruct H as (s1 & -> & H).
  assert (Hend : forall v rest,
    geo_version v ->
    m extension (fun rest => Some rest) rest = Some a ->
    exists n, geo_name n /\ "amp-geo-" ++ v ++ rest = n ++ a).
  { intros v rest Hv Hx. apply extension_sound in Hx.
    destruct Hx as (ext & post & Hext & -> & Hk). injection Hk as ->.
    exists ("amp-geo-" ++ v ++ ext). split; [now exists v, ext|].
    now rewrite !append_assoc. }
  destruct (plus_class Chars.digit_or_dot _ s1) as [y|] eqn:E.
  - injection H as ->. apply plus_class_sound in E.
    destruct E as (ver & rest & -> & Hne & Hp & Hk).
    apply (Hend ver rest); [right; now split | exact Hk].
  - apply (m_Lit_inv "atest" "l") in H. destruct H as (rest & -> & Hk).
    apply (Hend "latest" rest); [now left | exact Hk].
Qed.

End GeoPattern.

(** X22.  Line 320.  The files saved with the hotpatch undone are those
    whose path holds, anywhere, "amp-geo-", then "latest" or digits and
    dots (at least one), then ".js" or ".mjs"; what comes before and after
    in the path does not matter. *)
Theorem X22_geolocation_helper_names p :
  Regex.test Literals.re_amp_geo p = true <->
  exists pre n post, geo_name n /\ p = pre ++ n ++ post.
Proof.
  unfold Regex.test. split.
  - destruct (Regex.exec Literals.re_amp_geo p) as [[[b mt] a]|] eqn:E;
      [|discriminate].
    intros _. destruct (exec_some _ _ E) as (Hs & Hm & _).
    destruct (match_geo_sound _ Hm) as (n & Hn & En).
    exists b, n, a. split; [exact Hn|]. now rewrite <- En.
  - intros (pre & n & post & Hn & ->).
    destruct (Regex.exec Literals.re_amp_geo (pre ++ n ++ post)) eqn:E;
      [reflexivity|].
    destruct (match_geo_complete post Hn) as (x & Hx).
    rewrite (@exec_none _ _ E pre (n ++ post) eq_refl) in Hx. discriminate.
Qed.

(* ================================================================== *)
(** ** Where the files of the listing go *)
(* ================================================================== *)

Section Placement.

Import Path.

Local Abbreviation walk a := (fold_left (step a)).
Local Abbreviation name := (fun s => is_name s = true).

Lemma names_plain segs : Forall name segs -> Forall plain segs.
Proof. apply Forall_impl. intros s H. now apply is_name_spec in H. Qed.

Lemma names_no_slash segs : Forall name segs -> Forall no_slash segs.
Proof. apply Forall_impl. intros s H. now apply is_name_spec in H. Qed.

Lemma names_segments segs : Forall name segs -> Forall segment segs.
Proof.
  apply Forall_impl. intros s H. apply is_name_spec in H.
  destruct H as [(H & _) Hs]. now split.
Qed.

Lemma join_app_last segs n :
  segs <> [] ->
  JsString.join "/" (segs ++ [n]) = JsString.join "/" segs ++ "/" ++ n.
Proof.
  induction segs as [|x segs IH]; [contradiction|]. intros _.
  destruct segs as [|y segs].
  - reflexivity.
  - change ((x :: y :: segs) ++ [n])%list with (x :: (y :: segs) ++ [n])%list.
    change ((y :: segs) ++ [n])%list with (y :: segs ++ [n])%list.
    rewrite !join_cons.
    change (y :: segs ++ [n])%list with ((y :: segs) ++ [n])%list.
    rewrite IH by discriminate. now rewrite !append_assoc.
Qed.

(** A path made of names ends with its last name. *)
Lemma join_ends segs :
  segs <> [] -> Forall name segs ->
  exists pre n, JsString.join "/" segs = pre ++ n /\ n <> "" /\ no_slash n.
Proof.
  intros Hne H. destruct (exists_last Hne) as (l & n & ->).
  apply Forall_app in H. destruct H as [_ Hn]. inversion Hn as [|? ? Hn' _]; subst.
  apply is_name_spec in Hn'. destruct Hn' as [(Hn1 & _) Hn2].
  destruct l as [|x l].
  - exists "", n. now repeat split.
  - exists (JsString.join "/" (x :: l) ++ "/"), n.
    rewrite join_app_last by discriminate.
    now rewrite !append_assoc.
Qed.

Lemma join_not_empty l segs :
  segs <> [] -> Forall name segs -> JsString.join "/" (l ++ segs) <> "".
Proof.
  intros Hne H. destruct (exists_last Hne) as (l' & n & ->).
  apply Forall_app in H. destruct H as [_ Hn]. inversion Hn as [|? ? Hn' _]; subst.
  apply is_name_spec in Hn'. destruct Hn' as [(Hn1 & _) _].
  rewrite app_assoc. now apply join_snoc.
Qed.

Lemma join_nonempty a b :
  a <> "" -> b <> "" -> Path.join a b = normalize (a ++ "/" ++ b).
Proof. destruct a, b; intros; try contradiction; reflexivity. Qed.

Lemma normalize_cons c s :
  normalize (String c s) =
  let p := String c s in
  let body := JsString.join "/"
                (normalizeSegments (negb (isAbsolute p)) []
                                   (JsString.split "/" p)) in
  match body with
  | EmptyString =>
      if isAbsolute p then "/"
      else if JsString.endsWith "/" p then "./" else "."
  | _ => (if isAbsolute p then "/" else "") ++ body ++
         (if JsString.endsWith "/" p then "/" else "")
  end.
Proof. reflexivity. Qed.

(** [path.join] of a directory and a path made of names: the normalized
    directory with the names after it. *)
Lemma join_names d segs :
  d <> "" -> segs <> [] -> Forall name segs ->
  Path.join d (JsString.join "/" segs) =
  (if isAbsolute d then "/" else "") ++
  JsString.join "/"
    (rev (walk (negb (isAbsolute d)) (JsString.split "/" d) []) ++ segs).
Proof.
  intros Hd Hne Hs. destruct d as [|c d]; [contradiction|].
  pose proof (@join_not_empty [] segs Hne Hs) as Hfp. cbn [app] in Hfp.
  destruct (join_ends Hne Hs) as (pre & n & Efp & Hn & Hns).
  rewrite (join_nonempty Hd Hfp).
  change (String c d ++ "/" ++ JsString.join "/" segs)
    with (String c (d ++ "/" ++ JsString.join "/" segs)).
  rewrite normalize_cons. cbv zeta.
  change (String c (d ++ "/" ++ JsString.join "/" segs))
    with (String c d ++ String "/" (JsString.join "/" segs)).
  assert (Habs : isAbsolute (String c d ++ String "/" (JsString.join "/" segs))
                 = isAbsolute (String c d))
    by (cbn [append]; now rewrite !isAbsolute_cons).
  rewrite Habs.
  assert (Hsplit :
    JsString.split "/" (String c d ++ String "/" (JsString.join "/" segs))
    = (JsString.split "/" (String c d) ++ segs)%list).
  { unfold JsString.split. rewrite split_go_app.
    f_equal. apply (@split_join_list segs Hne (names_no_slash Hs)). }
  rewrite Hsplit. unfold normalizeSegments. rewrite fold_left_app.
  rewrite (walk_plain_list _ _ (names_plain Hs)), rev_app_distr, rev_involutive.
  assert (Hend : JsString.endsWith "/"
                   (String c d ++ String "/" (JsString.join "/" segs)) = false).
  { rewrite Efp.
    change (String c d ++ String "/" (pre ++ n))
      with (String c d ++ ("/" ++ pre) ++ n).
    rewrite <- append_assoc. now apply endsWith_slash_name. }
  rewrite Hend.
  pose proof (@join_not_empty
    (rev (walk (negb (isAbsolute (String c d)))
               (JsString.split "/" (String c d)) []))
    segs Hne Hs) as Hj.
  destruct (JsString.join "/" _) eqn:E in Hj |- *; [contradiction|].
  now rewrite append_nil_r.
Qed.

(** The path law for a path made of names: [path.join] of a directory and
    the path leads to the directory, then down the names. *)
Lemma resolve_joins cwd d segs :
  d <> "" -> segs <> [] -> Forall name segs ->
  resolve cwd (Path.join d (JsString.join "/" segs))
  = (resolve cwd d ++ segs)%list.
Proof.
  intros Hd Hne Hs. rewrite (join_names Hd Hne Hs).
  set (Sd := JsString.split "/" d).
  assert (HS : Forall no_slash Sd) by apply split_pieces.
  assert (Hseg : forall a, Forall segment (rev (walk a Sd []) ++ segs)).
  { intros a. apply Forall_app. split.
    - apply Forall_rev. apply walk_seg; [constructor | exact HS].
    - now apply names_segments. }
  assert (Hcons : forall a, (rev (walk a Sd []) ++ segs)%list <> []).
  { intros a E. apply app_eq_nil in E. now destruct E. }
  assert (Hsplit : forall a,
    JsString.split "/" (JsString.join "/" (rev (walk a Sd []) ++ segs))
    = (rev (walk a Sd []) ++ segs)%list).
  { intros a. apply split_join_list; [apply Hcons|].
    apply seg_no_slash, Hseg. }
  pose proof (names_plain Hs) as Hp.
  unfold resolve, normalizeSegments.
  destruct (isAbsolute d) eqn:Habs; cbn [negb].
  - change ("/" ++ ?s) with (String "/" s).
    rewrite isAbsolute_cons. cbn [Ascii.eqb Bool.eqb andb app].
    rewrite split_slash_first, Hsplit.
    cbn [fold_left]. change (step false [] "") with (@nil string).
    rewrite fold_left_app, (walk_plain_list _ _ Hp).
    rewrite walk_plain_list
      by (apply Forall_rev, walk_plain; constructor).
    now rewrite rev_involutive, app_nil_r, rev_app_distr, rev_involutive.
  - cbn [append].
    assert (Hrel : isAbsolute
      (JsString.join "/" (rev (walk true Sd []) ++ segs)) = false).
    { specialize (Hseg true). specialize (Hcons true).
      destruct (rev (walk true Sd []) ++ segs)%list as [|x L] eqn:E;
        [contradiction|].
      inversion Hseg; subst. now apply isAbsolute_join. }
    rewrite Hrel, Hsplit. rewrite !fold_left_app.
    rewrite (walk_plain_list _ _ Hp).
    rewrite walk_normalized by (apply walk_plain; constructor).
    now rewrite rev_app_distr, rev_involutive.
Qed.

End Placement.

Section DirnameOfNames.

Import Path.

Local Abbreviation name := (fun s => is_name s = true).

Lemma list_ascii_app a b :
  list_ascii_of_string (a ++ b)
  = (list_ascii_of_string a ++ list_ascii_of_string b)%list.
Proof. induction a as [|c a IH]; cbn; [reflexivity | now rewrite IH]. Qed.

(** The loop of [path.dirname] passes over the characters of the last
    name. *)
Lemma dirname_scan_skip l : forall i b l2,
  l <> [] -> ~ In "/"%char l ->
  dirname_scan (l ++ l2) i b = dirname_scan l2 (i - List.length l) false.
Proof.
  induction l as [|c l IH]; intros i b l2 Hne H; [contradiction|].
  cbn [app dirname_scan].
  destruct (Ascii.eqb_spec c "/") as [->|N]; [exfalso; apply H; now left|].
  destruct l as [|d l].
  - cbn [app List.length]. reflexivity.
  - rewrite IH; [|discriminate | intros Hin; apply H; now right].
    f_equal. cbn [List.length]. lia.
Qed.

Lemma length_list_ascii s :
  List.length (list_ascii_of_string s) = String.length s.
Proof. induction s as [|c s IH]; cbn; [reflexivity | now rewrite IH]. Qed.

(** The directory of [pre/n], for a name [n] and a relative [pre]. *)
Lemma dirname_slash_name pre n :
  pre <> "" -> isAbsolute pre = false -> n <> "" -> no_slash n ->
  dirname (pre ++ "/" ++ n) = pre.
Proof.
  intros Hpre Habs Hn Hs. destruct pre as [|c0 pre']; [contradiction|].
  rewrite isAbsolute_cons in Habs.
  cbn [append]. unfold dirname. rewrite Habs. cbn [andb].
  rewrite list_ascii_app, rev_app_distr.
  cbn [list_ascii_of_string rev]. rewrite <- app_assoc.
  rewrite dirname_scan_skip.
  - cbn [app dirname_scan Ascii.eqb Bool.eqb andb].
    rewrite length_rev, length_list_ascii.
    cbn [String.length]. rewrite append_length. cbn [String.length].
    replace (S (String.length pre' + S (String.length n)) - 1
             - String.length n) with (S (String.length pre')) by lia.
    change (String c0 (pre' ++ String "/" n))
      with (String c0 pre' ++ String "/" n).
    apply (take_append (String c0 pre')).
  - destruct n; [contradiction|]. cbn [list_ascii_of_string rev].
    now destruct (rev (list_ascii_of_string n)).
  - rewrite <- in_rev. exact Hs.
Qed.

Lemma join_relative x segs :
  name x -> isAbsolute (JsString.join "/" (x :: segs)) = false.
Proof.
  intros H. apply isAbsolute_join. apply is_name_spec in H.
  destruct H as [(H & _) Hs]. now split.
Qed.

Lemma dirname_names dirs n :
  dirs <> [] -> Forall name (dirs ++ [n]) ->
  dirname (JsString.join "/" (dirs ++ [n])) = JsString.join "/" dirs.
Proof.
  intros Hne H. apply Forall_app in H. destruct H as [Hd Hn].
  inversion Hn as [|? ? Hn' _]; subst. apply is_name_spec in Hn'.
  destruct Hn' as [(Hn1 & _) Hn2].
  rewrite (join_app_last n Hne).
  apply dirname_slash_name; try assumption.
  - pose proof (@join_not_empty [] dirs Hne Hd) as E. exact E.
  - destruct dirs as [|x dirs]; [contradiction|].
    inversion Hd; subst. now apply join_relative.
Qed.

End DirnameOfNames.

(** X23.  Lines 269, 279 and 299.  A file of the listing whose path is
    made of names separated by slashes is saved below the destination, at
    these names; its directory, the one [createSubdirectories_] makes, is
    where the names before the last lead from the destination, and it is
    [.] when there is one name only. *)
Theorem X23_entries_are_saved_below_the_destination w dest dirs n :
  dest <> "" ->
  Forall (fun s => Path.is_name s = true) (dirs ++ [n]) ->
  let filepath := JsString.join "/" (dirs ++ [n]) in
  locate w (Path.join dest filepath) = (locate w dest ++ dirs ++ [n])%list /\
  (dirs = [] -> Path.dirname filepath = ".") /\
  (dirs <> [] ->
   Path.dirname filepath = JsString.join "/" dirs /\
   locate w (Path.join dest (Path.dirname filepath))
   = (locate w dest ++ dirs)%list).
Proof.
  intros Hd H filepath. split; [|split].
  - unfold locate, filepath. apply resolve_joins; [exact Hd | | exact H].
    now destruct dirs.
  - intros ->. cbn [app] in *. unfold filepath. inversion H; subst.
    apply dirname_no_slash. cbn. now apply is_name_spec.
  - intros Hne. unfold filepath. rewrite (@dirname_names dirs n Hne H).
    split; [reflexivity|]. unfold locate.
    apply Forall_app in H. destruct H as [H _].
    now apply resolve_joins.
Qed.

(** The geolocation helper of the sample. *)
Lemma X23_entries_are_saved_below_the_destination_witness :
  let w := Sample.world in
  let filepath := "v0/amp-geo-0.1.js" in
  locate w (Path.join "out" filepath)
    = ["work"; "out"; "v0"; "amp-geo-0.1.js"] /\
  Path.dirname filepath = "v0" /\
  locate w (Path.join "out" (Path.dirname filepath)) = ["work"; "out"; "v0"].
Proof.
  intros w filepath.
  assert (Hd : "out" <> "") by discriminate.
  assert (Hn : Forall (fun s => Path.is_name s = true)
                      (["v0"] ++ ["amp-geo-0.1.js"]))
    by (repeat constructor).
  destruct (@X23_entries_are_saved_below_the_destination w "out" ["v0"]
              "amp-geo-0.1.js" Hd Hn) as (H1 & _ & H2).
  destruct H2 as (H2 & H3); [discriminate|].
  exact (conj H1 (conj H2 H3)).
Defined.

(* ================================================================== *)
(** ** Downloads that succeed *)
(* ================================================================== *)

Section WriteFacts.

Import Fs.

(** Writing a file changes what is at its location only. *)
Lemma stat_write_frame c p : forall t t' q,
  write c p t = Some t' -> q <> p -> stat q t' = stat q t.
Proof.
  unfold write, stat.
  induction p as [|x p IH]; intros t t' q; [discriminate|].
  cbn [update]. destruct t as [?|es]; [discriminate|].
  destruct p as [|y p].
  - destruct (find x es) as [[old|?]|] eqn:Ex; cbn [option_map];
      try discriminate; intros H; injection H as <-; intros N;
      (destruct q as [|z q]; [reflexivity | cbn [lookup]]);
      (destruct (string_dec x z) as [<-|Nz];
       [|now rewrite (find_set_other _ _ Nz)]);
      rewrite find_set_same, Ex; (destruct q; [congruence|]); reflexivity.
  - destruct (find x es) as [child|] eqn:Ex; [|discriminate].
    destruct (update _ (y :: p) child) as [child'|] eqn:E; [|discriminate].
    intros H. injection H as <-. intros N.
    destruct q as [|z q]; [reflexivity | cbn [lookup]].
    destruct (string_dec x z) as [<-|Nz].
    + rewrite find_set_same, Ex. apply (IH _ _ _ E). congruence.
    + now rewrite (find_set_other _ _ Nz).
Qed.

Lemma stat_dir p t : stat p t = Some IsDir <-> exists es, lookup p t = Some (Dir es).
Proof.
  unfold stat. destruct (lookup p t) as [[c|es]|]; cbn [option_map kind_of].
  - split; [discriminate | now intros (es & H)].
  - split; [now exists es | reflexivity].
  - split; [discriminate | now intros (es & H)].
Qed.

Lemma lookup_app p : forall q t,
  lookup (p ++ q) t =
  match lookup p t with Some n => lookup q n | None => None end.
Proof.
  induction p as [|x p IH]; intros q t; [reflexivity|].
  cbn [app lookup]. destruct t as [?|es]; [reflexivity|].
  destruct (find x es); [apply IH | reflexivity].
Qed.

(** A file can be written where [writable] says. *)
Lemma write_succeeds c p t :
  writable p t -> exists t', write c p t = Some t'.
Proof.
  intros (parent & name & -> & Hp & Hn).
  apply stat_dir in Hp. destruct Hp as (es & Hp).
  assert (Hf : forall es', find name es <> Some (Dir es')).
  { intros es' E. apply Hn. apply stat_dir. exists es'.
    rewrite lookup_app, Hp. cbn [lookup]. now rewrite E. }
  clear Hn. revert t Hp. unfold write.
  induction parent as [|y parent IH]; intros t Hp.
  - cbn [lookup] in Hp. injection Hp as ->. cbn [app update].
    destruct (find name es) as [[old|es']|] eqn:E; cbn [option_map];
      try (eexists; reflexivity).
    now destruct (Hf es').
  - cbn [lookup] in Hp. destruct t as [?|es0]; [discriminate|].
    destruct (find y es0) as [child|] eqn:Ey; [|discriminate].
    destruct (IH _ Hp) as (child' & Hc).
    cbn [app update]. rewrite Ey.
    destruct (parent ++ [name])%list as [|z r] eqn:Er;
      [now destruct parent|].
    rewrite Hc. eexists; reflexivity.
Qed.

Lemma write_not_dir c p t t' :
  write c p t = Some t' -> stat p t <> Some IsDir.
Proof.
  unfold write, stat. revert t t'.
  induction p as [|x p IH]; intros t t'; [discriminate|].
  cbn [update]. destruct t as [?|es]; [discriminate|].
  destruct p as [|y p].
  - cbn [lookup]. destruct (find x es) as [[old|?]|]; cbn [option_map];
      discriminate.
  - cbn [lookup]. destruct (find x es) as [child|] eqn:Ex; [|discriminate].
    destruct (update _ (y :: p) child) as [child'|] eqn:E; [|discriminate].
    intros _. exact (IH _ _ E).
Qed.

(** After a write, one can write where one could, there included. *)
Lemma write_keeps_writable c p t t' q :
  write c p t = Some t' -> writable q t -> writable q t'.
Proof.
  intros Hw (parent & name & -> & Hp & Hn).
  exists parent, name. split; [reflexivity|].
  pose proof (@write_not_dir c p t t' Hw) as Hnd.
  split.
  - rewrite (@stat_write_frame c p t t' parent Hw); [exact Hp|].
    intros E. apply Hnd. now rewrite <- E.
  - destruct (list_eq_dec string_dec (parent ++ [name]) p) as [E|N].
    + rewrite E, (@stat_write_same c p t t' Hw). discriminate.
    + now rewrite (@stat_write_frame c p t t' _ Hw N).
Qed.

End WriteFacts.

(** A download whose response is a success and whose body arrives whole,
    to a location that can be written, on a platform that lets it be:
    the file is opened, then written. *)
Lemma saveResponse_succeeds w f dest st content :
  let fullpath := Path.join dest (filepath f) in
  writable (locate w fullpath) (fs st) ->
  fault w (OpenWrite fullpath) = None ->
  (forall c, fault w (Write fullpath c) = None) ->
  exists t1 t2,
    Fs.write "" (locate w fullpath) (fs st) = Some t1 /\
    Fs.write (saved f content) (locate w fullpath) t1 = Some t2 /\
    saveResponse w f dest (true, BodyOk content) st =
    (Ok tt,
     {| fs := t2;
        trace := (trace st ++ [OpenWrite fullpath;
                               Write fullpath (saved f content)])%list;
        fetches := fetches st |}).
Proof.
  intros fullpath Hw Ho Hwr.
  destruct (@write_succeeds "" _ _ Hw) as (t1 & E1).
  destruct (@write_succeeds (saved f content) _ t1
              (@write_keeps_writable _ _ _ _ _ E1 Hw)) as (t2 & E2).
  exists t1, t2. split; [exact E1|]. split; [exact E2|].
  unfold saveResponse, bind, try_catch.
  cbn [fst snd negb]. fold fullpath.
  unfold createWriteStream, writeStream, fs_call, text, ret, throw, die.
  cbn [fs trace fetches]. rewrite Ho, E1. cbn [or_fail fs trace fetches].
  unfold saved in E2 |- *.
  destruct (Regex.test Literals.re_amp_geo (filepath f));
    cbn [fs trace fetches]; rewrite Hwr, E2; cbn [or_fail];
    now rewrite <- !app_assoc.
Qed.

Lemma fetchAndSave_succeeds w f dest st content :
  let fullpath := Path.join dest (filepath f) in
  writable (locate w fullpath) (fs st) ->
  fault w (OpenWrite fullpath) = None ->
  (forall c, fault w (Write fullpath c) = None) ->
  fetch_ w (fetches st) (url f) = Response true (BodyOk content) ->
  exists t1 t2,
    Fs.write "" (locate w fullpath) (fs st) = Some t1 /\
    Fs.write (saved f content) (locate w fullpath) t1 = Some t2 /\
    fetchAndSaveAsync_ w f dest st =
    (Ok tt,
     {| fs := t2;
        trace := (trace st ++ [Fetch (url f); OpenWrite fullpath;
                               Write fullpath (saved f content)])%list;
        fetches := S (fetches st) |}).
Proof.
  intros fullpath Hw Ho Hwr Hf.
  unfold fetchAndSaveAsync_, bind at 1. rewrite fetch_eq, Hf. cbn [answer].
  destruct (@saveResponse_succeeds w f dest
              {| fs := fs st; trace := (trace st ++ [Fetch (url f)])%list;
                 fetches := S (fetches st) |} content Hw Ho Hwr)
    as (t1 & t2 & E1 & E2 & H).
  exists t1, t2. split; [exact E1|]. split; [exact E2|].
  rewrite H. cbn [fs trace fetches]. now rewrite <- app_assoc.
Qed.

(** X24.  Lines 297-332.  A download resolves when the response is a
    success whose body arrives whole, the file can be written (its
    directory is there and its path is not a directory) and the platform
    puts no fault on the stream: the file then holds what is saved of the
    body (the bytes of the body as they are; for the geolocation helper,
    the text read from them, each ill-formed sequence read as U+FFFD,
    with the hotpatch undone) and nothing else in the tree has changed. *)
Theorem X24_a_download_resolves w f dest st content :
  let fullpath := Path.join dest (filepath f) in
  writable (locate w fullpath) (fs st) ->
  fault w (OpenWrite fullpath) = None ->
  (forall c, fault w (Write fullpath c) = None) ->
  fetch_ w (fetches st) (url f) = Response true (BodyOk content) ->
  exists st',
    fetchAndSaveAsync_ w f dest st = (Ok tt, st') /\
    Fs.stat (locate w fullpath) (fs st') = Some (Fs.IsFile (saved f content)) /\
    forall q, q <> locate w fullpath -> Fs.stat q (fs st') = Fs.stat q (fs st).
Proof.
  intros fullpath Hw Ho Hwr Hf.
  destruct (@fetchAndSave_succeeds w f dest st content Hw Ho Hwr Hf)
    as (t1 & t2 & E1 & E2 & H).
  eexists. split; [exact H|]. cbn [fs]. split.
  - exact (@stat_write_same _ _ _ _ E2).
  - intros q Hq.
    now rewrite (@stat_write_frame _ _ _ _ q E2 Hq),
                (@stat_write_frame _ _ _ _ q E1 Hq).
Qed.

(** The download of the geolocation helper of the sample. *)
Lemma X24_a_download_resolves_witness :
  let w := Sample.world in
  let f := Sample.geo_file in
  let st := Sample.ready in
  let fullpath := Path.join "out" (filepath f) in
  writable (locate w fullpath) (fs st) /\
  exists st',
    fetchAndSaveAsync_ w f "out" st = (Ok tt, st') /\
    Fs.stat (locate w fullpath) (fs st')
      = Some (Fs.IsFile (saved f Sample.geo_body)) /\
    forall q, q <> locate w fullpath -> Fs.stat q (fs st') = Fs.stat q (fs st).
Proof.
  intros w f st fullpath.
  assert (Hw : writable (locate w fullpath) (fs st)).
  { exists ["work"; "out"; "v0"], "amp-geo-0.1.js".
    split; [vm_compute; reflexivity|].
    split; [vm_compute; reflexivity | vm_compute; discriminate]. }
  split; [exact Hw|].
  exact (@X24_a_download_resolves w f "out" st Sample.geo_body Hw eq_refl
           (fun c => eq_refl) eq_refl).
Defined.

Section EveryDownload.

Variable w : World.
Variable dest : string.
Variable files : list file.
Variable n : nat.

Hypothesis opens : forall p, fault w (OpenWrite p) = None.
Hypothesis writes : forall p c, fault w (Write p c) = None.
Hypothesis served : forall n f, In f files ->
  exists content, fetch_ w n (url f) = Response true (BodyOk content).

Local Abbreviation place f := (locate w (Path.join dest (filepath f))).

(** One can write wherever a file of the listing goes. *)
Local Abbreviation ready t := (forall f, In f files -> writable (place f) t).

(** The download at position [i] goes on. *)
Local Abbreviation round :=
  (fun i => match nth_error (combine files (answers w n files)) i with
            | Some p => resume w dest p
            | None => ret tt
            end).

Lemma combine_nth_error_none {A B} (l : list A) : forall (l' : list B) i,
  nth_error l i = None -> nth_error (combine l l') i = None.
Proof.
  induction l as [|x l IH]; intros [|y l'] [|i]; simpl; try discriminate;
    try reflexivity.
  apply IH.
Qed.

Lemma rounds_succeed l : forall st,
  ready (fs st) ->
  exists st',
    forEach round l st = (Ok tt, st') /\
    ready (fs st') /\
    (forall q c, Fs.stat q (fs st) = Some (Fs.IsFile c) ->
       exists c', Fs.stat q (fs st') = Some (Fs.IsFile c')) /\
    forall i f, In i l -> nth_error files i = Some f ->
      exists c, Fs.stat (place f) (fs st') = Some (Fs.IsFile c).
Proof.
  induction l as [|i l IH]; intros st Hr.
  - exists st. repeat split; auto.
    + intros q c Hq. now exists c.
    + contradiction.
  - cbn [forEach]. unfold bind at 1.
    destruct (nth_error files i) as [f|] eqn:Ei.
    + assert (Hf : In f files) by (eapply nth_error_In, Ei).
      destruct (served (n + i) f Hf) as (content & Hs).
      rewrite (combine_nth_error _ _ _ Ei (answers_nth w files n i Ei)), Hs.
      unfold resume. cbn [fst snd answer].
      destruct (@saveResponse_succeeds w f dest st content (Hr f Hf)
                  (opens _) (writes _)) as (t1 & t2 & E1 & E2 & ->).
      set (st1 := {| fs := t2; trace := _; fetches := _ |}).
      assert (Hr1 : ready (fs st1)).
      { intros g Hg. cbn [st1 fs].
        exact (@write_keeps_writable _ _ _ _ _ E2
                 (@write_keeps_writable _ _ _ _ _ E1 (Hr g Hg))). }
      destruct (IH st1 Hr1) as (st' & Hrun & Hr2 & Hstay & Hdone).
      assert (Hstay1 : forall q c, Fs.stat q (fs st) = Some (Fs.IsFile c) ->
                exists c', Fs.stat q (fs st1) = Some (Fs.IsFile c')).
      { intros q c Hq. cbn [st1 fs].
        destruct (list_eq_dec string_dec q (place f)) as [->|N].
        - eexists. exact (@stat_write_same _ _ _ _ E2).
        - exists c. now rewrite (@stat_write_frame _ _ _ _ q E2 N),
                                (@stat_write_frame _ _ _ _ q E1 N). }
      exists st'. split; [exact Hrun|]. split; [exact Hr2|]. split.
      * intros q c Hq. destruct (Hstay1 q c Hq) as (c1 & H1).
        exact (Hstay q c1 H1).
      * intros j g [<-|Hj] Hg; [|exact (Hdone j g Hj Hg)].
        assert (g = f) by congruence. subst g.
        apply (Hstay (place f) (saved f content)).
        cbn [st1 fs]. exact (@stat_write_same _ _ _ _ E2).
    + rewrite (combine_nth_error_none _ _ _ Ei). unfold ret at 1.
      destruct (IH st Hr) as (st' & Hrun & Hr2 & Hstay & Hdone).
      exists st'. split; [exact Hrun|]. split; [exact Hr2|].
      split; [exact Hstay|].
      intros j g [<-|Hj] Hg; [congruence | exact (Hdone j g Hj Hg)].
Qed.

End EveryDownload.

(** Lines 183-202 when every download can be made: the run returns with
    [status] set and every file of the listing is there. *)
Lemma downloadFiles_succeeds w r dest files st :
  (forall f, In f files ->
     writable (locate w (Path.join dest (filepath f))) (fs st)) ->
  (forall p, fault w (OpenWrite p) = None) ->
  (forall p c, fault w (Write p c) = None) ->
  (forall n f, In f files ->
     exists content, fetch_ w n (url f) = Response true (BodyOk content)) ->
  exists st',
    downloadFiles w r dest files st = (Ok (Ret.set_status r true), st') /\
    forall f, In f files ->
      exists c, Fs.stat (locate w (Path.join dest (filepath f))) (fs st')
                = Some (Fs.IsFile c).
Proof.
  intros Hready Hopen Hwrite Hserved.
  rewrite (@downloadFiles_inv w r dest files st _ _ (fetch_all w files _)).
  match goal with
  | |- context [settleDownloads w dest files (answers w ?n files) ?s] =>
      destruct (@rounds_succeed w dest files n Hopen Hwrite Hserved
                  (settling_order (settle_fetch w) (List.length files)) s)
        as (s2 & Hrun & _ & _ & Hdone); [exact Hready|]
  end.
  unfold settleDownloads. rewrite Hrun.
  eexists. split; [reflexivity|].
  intros f Hf. destruct (In_nth_error _ _ Hf) as (i & Hi).
  cbn [fs logged]. apply (Hdone i f); [|exact Hi].
  apply settling_order_In. apply nth_error_Some. congruence.
Qed.

(** X25.  Lines 183-202.  Once the plan is made and the destination
    prepared, when every file of the listing can be written, is served
    whole, and the platform puts no fault on the streams, the run returns
    with [status] set and an empty [error], and every file of the listing
    is there. *)
Theorem X25_the_downloads_succeed w o st r dest files st3 st4 :
  planDownload w o st = (Ok (inr (r, dest, files)), st3) ->
  prepareDestination w (Options.clear o) dest files st3 = (Ok tt, st4) ->
  (forall f, In f files ->
     writable (locate w (Path.join dest (filepath f))) (fs st4)) ->
  (forall p, fault w (OpenWrite p) = None) ->
  (forall p c, fault w (Write p c) = None) ->
  (forall n f, In f files ->
     exists content, fetch_ w n (url f) = Response true (BodyOk content)) ->
  exists st',
    getFramework w o st = (Ok (Ret.set_status r true), st') /\
    Ret.error r = "" /\ Ret.count r = List.length files /\
    forall f, In f files ->
      exists c, Fs.stat (locate w (Path.join dest (filepath f))) (fs st')
                = Some (Fs.IsFile c).
Proof.
  intros Hplan Hprep Hready Hopen Hwrite Hserved.
  destruct (planDownload_fields _ _ _ Hplan) as (_ & He & Hc & _).
  assert (Hget : getFramework w o st = downloadFiles w r dest files st4).
  { unfold getFramework, bind. rewrite Hplan. cbn beta iota.
    now rewrite Hprep. }
  destruct (@downloadFiles_succeeds w r dest files st4 Hready Hopen Hwrite
              Hserved) as (st' & H & Hdone).
  exists st'. rewrite Hget. repeat split; assumption.
Qed.

(** The cache of the sample serves every file of its listing. *)
Lemma sample_is_served n f :
  In f Sample2.files ->
  exists content,
    fetch_ Sample.world n (url f) = Response true (BodyOk content).
Proof.
  intros Hf. vm_compute in Hf.
  destruct Hf as [<-|[<-|[<-|[]]]]; eexists; vm_compute; reflexivity.
Qed.

(** The sample run, from its prepared destination. *)
Lemma X25_the_downloads_succeed_witness :
  let w := Sample.world in
  let o := Sample.options in
  let st := Sample.start in
  let r := Sample3.planned_result in
  let files := Sample2.files in
  planDownload w o st = (Ok (inr (r, "out", files)), Sample3.planned) /\
  prepareDestination w (Options.clear o) "out" files Sample3.planned
    = (Ok tt, Sample3.prepared) /\
  exists st',
    getFramework w o st = (Ok (Ret.set_status r true), st') /\
    Ret.error r = "" /\ Ret.count r = List.length files /\
    forall f, In f files ->
      exists c, Fs.stat (locate w (Path.join "out" (filepath f))) (fs st')
                = Some (Fs.IsFile c).
Proof.
  intros w o st r files.
  assert (H1 : planDownload w o st
               = (Ok (inr (r, "out", files)), Sample3.planned))
    by (vm_compute; reflexivity).
  assert (H2 : prepareDestination w (Options.clear o) "out" files
                 Sample3.planned = (Ok tt, Sample3.prepared))
    by (vm_compute; reflexivity).
  assert (H3 : forall f, In f files ->
            writable (locate w (Path.join "out" (filepath f)))
                     (fs Sample3.prepared)).
  { intros f Hf. vm_compute in Hf. destruct Hf as [<-|[<-|[<-|[]]]].
    - exists ["work"; "out"], "files.txt".
      split; [vm_compute; reflexivity|].
      split; [vm_compute; reflexivity | vm_compute; discriminate].
    - exists ["work"; "out"], "v0.js".
      split; [vm_compute; reflexivity|].
      split; [vm_compute; reflexivity | vm_compute; discriminate].
    - exists ["work"; "out"; "v0"], "amp-geo-0.1.js".
      split; [vm_compute; reflexivity|].
      split; [vm_compute; reflexivity | vm_compute; discriminate]. }
  split; [exact H1|]. split; [exact H2|].
  exact (@X25_the_downloads_succeed w o st r "out" files Sample3.planned
           Sample3.prepared H1 H2 H3 (fun p => eq_refl) (fun p c => eq_refl)
           (fun n f => @sample_is_served n f)).
Defined.

(* ================================================================== *)
(** ** A run that succeeds *)
(* ================================================================== *)

Section UpdateFacts.

Import Fs.

(** The entries of a directory that is there can be rewritten. *)
Lemma update_succeeds f name es es' : forall parent t,
  lookup parent t = Some (Dir es) -> f name es = Some es' ->
  exists t',
    update f (parent ++ [name]) t = Some t' /\
    lookup parent t' = Some (Dir es').
Proof.
  induction parent as [|y parent IH]; intros t Hp Hf.
  - cbn [lookup] in Hp. injection Hp as ->. cbn [app update].
    rewrite Hf. cbn [option_map]. eexists. split; reflexivity.
  - cbn [lookup] in Hp. destruct t as [?|es0]; [discriminate|].
    destruct (find y es0) as [child|] eqn:Ey; [|discriminate].
    destruct (IH _ Hp Hf) as (child' & Hc & Hl).
    cbn [app update]. rewrite Ey.
    destruct (parent ++ [name])%list as [|z r] eqn:Er;
      [now destruct parent|].
    rewrite Hc. eexists. split; [reflexivity|].
    cbn [lookup]. now rewrite find_set_same.
Qed.

Lemma remove_head x n es :
  ~ In x (map fst es) -> remove x ((x, n) :: es) = es.
Proof.
  intros H. unfold remove. cbn [filter fst]. rewrite String.eqb_refl.
  cbn [negb]. induction es as [|[y m] es IH]; [reflexivity|].
  cbn [filter fst]. cbn [map fst In] in H.
  destruct (String.eqb_spec x y) as [->|N]; [exfalso; apply H; now left|].
  cbn [negb]. f_equal. apply IH. intros Hin. apply H. now right.
Qed.

End UpdateFacts.

Section ClearingSucceeds.

Variable w : World.
Variable dirpath : string.

Hypothesis dirpath_given : dirpath <> "".
Hypothesis no_fault : forall e, fault w e = None.

Local Abbreviation item := (fun e : string * Fs.node => (fst e, Fs.isDirectory (snd e))).

Lemma removeItem_succeeds x n es st :
  Path.is_name x = true ->
  Fs.lookup (locate w dirpath) (fs st) = Some (Fs.Dir ((x, n) :: es)) ->
  ~ In x (map fst es) ->
  exists st',
    removeItem w dirpath (item (x, n)) st = (Ok tt, st') /\
    Fs.lookup (locate w dirpath) (fs st') = Some (Fs.Dir es).
Proof.
  intros Hx Hl Hn.
  pose proof (@is_name_names_child w dirpath (item (x, n)) dirpath_given Hx)
    as Hp.
  unfold names_child in Hp. cbn [fst] in Hp.
  unfold removeItem. cbn [fst snd].
  destruct n as [c|sub]; cbn [Fs.isDirectory].
  - destruct (@update_succeeds
                (fun x es => match Fs.find x es with
                             | Some (Fs.File _) => Some (Fs.remove x es)
                             | _ => None
                             end)
                x ((x, Fs.File c) :: es) es (locate w dirpath) (fs st) Hl)
      as (t' & Hu & Hl').
    { cbn [Fs.find]. rewrite String.eqb_refl. now rewrite remove_head. }
    unfold unlink, fs_call. rewrite no_fault, Hp. cbn [fs].
    unfold Fs.unlink. rewrite Hu. cbn [or_fail].
    eexists. split; [reflexivity | exact Hl'].
  - destruct (@update_succeeds
                (fun x es => match Fs.find x es with
                             | Some (Fs.Dir _) => Some (Fs.remove x es)
                             | _ => None
                             end)
                x ((x, Fs.Dir sub) :: es) es (locate w dirpath) (fs st) Hl)
      as (t' & Hu & Hl').
    { cbn [Fs.find]. rewrite String.eqb_refl. now rewrite remove_head. }
    unfold rmdir, fs_call. rewrite no_fault, Hp. cbn [fs].
    unfold Fs.rmdir_r. rewrite Hu. cbn [or_fail].
    eexists. split; [reflexivity | exact Hl'].
Qed.

Lemma run_all_remove_succeeds es : forall st,
  Fs.lookup (locate w dirpath) (fs st) = Some (Fs.Dir es) ->
  NoDup (map fst es) ->
  Forall (fun x => Path.is_name x = true) (map fst es) ->
  exists outs st',
    run_all (removeItem w dirpath) (map item es) st = (outs, st') /\
    (forall msg, ~ In (Throw msg) outs) /\
    Fs.lookup (locate w dirpath) (fs st') = Some (Fs.Dir []).
Proof.
  induction es as [|[x n] es IH]; intros st Hl Hnd Hnames.
  - exists [], st. repeat split; [now intros msg [] | exact Hl].
  - cbn [map fst] in Hnd, Hnames.
    inversion Hnd as [|? ? Hx Hnd']; subst.
    inversion Hnames as [|? ? Hnx Hnames']; subst.
    destruct (removeItem_succeeds st Hnx Hl Hx) as (st1 & E1 & Hl1).
    destruct (IH st1 Hl1 Hnd' Hnames') as (outs & st' & E2 & Hno & Hl').
    exists (Ok tt :: outs), st'. cbn [map run_all].
    rewrite E1, E2. repeat split; [|exact Hl'].
    intros msg [E|Hin]; [discriminate | exact (Hno msg Hin)].
Qed.

Lemma clearDirectory_succeeds es st :
  Fs.lookup (locate w dirpath) (fs st) = Some (Fs.Dir es) ->
  NoDup (map fst es) ->
  Forall (fun x => Path.is_name x = true) (map fst es) ->
  exists st',
    clearDirectory_ w dirpath st = (Ok tt, st') /\
    Fs.lookup (locate w dirpath) (fs st') = Some (Fs.Dir []) /\
    fetches st' = fetches st.
Proof.
  intros Hl Hnd Hnames.
  assert (Hc : exists st',
    clearDirectory_ w dirpath st = (Ok tt, st') /\
    Fs.lookup (locate w dirpath) (fs st') = Some (Fs.Dir [])).
  { unfold clearDirectory_, bind, log_info, emit, readdir, fs_call.
    cbn [fs trace fetches]. rewrite no_fault. unfold Fs.readdir. rewrite Hl.
    cbn [fs trace fetches].
    match goal with
    | |- context [run_all _ _ ?s] =>
        destruct (@run_all_remove_succeeds es s Hl Hnd Hnames)
          as (outs & st' & E & Hno & Hl')
    end.
    rewrite E. unfold Promise_all.
    assert (Hd : died outs = false).
    { eapply run_all_survives; [apply survives_removeItem | exact E]. }
    rewrite Hd, (proj2 (first_rejection_none (settle_clear w) 0 outs) Hno).
    now exists st'. }
  destruct Hc as (st' & Hc & Hl'). exists st'.
  split; [exact Hc|]. split; [exact Hl'|].
  destruct (@clearDirectory_requested w dirpath st (Ok tt) st' Hc) as [F _].
  cbn in F. lia.
Qed.

End ClearingSucceeds.

(** X26.  Lines 230-241.  On a platform without faults, clearing a
    directory whose entries have names, each once, resolves and leaves the
    directory empty. *)
Theorem X26_clearing_succeeds w dirpath st es :
  dirpath <> "" ->
  (forall e, fault w e = None) ->
  Fs.lookup (locate w dirpath) (fs st) = Some (Fs.Dir es) ->
  NoDup (map fst es) ->
  Forall (fun x => Path.is_name x = true) (map fst es) ->
  exists st',
    clearDirectory_ w dirpath st = (Ok tt, st') /\
    Fs.readdir (locate w dirpath) (fs st') = Some [].
Proof.
  intros Hd Hf Hl Hnd Hn.
  destruct (@clearDirectory_succeeds w dirpath Hd Hf es st Hl Hnd Hn)
    as (st' & H & Hl' & _).
  exists st'. split; [exact H|]. unfold Fs.readdir. now rewrite Hl'.
Qed.

(** The destination of the sample, which holds a file and a directory. *)
Lemma X26_clearing_succeeds_witness :
  let w := Sample.world in
  let st := Sample.start in
  Fs.lookup (locate w "out") (fs st) = Some (Fs.Dir Sample3.out_entries) /\
  exists st',
    clearDirectory_ w "out" st = (Ok tt, st') /\
    Fs.readdir (locate w "out") (fs st') = Some [].
Proof.
  intros w st.
  assert (Hd : "out" <> "") by discriminate.
  assert (Hl : Fs.lookup (locate w "out") (fs st)
               = Some (Fs.Dir Sample3.out_entries))
    by (vm_compute; reflexivity).
  assert (Hnd : NoDup (map fst Sample3.out_entries)).
  { repeat constructor; cbn; intuition discriminate. }
  assert (Hn : Forall (fun x => Path.is_name x = true)
                      (map fst Sample3.out_entries))
    by (repeat constructor).
  split; [exact Hl|].
  exact (@X26_clearing_succeeds w "out" st Sample3.out_entries Hd
           (fun e => eq_refl) Hl Hnd Hn).
Defined.

Section MkdirFacts.

Import Fs.

Lemma lookup_nil_dir q : q <> [] -> lookup q (Dir []) = None.
Proof. destruct q; [contradiction | reflexivity]. Qed.

(** [mkdir -p] makes no file. *)
Lemma mkdir_no_new_file p : forall t t' q c,
  mkdir_p p t = Some t' ->
  lookup q t' = Some (File c) -> lookup q t = Some (File c).
Proof.
  induction p as [|x p IH]; intros t t' q c; cbn [mkdir_p];
    destruct t as [?|es]; try discriminate.
  - intros H. now injection H as <-.
  - destruct (mkdir_p p _) as [child'|] eqn:E; [|discriminate].
    intros H. injection H as <-.
    destruct q as [|z q]; [discriminate | cbn [lookup]].
    destruct (string_dec x z) as [<-|Nz].
    + rewrite find_set_same. intros Hq.
      pose proof (IH _ _ _ _ E Hq) as Hc.
      destruct (find x es) as [child|]; [exact Hc|].
      destruct q; [discriminate | discriminate].
    + now rewrite (find_set_other _ _ Nz).
Qed.

(** The directories [mkdir -p] makes are on the way to its path. *)
Lemma mkdir_new_dirs p : forall t t' q es,
  mkdir_p p t = Some t' ->
  lookup q t' = Some (Dir es) ->
  (exists es0, lookup q t = Some (Dir es0)) \/ exists r, p = (q ++ r)%list.
Proof.
  induction p as [|x p IH]; intros t t' q es'; cbn [mkdir_p];
    destruct t as [?|es]; try discriminate.
  - intros H. injection H as <-. intros Hq. left. now exists es'.
  - destruct (mkdir_p p _) as [child'|] eqn:E; [|discriminate].
    intros H. injection H as <-.
    destruct q as [|z q]; [intros _; left; now exists es | cbn [lookup]].
    destruct (string_dec x z) as [<-|Nz].
    + rewrite find_set_same. intros Hq.
      destruct (IH _ _ _ _ E Hq) as [(es0 & Hc) | (r & ->)].
      * destruct (find x es) as [child|]; [left; now exists es0|].
        right. destruct q; [now exists p | discriminate].
      * right. now exists r.
    + rewrite (find_set_other _ _ Nz). intros Hq. left. now exists es'.
Qed.

(** [mkdir -p] succeeds when no file is on the way. *)
Lemma mkdir_succeeds p : forall t,
  (forall p1 p2 c, p = (p1 ++ p2)%list -> lookup p1 t <> Some (File c)) ->
  exists t', mkdir_p p t = Some t'.
Proof.
  induction p as [|x p IH]; intros t H; cbn [mkdir_p];
    destruct t as [c|es];
    try (exfalso; apply (H [] _ c eq_refl); reflexivity).
  - now exists (Dir es).
  - destruct (IH (match find x es with Some c => c | None => Dir [] end))
      as (child' & ->).
    + intros p1 p2 c ->.
      destruct (find x es) as [child|] eqn:Ex.
      * intros Hl. apply (H (x :: p1) p2 c eq_refl). cbn [lookup].
        now rewrite Ex.
      * destruct p1; [discriminate | discriminate].
    + eexists; reflexivity.
Qed.

Lemma lookup_prefix p1 : forall p2 t n,
  lookup (p1 ++ p2) t = Some n -> p2 <> [] ->
  exists es, lookup p1 t = Some (Dir es).
Proof.
  intros p2 t n H Hne. rewrite lookup_app in H.
  destruct (lookup p1 t) as [[c|es]|]; try discriminate.
  - destruct p2; [contradiction | discriminate].
  - now exists es.
Qed.

End MkdirFacts.

Lemma forEach_cons_ok {A} (f : A -> M unit) x l st st1 st' :
  f x st = (Ok tt, st1) -> forEach f l st1 = (Ok tt, st') ->
  forEach f (x :: l) st = (Ok tt, st').
Proof. intros H1 H2. cbn [forEach]. unfold bind. now rewrite H1. Qed.

Section SubdirectoriesSucceed.

Variable w : World.
Variable dest : string.
Variable files : list file.

Hypothesis dest_given : dest <> "".
Hypothesis no_fault : forall e, fault w e = None.
Hypothesis names : forall f, In f files -> well_named f.
Hypothesis apart : no_clash files.

Local Abbreviation P := (locate w dest).
Local Abbreviation name := (fun s => Path.is_name s = true).

Lemma segments_last f :
  segments f = (directories f ++ [last (segments f) ""])%list.
Proof.
  unfold directories. apply app_removelast_last.
  unfold segments, JsString.split.
  destruct (split_go_head (filepath f) "") as (h & tl & -> & _). discriminate.
Qed.

Lemma filepath_segments f : filepath f = JsString.join "/" (segments f).
Proof. symmetry. apply join_split. Qed.

(** Where a file of the listing goes. *)
Lemma place_segments f :
  In f files ->
  locate w (Path.join dest (filepath f)) = (P ++ segments f)%list.
Proof.
  intros Hf. rewrite filepath_segments. unfold locate.
  apply resolve_joins; [exact dest_given | | exact (names f Hf)].
  rewrite segments_last. now destruct (directories f).
Qed.

(** Where the directory of a file of the listing is. *)
Lemma place_directories f :
  In f files -> directories f <> [] ->
  Path.dirname (filepath f) = JsString.join "/" (directories f) /\
  Path.dirname (filepath f) <> "." /\
  locate w (Path.join dest (Path.dirname (filepath f)))
  = (P ++ directories f)%list.
Proof.
  intros Hf Hne. pose proof (names f Hf) as Hn. unfold well_named in Hn.
  rewrite segments_last in Hn.
  assert (Hd : Path.dirname (filepath f) = JsString.join "/" (directories f)).
  { rewrite filepath_segments, segments_last. now apply dirname_names. }
  apply Forall_app in Hn. destruct Hn as [Hn _].
  split; [exact Hd|]. split.
  - rewrite Hd. intros E.
    destruct (directories f) as [|x l] eqn:El; [contradiction|].
    inversion Hn as [|? ? Hx _]; subst.
    apply is_name_spec in Hx. destruct Hx as [(H0 & Hx & _) _].
    destruct l as [|y l].
    + cbn in E. contradiction.
    + rewrite join_cons in E. apply (f_equal String.length) in E.
      rewrite append_length in E. cbn [String.length append] in E.
      apply H0, length_zero. lia.
  - rewrite Hd. unfold locate. now apply resolve_joins.
Qed.

Lemma flat_dirname f :
  In f files -> directories f = [] -> Path.dirname (filepath f) = ".".
Proof.
  intros Hf He. pose proof (names f Hf) as Hn. unfold well_named in Hn.
  rewrite filepath_segments, segments_last, He in *. cbn [app] in *.
  inversion Hn; subst. apply dirname_no_slash. cbn.
  now apply is_name_spec.
Qed.

(** What holds of the tree while the subdirectories are made: the
    destination is a directory, there is no file below it, and a directory
    below it is on the way to the directory of a file of the listing. *)
Local Abbreviation tidy t :=
  ((exists es, Fs.lookup P t = Some (Fs.Dir es)) /\
   (forall q c, Fs.lookup (P ++ q) t <> Some (Fs.File c)) /\
   (forall q es, q <> [] -> Fs.lookup (P ++ q) t = Some (Fs.Dir es) ->
      exists g r, In g files /\ directories g = (q ++ r)%list)).

Lemma tidy_empty t : Fs.lookup P t = Some (Fs.Dir []) -> tidy t.
Proof.
  intros H. split; [now exists []|]. split.
  - intros q c. rewrite lookup_app, H. destruct q; discriminate.
  - intros q es Hq. rewrite lookup_app, H, (lookup_nil_dir Hq). discriminate.
Qed.

Lemma tidy_mkdir g t :
  In g files -> tidy t ->
  exists t',
    Fs.mkdir_p (P ++ directories g) t = Some t' /\ tidy t'.
Proof.
  intros Hg (H1 & H2 & H3). destruct H1 as (es & H1).
  destruct (@mkdir_succeeds (P ++ directories g) t) as (t' & Hm).
  { intros p1 p2 c E. apply app_eq_app in E.
    destruct E as (l & [[E1 E2] | [E1 E2]]).
    - destruct l as [|z l].
      + rewrite app_nil_r in E1. rewrite <- E1, H1. discriminate.
      + rewrite E1 in H1.
        destruct (@lookup_prefix p1 (z :: l) t _ H1) as (es1 & ->);
          discriminate.
    - rewrite E1. apply H2. }
  exists t'. split; [exact Hm|]. split; [|split].
  - assert (K : Fs.stat P t' = Some Fs.IsDir).
    { apply (@stat_mkdir_p _ t t' P Fs.IsDir Hm). unfold Fs.stat.
      now rewrite H1. }
    now apply stat_dir in K.
  - intros q c Hq. apply (H2 q c).
    exact (@mkdir_no_new_file _ _ _ _ _ Hm Hq).
  - intros q es' Hq Hl.
    destruct (@mkdir_new_dirs _ _ _ _ _ Hm Hl) as [(es0 & H0) | (r & E)].
    + exact (H3 q es0 Hq H0).
    + rewrite <- app_assoc in E. apply app_inv_head in E.
      now exists g, r.
Qed.

(** The step of lines 274-285 for one directory. *)
Local Abbreviation ensure :=
  (fun dir =>
     let dir := JsString.join Path.sep (JsString.split "/" dir) in
     let fullpath := Path.join dest dir in
     there <- existsSync w fullpath ;;
     if negb there then mkdirSync w fullpath else ret tt).

Lemma ensure_succeeds d st :
  In d (uniqueDirs files) -> tidy (fs st) ->
  exists st', ensure d st = (Ok tt, st') /\ tidy (fs st').
Proof.
  intros Hd Ht. apply uniqueDirs_In in Hd. destruct Hd as (Hdot & g & Hg & <-).
  assert (Hne : directories g <> []).
  { intros E. apply Hdot. now apply flat_dirname. }
  destruct (@place_directories g Hg Hne) as (_ & _ & Hp).
  cbv beta zeta. rewrite join_split. unfold bind, existsSync.
  destruct (Fs.exists_ _ (fs st)); cbn [negb].
  - exists st. split; [reflexivity | exact Ht].
  - destruct (@tidy_mkdir g (fs st) Hg Ht) as (t' & Hm & Ht').
    unfold mkdirSync, fs_call. rewrite no_fault, Hp. cbn [fs].
    rewrite Hm. cbn [or_fail]. eexists. split; [reflexivity | exact Ht'].
Qed.

Lemma forEach_ensure_succeeds l : forall st,
  incl l (uniqueDirs files) -> tidy (fs st) ->
  exists st', forEach ensure l st = (Ok tt, st') /\ tidy (fs st').
Proof.
  induction l as [|d l IH]; intros st Hl Ht.
  - exists st. split; [reflexivity | exact Ht].
  - destruct (@ensure_succeeds d st (Hl d (or_introl eq_refl)) Ht)
      as (st1 & E1 & Ht1).
    destruct (IH st1 (fun x Hx => Hl x (or_intror Hx)) Ht1)
      as (st' & E2 & Ht').
    exists st'. split; [|exact Ht'].
    exact (@forEach_cons_ok _ ensure d l st st1 st' E1 E2).
Qed.

Lemma createSubdirectories_succeeds st :
  Fs.lookup P (fs st) = Some (Fs.Dir []) ->
  exists st',
    createSubdirectories_ w files dest st = (Ok tt, st') /\
    forall f, In f files ->
      writable (locate w (Path.join dest (filepath f))) (fs st').
Proof.
  intros He.
  destruct (@forEach_ensure_succeeds (uniqueDirs files) st
              (incl_refl _) (@tidy_empty (fs st) He)) as (st' & H & (H1 & H2 & H3)).
  exists st'. split; [exact H|].
  intros f Hf. rewrite (@place_segments f Hf).
  exists (P ++ directories f)%list, (last (segments f) "").
  split; [rewrite (segments_last f) at 1; now rewrite app_assoc|]. split.
  - destruct (list_eq_dec string_dec (directories f) []) as [E|N].
    + rewrite E, app_nil_r. apply stat_dir. exact H1.
    + destruct (@place_directories f Hf N) as (_ & Hdot & Hp).
      assert (Hin : In (Path.dirname (filepath f)) (uniqueDirs files))
        by (apply uniqueDirs_In; split; [exact Hdot | now exists f]).
      pose proof (@forEach_ensure_ok w dest (uniqueDirs files) st st' H
                    _ Hin) as Hex.
      rewrite Hp in Hex. unfold Fs.exists_ in Hex.
      apply stat_dir.
      destruct (Fs.lookup (P ++ directories f) (fs st')) as [[c|es]|] eqn:El;
        [now destruct (H2 _ _ El) | now exists es | discriminate].
  - intros Hdir. apply stat_dir in Hdir. destruct Hdir as (es & Hl).
    destruct (H3 (segments f) es) as (g & r & Hg & E); [|exact Hl|].
    + rewrite segments_last. now destruct (directories f).
    + exact (@apart f g r Hf Hg E).
Qed.

End SubdirectoriesSucceed.

(** X27.  Lines 267-286.  On a platform without faults, in an empty
    destination, for a listing whose paths are made of names and in which
    no file is on the way to the directory of another,
    [createSubdirectories_] returns, and then every file of the listing can
    be written, at the place its segments lead to from the destination. *)
Theorem X27_subdirectories_succeed w files dest st :
  dest <> "" ->
  (forall e, fault w e = None) ->
  (forall f, In f files -> well_named f) ->
  no_clash files ->
  Fs.readdir (locate w dest) (fs st) = Some [] ->
  exists st',
    createSubdirectories_ w files dest st = (Ok tt, st') /\
    forall f, In f files ->
      writable (locate w (Path.join dest (filepath f))) (fs st') /\
      locate w (Path.join dest (filepath f))
      = (locate w dest ++ segments f)%list.
Proof.
  intros Hd Hf Hn Ha He.
  assert (Hl : Fs.lookup (locate w dest) (fs st) = Some (Fs.Dir [])).
  { unfold Fs.readdir in He.
    destruct (Fs.lookup (locate w dest) (fs st)) as [[c|es]|];
      try discriminate.
    injection He as He. now destruct es. }
  destruct (@createSubdirectories_succeeds w dest files Hd Hf Hn Ha st Hl)
    as (st' & H & Hw).
  exists st'. split; [exact H|]. intros f Hin. split; [exact (Hw f Hin)|].
  exact (@place_segments w dest files Hd Hn f Hin).
Qed.

(** The listing of the sample is made of names, and its files are apart. *)
Lemma sample_well_named f : In f Sample2.files -> well_named f.
Proof.
  intros Hf. vm_compute in Hf.
  destruct Hf as [<-|[<-|[<-|[]]]]; unfold well_named; vm_compute;
    repeat constructor.
Qed.

Lemma sample_no_clash : no_clash Sample2.files.
Proof.
  intros f g rest Hf Hg. vm_compute in Hf, Hg.
  destruct Hf as [<-|[<-|[<-|[]]]]; destruct Hg as [<-|[<-|[<-|[]]]];
    vm_compute; discriminate.
Qed.

(** The sample, from its cleared destination. *)
Lemma X27_subdirectories_succeed_witness :
  let w := Sample.world in
  let files := Sample2.files in
  let st := snd Sample2.run_clear in
  Fs.readdir (locate w "out") (fs st) = Some [] /\
  exists st',
    createSubdirectories_ w files "out" st = (Ok tt, st') /\
    forall f, In f files ->
      writable (locate w (Path.join "out" (filepath f))) (fs st') /\
      locate w (Path.join "out" (filepath f))
      = (locate w "out" ++ segments f)%list.
Proof.
  intros w files st.
  assert (Hd : "out" <> "") by discriminate.
  assert (He : Fs.readdir (locate w "out") (fs st) = Some [])
    by (vm_compute; reflexivity).
  split; [exact He|].
  exact (@X27_subdirectories_succeed w files "out" st Hd (fun e => eq_refl)
           sample_well_named sample_no_clash He).
Defined.



(* ================================================================== *)
(** ** Two more facts: the error of the clearing, the entries of a listing *)
(* ================================================================== *)

(** X29.  Lines 230-241.  When the clearing rejects after the listing
    was read, its error is that of a removal that failed, the one that
    settled first: no other failure settled before it. *)
Theorem X29_clearing_rejects_with_the_first_failure w dirpath st msg st' listing :
  clearDirectory_ w dirpath st = (Throw msg, st') ->
  fault w (Readdir dirpath) = None ->
  Fs.readdir (locate w dirpath) (fs st) = Some listing ->
  let st0 := {| fs := fs st;
                trace := (trace st ++ [LogInfo "Clearing destination directory";
                                       Readdir dirpath])%list;
                fetches := fetches st |} in
  exists outs j,
    run_all (removeItem w dirpath) listing st0 = (outs, st') /\
    nth_error outs j = Some (Throw msg) /\
    forall k msg',
      nth_error outs k = Some (Throw msg') ->
      settle_clear w j < settle_clear w k \/
      (settle_clear w j = settle_clear w k /\ j <= k).
Proof.
  intros H Hf Hl st0. revert H.
  unfold clearDirectory_, bind, log_info, emit, readdir, fs_call.
  cbn [fs trace fetches]. rewrite Hf, Hl. cbn [fs trace fetches].
  rewrite <- app_assoc. cbn [app]. fold st0.
  destruct (run_all (removeItem w dirpath) listing st0) as [outs s1] eqn:Er.
  assert (Hd : died outs = false).
  { eapply run_all_survives; [apply survives_removeItem | exact Er]. }
  unfold Promise_all. rewrite Hd.
  destruct (first_rejection (settle_clear w) 0 outs) as [[t m]|] eqn:E;
    [|discriminate].
  intros H. injection H as <- <-.
  destruct (first_rejection_some _ _ _ E) as (j & Hj & _ & Hmin).
  exists outs, j. split; [reflexivity|]. split; [exact Hj | exact Hmin].
Qed.

(** On the host where [unlink] is not permitted. *)
Lemma X29_clearing_rejects_with_the_first_failure_witness :
  let w := Sample.world_unlink_fails in
  let st := Sample.start in
  let msg := "EPERM: operation not permitted, unlink" in
  let st' := snd Sample2.run_clear_fails in
  let listing := [("old.txt", false); ("stale", true)] in
  let st0 := {| fs := fs st;
                trace := (trace st ++ [LogInfo "Clearing destination directory";
                                       Readdir "out"])%list;
                fetches := fetches st |} in
  clearDirectory_ w "out" st = (Throw msg, st') /\
  exists outs j,
    run_all (removeItem w "out") listing st0 = (outs, st') /\
    nth_error outs j = Some (Throw msg) /\
    forall k msg',
      nth_error outs k = Some (Throw msg') ->
      settle_clear w j < settle_clear w k \/
      (settle_clear w j = settle_clear w k /\ j <= k).
Proof.
  intros w st msg st' listing st0.
  assert (H : clearDirectory_ w "out" st = (Throw msg, st'))
    by (vm_compute; reflexivity).
  assert (Hl : Fs.readdir (locate w "out") (fs st) = Some listing)
    by (vm_compute; reflexivity).
  exact (conj H (@X29_clearing_rejects_with_the_first_failure w "out" st msg
                   st' listing H eq_refl Hl)).
Defined.

Section Entries.

Local Abbreviation no_LF n := (~ In Chars.LF (list_ascii_of_string n)).

Lemma no_LF_snoc cur c : no_LF cur -> c <> Chars.LF -> no_LF (cur ++ String c "").
Proof.
  intros Hc Hn. rewrite list_ascii_app, in_app_iff. cbn.
  intros [H|[H|[]]]; [now apply Hc | now apply Hn].
Qed.

(** No line of a text holds a line feed. *)
Lemma spec_lines_no_LF n : forall s cur,
  String.length s <= n -> no_LF cur ->
  Forall (fun L => no_LF L) (spec_lines_from cur s).
Proof.
  induction n as [|n IH]; intros s cur Hn Hc.
  - destruct s; [now repeat constructor | simpl in Hn; lia].
  - destruct s as [|c s']; [now repeat constructor|].
    cbn [spec_lines_from]. cbn [String.length] in Hn.
    destruct (Ascii.eqb_spec c Chars.LF) as [->|NLF].
    + constructor; [exact Hc|]. apply IH; [lia | now intros []].
    + destruct s' as [|d s''].
      * apply IH; [cbn; lia | now apply no_LF_snoc].
      * destruct (Ascii.eqb c Chars.CR && Ascii.eqb d Chars.LF).
        -- constructor; [exact Hc|]. apply IH; [|now intros []].
           cbn [String.length] in Hn. lia.
        -- apply IH; [lia | now apply no_LF_snoc].
Qed.

End Entries.

(** X30.  Lines 151-160.  No entry of a listing has an empty path, or a
    path with a line feed in it; and the URL of an entry is the base URL
    followed by its path. *)
Theorem X30_entries_of_a_listing base t f :
  In f (parseFilesListing base t) ->
  filepath f <> "" /\
  ~ In Chars.LF (list_ascii_of_string (filepath f)) /\
  url f = base ++ filepath f.
Proof.
  rewrite parseFilesListing_spec. unfold spec_entries, spec_lines.
  rewrite in_map_iff. intros (L & <- & HL). cbn [filepath url].
  apply filter_In in HL. destruct HL as [HL Hne].
  apply negb_true_iff, String.eqb_neq in Hne.
  split; [exact Hne|]. split; [|reflexivity].
  pose proof (@spec_lines_no_LF (String.length t) t "" (le_n _)) as HF.
  rewrite Forall_forall in HF. apply HF; [now intros [] | exact HL].
Qed.

(** The geolocation helper in the listing of the sample. *)
Lemma X30_entries_of_a_listing_witness :
  let base := "https://example.com/rtv/15/" in
  let f := Sample.geo_file in
  In f (parseFilesListing base Sample.manifest) /\
  filepath f <> "" /\
  ~ In Chars.LF (list_ascii_of_string (filepath f)) /\
  url f = base ++ filepath f.
Proof.
  intros base f.
  assert (H : In f (parseFilesListing base Sample.manifest))
    by (vm_compute; tauto).
  exact (conj H (@X30_entries_of_a_listing base Sample.manifest f H)).
Defined.
